(** * Unit converter (unit-converter.js): model and verification

    The program converts numeric values between units of seven measurement
    domains and renders the result as text.  Its numbers are ECMAScript
    Numbers, that is IEEE 754 binary64 values; they are modelled with the
    [spec_float] specification of the Standard Library (precision 53,
    exponent bound 1024), whose operations round to nearest, ties to even.
    The runtime functions the program calls ([parseFloat],
    [Number.prototype.toFixed], [Number.prototype.toExponential],
    [Number.prototype.toLocaleString], [isNaN], [Math.abs]) are modelled from
    ECMA-262 and ECMA-402 on character strings. *)

From Stdlib Require Import ZArith List String Ascii Bool Lia SpecFloat Reals Lra.
Import ListNotations.

Local Open Scope Z_scope.

(** ** Numbers *)

Definition prec : Z := 53.
Definition emax : Z := 1024.

Definition number : Type := spec_float.

Definition NaN : number := S754_nan.
Definition Infinity : number := S754_infinity false.
Definition pos_zero : number := S754_zero false.
Definition neg_zero : number := S754_zero true.

Definition is_nan (x : number) : bool :=
  match x with S754_nan => true | _ => false end.

Definition is_zero (x : number) : bool :=
  match x with S754_zero _ => true | _ => false end.

Definition is_finite (x : number) : bool :=
  match x with S754_zero _ | S754_finite _ _ _ => true | _ => false end.

(** The binary64 values: finite numbers carry a canonical mantissa and an
    exponent in range. *)
Definition wf (x : number) : bool := valid_binary prec emax x.

Definition mul : number -> number -> number := SFmul prec emax.
Definition div : number -> number -> number := SFdiv prec emax.
Definition add : number -> number -> number := SFadd prec emax.
Definition sub : number -> number -> number := SFsub prec emax.
Definition abs : number -> number := SFabs.
Definition ltb : number -> number -> bool := SFltb.
Definition strict_eqb : number -> number -> bool := SFeqb.

Declare Scope num_scope.
Delimit Scope num_scope with num.
Bind Scope num_scope with number.
Infix "*" := mul : num_scope.
Infix "/" := div : num_scope.
Infix "+" := add : num_scope.
Infix "-" := sub : num_scope.
Infix "<?" := ltb : num_scope.
Infix "===" := strict_eqb (at level 70, no associativity) : num_scope.

(** The Number value of the non-negative rational [p / q]: the nearest
    binary64 value, ties to even, with the sign [s].  A zero numerator gives
    the zero of that sign. *)
Definition round_to_number (s : bool) (p q : Z) : number :=
  match p, q with
  | Zpos p', Zpos q' =>
      SFdiv prec emax (S754_finite s p' 0) (S754_finite false q' 0)
  | _, _ => S754_zero s
  end.

(** The Number value of [m * 10 ^ e], for [m >= 0]. *)
Definition number_of_decimal (s : bool) (m e : Z) : number :=
  if 0 <=? e then round_to_number s (m * 10 ^ e) 1
  else round_to_number s m (10 ^ (- e)).

(** A decimal literal of the source text, such as [0.0254]: digits [m]
    scaled by [10 ^ e]. *)
Definition lit (m e : Z) : number := number_of_decimal false m e.

(** The exact value of a finite number's magnitude as a fraction
    [(p, q)], [q > 0]. *)
Definition magnitude (m : positive) (e : Z) : Z * Z :=
  if 0 <=? e then (Zpos m * 2 ^ e, 1) else (Zpos m, 2 ^ (- e)).

(** [floor (p / q * 10 ^ f + 1 / 2)]: the integer [n] for which
    [n / 10 ^ f - p / q] is as close to zero as possible, the larger one
    when there are two. *)
Definition round_half_up (pq : Z * Z) (f : Z) : Z :=
  let '(p, q) := pq in (2 * p * 10 ^ f + q) / (2 * q).

(** [10 ^ k <= p / q]. *)
Definition ge_pow10 (pq : Z * Z) (k : Z) : bool :=
  let '(p, q) := pq in 10 ^ k * q <=? p.

Definition number_same (x y : number) : bool :=
  match x, y with
  | S754_nan, S754_nan => true
  | S754_zero a, S754_zero b => Bool.eqb a b
  | S754_infinity a, S754_infinity b => Bool.eqb a b
  | S754_finite a m e, S754_finite b m' e' =>
      Bool.eqb a b && Pos.eqb m m' && Z.eqb e e'
  | _, _ => false
  end.

(** ** Decimal digit strings *)

Definition digit_char (d : Z) : ascii := ascii_of_N (Z.to_N (48 + d)).

Definition code (c : ascii) : Z := Z.of_N (N_of_ascii c).

Definition is_digit (c : ascii) : bool := (48 <=? code c) && (code c <=? 57).

Definition digit_val (c : ascii) : Z := code c - 48.

Fixpoint digits_fuel (fuel : nat) (n : Z) (acc : list ascii) : list ascii :=
  match fuel with
  | O => acc
  | S k =>
      let acc' := digit_char (n mod 10) :: acc in
      if n / 10 =? 0 then acc' else digits_fuel k (n / 10) acc'
  end.

(** The decimal digits of [n >= 0], most significant first; ["0"] for 0. *)
Definition digits_of (n : Z) : list ascii :=
  digits_fuel (S (Z.to_nat (Z.log2 n))) n [].

Definition value_of_digits (ds : list ascii) : Z :=
  fold_left (fun a c => 10 * a + digit_val c) ds 0.

Fixpoint span_digits (cs : list ascii) : list ascii * list ascii :=
  match cs with
  | c :: r =>
      if is_digit c
      then let '(ds, rest) := span_digits r in (c :: ds, rest)
      else ([], cs)
  | [] => ([], [])
  end.

Fixpoint starts_with (p cs : list ascii) : bool :=
  match p, cs with
  | [], _ => true
  | a :: p', c :: cs' => Ascii.eqb a c && starts_with p' cs'
  | _ :: _, [] => false
  end.

Fixpoint drop_zeros (cs : list ascii) : list ascii :=
  match cs with
  | c :: r => if Ascii.eqb c "0" then drop_zeros r else cs
  | [] => []
  end.

Definition strip_trailing_zeros (ds : list ascii) : list ascii :=
  rev (drop_zeros (rev ds)).

(** ** Runtime functions on strings *)

(** *** parseFloat (ECMA-262, 19.2.4)

    Leading white space is skipped, the longest prefix that is a
    [StrDecimalLiteral] is read, and its mathematical value is rounded to
    the nearest Number; without such a prefix the result is [NaN]. *)

Definition is_white_space (c : ascii) : bool :=
  ((9 <=? code c) && (code c <=? 13)) || (code c =? 32) || (code c =? 160).

Fixpoint skip_white_space (cs : list ascii) : list ascii :=
  match cs with
  | c :: r => if is_white_space c then skip_white_space r else cs
  | [] => []
  end.

Definition read_sign (cs : list ascii) : bool * list ascii :=
  match cs with
  | c :: r =>
      if Ascii.eqb c "-" then (true, r)
      else if Ascii.eqb c "+" then (false, r)
      else (false, cs)
  | [] => (false, [])
  end.

(** The value of an [ExponentPart] at the head of [cs], 0 when there is
    none. *)
Definition exponent_part (cs : list ascii) : Z :=
  match cs with
  | c :: r =>
      if Ascii.eqb c "e" || Ascii.eqb c "E" then
        let '(neg, r') := read_sign r in
        let '(ds, _) := span_digits r' in
        match ds with
        | [] => 0
        | _ => if neg then - value_of_digits ds else value_of_digits ds
        end
      else 0
  | [] => 0
  end.

Definition parse_decimal (cs : list ascii) : number :=
  let '(neg, cs1) := read_sign cs in
  if starts_with (list_ascii_of_string "Infinity") cs1 then S754_infinity neg
  else
    let '(ip, r1) := span_digits cs1 in
    let '(fp, r2) :=
      match r1 with
      | c :: r => if Ascii.eqb c "." then span_digits r else ([], r1)
      | [] => ([], r1)
      end in
    match ip ++ fp with
    | [] => NaN
    | ds =>
        number_of_decimal neg (value_of_digits ds)
          (exponent_part r2 - Z.of_nat (List.length fp))
    end.

Definition parseFloat (s : string) : number :=
  parse_decimal (skip_white_space (list_ascii_of_string s)).

(** *** Number::toString for large values (ECMA-262, 6.1.6.1.20)

    For a finite [x >= 10 ^ 21] the result is [d.ddd e+N] with the fewest
    digits [s] such that [s * 10 ^ (n - k)] has Number value [x].  Up to 17
    digits are tried; among two candidates of one length the closer one is
    taken, the even one on a tie.  Should none be found, the exact digits of
    [x] are printed. *)

Definition exponent_form (ds : list ascii) (e10 : Z) : list ascii :=
  let s := strip_trailing_zeros ds in
  let n1 := e10 + Z.of_nat (List.length ds) - 1 in
  let mantissa :=
    match s with
    | d :: (_ :: _) as r => d :: "."%char :: r
    | _ => s
    end in
  mantissa ++ "e"%char :: "+"%char :: digits_of n1.

Definition shortest_candidate (x : number) (pq : Z * Z) (scale : Z) : option Z :=
  let '(p, q) := pq in
  let lo := p / (q * scale) in
  let hi := lo + 1 in
  let ok c := number_same (round_to_number false (c * scale) 1) x in
  match ok lo, ok hi with
  | true, true =>
      match 2 * p ?= (lo + hi) * (q * scale) with
      | Lt => Some lo
      | Gt => Some hi
      | Eq => Some (if Z.even lo then lo else hi)
      end
  | true, false => Some lo
  | false, true => Some hi
  | false, false => None
  end.

Fixpoint shortest_search (fuel : nat) (x : number) (pq : Z * Z) (D k : Z)
  : option (Z * Z) :=
  match fuel with
  | O => None
  | S fuel' =>
      match shortest_candidate x pq (10 ^ (D - k)) with
      | Some c => Some (c, D - k)
      | None => shortest_search fuel' x pq D (k + 1)
      end
  end.

Definition to_string_large (m : positive) (e : Z) : list ascii :=
  let pq := magnitude m e in
  let i := fst pq / snd pq in
  let D := Z.of_nat (List.length (digits_of i)) in
  match shortest_search 17 (S754_finite false m e) pq D 1 with
  | Some (c, e10) => exponent_form (digits_of c) e10
  | None => exponent_form (digits_of i) 0
  end.

(** *** Number.prototype.toFixed (ECMA-262, 21.1.3.3) *)

Definition fixed_digits (n : Z) (f : nat) : list ascii :=
  let m := digits_of n in
  match f with
  | O => m
  | _ =>
      let m := repeat "0"%char (f + 1 - List.length m)%nat ++ m in
      let k := List.length m in
      firstn (k - f)%nat m ++ "."%char :: skipn (k - f)%nat m
  end.

Definition toFixed (x : number) (fractionDigits : nat) : string :=
  match x with
  | S754_nan => "NaN"
  | S754_infinity s => if s then "-Infinity" else "Infinity"
  | S754_zero _ => string_of_list_ascii (fixed_digits 0 fractionDigits)
  | S754_finite s m e =>
      let x := magnitude m e in
      string_of_list_ascii
        ((if s then ["-"%char] else []) ++
         (if ge_pow10 x 21 then to_string_large m e
          else fixed_digits (round_half_up x (Z.of_nat fractionDigits))
                 fractionDigits))
  end.

(** *** Number.prototype.toExponential (ECMA-262, 21.1.3.2) *)

(** [10 ^ k <= p / q] for an exponent [k] of either sign. *)
Definition ge_pow10_signed (pq : Z * Z) (k : Z) : bool :=
  let '(p, q) := pq in
  if 0 <=? k then 10 ^ k * q <=? p else q <=? p * 10 ^ (- k).

(** The integer [e] with [10 ^ e <= p / q < 10 ^ (e + 1)], for [p, q > 0]. *)
Definition floor_log10 (pq : Z * Z) : Z :=
  let '(p, q) := pq in
  let est :=
    Z.of_nat (List.length (digits_of p)) - Z.of_nat (List.length (digits_of q)) in
  if ge_pow10_signed pq est then est else est - 1.

(** [p / q * 10 ^ k] as a fraction. *)
Definition scale10 (pq : Z * Z) (k : Z) : Z * Z :=
  let '(p, q) := pq in
  if 0 <=? k then (p * 10 ^ k, q) else (p, q * 10 ^ (- k)).

(** The integers [n] and [e] with [10 ^ f <= n < 10 ^ (f + 1)] for which
    [n * 10 ^ (e - f)] is closest to [p / q], the larger value on a tie. *)
Definition exponential_parts (pq : Z * Z) (f : Z) : Z * Z :=
  let e0 := floor_log10 pq in
  let n := round_half_up (scale10 pq (f - e0)) 0 in
  if n =? 10 ^ (f + 1) then (10 ^ f, e0 + 1) else (n, e0).

Definition exponential_digits (n e : Z) (f : nat) : list ascii :=
  let m := digits_of n in
  let m :=
    match f with
    | O => m
    | _ => firstn 1 m ++ "."%char :: skipn 1 m
    end in
  m ++ "e"%char :: (if 0 <=? e then "+"%char else "-"%char) :: digits_of (Z.abs e).

Definition toExponential (x : number) (fractionDigits : nat) : string :=
  match x with
  | S754_nan => "NaN"
  | S754_infinity s => if s then "-Infinity" else "Infinity"
  | S754_zero _ =>
      string_of_list_ascii
        (match fractionDigits with
         | O => ["0"%char]
         | _ => "0"%char :: "."%char :: repeat "0"%char fractionDigits
         end ++ list_ascii_of_string "e+0")
  | S754_finite s m e =>
      let '(n, e10) :=
        exponential_parts (magnitude m e) (Z.of_nat fractionDigits) in
      string_of_list_ascii
        ((if s then ["-"%char] else []) ++
         exponential_digits n e10 fractionDigits)
  end.

(** *** Number.prototype.toLocaleString, locale en-US (ECMA-402)

    The number formatter of the engine (ICU) starts from the shortest
    decimal of the Number, the digits [Number::toString] prints, not from
    its exact binary value: [1.0000015] is taken as that decimal, although
    the binary64 value lies just below it.  This decimal is rounded to at
    most [maximumFractionDigits] fractional digits, ties away from zero;
    trailing zeros of the fraction are dropped down to
    [minimumFractionDigits]; the integer digits are grouped by three with
    [","], the decimal separator is ["."], a negative value starts with
    ["-"]. *)

(** The candidate [c] for which [c * 10 ^ e10] has the Number value [x],
    among the two integers next to [p / q / 10 ^ e10]: the closer one when
    both qualify, the even one on a tie. *)
Definition decimal_candidate (x : number) (pq : Z * Z) (e10 : Z) : option Z :=
  let '(p, q) := scale10 pq (- e10) in
  let lo := p / q in
  let hi := lo + 1 in
  let ok c := number_same (number_of_decimal false c e10) x in
  match ok lo, ok hi with
  | true, true =>
      match 2 * p ?= (lo + hi) * q with
      | Lt => Some lo
      | Gt => Some hi
      | Eq => Some (if Z.even lo then lo else hi)
      end
  | true, false => Some lo
  | false, true => Some hi
  | false, false => None
  end.

Fixpoint shortest_decimal_search (fuel : nat) (x : number) (pq : Z * Z) (e10 : Z)
  : option (Z * Z) :=
  match fuel with
  | O => None
  | S fuel' =>
      match decimal_candidate x pq e10 with
      | Some c => Some (c, e10)
      | None => shortest_decimal_search fuel' x pq (e10 - 1)
      end
  end.

(** The shortest decimal [c * 10 ^ e10] of the finite number with
    magnitude [m * 2 ^ e]: one digit is tried first, then two, up to 17,
    which always suffice for a binary64 value; should none be found, the
    value rounded to 17 digits is taken. *)
Definition shortest_decimal (m : positive) (e : Z) : Z * Z :=
  let pq := magnitude m e in
  let e0 := floor_log10 pq in
  match shortest_decimal_search 17 (S754_finite false m e) pq e0 with
  | Some ce => ce
  | None => (round_half_up (scale10 pq (16 - e0)) 0, e0 - 16)
  end.

(** The shortest decimal as a fraction. *)
Definition shortest_fraction (m : positive) (e : Z) : Z * Z :=
  let '(c, e10) := shortest_decimal m e in scale10 (c, 1) e10.

Fixpoint group_thousands (ds : list ascii) : list ascii :=
  match ds with
  | [] => []
  | c :: r =>
      if (0 <? List.length r)%nat && (List.length r mod 3 =? 0)%nat
      then c :: ","%char :: group_thousands r
      else c :: group_thousands r
  end.

Fixpoint drop_zeros_upto (k : nat) (cs : list ascii) : list ascii :=
  match k, cs with
  | S k', c :: r => if Ascii.eqb c "0" then drop_zeros_upto k' r else cs
  | _, _ => cs
  end.

Definition locale_digits (n : Z) (maxfd minfd : nat) : list ascii :=
  let m := digits_of n in
  let m := repeat "0"%char (maxfd + 1 - List.length m)%nat ++ m in
  let k := List.length m in
  let int := firstn (k - maxfd)%nat m in
  let frac := rev (drop_zeros_upto (maxfd - minfd)%nat (rev (skipn (k - maxfd)%nat m))) in
  group_thousands int ++
  match frac with
  | [] => []
  | _ => "."%char :: frac
  end.

Definition infinity_sign : list ascii :=
  [ascii_of_nat 226; ascii_of_nat 136; ascii_of_nat 158].

Definition toLocaleString (x : number) (maximumFractionDigits minimumFractionDigits : nat)
  : string :=
  match x with
  | S754_nan => "NaN"
  | S754_infinity s =>
      string_of_list_ascii ((if s then ["-"%char] else []) ++ infinity_sign)
  | S754_zero s =>
      string_of_list_ascii
        ((if s then ["-"%char] else []) ++
         locale_digits 0 maximumFractionDigits minimumFractionDigits)
  | S754_finite s m e =>
      string_of_list_ascii
        ((if s then ["-"%char] else []) ++
         locale_digits
           (round_half_up (shortest_fraction m e)
              (Z.of_nat maximumFractionDigits))
           maximumFractionDigits minimumFractionDigits)
  end.

(** ** Values, coercions and property lookup *)

(** The values that flow through the converters: [undefined], Numbers, and
    the objects found on [Object.prototype] (functions and the prototype
    itself), whose only use here is their coercion to a Number. *)
Inductive jsval : Type :=
| JUndefined
| JNum (x : number)
| JObject.

(** ToNumber; the members of [Object.prototype] have no numeric primitive
    value, their string form is not a numeric literal. *)
Definition ToNumber (v : jsval) : number :=
  match v with
  | JNum x => x
  | JUndefined => NaN
  | JObject => NaN
  end.

(** ToBoolean. *)
Definition truthy (v : jsval) : bool :=
  match v with
  | JUndefined => false
  | JNum x => negb (is_zero x || is_nan x)
  | JObject => true
  end.

(** The global function [isNaN]. *)
Definition isNaN (v : jsval) : bool := is_nan (ToNumber v).

Definition object_prototype_keys : list string :=
  [ "constructor"; "__defineGetter__"; "__defineSetter__"; "hasOwnProperty";
    "__lookupGetter__"; "__lookupSetter__"; "isPrototypeOf";
    "propertyIsEnumerable"; "toString"; "valueOf"; "__proto__";
    "toLocaleString" ]%string.

Fixpoint own_property (table : list (string * number)) (key : string)
  : option number :=
  match table with
  | [] => None
  | (k, v) :: rest => if String.eqb k key then Some v else own_property rest key
  end.

(** [table[key]] on an object literal: its own property, else what the
    prototype chain gives. *)
Definition get_property (table : list (string * number)) (key : string) : jsval :=
  match own_property table key with
  | Some v => JNum v
  | None =>
      if existsb (String.eqb key) object_prototype_keys then JObject
      else JUndefined
  end.

(** ** The program *)

(** *** Conversion factors *)

Inductive domain : Type :=
| Length | Weight | Volume | Speed | Area | Pressure | Temperature.

Module conversionFactors.

Definition length : list (string * number) :=
  [ ("mm", lit 1 (-3)); ("cm", lit 1 (-2)); ("m", lit 1 0); ("km", lit 1000 0);
    ("inch", lit 254 (-4)); ("foot", lit 3048 (-4)); ("yard", lit 9144 (-4));
    ("mile", lit 1609344 (-3)) ]%string.

Definition weight : list (string * number) :=
  [ ("mg", lit 1 (-6)); ("g", lit 1 (-3)); ("kg", lit 1 0);
    ("oz", lit 283495 (-7)); ("lb", lit 453592 (-6)); ("ton", lit 1000 0) ]%string.

Definition volume : list (string * number) :=
  [ ("ml", lit 1 (-3)); ("liter", lit 1 0); ("gallon", lit 378541 (-5));
    ("quart", lit 946353 (-6)); ("pint", lit 473176 (-6));
    ("cup", lit 236588 (-6)); ("fl_oz", lit 295735 (-7));
    ("tbsp", lit 147868 (-7)); ("tsp", lit 492892 (-8)) ]%string.

Definition speed : list (string * number) :=
  [ ("ms", lit 1 0); ("kmh", lit 36 (-1)); ("mph", lit 223694 (-5));
    ("knots", lit 194384 (-5)) ]%string.

Definition area : list (string * number) :=
  [ ("mm2", lit 1 (-6)); ("cm2", lit 1 (-4)); ("m2", lit 1 0);
    ("km2", lit 1000000 0); ("acre", lit 404686 (-2));
    ("hectare", lit 10000 0) ]%string.

Definition pressure : list (string * number) :=
  [ ("pa", lit 1 0); ("bar", lit 100000 0); ("atm", lit 101325 0);
    ("psi", lit 689476 (-2)) ]%string.

End conversionFactors.

(** *** Registry reads

    A converter's run yields its result together with the registry reads it
    made, in order. *)

Definition read : Type := (domain * string)%type.

Definition M (A : Type) : Type := (A * list read)%type.

Definition ret {A : Type} (a : A) : M A := (a, []).

Definition bind {A B : Type} (c : M A) (k : A -> M B) : M B :=
  let '(a, r1) := c in
  let '(b, r2) := k a in
  (b, r1 ++ r2).

Notation "x <- c ;; k" := (bind c (fun x => k))
  (at level 61, c at next level, right associativity).

Definition result {A : Type} (c : M A) : A := fst c.
Definition reads {A : Type} (c : M A) : list read := snd c.

Definition table (d : domain) : list (string * number) :=
  match d with
  | Length => conversionFactors.length
  | Weight => conversionFactors.weight
  | Volume => conversionFactors.volume
  | Speed => conversionFactors.speed
  | Area => conversionFactors.area
  | Pressure => conversionFactors.pressure
  | Temperature => []
  end.

(** [conversionFactors.d[key]] *)
Definition factor (d : domain) (key : string) : M jsval :=
  (get_property (table d) key, [(d, key)]).

(** *** Conversion functions *)

Definition convertLength (value : jsval) (fromUnit toUnit : string) : M number :=
  if negb (truthy value) || isNaN value then ret pos_zero
  else
    f <- factor Length fromUnit ;;
    let valueInMeters := (ToNumber value * ToNumber f)%num in
    t <- factor Length toUnit ;;
    let result := (valueInMeters / ToNumber t)%num in
    ret (parseFloat (toFixed result 10)).

Definition convertWeight (value : jsval) (fromUnit toUnit : string) : M number :=
  if negb (truthy value) || isNaN value then ret pos_zero
  else
    f <- factor Weight fromUnit ;;
    let valueInKg := (ToNumber value * ToNumber f)%num in
    t <- factor Weight toUnit ;;
    let result := (valueInKg / ToNumber t)%num in
    ret (parseFloat (toFixed result 10)).

Definition convertVolume (value : jsval) (fromUnit toUnit : string) : M number :=
  if negb (truthy value) || isNaN value then ret pos_zero
  else
    f <- factor Volume fromUnit ;;
    let valueInLiters := (ToNumber value * ToNumber f)%num in
    t <- factor Volume toUnit ;;
    let result := (valueInLiters / ToNumber t)%num in
    ret (parseFloat (toFixed result 10)).

Definition convertSpeed (value : jsval) (fromUnit toUnit : string) : M number :=
  if negb (truthy value) || isNaN value then ret pos_zero
  else
    f <- factor Speed fromUnit ;;
    let valueInMs := (ToNumber value / ToNumber f)%num in
    t <- factor Speed toUnit ;;
    let result := (valueInMs * ToNumber t)%num in
    ret (parseFloat (toFixed result 10)).

Definition convertArea (value : jsval) (fromUnit toUnit : string) : M number :=
  if negb (truthy value) || isNaN value then ret pos_zero
  else
    f <- factor Area fromUnit ;;
    let valueInM2 := (ToNumber value * ToNumber f)%num in
    t <- factor Area toUnit ;;
    let result := (valueInM2 / ToNumber t)%num in
    ret (parseFloat (toFixed result 10)).

Definition convertPressure (value : jsval) (fromUnit toUnit : string) : M number :=
  if negb (truthy value) || isNaN value then ret pos_zero
  else
    f <- factor Pressure fromUnit ;;
    let valueInPa := (ToNumber value * ToNumber f)%num in
    t <- factor Pressure toUnit ;;
    let result := (valueInPa / ToNumber t)%num in
    ret (parseFloat (toFixed result 10)).

Definition to_celsius (value : number) (fromUnit : string) : number :=
  if String.eqb fromUnit "celsius" then value
  else if String.eqb fromUnit "fahrenheit"
       then ((value - lit 32 0) * (lit 5 0 / lit 9 0))%num
  else if String.eqb fromUnit "kelvin" then (value - lit 27315 (-2))%num
  else value.

Definition from_celsius (celsius : number) (toUnit : string) : number :=
  if String.eqb toUnit "celsius" then celsius
  else if String.eqb toUnit "fahrenheit"
       then (celsius * (lit 9 0 / lit 5 0) + lit 32 0)%num
  else if String.eqb toUnit "kelvin" then (celsius + lit 27315 (-2))%num
  else celsius.

Definition convertTemperature (value : jsval) (fromUnit toUnit : string) : M number :=
  if isNaN value then ret pos_zero
  else
    let celsius := to_celsius (ToNumber value) fromUnit in
    let result := from_celsius celsius toUnit in
    ret (parseFloat (toFixed result 4)).

(** *** Output formatting *)

Definition formatNumber (num : number) : string :=
  if (num === lit 0 0)%num then "0"
  else if (abs num <? lit 1 (-4))%num || (lit 1000000 0 <? abs num)%num
       then toExponential num 6
  else toLocaleString num 6 0.

(** *** The converter of a domain *)

Definition run (d : domain) (value : jsval) (fromUnit toUnit : string) : M number :=
  match d with
  | Length => convertLength value fromUnit toUnit
  | Weight => convertWeight value fromUnit toUnit
  | Volume => convertVolume value fromUnit toUnit
  | Speed => convertSpeed value fromUnit toUnit
  | Area => convertArea value fromUnit toUnit
  | Pressure => convertPressure value fromUnit toUnit
  | Temperature => convertTemperature value fromUnit toUnit
  end.

Definition convert (d : domain) (value : jsval) (fromUnit toUnit : string) : number :=
  result (run d value fromUnit toUnit).

(** ** The page

    The script works on the document of the page: it looks controls up by
    id, reads and writes their values, toggles the class [active] on links
    and sections, and registers event listeners.  An element carries what
    the script reads and writes of it, and its place in the tree, which
    decides where an event dispatched at it goes.  Strings hold code units
    below 256. *)

Module Element.

Record t : Type := make {
  id : string;                  (* the id attribute, empty when there is none *)
  classList : list string;      (* the tokens of the class attribute *)
  value : string;               (* the value of a form control *)
  category : option string;     (* dataset.category *)
  parent : option nat           (* the position of the parent element *)
}.

Definition with_value (s : string) (e : t) : t :=
  make (id e) (classList e) s (category e) (parent e).

Definition with_classList (f : list string -> list string) (e : t) : t :=
  make (id e) (f (classList e)) (value e) (category e) (parent e).

End Element.

(** The token set behind [classList] (DOM, 7.1). *)
Module DOMTokenList.

Definition contains (token : string) (tokens : list string) : bool :=
  existsb (String.eqb token) tokens.

Definition add (token : string) (tokens : list string) : list string :=
  if contains token tokens then tokens else tokens ++ [token].

Definition remove (token : string) (tokens : list string) : list string :=
  filter (fun t => negb (String.eqb t token)) tokens.

End DOMTokenList.

(** The elements of a document in tree order; a node is named by its
    position, and the parent of an element stands before it. *)
Definition document : Type := list Element.t.

Definition node : Type := nat.

Fixpoint find_first (p : Element.t -> bool) (doc : document) : option node :=
  match doc with
  | [] => None
  | e :: rest => if p e then Some O else option_map S (find_first p rest)
  end.

Fixpoint find_all (p : Element.t -> bool) (doc : document) : list node :=
  match doc with
  | [] => []
  | e :: rest => (if p e then [O] else []) ++ map S (find_all p rest)
  end.

(** The first element in tree order with the given id, or null; no element
    has the empty id. *)
Definition getElementById (doc : document) (elementId : string) : option node :=
  if String.eqb elementId "" then None
  else find_first (fun e => String.eqb (Element.id e) elementId) doc.

(** [querySelectorAll] for a class selector [".name"], the only kind of
    selector the script uses: a static list, in tree order. *)
Definition querySelectorAll (doc : document) (selectors : string) : list node :=
  match selectors with
  | String "." name =>
      find_all (fun e => DOMTokenList.contains name (Element.classList e)) doc
  | _ => []
  end.

Fixpoint modify (n : node) (f : Element.t -> Element.t) (doc : document) : document :=
  match doc, n with
  | [], _ => []
  | e :: rest, O => f e :: rest
  | e :: rest, S n' => e :: modify n' f rest
  end.

(** *** Events and the state of the page *)

Inductive event_target : Type :=
| Node (n : node)
| Document.

(** The functions the script registers as listeners. *)
Inductive callback : Type :=
| Update (d : domain)
| NavClick (link : node)
| ContentLoaded.

Record listener : Type := {
  target : event_target;
  type : string;
  callback_of : callback
}.

(** The document, the registered listeners, the console output and the
    canceled flag of the event being dispatched. *)
Record world : Type := {
  dom : document;
  listeners : list listener;
  console : list string;
  canceled : bool
}.

Definition with_dom (doc : document) (w : world) : world :=
  {| dom := doc; listeners := listeners w; console := console w;
     canceled := canceled w |}.

(** A piece of script: it returns or throws a [TypeError], and changes the
    state; the changes made before a throw stay. *)
Inductive outcome (A : Type) : Type :=
| Done (a : A)
| TypeError.

Arguments Done {A} a.
Arguments TypeError {A}.

Definition js (A : Type) : Type := world -> outcome A * world.

Definition done {A : Type} (a : A) : js A := fun w => (Done a, w).

Definition and_then {A B : Type} (c : js A) (k : A -> js B) : js B :=
  fun w =>
    match c w with
    | (Done a, w') => k a w'
    | (TypeError, w') => (TypeError, w')
    end.

Declare Scope js_scope.
Delimit Scope js_scope with js.
Notation "x <-- c ;; k" := (and_then c (fun x => k))
  (at level 61, c at next level, right associativity) : js_scope.
Notation "c ;;; k" := (and_then c (fun _ => k))
  (at level 61, right associativity) : js_scope.

Fixpoint forEach {A : Type} (l : list A) (f : A -> js unit) : js unit :=
  match l with
  | [] => done tt
  | x :: rest => (f x ;;; forEach rest f)%js
  end.

(** Property access on a reference that may be null. *)
Definition element_at (r : option node) : js Element.t :=
  fun w =>
    match r with
    | Some n =>
        match nth_error (dom w) n with
        | Some e => (Done e, w)
        | None => (TypeError, w)
        end
    | None => (TypeError, w)
    end.

Definition get_value (r : option node) : js string :=
  (e <-- element_at r ;; done (Element.value e))%js.

Definition set_at (r : option node) (f : Element.t -> Element.t) : js unit :=
  (_ <-- element_at r ;;
   fun w =>
     match r with
     | Some n => (Done tt, with_dom (modify n f (dom w)) w)
     | None => (TypeError, w)
     end)%js.

Definition set_value (r : option node) (s : string) : js unit :=
  set_at r (Element.with_value s).

Definition classList_add (n : node) (token : string) : js unit :=
  set_at (Some n) (Element.with_classList (DOMTokenList.add token)).

Definition classList_remove (n : node) (token : string) : js unit :=
  set_at (Some n) (Element.with_classList (DOMTokenList.remove token)).

Definition get_category (n : node) : js (option string) :=
  (e <-- element_at (Some n) ;; done (Element.category e))%js.

Definition addEventListener (r : option node) (type : string) (c : callback)
  : js unit :=
  (_ <-- element_at r ;;
   fun w =>
     match r with
     | Some n =>
         (Done tt,
          {| dom := dom w;
             listeners := listeners w ++ [Build_listener (Node n) type c];
             console := console w; canceled := canceled w |})
     | None => (TypeError, w)
     end)%js.

Definition document_addEventListener (type : string) (c : callback) : js unit :=
  fun w =>
    (Done tt,
     {| dom := dom w;
        listeners := listeners w ++ [Build_listener Document type c];
        console := console w; canceled := canceled w |}).

Definition console_log (s : string) : js unit :=
  fun w =>
    (Done tt,
     {| dom := dom w; listeners := listeners w;
        console := console w ++ [s]; canceled := canceled w |}).

Definition preventDefault : js unit :=
  fun w =>
    (Done tt,
     {| dom := dom w; listeners := listeners w; console := console w;
        canceled := true |}).

(** [document.getElementById] on the current document. *)
Definition lookup (elementId : string) : js (option node) :=
  fun w => (Done (getElementById (dom w) elementId), w).

(** ToString of a value that is a string or [undefined]. *)
Definition string_or_undefined (s : option string) : string :=
  match s with
  | Some s => s
  | None => "undefined"
  end.

(** [a || b] on Numbers. *)
Definition or_else (a b : number) : number :=
  if truthy (JNum a) then a else b.

(** *** The script *)

Section Script.

(** The document as it is when the script is evaluated. *)
Variable page : document.

Definition lengthInput : option node := getElementById page "length-input".
Definition lengthFromUnit : option node := getElementById page "length-from-unit".
Definition lengthToUnit : option node := getElementById page "length-to-unit".
Definition lengthResult : option node := getElementById page "length-result".

Definition updateLengthConversion : js unit :=
  (s <-- get_value lengthInput ;;
   let value := or_else (parseFloat s) (lit 0 0) in
   fromUnit <-- get_value lengthFromUnit ;;
   toUnit <-- get_value lengthToUnit ;;
   let result := fst (convertLength (JNum value) fromUnit toUnit) in
   set_value lengthResult (formatNumber result))%js.

Definition weightInput : option node := getElementById page "weight-input".
Definition weightFromUnit : option node := getElementById page "weight-from-unit".
Definition weightToUnit : option node := getElementById page "weight-to-unit".
Definition weightResult : option node := getElementById page "weight-result".

Definition updateWeightConversion : js unit :=
  (s <-- get_value weightInput ;;
   let value := or_else (parseFloat s) (lit 0 0) in
   fromUnit <-- get_value weightFromUnit ;;
   toUnit <-- get_value weightToUnit ;;
   let result := fst (convertWeight (JNum value) fromUnit toUnit) in
   set_value weightResult (formatNumber result))%js.

Definition volumeInput : option node := getElementById page "volume-input".
Definition volumeFromUnit : option node := getElementById page "volume-from-unit".
Definition volumeToUnit : option node := getElementById page "volume-to-unit".
Definition volumeResult : option node := getElementById page "volume-result".

Definition updateVolumeConversion : js unit :=
  (s <-- get_value volumeInput ;;
   let value := or_else (parseFloat s) (lit 0 0) in
   fromUnit <-- get_value volumeFromUnit ;;
   toUnit <-- get_value volumeToUnit ;;
   let result := fst (convertVolume (JNum value) fromUnit toUnit) in
   set_value volumeResult (formatNumber result))%js.

Definition speedInput : option node := getElementById page "speed-input".
Definition speedFromUnit : option node := getElementById page "speed-from-unit".
Definition speedToUnit : option node := getElementById page "speed-to-unit".
Definition speedResult : option node := getElementById page "speed-result".

Definition updateSpeedConversion : js unit :=
  (s <-- get_value speedInput ;;
   let value := or_else (parseFloat s) (lit 0 0) in
   fromUnit <-- get_value speedFromUnit ;;
   toUnit <-- get_value speedToUnit ;;
   let result := fst (convertSpeed (JNum value) fromUnit toUnit) in
   set_value speedResult (formatNumber result))%js.

Definition areaInput : option node := getElementById page "area-input".
Definition areaFromUnit : option node := getElementById page "area-from-unit".
Definition areaToUnit : option node := getElementById page "area-to-unit".
Definition areaResult : option node := getElementById page "area-result".

Definition updateAreaConversion : js unit :=
  (s <-- get_value areaInput ;;
   let value := or_else (parseFloat s) (lit 0 0) in
   fromUnit <-- get_value areaFromUnit ;;
   toUnit <-- get_value areaToUnit ;;
   let result := fst (convertArea (JNum value) fromUnit toUnit) in
   set_value areaResult (formatNumber result))%js.

Definition pressureInput : option node := getElementById page "pressure-input".
Definition pressureFromUnit : option node := getElementById page "pressure-from-unit".
Definition pressureToUnit : option node := getElementById page "pressure-to-unit".
Definition pressureResult : option node := getElementById page "pressure-result".

Definition updatePressureConversion : js unit :=
  (s <-- get_value pressureInput ;;
   let value := or_else (parseFloat s) (lit 0 0) in
   fromUnit <-- get_value pressureFromUnit ;;
   toUnit <-- get_value pressureToUnit ;;
   let result := fst (convertPressure (JNum value) fromUnit toUnit) in
   set_value pressureResult (formatNumber result))%js.

Definition tempInput : option node := getElementById page "temp-input".
Definition tempFromUnit : option node := getElementById page "temp-from-unit".
Definition tempToUnit : option node := getElementById page "temp-to-unit".
Definition tempResult : option node := getElementById page "temp-result".

Definition updateTemperatureConversion : js unit :=
  (s <-- get_value tempInput ;;
   let value := or_else (parseFloat s) (lit 0 0) in
   fromUnit <-- get_value tempFromUnit ;;
   toUnit <-- get_value tempToUnit ;;
   let result := fst (convertTemperature (JNum value) fromUnit toUnit) in
   set_value tempResult (formatNumber result))%js.

(** Navigation *)

Definition navLinks : list node := querySelectorAll page ".nav-link".
Definition converterSections : list node :=
  querySelectorAll page ".converter-section".

Definition nav_click (link : node) : js unit :=
  (preventDefault ;;;
   category <-- get_category link ;;
   forEach navLinks (fun l => classList_remove l "active") ;;;
   classList_add link "active" ;;;
   forEach converterSections
     (fun section => classList_remove section "active") ;;;
   targetSection <-- lookup (string_or_undefined category) ;;
   match targetSection with
   | Some t => classList_add t "active"
   | None => done tt
   end)%js.

(** Initialization *)

Definition content_loaded : js unit :=
  (updateLengthConversion ;;;
   updateWeightConversion ;;;
   updateVolumeConversion ;;;
   updateSpeedConversion ;;;
   updateAreaConversion ;;;
   updatePressureConversion ;;;
   updateTemperatureConversion ;;;
   console_log "Unit Converter App Loaded Successfully!")%js.

(** The statements of the script, in order. *)
Definition script : js unit :=
  (addEventListener lengthInput "input" (Update Length) ;;;
   addEventListener lengthFromUnit "change" (Update Length) ;;;
   addEventListener lengthToUnit "change" (Update Length) ;;;
   addEventListener weightInput "input" (Update Weight) ;;;
   addEventListener weightFromUnit "change" (Update Weight) ;;;
   addEventListener weightToUnit "change" (Update Weight) ;;;
   addEventListener volumeInput "input" (Update Volume) ;;;
   addEventListener volumeFromUnit "change" (Update Volume) ;;;
   addEventListener volumeToUnit "change" (Update Volume) ;;;
   addEventListener speedInput "input" (Update Speed) ;;;
   addEventListener speedFromUnit "change" (Update Speed) ;;;
   addEventListener speedToUnit "change" (Update Speed) ;;;
   addEventListener areaInput "input" (Update Area) ;;;
   addEventListener areaFromUnit "change" (Update Area) ;;;
   addEventListener areaToUnit "change" (Update Area) ;;;
   addEventListener pressureInput "input" (Update Pressure) ;;;
   addEventListener pressureFromUnit "change" (Update Pressure) ;;;
   addEventListener pressureToUnit "change" (Update Pressure) ;;;
   addEventListener tempInput "input" (Update Temperature) ;;;
   addEventListener tempFromUnit "change" (Update Temperature) ;;;
   addEventListener tempToUnit "change" (Update Temperature) ;;;
   forEach navLinks
     (fun link => addEventListener (Some link) "click" (NavClick link)) ;;;
   document_addEventListener "DOMContentLoaded" ContentLoaded)%js.

(** The update function of a domain. *)
Definition update (d : domain) : js unit :=
  match d with
  | Length => updateLengthConversion
  | Weight => updateWeightConversion
  | Volume => updateVolumeConversion
  | Speed => updateSpeedConversion
  | Area => updateAreaConversion
  | Pressure => updatePressureConversion
  | Temperature => updateTemperatureConversion
  end.

Definition invoke (c : callback) : js unit :=
  match c with
  | Update d => update d
  | NavClick link => nav_click link
  | ContentLoaded => content_loaded
  end.

End Script.

(** *** Event dispatch (DOM, 2.9)

    The events the script listens to ([input], [change], [click],
    [DOMContentLoaded]) bubble: after the listeners of the target, those of
    its parent run, then those of each further ancestor, at last those of
    the document.  The script registers no capturing listener and never
    stops the propagation.  On each object of the path the listeners
    registered for the type of the event run in the order of their
    registration; an exception thrown by one is reported, and the others
    still run.  The event starts out not canceled. *)

Definition same_target (a b : event_target) : bool :=
  match a, b with
  | Node n, Node m => Nat.eqb n m
  | Document, Document => true
  | _, _ => false
  end.

Definition listens (t : event_target) (ty : string) (l : listener) : bool :=
  same_target (target l) t && String.eqb (type l) ty.

Fixpoint run_callbacks (page : document) (cs : list callback) (w : world) : world :=
  match cs with
  | [] => w
  | c :: rest => run_callbacks page rest (snd (invoke page c w))
  end.

(** A node and its ancestors, innermost first.  A parent stands before its
    children, so the positions decrease along the way and [S n] steps
    reach the root from the node [n]. *)
Fixpoint ancestors_from (doc : document) (steps : nat) (n : node) : list node :=
  match steps with
  | O => []
  | S k =>
      n :: match nth_error doc n with
           | Some e =>
               match Element.parent e with
               | Some p => if (p <? n)%nat then ancestors_from doc k p else []
               | None => []
               end
           | None => []
           end
  end.

Definition inclusive_ancestors (doc : document) (n : node) : list node :=
  ancestors_from doc (S n) n.

(** The objects an event dispatched at a target passes, in the order in
    which their listeners run. *)
Definition event_path (doc : document) (t : event_target) : list event_target :=
  match t with
  | Node n => map Node (inclusive_ancestors doc n) ++ [Document]
  | Document => [Document]
  end.

Definition fresh_event (w : world) : world :=
  {| dom := dom w; listeners := listeners w; console := console w;
     canceled := false |}.

(** The listeners of one object of the path run. *)
Definition run_listeners (page : document) (ty : string) (w : world)
  (t : event_target) : world :=
  run_callbacks page (map callback_of (filter (listens t ty) (listeners w))) w.

Definition dispatchEvent (page : document) (t : event_target) (ty : string)
  (w : world) : world :=
  fold_left (run_listeners page ty) (event_path (dom w) t) (fresh_event w).

(** The state after the script has been evaluated on a page. *)
Definition initial (page : document) : world :=
  {| dom := page; listeners := []; console := []; canceled := false |}.

Definition load (page : document) : outcome unit * world :=
  script page (initial page).

(** * Notions used in the statements *)

(** ** Calls, guards and domains *)

(** A call of a converter either returns a Number or throws.  The
    converters contain no [throw] and use no operation that throws on these
    arguments, so every call completes normally. *)
Inductive completion : Type :=
| Normal (v : number)
| Throw (error : string).

Definition call (d : domain) (value : jsval) (fromUnit toUnit : string) : completion :=
  Normal (convert d value fromUnit toUnit).

(** The scale-based domains, each with a registry table. *)
Definition scale_based (d : domain) : bool :=
  match d with Temperature => false | _ => true end.

(** The domains whose factor multiplies on the way to the base unit. *)
Definition multiplicative (d : domain) : bool :=
  match d with Temperature | Speed => false | _ => true end.

(** The guard [!value || isNaN(value)]. *)
Definition degenerate (value : jsval) : bool :=
  negb (truthy value) || isNaN value.

Definition positive_finite (x : number) : bool :=
  match x with S754_finite false _ _ => wf x | _ => false end.

Definition known_temperature_unit (u : string) : bool :=
  String.eqb u "celsius" || String.eqb u "fahrenheit" || String.eqb u "kelvin".

(** A converter that sanitizes only NaN, as [convertTemperature] does, and
    otherwise computes as the converter of the domain. *)
Definition run_sanitizing_NaN_only (d : domain) (value : jsval)
  (fromUnit toUnit : string) : M number :=
  if isNaN value then ret pos_zero
  else
    match d with
    | Temperature => convertTemperature value fromUnit toUnit
    | Speed =>
        f <- factor d fromUnit ;;
        t <- factor d toUnit ;;
        ret (parseFloat (toFixed (ToNumber value / ToNumber f * ToNumber t)%num 10))
    | _ =>
        f <- factor d fromUnit ;;
        t <- factor d toUnit ;;
        ret (parseFloat (toFixed (ToNumber value * ToNumber f / ToNumber t)%num 10))
    end.

Definition convert_sanitizing_NaN_only (d : domain) (value : jsval)
  (fromUnit toUnit : string) : number :=
  result (run_sanitizing_NaN_only d value fromUnit toUnit).

(** A value converted from [a] to [b] and back. *)
Definition round_trip (d : domain) (v : number) (a b : string) : number :=
  convert d (JNum (convert d (JNum v) a b)) b a.

(** ** Rounding to decimal places *)

(** [digits_for n ds]: [ds] is the decimal numeral of [n], without leading
    zeros unless [n] is 0. *)
Definition digits_for (n : Z) (ds : list ascii) : Prop :=
  Forall (fun c => is_digit c = true) ds /\
  value_of_digits ds = n /\
  ds <> [] /\
  n < 10 ^ Z.of_nat (List.length ds) /\
  (0 < n -> 10 ^ (Z.of_nat (List.length ds) - 1) <= n).

(** A Number rounded to [f] decimal places, as [toFixed] followed by
    [parseFloat] yields it: below [10 ^ 21] the nearest Number to the value
    rounded half up in magnitude at the [f]-th decimal, with the sign kept;
    from [10 ^ 21] on, where every binary64 value is an integer, and for the
    infinities and NaN, the value itself; a zero of either sign gives [+0]. *)
Definition round_decimals (f : nat) (y : number) : number :=
  match y with
  | S754_finite s m e =>
      if ge_pow10 (magnitude m e) 21 then y
      else number_of_decimal s
             (round_half_up (magnitude m e) (Z.of_nat f)) (- Z.of_nat f)
  | S754_zero _ => pos_zero
  | _ => y
  end.

(** ** Notations of the formatted output *)

Definition all_digits (cs : list ascii) : bool := forallb is_digit cs.

Definition strip_minus (cs : list ascii) : list ascii :=
  match cs with
  | c :: r => if Ascii.eqb c "-" then r else cs
  | [] => []
  end.

(** Exponential notation with [f] digits after the decimal point of the
    mantissa: an optional ["-"], one digit, ["."], [f] digits, ["e"], a
    sign and at least one exponent digit. *)
Definition exponential_notation (f : nat) (s : string) : bool :=
  match strip_minus (list_ascii_of_string s) with
  | d :: dot :: r =>
      is_digit d && Ascii.eqb dot "." &&
      all_digits (firstn f r) && (List.length (firstn f r) =? f)%nat &&
      match skipn f r with
      | e :: sg :: ex =>
          Ascii.eqb e "e" && (Ascii.eqb sg "+" || Ascii.eqb sg "-") &&
          negb (List.length ex =? 0)%nat && all_digits ex
      | _ => false
      end
  | _ => false
  end.

(** Groups of three digits, each after a [","]. *)
Fixpoint thousands_groups (cs : list ascii) : bool :=
  match cs with
  | [] => true
  | c :: d1 :: d2 :: d3 :: r =>
      Ascii.eqb c "," && is_digit d1 && is_digit d2 && is_digit d3 &&
      thousands_groups r
  | _ => false
  end.

(** One to three digits followed by groups of three. *)
Definition grouped_integer (cs : list ascii) : bool :=
  match cs with
  | d1 :: r1 =>
      is_digit d1 &&
      (thousands_groups r1 ||
       match r1 with
       | d2 :: r2 =>
           is_digit d2 &&
           (thousands_groups r2 ||
            match r2 with
            | d3 :: r3 => is_digit d3 && thousands_groups r3
            | [] => false
            end)
       | [] => false
       end)
  | [] => false
  end.

Fixpoint split_at_dot (cs : list ascii) : list ascii * option (list ascii) :=
  match cs with
  | [] => ([], None)
  | c :: r =>
      if Ascii.eqb c "." then ([], Some r)
      else let '(a, b) := split_at_dot r in (c :: a, b)
  end.

(** Fixed notation with thousands grouping: an optional ["-"], a grouped
    integer part and, optionally, ["."] with one to [maxfd] fraction digits
    the last of which is not ["0"]. *)
Definition grouped_fixed_notation (maxfd : nat) (s : string) : bool :=
  let '(int, frac) := split_at_dot (strip_minus (list_ascii_of_string s)) in
  grouped_integer int &&
  match frac with
  | None => true
  | Some fr =>
      all_digits fr && (1 <=? List.length fr)%nat &&
      (List.length fr <=? maxfd)%nat &&
      negb (Ascii.eqb (last fr "1"%char) "0")
  end.

(** What follows the leading digits: nothing, or a comma and the groups. *)
Definition group_tail (r : list ascii) : list ascii :=
  match r with [] => [] | _ => ","%char :: group_thousands r end.

(** ** Numbers as real numbers *)

Definition bpow (e : Z) : R := powerRZ 2 e.

(** The magnitude of a zero or finite number. *)
Definition mag (x : number) : R :=
  match x with
  | S754_finite _ m e => (IZR (Zpos m) * bpow e)%R
  | _ => 0%R
  end.

Definition sign_of (x : number) : bool :=
  match x with
  | S754_zero s | S754_infinity s | S754_finite s _ _ => s
  | S754_nan => false
  end.

(** The real value of a Number; 0 for the infinities and NaN. *)
Definition value (x : number) : R :=
  match x with
  | S754_finite true m e => (- (IZR (Zpos m) * bpow e))%R
  | S754_finite false m e => (IZR (Zpos m) * bpow e)%R
  | _ => 0%R
  end.

(** [x] and [y] are finite and at most [tol] apart. *)
Definition within (tol : R) (x y : number) : Prop :=
  is_finite x = true /\ is_finite y = true /\
  (Rabs (value x - value y) <= tol)%R.

(** ** Rounding errors *)

(** [located m l u]: the real [u] lies in [[m, m + 1)] at the place the
    location [l] tells. *)
Definition located (m : Z) (l : location) (u : R) : Prop :=
  match l with
  | loc_Exact => u = IZR m
  | loc_Inexact Lt => (IZR m < u < IZR m + / 2)%R
  | loc_Inexact Eq => (u = IZR m + / 2)%R
  | loc_Inexact Gt => (IZR m + / 2 < u < IZR m + 1)%R
  end.

Definition located_record (mrs : shr_record) (u : R) : Prop :=
  0 <= shr_m mrs /\ located (shr_m mrs) (loc_of_shr_record mrs) u.

(** The relative error of one rounding and the absolute error of a
    rounding in the subnormal range. *)
Definition eps : R := bpow (-53).
Definition eta : R := bpow (-1075).

(** [rounds_to s t r]: [r] is a binary64 value of sign [s] that stands for
    the non-negative real [t] with a relative error of at most [eps], or an
    absolute one of at most [eta]; it is infinite only for [t] beyond
    [2 ^ 1023]. *)
Definition rounds_to (s : bool) (t : R) (r : number) : Prop :=
  wf r = true /\ sign_of r = s /\
  match r with
  | S754_nan => False
  | S754_infinity _ => (bpow 1023 <= t)%R
  | _ => (Rabs (mag r - t) <= eps * t + eta)%R
  end.

(** The factor by which a conversion scales a value: [fa / fb] where the
    factors multiply towards the base unit, [fb / fa] for speed. *)
Definition scaling (d : domain) (fa fb : number) : R :=
  if multiplicative d then (value fa / value fb)%R
  else (value fb / value fa)%R.

(** The factors a scale-based conversion applies, in order. *)
Definition first_scale (d : domain) (fa : number) : R :=
  if multiplicative d then mag fa else (/ mag fa)%R.

Definition second_scale (d : domain) (fb : number) : R :=
  if multiplicative d then (/ mag fb)%R else mag fb.

(** The range of the table entries, as a test on a factor. *)
Definition factor_in_range (f : number) : bool :=
  match f with
  | S754_finite false m e =>
      let '(p, q) := magnitude m e in
      (q <=? p * 10 ^ 7) && (p <=? 10 ^ 7 * q)
  | _ => false
  end.

(** * Notions used in the further statements *)

(** ** Controls and what they show *)

Definition input_of (page : document) (d : domain) : option node :=
  match d with
  | Length => lengthInput page
  | Weight => weightInput page
  | Volume => volumeInput page
  | Speed => speedInput page
  | Area => areaInput page
  | Pressure => pressureInput page
  | Temperature => tempInput page
  end.

Definition from_of (page : document) (d : domain) : option node :=
  match d with
  | Length => lengthFromUnit page
  | Weight => weightFromUnit page
  | Volume => volumeFromUnit page
  | Speed => speedFromUnit page
  | Area => areaFromUnit page
  | Pressure => pressureFromUnit page
  | Temperature => tempFromUnit page
  end.

Definition to_of (page : document) (d : domain) : option node :=
  match d with
  | Length => lengthToUnit page
  | Weight => weightToUnit page
  | Volume => volumeToUnit page
  | Speed => speedToUnit page
  | Area => areaToUnit page
  | Pressure => pressureToUnit page
  | Temperature => tempToUnit page
  end.

Definition result_of (page : document) (d : domain) : option node :=
  match d with
  | Length => lengthResult page
  | Weight => weightResult page
  | Volume => volumeResult page
  | Speed => speedResult page
  | Area => areaResult page
  | Pressure => pressureResult page
  | Temperature => tempResult page
  end.

(** The value of a control in a state; [None] when the reference is null. *)
Definition value_of (w : world) (r : option node) : option string :=
  match r with
  | Some n => option_map Element.value (nth_error (dom w) n)
  | None => None
  end.

(** The text shown for the input text [s] and the units [a] and [b]. *)
Definition display (d : domain) (s a b : string) : string :=
  formatNumber (convert d (JNum (or_else (parseFloat s) (lit 0 0))) a b).

(** A unit the converter of the domain knows: a key of the domain's table;
    the temperature converter passes every unit. *)
Definition known_unit (d : domain) (u : string) : bool :=
  match d with
  | Temperature => true
  | _ => match own_property (table d) u with Some _ => true | None => false end
  end.

(** Unary minus. *)
Definition neg (x : number) : number := SFopp x.

(** The values the converters are called with: a Number is a binary64
    value. *)
Definition binary64 (value : jsval) : bool :=
  match value with
  | JNum v => wf v
  | _ => true
  end.

(** The exact value of a decimal literal [m * 10 ^ e]. *)
Definition decimal (m e : Z) : R := (IZR m * powerRZ 10 e)%R.

(** The temperature formulas in exact arithmetic. *)
Definition to_celsius_exact (x : R) (u : string) : R :=
  if String.eqb u "celsius" then x
  else if String.eqb u "fahrenheit" then ((x - 32) * (5 / 9))%R
  else if String.eqb u "kelvin" then (x - 273.15)%R
  else x.

Definition from_celsius_exact (c : R) (u : string) : R :=
  if String.eqb u "celsius" then c
  else if String.eqb u "fahrenheit" then (c * (9 / 5) + 32)%R
  else if String.eqb u "kelvin" then (c + 273.15)%R
  else c.

(** [r] is a finite binary64 value within [delta] of the real [t]. *)
Definition near (t delta : R) (r : number) : Prop :=
  is_finite r = true /\ wf r = true /\ (Rabs (value r - t) <= delta)%R.

(** The four controls of a domain exist. *)
Definition controls_present (page : document) (d : domain) (w : world) : Prop :=
  exists s a b old,
    value_of w (input_of page d) = Some s /\
    value_of w (from_of page d) = Some a /\
    value_of w (to_of page d) = Some b /\
    value_of w (result_of page d) = Some old.

(** The result control of a domain shows the conversion of what its input
    and its unit selections hold. *)
Definition in_sync (page : document) (d : domain) (w : world) : Prop :=
  exists s a b,
    value_of w (input_of page d) = Some s /\
    value_of w (from_of page d) = Some a /\
    value_of w (to_of page d) = Some b /\
    value_of w (result_of page d) = Some (display d s a b).

Inductive control : Type := Input | FromUnit | ToUnit | Result.

Definition control_of (page : document) (d : domain) (c : control) : option node :=
  match c with
  | Input => input_of page d
  | FromUnit => from_of page d
  | ToUnit => to_of page d
  | Result => result_of page d
  end.

Definition control_id (d : domain) (c : control) : string :=
  ((match d with
    | Length => "length"
    | Weight => "weight"
    | Volume => "volume"
    | Speed => "speed"
    | Area => "area"
    | Pressure => "pressure"
    | Temperature => "temp"
    end) ++
   (match c with
    | Input => "-input"
    | FromUnit => "-from-unit"
    | ToUnit => "-to-unit"
    | Result => "-result"
    end))%string.

Definition loaded_message : string := "Unit Converter App Loaded Successfully!".

(** ** Navigation state *)

Definition classes_of (w : world) (n : node) : list string :=
  match nth_error (dom w) n with
  | Some e => Element.classList e
  | None => []
  end.

(** The element carries the class [active]. *)
Definition is_active (w : world) (n : node) : bool :=
  DOMTokenList.contains "active" (classes_of w n).

Definition member (n : node) (l : list node) : bool := existsb (Nat.eqb n) l.

(** The element a click on a link looks up: the one whose id is the
    link's [data-category]. *)
Definition category_target (w : world) (link : node) : option node :=
  match nth_error (dom w) link with
  | Some e => getElementById (dom w) (string_or_undefined (Element.category e))
  | None => None
  end.

Definition is_node (t : option node) (x : node) : bool :=
  match t with
  | Some n => Nat.eqb n x
  | None => false
  end.

(** What a click on [link] makes of the class list of the node [x]. *)
Definition clicked_classes (links sections : list node) (link : node)
  (t : option node) (x : node) (c : list string) : list string :=
  let c1 := if member x links then DOMTokenList.remove "active" c else c in
  let c2 := if Nat.eqb x link then DOMTokenList.add "active" c1 else c1 in
  let c3 := if member x sections then DOMTokenList.remove "active" c2 else c2 in
  if is_node t x then DOMTokenList.add "active" c3 else c3.

Definition modify_each (l : list node) (f : Element.t -> Element.t)
  (doc : document) : document :=
  fold_left (fun doc n => modify n f doc) l doc.

(** ** Loading and use *)

(** The listeners the script registers for a domain whose input and
    selections exist. *)
Definition domain_listeners (page : document) (d : domain) : list listener :=
  match input_of page d, from_of page d, to_of page d with
  | Some i, Some f, Some t =>
      [ Build_listener (Node i) "input" (Update d);
        Build_listener (Node f) "change" (Update d);
        Build_listener (Node t) "change" (Update d) ]
  | _, _, _ => []
  end.

Definition domains : list domain :=
  [Length; Weight; Volume; Speed; Area; Pressure; Temperature].

Definition link_listener (link : node) : listener :=
  Build_listener (Node link) "click" (NavClick link).

Definition is_update (c : callback) : bool :=
  match c with
  | Update _ => true
  | _ => false
  end.

(** What a user does: typing into the input of a domain, choosing a unit
    in one of its selections, clicking an element.  The control takes the
    new value and the event is dispatched at it. *)
Inductive interaction : Type :=
| Type_in (d : domain) (text : string)
| Choose_from (d : domain) (unit : string)
| Choose_to (d : domain) (unit : string)
| Click (n : node).

Definition change (page : document) (r : option node) (ty s : string)
  (w : world) : world :=
  match r with
  | Some n =>
      dispatchEvent page (Node n) ty
        (with_dom (modify n (Element.with_value s) (dom w)) w)
  | None => w
  end.

Definition interact (page : document) (a : interaction) (w : world) : world :=
  match a with
  | Type_in d text => change page (input_of page d) "input" text w
  | Choose_from d unit => change page (from_of page d) "change" unit w
  | Choose_to d unit => change page (to_of page d) "change" unit w
  | Click n => dispatchEvent page (Node n) "click" w
  end.

(** The state after the page has loaded and the user has acted. *)
Definition session (page : document) (actions : list interaction) : world :=
  fold_left (fun w a => interact page a w) actions
    (dispatchEvent page Document "DOMContentLoaded" (snd (load page))).

Definition add_listener (l : listener) (w : world) : world :=
  {| dom := dom w; listeners := listeners w ++ [l]; console := console w;
     canceled := canceled w |}.

Definition full_listeners (page : document) : list listener :=
  List.concat (map (domain_listeners page) domains)
  ++ map link_listener (navLinks page)
  ++ [Build_listener Document "DOMContentLoaded" ContentLoaded].

Definition stable (page : document) (w : world) : Prop :=
  List.length (dom w) = List.length page /\
  forall d, controls_present page d w.

Definition ready (page : document) (w : world) : Prop :=
  stable page w /\ listeners w = full_listeners page /\
  forall d, in_sync page d w.

(** The update functions the script registers on the node [p] for events
    of the type [ty]: that of a domain on its input for [input], and on
    each of its two selections for [change]. *)
Definition domain_updates (page : document) (ty : string) (p : node)
  (d : domain) : list callback :=
  (if is_node (input_of page d) p && String.eqb ty "input"
   then [Update d] else []) ++
  (if is_node (from_of page d) p && String.eqb ty "change"
   then [Update d] else []) ++
  (if is_node (to_of page d) p && String.eqb ty "change"
   then [Update d] else []).

(** The handlers the script registers on the node [p] for the type [ty],
    in the order of their registration: the update functions, then the
    navigation handler when [p] is one of the links collected at load. *)
Definition handlers_at (page : document) (ty : string) (p : node)
  : list callback :=
  flat_map (domain_updates page ty p) domains ++
  (if member p (navLinks page) && String.eqb ty "click"
   then [NavClick p] else []).

(** A piece of script that leaves the registered listeners as they are. *)
Definition keeps_listeners {A : Type} (c : js A) : Prop :=
  forall w, listeners (snd (c w)) = listeners w.

(** ** The order of Numbers *)

(** The comparison [x <= y] of JavaScript: false when an operand is NaN. *)
Definition leb : number -> number -> bool := SFleb.

Definition signed (s : bool) (k : Z) : Z := if s then - k else k.

(** The place of a binary64 value in the order of all of them, counted from
    zero: consecutive values have consecutive ranks, the infinities come
    last, and the two zeros share the rank 0 (as does NaN, which is not
    ordered). *)
Definition rank (x : number) : Z :=
  match x with
  | S754_zero _ | S754_nan => 0
  | S754_infinity s => signed s (2047 * 2 ^ 52)
  | S754_finite s m e => signed s ((e + 1074) * 2 ^ 52 + Zpos m)
  end.

(** [rounded t k]: the binary64 value nearest to the real [t >= 0], ties
    to even, has rank [k]. *)
Definition rounded (t : R) (k : Z) : Prop :=
  exists (e m : Z) (l : location),
    located m l (t / bpow e) /\
    ((e = -1074 /\ 0 <= m < 2 ^ 53) \/ (-1074 < e /\ 2 ^ 52 <= m < 2 ^ 53)) /\
    k = Z.min ((e + 1074) * 2 ^ 52 + round_nearest_even m l) (2047 * 2 ^ 52).

(** [nearest t k]: the binary64 value nearest to the real [t] of either
    sign has rank [k]. *)
Definition nearest (t : R) (k : Z) : Prop :=
  ((0 <= t)%R /\ rounded t k) \/
  ((t <= 0)%R /\ exists k', rounded (- t) k' /\ k = - k').

(** The decimal that [toFixed] with [f] places writes for a number that is
    not below zero, as a real number: the number itself from [10 ^ 21] on. *)
Definition decimal_target (f : nat) (x : number) : R :=
  match x with
  | S754_finite _ m e =>
      if ge_pow10 (magnitude m e) 21 then mag x
      else (IZR (round_half_up (magnitude m e) (Z.of_nat f))
            / IZR (10 ^ Z.of_nat f))%R
  | _ => 0%R
  end.

(** The decimal that [toFixed] writes, with its sign. *)
Definition signed_decimal_target (f : nat) (x : number) : R :=
  if sign_of x then (- decimal_target f x)%R else decimal_target f x.

(** The binary64 values that are not below zero: the zeros, the positive
    finite numbers and [Infinity]. *)
Definition nonneg (x : number) : Prop :=
  wf x = true /\ is_nan x = false /\ 0 <= rank x.

(** ** A page

    Four navigation links, the last without a category, and three converter
    sections, each around the controls of its domain, among the controls of
    the seven domains. *)

Definition control_element (p : option node) (i v : string) : Element.t :=
  Element.make i [] v None p.

Definition sample_page : document :=
  [ Element.make "" ["nav-link"; "active"] "" (Some "length") None;
    Element.make "" ["nav-link"] "" (Some "weight") None;
    Element.make "" ["nav-link"] "" (Some "temperature") None;
    Element.make "" ["nav-link"] "" None None;
    Element.make "length" ["converter-section"; "active"] "" None None;
    control_element (Some 4%nat) "length-input" "1";
    control_element (Some 4%nat) "length-from-unit" "km";
    control_element (Some 4%nat) "length-to-unit" "mile";
    control_element (Some 4%nat) "length-result" "";
    Element.make "weight" ["converter-section"] "" None None;
    control_element (Some 9%nat) "weight-input" "";
    control_element (Some 9%nat) "weight-from-unit" "kg";
    control_element (Some 9%nat) "weight-to-unit" "lb";
    control_element (Some 9%nat) "weight-result" "";
    control_element None "volume-input" "2.5";
    control_element None "volume-from-unit" "gallon";
    control_element None "volume-to-unit" "liter";
    control_element None "volume-result" "";
    control_element None "speed-input" "100";
    control_element None "speed-from-unit" "kmh";
    control_element None "speed-to-unit" "mph";
    control_element None "speed-result" "";
    control_element None "area-input" "1";
    control_element None "area-from-unit" "mm2";
    control_element None "area-to-unit" "km2";
    control_element None "area-result" "";
    control_element None "pressure-input" "-3e7";
    control_element None "pressure-from-unit" "psi";
    control_element None "pressure-to-unit" "pa";
    control_element None "pressure-result" "";
    Element.make "temperature" ["converter-section"] "" None None;
    control_element (Some 30%nat) "temp-input" "";
    control_element (Some 30%nat) "temp-from-unit" "celsius";
    control_element (Some 30%nat) "temp-to-unit" "fahrenheit";
    control_element (Some 30%nat) "temp-result" "" ]%string.

(** The page with a fifth link at its end, around an icon. *)
Definition linked_page : document :=
  sample_page ++
  [ Element.make "" ["nav-link"] "" (Some "weight") None;
    Element.make "" ["icon"] "" None (Some 35%nat) ]%string.

(** The page without the element of a given id. *)
Definition without (i : string) (page : document) : document :=
  filter (fun e => negb (String.eqb (Element.id e) i)) page.

Definition weight_link : Element.t :=
  Element.make "" ["nav-link"%string] "" (Some "weight"%string) None.

Definition plain_link : Element.t :=
  Element.make "" ["nav-link"%string] "" None None.

Definition temperature_link : Element.t :=
  Element.make "" ["nav-link"%string] "" (Some "temperature"%string) None.

(** * Properties *)

(** ** The registry *)

Lemma own_property_In (t : list (string * number)) (k : string) (f : number) :
  own_property t k = Some f -> In (k, f) t.
Proof.
  induction t as [|[k' v] t IH]; simpl; [discriminate|].
  destruct (String.eqb_spec k' k) as [->|_].
  - intros [= ->]. now left.
  - intros H. right. auto.
Qed.

Lemma tables_positive (d : domain) :
  forallb (fun kv => positive_finite (snd kv)) (table d) = true.
Proof. destruct d; vm_compute; reflexivity. Qed.

Lemma factor_positive (d : domain) (k : string) (f : number) :
  own_property (table d) k = Some f -> positive_finite f = true.
Proof.
  intros H. apply own_property_In in H.
  pose proof (tables_positive d) as T.
  rewrite forallb_forall in T. exact (T _ H).
Qed.

Lemma factor_shape (d : domain) (k : string) (f : number) :
  own_property (table d) k = Some f ->
  exists m e, f = S754_finite false m e /\ wf f = true.
Proof.
  intros H. apply factor_positive in H.
  destruct f as [| | |[] m e]; try discriminate. eauto.
Qed.

Lemma get_property_own (t : list (string * number)) (k : string) (f : number) :
  own_property t k = Some f -> get_property t k = JNum f.
Proof. unfold get_property. now intros ->. Qed.

Lemma ToNumber_missing (t : list (string * number)) (k : string) :
  own_property t k = None -> ToNumber (get_property t k) = NaN.
Proof.
  unfold get_property. intros ->.
  now destruct (existsb _ _).
Qed.

(** ** NaN and zero in the arithmetic *)

Lemma mul_NaN_r (x : number) : (x * NaN)%num = NaN.
Proof. now destruct x. Qed.

Lemma mul_NaN_l (x : number) : (NaN * x)%num = NaN.
Proof. reflexivity. Qed.

Lemma div_NaN_r (x : number) : (x / NaN)%num = NaN.
Proof. now destruct x. Qed.

Lemma div_NaN_l (x : number) : (NaN / x)%num = NaN.
Proof. reflexivity. Qed.

Lemma round_trip_NaN (f : nat) : parseFloat (toFixed NaN f) = NaN.
Proof. reflexivity. Qed.

Lemma round_trip_zero (s : bool) : parseFloat (toFixed (S754_zero s) 10) = pos_zero.
Proof. reflexivity. Qed.

(** The body shared by the five multiplicative converters and the body of
    the speed converter, once the guard has let the value through. *)
Lemma run_scale_based (d : domain) (value : jsval) (a b : string) :
  scale_based d = true -> degenerate value = false ->
  run d value a b =
    (parseFloat (toFixed
       (if multiplicative d
        then (ToNumber value * ToNumber (get_property (table d) a)
              / ToNumber (get_property (table d) b))%num
        else (ToNumber value / ToNumber (get_property (table d) a)
              * ToNumber (get_property (table d) b))%num) 10),
     [(d, a); (d, b)]).
Proof.
  unfold degenerate. intros Hd Hv.
  destruct d; try discriminate Hd; simpl;
    unfold convertLength, convertWeight, convertVolume, convertSpeed,
      convertArea, convertPressure; rewrite Hv; reflexivity.
Qed.

Lemma run_degenerate (d : domain) (value : jsval) (a b : string) :
  scale_based d = true -> degenerate value = true ->
  run d value a b = (pos_zero, []).
Proof.
  unfold degenerate. intros Hd Hv.
  destruct d; try discriminate Hd; simpl;
    unfold convertLength, convertWeight, convertVolume, convertSpeed,
      convertArea, convertPressure; rewrite Hv; reflexivity.
Qed.

(** ** Temperature fixed points *)

(** C3: [convertTemperature] maps 0 degrees Celsius to 32 Fahrenheit, 100
    Celsius to 212 Fahrenheit, 0 Celsius to 273.15 Kelvin and 32 Fahrenheit
    to 0 Celsius. *)
Theorem temperature_fixed_points :
  convert Temperature (JNum (lit 0 0)) "celsius" "fahrenheit" = lit 32 0 /\
  convert Temperature (JNum (lit 100 0)) "celsius" "fahrenheit" = lit 212 0 /\
  convert Temperature (JNum (lit 0 0)) "celsius" "kelvin" = lit 27315 (-2) /\
  convert Temperature (JNum (lit 32 0)) "fahrenheit" "celsius" = lit 0 0.
Proof. repeat split; vm_compute; reflexivity. Qed.

(** ** Unknown units *)

(** C5, as stated, fails: a unit symbol absent from the table makes
    [convertLength] return NaN, a Number, and no error reaches the caller. *)
Lemma unknown_unit_returns_NaN :
  own_property (table Length) "parsec" = None /\
  call Length (JNum (lit 1 0)) "m" "parsec" = Normal NaN /\
  forall e, call Length (JNum (lit 1 0)) "m" "parsec" <> Throw e.
Proof. repeat split; try reflexivity. intros e. discriminate. Qed.

(** C5, amended: in a scale-based domain, when fromUnit or toUnit is absent
    from the domain's table and the value passes the guard (it is truthy and
    not NaN), the call completes normally and returns NaN. *)
Theorem unknown_unit_yields_NaN (d : domain) (value : jsval) (a b : string) :
  scale_based d = true ->
  degenerate value = false ->
  own_property (table d) a = None \/ own_property (table d) b = None ->
  call d value a b = Normal NaN.
Proof.
  intros Hd Hv Hab. unfold call, convert.
  rewrite (run_scale_based d value a b Hd Hv). unfold result, fst.
  f_equal.
  destruct Hab as [Ha|Hb].
  - rewrite (ToNumber_missing _ _ Ha).
    destruct (multiplicative d);
      rewrite ?mul_NaN_r, ?div_NaN_r, ?div_NaN_l, ?mul_NaN_l; reflexivity.
  - rewrite (ToNumber_missing _ _ Hb).
    destruct (multiplicative d);
      rewrite ?mul_NaN_r, ?div_NaN_r; reflexivity.
Qed.

Lemma unknown_unit_yields_NaN_witness :
  scale_based Speed = true /\
  degenerate (JNum (lit 5 0)) = false /\
  (own_property (table Speed) "warp" = None \/
   own_property (table Speed) "kmh" = None) /\
  call Speed (JNum (lit 5 0)) "warp" "kmh" = Normal NaN.
Proof.
  assert (H1 : scale_based Speed = true) by reflexivity.
  assert (H2 : degenerate (JNum (lit 5 0)) = false) by reflexivity.
  assert (H3 : own_property (table Speed) "warp" = None \/
               own_property (table Speed) "kmh" = None) by (left; reflexivity).
  exact (conj H1 (conj H2 (conj H3
    (unknown_unit_yields_NaN Speed (JNum (lit 5 0)) "warp" "kmh" H1 H2 H3)))).
Defined.

(** ** Degenerate input *)

(** C6, as stated, fails: an infinite input is not replaced by 0; the
    length and the temperature converter return it unchanged. *)
Lemma infinite_input_not_zeroed :
  is_finite Infinity = false /\
  convert Length (JNum Infinity) "m" "km" = Infinity /\
  convert Temperature (JNum Infinity) "celsius" "kelvin" = Infinity /\
  Infinity <> pos_zero.
Proof. repeat split; try reflexivity. discriminate. Qed.

(** C6, amended: in every domain and for all unit symbols, an input value
    that is NaN or absent ([undefined]) makes the conversion return 0. *)
Theorem NaN_or_absent_input_yields_zero (d : domain) (a b : string) :
  convert d (JNum NaN) a b = pos_zero /\
  convert d JUndefined a b = pos_zero.
Proof. destruct d; split; reflexivity. Qed.

(** C10: in every scale-based converter the guard comes before the table
    lookups: for the value 0 of either sign or NaN, whatever the two unit
    strings, the converter returns 0 and reads nothing from the registry. *)
Theorem sanitation_precedes_lookup (d : domain) (v : number) (a b : string) :
  scale_based d = true ->
  is_zero v || is_nan v = true ->
  convert d (JNum v) a b = pos_zero /\
  reads (run d (JNum v) a b) = [].
Proof.
  intros Hd Hv. unfold convert.
  rewrite (run_degenerate d (JNum v) a b Hd).
  - split; reflexivity.
  - unfold degenerate, truthy, isNaN, ToNumber.
    destruct v; try discriminate Hv; reflexivity.
Qed.

Lemma sanitation_precedes_lookup_witness :
  scale_based Area = true /\
  is_zero (lit 0 0) || is_nan (lit 0 0) = true /\
  convert Area (JNum (lit 0 0)) "m2" "furlong" = pos_zero /\
  reads (run Area (JNum (lit 0 0)) "m2" "furlong") = [].
Proof.
  assert (H1 : scale_based Area = true) by reflexivity.
  assert (H2 : is_zero (lit 0 0) || is_nan (lit 0 0) = true) by reflexivity.
  exact (conj H1 (conj H2
    (sanitation_precedes_lookup Area (lit 0 0) "m2" "furlong" H1 H2))).
Defined.

(** ** The falsy test *)

Lemma mul_zero_l (s : bool) (f : number) :
  positive_finite f = true -> (S754_zero s * f)%num = S754_zero s.
Proof.
  destruct f as [| | |[] m e]; try discriminate. intros _. simpl.
  now destruct s.
Qed.

Lemma div_zero_l (s : bool) (f : number) :
  positive_finite f = true -> (S754_zero s / f)%num = S754_zero s.
Proof.
  destruct f as [| | |[] m e]; try discriminate. intros _. simpl.
  now destruct s.
Qed.

(** C9: on a unit pair of the domain's table a scale-based converter maps 0
    to 0, and for every input value it returns what a converter that
    sanitizes only NaN returns. *)
Theorem falsy_test_harmless (d : domain) (value : jsval) (a b : string)
  (fa fb : number) :
  scale_based d = true ->
  own_property (table d) a = Some fa ->
  own_property (table d) b = Some fb ->
  convert d (JNum (lit 0 0)) a b = pos_zero /\
  convert d value a b = convert_sanitizing_NaN_only d value a b.
Proof.
  intros Hd Ha Hb. split.
  - unfold convert. now rewrite (run_degenerate d _ a b Hd).
  - unfold convert, convert_sanitizing_NaN_only, run_sanitizing_NaN_only.
    destruct (degenerate value) eqn:Hv.
    + rewrite (run_degenerate d value a b Hd Hv).
      destruct (isNaN value) eqn:Hn; [reflexivity|].
      (* the value is a zero *)
      assert (exists s, value = JNum (S754_zero s)) as [s ->].
      { unfold degenerate in Hv. rewrite Hn, orb_false_r in Hv.
        destruct value as [|x|]; try discriminate.
        destruct x; try discriminate; eauto. }
      pose proof (factor_positive d a fa Ha) as Pa.
      pose proof (factor_positive d b fb Hb) as Pb.
      destruct d; try discriminate Hd; unfold factor, bind, ret, result, fst;
        rewrite (get_property_own _ _ _ Ha), (get_property_own _ _ _ Hb);
        unfold ToNumber;
        rewrite ?(mul_zero_l s fa Pa), ?(div_zero_l s fa Pa),
          ?(mul_zero_l s fb Pb), ?(div_zero_l s fb Pb);
        symmetry; apply round_trip_zero.
    + rewrite (run_scale_based d value a b Hd Hv).
      assert (Hn : isNaN value = false).
      { unfold degenerate in Hv. now apply orb_false_iff in Hv. }
      rewrite Hn.
      destruct d; try discriminate Hd; reflexivity.
Qed.

Lemma falsy_test_harmless_witness :
  scale_based Speed = true /\
  own_property (table Speed) "kmh" = Some (lit 36 (-1)) /\
  own_property (table Speed) "mph" = Some (lit 223694 (-5)) /\
  convert Speed (JNum (lit 0 0)) "kmh" "mph" = pos_zero /\
  convert Speed (JNum neg_zero) "kmh" "mph" =
    convert_sanitizing_NaN_only Speed (JNum neg_zero) "kmh" "mph".
Proof.
  assert (H1 : scale_based Speed = true) by reflexivity.
  assert (H2 : own_property (table Speed) "kmh" = Some (lit 36 (-1)))
    by reflexivity.
  assert (H3 : own_property (table Speed) "mph" = Some (lit 223694 (-5)))
    by reflexivity.
  exact (conj H1 (conj H2 (conj H3
    (falsy_test_harmless Speed (JNum neg_zero) "kmh" "mph" _ _ H1 H2 H3)))).
Defined.

(** ** Binary digits *)

Lemma digits2_pos_size (p : positive) : digits2_pos p = Pos.size p.
Proof. induction p; simpl; congruence. Qed.

Lemma digits2_bounds (p : positive) :
  2 ^ (Zpos (digits2_pos p) - 1) <= Zpos p < 2 ^ Zpos (digits2_pos p).
Proof.
  rewrite digits2_pos_size. split.
  - pose proof (Pos.size_le p) as H.
    assert (E : 2 ^ Zpos (Pos.size p) = 2 * 2 ^ (Zpos (Pos.size p) - 1)).
    { rewrite <- Z.pow_succ_r by lia. f_equal. lia. }
    assert (H' : Zpos (2 ^ Pos.size p) <= Zpos (p~0))
      by (apply Pos2Z.pos_le_pos; exact H).
    rewrite Pos2Z.inj_pow in H'. lia.
  - pose proof (Pos.size_gt p) as H.
    assert (H' : Zpos p < Zpos (2 ^ Pos.size p))
      by (apply Pos2Z.pos_lt_pos; exact H).
    rewrite Pos2Z.inj_pow in H'. exact H'.
Qed.

Lemma Zdigits2_bounds (n : Z) :
  0 < n -> 2 ^ (Zdigits2 n - 1) <= n < 2 ^ Zdigits2 n.
Proof. destruct n; try lia. intros _. apply digits2_bounds. Qed.

Lemma Zdigits2_pos (n : Z) : 0 < n -> 0 < Zdigits2 n.
Proof. destruct n; simpl; lia. Qed.

Lemma Zdigits2_unique (n k : Z) :
  2 ^ (k - 1) <= n < 2 ^ k -> 0 < n -> Zdigits2 n = k.
Proof.
  intros H Hn.
  pose proof (Zdigits2_bounds n Hn) as B.
  pose proof (Zdigits2_pos n Hn) as P.
  assert (Hk : 0 < k).
  { destruct (Z_lt_le_dec 0 k) as [|Hk]; [assumption|].
    assert (2 ^ k <= 1) by (destruct (Z.eq_dec k 0) as [->|]; [simpl; lia|];
      rewrite Z.pow_neg_r by lia; lia). lia. }
  destruct (Z.lt_trichotomy (Zdigits2 n) k) as [L|[E|G]]; [|exact E|].
  - assert (2 ^ Zdigits2 n <= 2 ^ (k - 1)) by (apply Z.pow_le_mono_r; lia). lia.
  - assert (2 ^ k <= 2 ^ (Zdigits2 n - 1)) by (apply Z.pow_le_mono_r; lia). lia.
Qed.

(** ** Right shifts with rounding bits *)

Lemma iter_pos_nat {A : Type} (f : A -> A) (p : positive) (x : A) :
  SpecFloat.iter_pos f p x = Nat.iter (Pos.to_nat p) f x.
Proof.
  revert x. induction p as [p IH|p IH|]; intros x; cbn [SpecFloat.iter_pos].
  - rewrite !IH, Pos2Nat.inj_xI.
    rewrite <- Nat.iter_succ_r, <- Nat.iter_add. f_equal. lia.
  - rewrite !IH, Pos2Nat.inj_xO, <- Nat.iter_add. f_equal. lia.
  - reflexivity.
Qed.

Lemma located_record_of_loc (m : Z) (l : location) (u : R) :
  0 <= m -> located m l u -> located_record (shr_record_of_loc m l) u.
Proof.
  intros Hm H. split.
  - destruct l as [|[]]; exact Hm.
  - destruct l as [|[]]; exact H.
Qed.

Lemma shr_1_located (mrs : shr_record) (u : R) :
  located_record mrs u -> located_record (shr_1 mrs) (u / 2).
Proof.
  destruct mrs as [m r s]. unfold located_record. simpl shr_m at 1 2.
  intros [Hm H].
  assert (Hcases : exists m' b, m = 2 * m' + Z.b2z b /\ 0 <= m' /\
            shr_1 (Build_shr_record m r s) = Build_shr_record m' b (r || s)).
  { destruct m as [|[p|p|]|p]; try lia.
    - exists 0, false. simpl. repeat split; lia.
    - exists (Zpos p), true. simpl. repeat split; lia.
    - exists (Zpos p), false. simpl. repeat split; lia.
    - exists 0, true. simpl. repeat split; lia. }
  destruct Hcases as (m' & b & -> & Hm' & ->). simpl shr_m.
  split; [exact Hm'|].
  destruct b, r, s;
    cbn [located loc_of_shr_record shr_m Z.b2z orb] in *;
    rewrite plus_IZR, mult_IZR in H; lra.
Qed.

Lemma shr_1_m (mrs : shr_record) :
  0 <= shr_m mrs -> shr_m (shr_1 mrs) = shr_m mrs / 2.
Proof.
  destruct mrs as [m r s]. simpl. intros Hm.
  destruct m as [|[p|p|]|p]; try lia; simpl shr_m.
  - reflexivity.
  - rewrite Pos2Z.inj_xI. apply Z.div_unique with (r := 1); lia.
  - rewrite Pos2Z.inj_xO. apply Z.div_unique with (r := 0); lia.
  - reflexivity.
Qed.

Lemma iter_shr_1_located (n : nat) (mrs : shr_record) (u : R) :
  located_record mrs u ->
  located_record (Nat.iter n shr_1 mrs) (u / IZR (2 ^ Z.of_nat n)) /\
  shr_m (Nat.iter n shr_1 mrs) = shr_m mrs / 2 ^ Z.of_nat n.
Proof.
  intros H. induction n as [|n [IH1 IH2]].
  - simpl. split.
    + replace (u / 1)%R with u by lra. exact H.
    + now rewrite Z.div_1_r.
  - rewrite Nat2Z.inj_succ, Z.pow_succ_r by lia. simpl Nat.iter. split.
    + apply shr_1_located in IH1.
      rewrite mult_IZR.
      replace (u / (2 * IZR (2 ^ Z.of_nat n)))%R
        with (u / IZR (2 ^ Z.of_nat n) / 2)%R; [exact IH1|].
      assert (IZR (2 ^ Z.of_nat n) <> 0)%R.
      { apply not_0_IZR. pose proof (Z.pow_pos_nonneg 2 (Z.of_nat n)). lia. }
      field. assumption.
    + rewrite shr_1_m by apply IH1. rewrite IH2.
      rewrite Z.div_div by (try apply Z.pow_pos_nonneg; lia).
      f_equal. lia.
Qed.

(** [shr] by [n >= 0] places divides by [2 ^ n] and keeps track of the
    place of the exact value. *)
Lemma shr_located (mrs : shr_record) (e n : Z) (u : R) :
  0 <= n -> located_record mrs u ->
  let '(mrs', e') := shr mrs e n in
  e' = e + n /\
  located_record mrs' (u / IZR (2 ^ n)) /\
  shr_m mrs' = shr_m mrs / 2 ^ n.
Proof.
  intros Hn H. destruct n as [|p|p]; try lia; simpl shr.
  - split; [lia|]. split.
    + simpl. replace (u / 1)%R with u by lra. exact H.
    + now rewrite Z.div_1_r.
  - split; [reflexivity|]. rewrite iter_pos_nat.
    pose proof (iter_shr_1_located (Pos.to_nat p) mrs u H) as I.
    rewrite positive_nat_Z in I. exact I.
Qed.

(** ** Powers of two *)

Lemma bpow_pos (e : Z) : (0 < bpow e)%R.
Proof. apply powerRZ_lt. lra. Qed.

Lemma bpow_add (a b : Z) : bpow (a + b) = (bpow a * bpow b)%R.
Proof. apply powerRZ_add. lra. Qed.

Lemma bpow_IZR (n : Z) : 0 <= n -> bpow n = IZR (2 ^ n).
Proof.
  intros Hn. unfold bpow.
  rewrite <- (Z2Nat.id n Hn) at 1 2.
  rewrite <- pow_powerRZ, <- pow_IZR. reflexivity.
Qed.

Lemma bpow_le (a b : Z) : a <= b -> (bpow a <= bpow b)%R.
Proof.
  intros H. replace b with (a + (b - a)) by lia.
  rewrite bpow_add, (bpow_IZR (b - a)) by lia.
  pose proof (bpow_pos a).
  assert (1 <= IZR (2 ^ (b - a)))%R.
  { apply IZR_le. pose proof (Z.pow_pos_nonneg 2 (b - a)). lia. }
  nra.
Qed.

Lemma bpow_succ (a : Z) : bpow (a + 1) = (2 * bpow a)%R.
Proof. rewrite bpow_add. unfold bpow at 2. simpl. lra. Qed.

Lemma fexp_eq (e : Z) : fexp prec emax e = Z.max (e - 53) (-1074).
Proof. reflexivity. Qed.

Lemma div_pow2_digits (m n : Z) :
  0 < m -> 0 <= n -> n < Zdigits2 m ->
  0 < m / 2 ^ n /\ Zdigits2 (m / 2 ^ n) = Zdigits2 m - n.
Proof.
  intros Hm Hn Hd.
  pose proof (Zdigits2_bounds m Hm) as [B1 B2].
  assert (P : 0 < 2 ^ n) by (apply Z.pow_pos_nonneg; lia).
  assert (L : 2 ^ (Zdigits2 m - n - 1) <= m / 2 ^ n).
  { apply Z.div_le_lower_bound; [exact P|].
    rewrite <- Z.pow_add_r by lia.
    replace (n + (Zdigits2 m - n - 1)) with (Zdigits2 m - 1) by lia. exact B1. }
  assert (U : m / 2 ^ n < 2 ^ (Zdigits2 m - n)).
  { apply Z.div_lt_upper_bound; [exact P|].
    rewrite <- Z.pow_add_r by lia.
    replace (n + (Zdigits2 m - n)) with (Zdigits2 m) by lia. exact B2. }
  assert (0 < 2 ^ (Zdigits2 m - n - 1)) by (apply Z.pow_pos_nonneg; lia).
  split; [lia|].
  apply Zdigits2_unique; [split; assumption|lia].
Qed.

Lemma div_pow2_small (m n : Z) :
  0 <= m -> Zdigits2 m <= n -> m / 2 ^ n = 0.
Proof.
  intros Hm Hd. destruct (Z.eq_dec m 0) as [->|Hz].
  - apply Z.div_0_l. pose proof (Z.pow_pos_nonneg 2 n).
    assert (0 <= n) by (simpl in Hd; lia). lia.
  - pose proof (Zdigits2_bounds m ltac:(lia)) as [_ B].
    pose proof (Zdigits2_pos m ltac:(lia)).
    apply Z.div_small. split; [lia|].
    assert (2 ^ Zdigits2 m <= 2 ^ n) by (apply Z.pow_le_mono_r; lia). lia.
Qed.

(** ** Rounding to nearest *)

Lemma round_nearest_even_near (m : Z) (l : location) (u : R) :
  located m l u ->
  (round_nearest_even m l = m \/ round_nearest_even m l = m + 1) /\
  (Rabs (IZR (round_nearest_even m l) - u) <= / 2)%R /\
  (l = loc_Exact -> round_nearest_even m l = m).
Proof.
  intros H. destruct l as [|[]]; cbn [located round_nearest_even] in *.
  - subst u. repeat split; auto.
    replace (IZR m - IZR m)%R with 0%R by lra. rewrite Rabs_R0. lra.
  - subst u. destruct (Z.even m); (split; [auto|split; [|discriminate]]).
    + replace (IZR m - (IZR m + / 2))%R with (- / 2)%R by lra.
      rewrite Rabs_Ropp, Rabs_pos_eq; lra.
    + rewrite plus_IZR.
      replace (IZR m + 1 - (IZR m + / 2))%R with (/ 2)%R by lra.
      rewrite Rabs_pos_eq; lra.
  - split; [auto|split; [|discriminate]].
    apply Rabs_le. lra.
  - split; [auto|split; [|discriminate]].
    rewrite plus_IZR. apply Rabs_le. lra.
Qed.

Lemma shr_m_record_of_loc (m : Z) (l : location) :
  shr_m (shr_record_of_loc m l) = m.
Proof. now destruct l as [|[]]. Qed.

Lemma shr_fexp_located (m e : Z) (l : location) (u : R) :
  0 <= m -> e <= fexp prec emax (Zdigits2 m + e) -> located m l u ->
  let '(mrs', e') := shr_fexp prec emax m e l in
  e' = fexp prec emax (Zdigits2 m + e) /\
  located_record mrs' (u / IZR (2 ^ (e' - e))) /\
  shr_m mrs' = m / 2 ^ (e' - e).
Proof.
  intros Hm He H. unfold shr_fexp.
  pose proof (shr_located (shr_record_of_loc m l) e
                (fexp prec emax (Zdigits2 m + e) - e) u ltac:(lia)
                (located_record_of_loc m l u Hm H)) as S.
  destruct (shr _ e _) as [mrs' e'].
  destruct S as (-> & S1 & S2).
  rewrite shr_m_record_of_loc in S2.
  replace (e + (fexp prec emax (Zdigits2 m + e) - e) - e)
    with (fexp prec emax (Zdigits2 m + e) - e) by lia.
  repeat split; try lia; apply S1.
Qed.

Lemma Rabs_le_inv (a b : R) : (Rabs a <= b)%R -> (- b <= a <= b)%R.
Proof.
  intros H. pose proof (Rle_abs a). pose proof (Rle_abs (- a)) as H'.
  rewrite Rabs_Ropp in H'. lra.
Qed.

Lemma located_lower (m : Z) (l : location) (u : R) :
  located m l u -> (IZR m <= u)%R.
Proof. destruct l as [|[]]; cbn [located]; lra. Qed.

Lemma eps_eta_facts :
  (0 < eps <= / 2)%R /\ (0 < eta <= / 2)%R /\ (1 <= bpow 1023)%R.
Proof.
  unfold eps, eta. repeat split; try apply bpow_pos.
  - replace (/ 2)%R with (bpow (-1)) by (unfold bpow; simpl; lra).
    apply bpow_le. lia.
  - replace (/ 2)%R with (bpow (-1)) by (unfold bpow; simpl; lra).
    apply bpow_le. lia.
  - replace 1%R with (bpow 0) by reflexivity. apply bpow_le. lia.
Qed.

(** The rounding step shared by all arithmetic operations: from a
    mantissa, an exponent and the place of the exact value [t] it yields a
    binary64 value that stands for [t]. *)
Theorem binary_round_aux_rounds (sx : bool) (mx ex : Z) (lx : location) (t : R) :
  0 <= mx -> ex <= fexp prec emax (Zdigits2 mx + ex) ->
  located mx lx (t / bpow ex) ->
  rounds_to sx t (binary_round_aux prec emax sx mx ex lx).
Proof.
  intros Hmx Hpre Hloc. unfold binary_round_aux.
  pose proof (shr_fexp_located mx ex lx _ Hmx Hpre Hloc) as S1.
  destruct (shr_fexp prec emax mx ex lx) as [mrs1 e1].
  destruct S1 as (He1 & [Hm1 L1] & M1).
  set (m1 := shr_m mrs1) in *.
  set (l1 := loc_of_shr_record mrs1) in *.
  assert (N1 : 0 <= e1 - ex) by lia.
  (* the exact value at the scale of [e1] *)
  assert (U1 : (t / bpow ex / IZR (2 ^ (e1 - ex)) = t / bpow e1)%R).
  { rewrite <- bpow_IZR by lia.
    replace e1 with (ex + (e1 - ex)) at 2 by lia. rewrite bpow_add.
    pose proof (bpow_pos ex). pose proof (bpow_pos (e1 - ex)).
    field. split; lra. }
  rewrite U1 in L1.
  (* size of the shifted mantissa *)
  assert (F2 : (e1 = -1074 /\ 0 <= m1 < 2 ^ 53) \/
               (-1074 < e1 /\ 2 ^ 52 <= m1 < 2 ^ 53)).
  { rewrite fexp_eq in He1, Hpre.
    destruct (Z.eq_dec mx 0) as [Z0|NZ].
    - left. subst mx. rewrite Z.div_0_l in M1
        by (pose proof (Z.pow_pos_nonneg 2 (e1 - ex)); lia).
      simpl Zdigits2 in *. lia.
    - destruct (Z_lt_le_dec (e1 - ex) (Zdigits2 mx)) as [Lt|Ge].
      + destruct (div_pow2_digits mx (e1 - ex) ltac:(lia) N1 Lt) as [P D].
        rewrite <- M1 in P, D.
        pose proof (Zdigits2_bounds m1 P) as [B1 B2].
        assert (Zdigits2 m1 <= 53) by lia.
        assert (2 ^ Zdigits2 m1 <= 2 ^ 53) by (apply Z.pow_le_mono_r; lia).
        destruct (Z.eq_dec e1 (-1074)) as [E|E]; [left; lia|right].
        assert (Zdigits2 m1 = 53) by lia.
        replace (Zdigits2 m1 - 1) with 52 in B1 by lia. lia.
      + left. rewrite (div_pow2_small mx (e1 - ex) Hmx Ge) in M1.
        pose proof (Zdigits2_pos mx ltac:(lia)). lia. }
  pose proof (round_nearest_even_near m1 l1 _ L1) as (Hm2 & Herr & _).
  set (m2 := round_nearest_even m1 l1) in *.
  pose proof (located_lower _ _ _ L1) as Low.
  pose proof (bpow_pos e1) as Pe1.
  pose proof eps_eta_facts as (Heps & Heta & Hbig).
  (* the error of the rounded mantissa, at the scale of [t] *)
  assert (Err : (Rabs (IZR m2 * bpow e1 - t) <= eps * t + eta)%R).
  { assert (E1 : (Rabs (IZR m2 * bpow e1 - t) <= / 2 * bpow e1)%R).
    { replace (IZR m2 * bpow e1 - t)%R
        with ((IZR m2 - t / bpow e1) * bpow e1)%R by (field; lra).
      rewrite Rabs_mult, (Rabs_pos_eq (bpow e1)) by lra.
      apply Rmult_le_compat_r; lra. }
    assert (T0 : (0 <= t)%R).
    { assert (0 <= IZR m1)%R by (apply IZR_le; lia).
      assert (0 <= t / bpow e1)%R by lra.
      replace t with (t / bpow e1 * bpow e1)%R by (field; lra).
      apply Rmult_le_pos; lra. }
    destruct F2 as [[E _]|[E [B _]]].
    - assert (B : bpow e1 = (2 * bpow (-1075))%R).
      { rewrite E. replace (-1074) with (-1075 + 1) by lia. apply bpow_succ. }
      unfold eta in *.
      assert (0 <= eps * t)%R by (apply Rmult_le_pos; lra). lra.
    - assert (IZR (2 ^ 52) <= IZR m1)%R by (apply IZR_le; exact B).
      rewrite <- bpow_IZR in H by lia.
      assert (T1 : (bpow 52 * bpow e1 <= t)%R).
      { replace t with (t / bpow e1 * bpow e1)%R by (field; lra).
        apply Rmult_le_compat_r; lra. }
      unfold eps.
      assert (B53 : (bpow (-53) * bpow 52 = / 2)%R).
      { rewrite <- bpow_add. unfold bpow. simpl. lra. }
      assert (bpow (-53) * (bpow 52 * bpow e1) <= bpow (-53) * t)%R
        by (apply Rmult_le_compat_l; [pose proof (bpow_pos (-53)); lra|exact T1]).
      assert (0 < eta)%R by lra.
      replace (bpow (-53) * (bpow 52 * bpow e1))%R
        with (bpow (-53) * bpow 52 * bpow e1)%R in H0 by ring.
      rewrite B53 in H0. unfold eta in *. lra. }
  (* the second shift *)
  assert (M2 : 0 <= m2 <= 2 ^ 53) by lia.
  assert (Pre2 : m2 = 0 \/
    (0 < m2 /\ (fexp prec emax (Zdigits2 m2 + e1) = e1 /\ m2 < 2 ^ 53
                \/ m2 = 2 ^ 53))).
  { destruct (Z.eq_dec m2 0) as [|NZ]; [now left|right].
    split; [lia|].
    destruct (Z.eq_dec m2 (2 ^ 53)) as [|NE]; [now right|left].
    split; [|lia]. rewrite fexp_eq.
    pose proof (Zdigits2_bounds m2 ltac:(lia)) as [B1 B2].
    pose proof (Zdigits2_pos m2 ltac:(lia)) as P2.
    assert (D2 : Zdigits2 m2 <= 53).
    { destruct (Z_lt_le_dec 53 (Zdigits2 m2)) as [G|]; [|lia].
      assert (2 ^ 53 <= 2 ^ (Zdigits2 m2 - 1)) by (apply Z.pow_le_mono_r; lia).
      lia. }
    destruct F2 as [[E _]|[E [B _]]]; [lia|].
    assert (Zdigits2 m2 = 53); [|lia].
    apply Zdigits2_unique; lia. }
  destruct Pre2 as [Z2|[P2 C2]].
  - (* the result is zero *)
    rewrite Z2 in *. unfold shr_fexp. simpl Zdigits2.
    assert (Hs : forall n, shr_m (fst (shr (shr_record_of_loc 0 loc_Exact) e1 n)) = 0).
    { intros [|p|p]; simpl; try reflexivity.
      rewrite iter_pos_nat. induction (Pos.to_nat p) as [|k IH]; simpl; [reflexivity|].
      destruct (Nat.iter k shr_1 _) as [m r s]. simpl in IH. subst m. reflexivity. }
    specialize (Hs (fexp prec emax (0 + e1) - e1)).
    destruct (shr _ e1 _) as [mrs2 e2]. simpl in Hs. rewrite Hs.
    repeat split. cbn [mag]. 
    replace (0 * bpow e1 - t)%R with (0 - t)%R in Err by lra. exact Err.
  - pose proof (Zdigits2_pos m2 P2) as D2.
    assert (Pre : e1 <= fexp prec emax (Zdigits2 m2 + e1)).
    { destruct C2 as [[C _]|C]; [lia|]. subst m2. rewrite C. rewrite fexp_eq.
      change (Zdigits2 (2 ^ 53)) with 54. lia. }
    pose proof (shr_fexp_located m2 e1 loc_Exact (IZR m2) ltac:(lia) Pre eq_refl) as S2.
    destruct (shr_fexp prec emax m2 e1 loc_Exact) as [mrs2 e2].
    destruct S2 as (He2 & _ & M3).
    assert (Fin : exists m3, shr_m mrs2 = Zpos m3 /\
              canonical_mantissa prec emax m3 e2 = true /\
              (IZR (Zpos m3) * bpow e2 = IZR m2 * bpow e1)%R /\
              (-1074 < e2 -> 2 ^ 52 <= Zpos m3)).
    { destruct C2 as [[C Lt]|C].
      - rewrite C in He2. subst e2. rewrite Z.sub_diag, Z.pow_0_r, Z.div_1_r in M3.
        destruct m2 as [|m3|]; try lia. exists m3.
        rewrite M3. repeat split; [|lia].
        unfold canonical_mantissa. simpl Zdigits2 in C. rewrite C. apply Z.eqb_refl.
      - rewrite fexp_eq in He2. fold m2 in C. rewrite C in He2, M3.
        change (Zdigits2 (2 ^ 53)) with 54 in He2.
        assert (E2 : e2 = e1 + 1) by lia. clear He2. subst e2.
        replace (e1 + 1 - e1) with 1 in M3 by lia.
        change (2 ^ 53 / 2 ^ 1) with (2 ^ 52) in M3.
        exists (2 ^ 52)%positive. rewrite M3.
        split; [reflexivity|]. repeat split.
        + unfold canonical_mantissa. rewrite fexp_eq.
          change (Zpos (digits2_pos (2 ^ 52))) with 53. apply Z.eqb_eq. lia.
        + rewrite bpow_succ. fold m2. rewrite C.
          change (Z.pos (2 ^ 52)) with (2 ^ 52). 
          rewrite <- !bpow_IZR by lia.
          replace 53 with (52 + 1) by lia. rewrite bpow_succ. ring.
        + intros _. reflexivity. }
    destruct Fin as (m3 & -> & Can & Val & Big).
    destruct (Z.leb_spec e2 (emax - prec)) as [Le|Gt].
    + repeat split.
      * unfold wf, valid_binary, SpecFloat.bounded. rewrite Can. apply Z.leb_le. exact Le.
      * cbn [mag]. rewrite Val. exact Err.
    + repeat split. unfold emax, prec in Gt.
      specialize (Big ltac:(lia)).
      assert (V : (bpow 1024 <= IZR (Zpos m3) * bpow e2)%R).
      { replace 1024 with (52 + 972) by lia. rewrite bpow_add.
        assert (bpow 972 <= bpow e2)%R by (apply bpow_le; lia).
        assert (bpow 52 <= IZR (Zpos m3))%R
          by (rewrite bpow_IZR by lia; apply IZR_le; exact Big).
        pose proof (bpow_pos 972). pose proof (bpow_pos 52).
        apply Rmult_le_compat; lra. }
      rewrite Val in V.
      replace 1024 with (1023 + 1) in V by lia. rewrite bpow_succ in V.
      apply Rabs_le_inv in Err.
      destruct (Rle_lt_dec (bpow 1023) t) as [|Lt]; [assumption|exfalso].
      assert (eps * t <= / 2 * t)%R.
      { apply Rmult_le_compat_r; [|lra].
        assert (0 <= IZR m1)%R by (apply IZR_le; lia).
        assert (0 <= t / bpow e1)%R by lra.
        replace t with (t / bpow e1 * bpow e1)%R by (field; lra).
        apply Rmult_le_pos; lra. }
      lra.
Qed.

(** ** Multiplication *)

Lemma canonical_facts (m : positive) (e : Z) :
  canonical_mantissa prec emax m e = true ->
  -1074 <= e /\ Zpos (digits2_pos m) <= 53 /\
  (Zpos (digits2_pos m) = 53 \/ e = -1074).
Proof.
  unfold canonical_mantissa. rewrite fexp_eq. intros H.
  apply Z.eqb_eq in H. lia.
Qed.

Lemma wf_finite (s : bool) (m : positive) (e : Z) :
  wf (S754_finite s m e) = true ->
  canonical_mantissa prec emax m e = true /\ e <= 971.
Proof.
  unfold wf, valid_binary, SpecFloat.bounded. intros H.
  apply andb_true_iff in H. destruct H as [H1 H2].
  apply Z.leb_le in H2. auto.
Qed.

Lemma Zdigits2_mul_lower (a b : positive) :
  Zpos (digits2_pos a) + Zpos (digits2_pos b) - 1 <= Zdigits2 (Zpos (a * b)).
Proof.
  pose proof (digits2_bounds a) as [A _].
  pose proof (digits2_bounds b) as [B _].
  pose proof (Zdigits2_bounds (Zpos (a * b)) ltac:(lia)) as [_ U].
  set (da := Zpos (digits2_pos a)) in *. set (db := Zpos (digits2_pos b)) in *.
  assert (P : 2 ^ (da - 1) * 2 ^ (db - 1) <= Zpos (a * b)).
  { rewrite Pos2Z.inj_mul. apply Z.mul_le_mono_nonneg; try lia;
      apply Z.pow_nonneg; lia. }
  rewrite <- Z.pow_add_r in P by lia.
  destruct (Z_lt_le_dec (Zdigits2 (Zpos (a * b))) (da + db - 1)) as [L|]; [|lia].
  assert (2 ^ Zdigits2 (Zpos (a * b)) <= 2 ^ (da - 1 + (db - 1))).
  { apply Z.pow_le_mono_r; lia. }
  lia.
Qed.

Theorem mul_rounds (sx sy : bool) (mx my : positive) (ex ey : Z) :
  wf (S754_finite sx mx ex) = true -> wf (S754_finite sy my ey) = true ->
  rounds_to (xorb sx sy)
    (IZR (Zpos mx) * bpow ex * (IZR (Zpos my) * bpow ey))
    (S754_finite sx mx ex * S754_finite sy my ey)%num.
Proof.
  intros Wx Wy.
  apply wf_finite in Wx, Wy. destruct Wx as [Cx _], Wy as [Cy _].
  apply canonical_facts in Cx, Cy.
  pose proof (Zdigits2_mul_lower mx my) as D.
  pose proof (Zdigits2_pos (Zpos mx) ltac:(lia)) as Px.
  pose proof (Zdigits2_pos (Zpos my) ltac:(lia)) as Py.
  simpl Zdigits2 in Px, Py.
  unfold mul, SFmul. apply binary_round_aux_rounds.
  - lia.
  - rewrite fexp_eq. lia.
  - cbn [located]. rewrite Pos2Z.inj_mul, mult_IZR, bpow_add.
    pose proof (bpow_pos ex). pose proof (bpow_pos ey).
    field. split; lra.
Qed.

(** ** Division *)

Lemma new_location_located (d r : Z) :
  0 < d -> 0 <= r < d ->
  located 0 (new_location d r) (IZR r / IZR d).
Proof.
  intros Hd Hr.
  assert (Pd : (0 < IZR d)%R) by (apply IZR_lt; lia).
  destruct (Z.eq_dec r 0) as [->|NZ].
  - unfold new_location, new_location_even, new_location_odd.
    destruct (Z.even d); cbn; unfold Rdiv; lra.
  - assert (Pr : (0 < IZR r)%R) by (apply IZR_lt; lia).
    assert (Lr : (IZR r < IZR d)%R) by (apply IZR_lt; lia).
    assert (P1 : (0 < IZR r / IZR d)%R) by (apply Rdiv_lt_0_compat; lra).
    assert (P2 : (IZR r / IZR d < 1)%R).
    { apply Rmult_lt_reg_r with (IZR d); [lra|].
      unfold Rdiv. rewrite Rmult_assoc, Rinv_l by lra. lra. }
    assert (Half : forall c : comparison, (2 * r ?= d) = c ->
       match c with
       | Lt => (IZR r / IZR d < / 2)%R
       | Eq => (IZR r / IZR d = / 2)%R
       | Gt => (/ 2 < IZR r / IZR d)%R
       end).
    { intros c Hc. destruct c.
      - apply Z.compare_eq in Hc. rewrite <- Hc, mult_IZR. field. lra.
      - rewrite Z.compare_lt_iff in Hc. apply IZR_lt in Hc.
        rewrite mult_IZR in Hc.
        apply Rmult_lt_reg_r with (IZR d); [lra|].
        unfold Rdiv. rewrite Rmult_assoc, Rinv_l by lra. lra.
      - rewrite Z.compare_gt_iff in Hc. apply IZR_lt in Hc.
        rewrite mult_IZR in Hc.
        apply Rmult_lt_reg_r with (IZR d); [lra|].
        unfold Rdiv. rewrite Rmult_assoc, Rinv_l by lra. lra. }
    assert (E0 : (r =? 0) = false) by (apply Z.eqb_neq; exact NZ).
    unfold new_location, new_location_even, new_location_odd.
    destruct (Z.even d) eqn:Ev; rewrite E0.
    + specialize (Half _ eq_refl).
      destruct (2 * r ?= d); cbn [located]; simpl IZR; lra.
    + assert (Odd : 2 * r <> d).
      { intros E. rewrite <- E, Z.even_mul in Ev. discriminate. }
      destruct (2 * r + 1 ?= d) eqn:C.
      * apply Z.compare_eq in C.
        assert (H2 : (2 * r ?= d) = Lt) by (apply Z.compare_lt_iff; lia).
        specialize (Half _ H2). cbn [located]. simpl IZR. lra.
      * rewrite Z.compare_lt_iff in C.
        assert (H2 : (2 * r ?= d) = Lt) by (apply Z.compare_lt_iff; lia).
        specialize (Half _ H2). cbn [located]. simpl IZR. lra.
      * rewrite Z.compare_gt_iff in C.
        assert (H2 : (2 * r ?= d) = Gt) by (apply Z.compare_gt_iff; lia).
        specialize (Half _ H2). cbn [located]. simpl IZR. lra.
Qed.

Lemma located_shift (m : Z) (l : location) (u : R) :
  located 0 l u -> located m l (IZR m + u).
Proof. destruct l as [|[]]; cbn [located]; simpl IZR; lra. Qed.

Lemma Zdigits2_nonneg (n : Z) : 0 <= n -> 0 <= Zdigits2 n.
Proof. destruct n; simpl; lia. Qed.

Lemma Zdigits2_div_lower (a b s : Z) :
  0 < a -> 0 < b -> 0 <= s ->
  Zdigits2 a + s - Zdigits2 b <= Zdigits2 (a * 2 ^ s / b).
Proof.
  intros Ha Hb Hs.
  pose proof (Zdigits2_bounds a Ha) as [A _].
  pose proof (Zdigits2_bounds b Hb) as [_ B].
  pose proof (Zdigits2_pos a Ha) as Pa. pose proof (Zdigits2_pos b Hb) as Pb.
  set (da := Zdigits2 a) in *. set (db := Zdigits2 b) in *.
  set (q := a * 2 ^ s / b).
  assert (P2 : 0 < 2 ^ s) by (apply Z.pow_pos_nonneg; lia).
  assert (Q0 : 0 <= q)
    by (apply Z.div_pos; [apply Z.mul_nonneg_nonneg|]; lia).
  destruct (Z_lt_le_dec (da + s - db) 1) as [Small|Large].
  - pose proof (Zdigits2_nonneg q Q0). lia.
  - assert (L : 2 ^ (da + s - db - 1) <= q).
    { apply Z.div_le_lower_bound; [lia|].
      assert (b * 2 ^ (da + s - db - 1) <= 2 ^ db * 2 ^ (da + s - db - 1)).
      { apply Z.mul_le_mono_nonneg_r; [apply Z.pow_nonneg|]; lia. }
      rewrite <- Z.pow_add_r in H by lia.
      replace (db + (da + s - db - 1)) with (da - 1 + s) in H by lia.
      rewrite Z.pow_add_r in H by lia.
      assert (2 ^ (da - 1) * 2 ^ s <= a * 2 ^ s)
        by (apply Z.mul_le_mono_nonneg_r; lia).
      lia. }
    assert (0 < 2 ^ (da + s - db - 1)) by (apply Z.pow_pos_nonneg; lia).
    pose proof (Zdigits2_bounds q ltac:(lia)) as [_ U].
    destruct (Z_lt_le_dec (Zdigits2 q) (da + s - db)) as [Lt|]; [|lia].
    assert (2 ^ Zdigits2 q <= 2 ^ (da + s - db - 1))
      by (apply Z.pow_le_mono_r; [lia|lia]).
    lia.
Qed.

Lemma shift_left_cases (m s : Z) :
  0 <= s ->
  match s with
  | 0 => m
  | Zpos _ => Z.shiftl m s
  | Zneg _ => 0
  end = m * 2 ^ s.
Proof.
  intros Hs. destruct s as [|p|p]; try lia.
  apply Z.shiftl_mul_pow2. lia.
Qed.

Theorem div_rounds (sx sy : bool) (mx my : positive) (ex ey : Z) :
  rounds_to (xorb sx sy)
    (IZR (Zpos mx) * bpow ex / (IZR (Zpos my) * bpow ey))
    (S754_finite sx mx ex / S754_finite sy my ey)%num.
Proof.
  unfold div, SFdiv, SFdiv_core_binary.
  set (d1 := Zdigits2 (Zpos mx)). set (d2 := Zdigits2 (Zpos my)).
  set (e' := Z.min (fexp prec emax (d1 + ex - (d2 + ey))) (ex - ey)).
  set (s := ex - ey - e').
  assert (Hs : 0 <= s) by (unfold s, e'; lia).
  rewrite (shift_left_cases (Zpos mx) s Hs).
  pose proof (Z_div_mod (Zpos mx * 2 ^ s) (Zpos my) ltac:(lia)) as DM.
  assert (Q : fst (Z.div_eucl (Zpos mx * 2 ^ s) (Zpos my))
              = Zpos mx * 2 ^ s / Zpos my) by reflexivity.
  destruct (Z.div_eucl (Zpos mx * 2 ^ s) (Zpos my)) as [q r].
  cbn [fst] in Q. destruct DM as [DM Hr].
  assert (P2 : 0 < 2 ^ s) by (apply Z.pow_pos_nonneg; lia).
  assert (Hq : 0 <= q)
    by (rewrite Q; apply Z.div_pos; [apply Z.mul_nonneg_nonneg|]; lia).
  apply binary_round_aux_rounds.
  - exact Hq.
  - pose proof (Zdigits2_div_lower (Zpos mx) (Zpos my) s ltac:(lia) ltac:(lia) Hs) as D.
    rewrite <- Q in D. fold d1 d2 in D.
    subst s e'. rewrite !fexp_eq in *. lia.
  - assert (E : (IZR (Zpos mx) * bpow ex / (IZR (Zpos my) * bpow ey) / bpow e'
                 = IZR q + IZR r / IZR (Zpos my))%R).
    { assert (Py : (0 < IZR (Zpos my))%R) by (apply IZR_lt; lia).
      pose proof (bpow_pos ex). pose proof (bpow_pos ey). pose proof (bpow_pos e').
      pose proof (bpow_pos s).
      assert (Es : bpow ex = (bpow s * bpow ey * bpow e')%R).
      { rewrite <- !bpow_add. f_equal. unfold s. lia. }
      apply (f_equal IZR) in DM.
      rewrite plus_IZR, !mult_IZR, <- bpow_IZR in DM by lia.
      rewrite Es. field_simplify; try lra.
      replace (IZR (Zpos mx) * bpow s)%R with (IZR (Zpos my) * IZR q + IZR r)%R
        by lra.
      field. lra. }
    rewrite E. apply located_shift. apply new_location_located; lia.
Qed.

(** ** Results of the arithmetic are binary64 values *)

Lemma rounds_to_wf (s : bool) (t : R) (r : number) :
  rounds_to s t r -> wf r = true.
Proof. now intros [H _]. Qed.

Lemma wf_mul (x y : number) :
  wf x = true -> wf y = true -> wf (x * y)%num = true.
Proof.
  intros Wx Wy.
  destruct x as [sx|sx| |sx mx ex], y as [sy|sy| |sy my ey]; try reflexivity.
  exact (rounds_to_wf _ _ _ (mul_rounds sx sy mx my ex ey Wx Wy)).
Qed.

Lemma wf_div (x y : number) : wf (x / y)%num = true.
Proof.
  destruct x as [sx|sx| |sx mx ex], y as [sy|sy| |sy my ey]; try reflexivity.
  exact (rounds_to_wf _ _ _ (div_rounds sx sy mx my ex ey)).
Qed.

Lemma iter_xO_shift (d m : positive) :
  Zpos (Pos.iter xO m d) = Zpos m * 2 ^ Zpos d.
Proof.
  revert m. induction d using Pos.peano_ind; intros m.
  - simpl. lia.
  - rewrite Pos.iter_succ, Pos2Z.inj_succ, Z.pow_succ_r by lia.
    rewrite Pos2Z.inj_xO, IHd. lia.
Qed.

Lemma binary_round_rounds (s : bool) (m : positive) (e : Z) :
  rounds_to s (IZR (Zpos m) * bpow e) (binary_round prec emax s m e).
Proof.
  unfold binary_round, shl_align.
  set (fe := fexp prec emax (Zpos (digits2_pos m) + e)).
  destruct (fe - e) as [|d|d] eqn:D.
  - apply binary_round_aux_rounds; [lia| |].
    + simpl Zdigits2. fold fe. lia.
    + cbn [located]. pose proof (bpow_pos e). field. lra.
  - apply binary_round_aux_rounds; [lia| |].
    + simpl Zdigits2. fold fe. lia.
    + cbn [located]. pose proof (bpow_pos e). field. lra.
  - assert (E : e = fe + Zpos d) by lia.
    pose proof (digits2_bounds m) as [B1 B2].
    assert (P : 0 < 2 ^ Zpos d) by (apply Z.pow_pos_nonneg; lia).
    assert (Dg : Zdigits2 (Zpos (Pos.iter xO m d)) = Zpos (digits2_pos m) + Zpos d).
    { apply Zdigits2_unique; [|lia]. rewrite iter_xO_shift.
      replace (Zpos (digits2_pos m) + Zpos d - 1)
        with (Zpos (digits2_pos m) - 1 + Zpos d) by lia.
      rewrite !Z.pow_add_r by lia. split.
      - apply Z.mul_le_mono_nonneg_r; lia.
      - apply Z.mul_lt_mono_pos_r; lia. }
    apply binary_round_aux_rounds; [lia| |].
    + rewrite Dg.
      replace (Zpos (digits2_pos m) + Zpos d + fe)
        with (Zpos (digits2_pos m) + e) by lia.
      fold fe. lia.
    + cbn [located]. rewrite iter_xO_shift, mult_IZR, <- bpow_IZR by lia.
      rewrite E at 1. rewrite bpow_add.
      pose proof (bpow_pos fe). field. lra.
Qed.

Lemma wf_binary_normalize (m e : Z) :
  wf (binary_normalize prec emax m e false) = true.
Proof.
  destruct m as [|p|p]; [reflexivity| |]; simpl;
    exact (rounds_to_wf _ _ _ (binary_round_rounds _ p e)).
Qed.

Lemma wf_add (x y : number) :
  wf x = true -> wf y = true -> wf (x + y)%num = true.
Proof.
  intros Wx Wy.
  destruct x as [sx|sx| |sx mx ex], y as [sy|sy| |sy my ey];
    try reflexivity; try assumption;
    try (destruct sx, sy; reflexivity).
  apply wf_binary_normalize.
Qed.

Lemma wf_sub (x y : number) :
  wf x = true -> wf y = true -> wf (x - y)%num = true.
Proof.
  intros Wx Wy.
  destruct x as [sx|sx| |sx mx ex], y as [sy|sy| |sy my ey];
    try reflexivity; try assumption;
    try (destruct sx, sy; reflexivity).
  apply wf_binary_normalize.
Qed.

(** ** Decimal values *)

Lemma round_to_number_rounds (s : bool) (p q : Z) :
  0 < p -> 0 < q ->
  rounds_to s (IZR p / IZR q) (round_to_number s p q).
Proof.
  intros Hp Hq. destruct p as [|p|p], q as [|q|q]; try lia.
  unfold round_to_number.
  pose proof (div_rounds s false p q 0 0) as H.
  rewrite xorb_false_r in H.
  replace (IZR (Zpos p) * bpow 0 / (IZR (Zpos q) * bpow 0))%R
    with (IZR (Zpos p) / IZR (Zpos q))%R in H; [exact H|].
  unfold bpow. simpl. assert (0 < IZR (Zpos q))%R by (apply IZR_lt; lia).
  field. lra.
Qed.

Lemma wf_round_to_number (s : bool) (p q : Z) : wf (round_to_number s p q) = true.
Proof.
  destruct p as [|p|p], q as [|q|q]; try reflexivity.
  exact (rounds_to_wf _ _ _ (round_to_number_rounds s (Zpos p) (Zpos q) eq_refl eq_refl)).
Qed.

Lemma wf_number_of_decimal (s : bool) (m e : Z) :
  wf (number_of_decimal s m e) = true.
Proof. unfold number_of_decimal. destruct (0 <=? e); apply wf_round_to_number. Qed.

(** A value that is a multiple of a binary64 value's unit is rounded to
    that very value. *)
Lemma binary_round_aux_exact (s : bool) (m : positive) (e k : Z) :
  wf (S754_finite s m e) = true -> 0 <= k ->
  binary_round_aux prec emax s (Zpos m * 2 ^ k) (e - k) loc_Exact
  = S754_finite s m e.
Proof.
  intros W Hk. apply wf_finite in W. destruct W as [C Le].
  pose proof C as C'. unfold canonical_mantissa in C'. apply Z.eqb_eq in C'.
  assert (P : 0 < 2 ^ k) by (apply Z.pow_pos_nonneg; lia).
  pose proof (digits2_bounds m) as [B1 B2].
  assert (Dg : Zdigits2 (Zpos m * 2 ^ k) = Zpos (digits2_pos m) + k).
  { apply Zdigits2_unique; [|lia].
    replace (Zpos (digits2_pos m) + k - 1)
      with (Zpos (digits2_pos m) - 1 + k) by lia.
    rewrite !Z.pow_add_r by lia. split.
    - apply Z.mul_le_mono_nonneg_r; lia.
    - apply Z.mul_lt_mono_pos_r; lia. }
  assert (F : fexp prec emax (Zdigits2 (Zpos m * 2 ^ k) + (e - k)) = e).
  { rewrite Dg. replace (Zpos (digits2_pos m) + k + (e - k))
      with (Zpos (digits2_pos m) + e) by lia. exact C'. }
  unfold binary_round_aux.
  pose proof (shr_fexp_located (Zpos m * 2 ^ k) (e - k) loc_Exact
                (IZR (Zpos m * 2 ^ k)) ltac:(lia) ltac:(lia) eq_refl) as S1.
  destruct (shr_fexp prec emax (Zpos m * 2 ^ k) (e - k) loc_Exact) as [mrs1 e1].
  destruct S1 as (He1 & [_ L1] & M1).
  rewrite F in He1. subst e1.
  replace (e - (e - k)) with k in * by lia.
  rewrite Z.div_mul in M1 by lia.
  assert (U : (IZR (Zpos m * 2 ^ k) / IZR (2 ^ k) = IZR (Zpos m))%R).
  { rewrite mult_IZR. field. apply not_0_IZR. lia. }
  rewrite U, M1 in L1.
  assert (R1 : round_nearest_even (shr_m mrs1) (loc_of_shr_record mrs1) = Zpos m).
  { rewrite M1. destruct (loc_of_shr_record mrs1) as [|[]];
      cbn [located round_nearest_even] in *; try reflexivity; lra. }
  rewrite R1. unfold shr_fexp. simpl Zdigits2. rewrite C', Z.sub_diag.
  simpl. apply Z.leb_le in Le. rewrite Le. reflexivity.
Qed.

Lemma round_to_number_exact (s : bool) (m : positive) (e : Z) :
  wf (S754_finite s m e) = true -> 0 <= e ->
  round_to_number s (Zpos m * 2 ^ e) 1 = S754_finite s m e.
Proof.
  intros W He.
  assert (P : 0 < 2 ^ e) by (apply Z.pow_pos_nonneg; lia).
  destruct (Zpos m * 2 ^ e) as [|p|p] eqn:Ep; try lia.
  unfold round_to_number, SFdiv, SFdiv_core_binary.
  change (Zdigits2 1) with 1.
  set (e' := Z.min (fexp prec emax (Zdigits2 (Zpos p) + 0 - (1 + 0))) (0 - 0)).
  assert (He' : e' <= 0) by (unfold e'; lia).
  rewrite (shift_left_cases (Zpos p) (0 - 0 - e') ltac:(lia)).
  assert (DE : Z.div_eucl (Zpos p * 2 ^ (0 - 0 - e')) 1
               = (Zpos p * 2 ^ (0 - 0 - e'), 0)).
  { pose proof (Z_div_mod (Zpos p * 2 ^ (0 - 0 - e')) 1 ltac:(lia)) as DM.
    destruct (Z.div_eucl _ 1) as [q r]. destruct DM as [DM Hr].
    f_equal; lia. }
  rewrite DE. change (new_location 1 0) with loc_Exact.
  rewrite xorb_false_r, <- Ep, <- Z.mul_assoc, <- Z.pow_add_r by lia.
  replace e' with (e - (e + (0 - 0 - e'))) at 2 by lia.
  apply binary_round_aux_exact; [exact W|lia].
Qed.

(** ** Decimal digit strings *)

Lemma code_digit_char (d : Z) : 0 <= d < 10 -> code (digit_char d) = 48 + d.
Proof.
  intros H. unfold code, digit_char.
  rewrite N_ascii_embedding by lia. lia.
Qed.

Lemma digit_char_is_digit (d : Z) : 0 <= d < 10 -> is_digit (digit_char d) = true.
Proof.
  intros H. unfold is_digit. rewrite code_digit_char by exact H.
  apply andb_true_iff. split; apply Z.leb_le; lia.
Qed.

Lemma digit_val_char (d : Z) : 0 <= d < 10 -> digit_val (digit_char d) = d.
Proof. intros H. unfold digit_val. rewrite code_digit_char by exact H. lia. Qed.

Lemma digit_val_range (c : ascii) : is_digit c = true -> 0 <= digit_val c < 10.
Proof.
  unfold is_digit, digit_val. intros H. apply andb_true_iff in H.
  destruct H as [H1 H2]. apply Z.leb_le in H1, H2. lia.
Qed.

Lemma value_of_digits_acc (ds : list ascii) (a : Z) :
  fold_left (fun a c => 10 * a + digit_val c) ds a
  = a * 10 ^ Z.of_nat (List.length ds) + value_of_digits ds.
Proof.
  unfold value_of_digits. revert a.
  induction ds as [|c ds IH]; intros a.
  - simpl. lia.
  - cbn [fold_left List.length]. rewrite IH, (IH (10 * 0 + digit_val c)).
    rewrite Nat2Z.inj_succ, Z.pow_succ_r by lia. ring.
Qed.

Lemma value_of_digits_app (a b : list ascii) :
  value_of_digits (a ++ b)
  = value_of_digits a * 10 ^ Z.of_nat (List.length b) + value_of_digits b.
Proof.
  unfold value_of_digits at 1. rewrite fold_left_app.
  rewrite value_of_digits_acc. reflexivity.
Qed.

Lemma value_of_digits_nonneg (ds : list ascii) :
  Forall (fun c => is_digit c = true) ds -> 0 <= value_of_digits ds.
Proof.
  induction ds as [|c ds IH] using rev_ind; intros H.
  - reflexivity.
  - apply Forall_app in H. destruct H as [H1 H2].
    rewrite value_of_digits_app. cbn [List.length Z.of_nat].
    inversion H2 as [|? ? Hc _]; subst.
    apply digit_val_range in Hc. specialize (IH H1).
    unfold value_of_digits at 2. cbn [fold_left]. simpl Z.pow. lia.
Qed.

Lemma value_of_zeros (k : nat) : value_of_digits (repeat "0"%char k) = 0.
Proof.
  induction k as [|k IH]; [reflexivity|].
  change (repeat "0"%char (S k)) with (["0"%char] ++ repeat "0"%char k).
  rewrite value_of_digits_app, IH. reflexivity.
Qed.

Lemma zeros_are_digits (k : nat) :
  Forall (fun c => is_digit c = true) (repeat "0"%char k).
Proof. induction k; simpl; constructor; auto. Qed.

Lemma digits_fuel_spec (fuel : nat) (n : Z) (acc : list ascii) :
  0 <= n < 2 ^ Z.of_nat fuel -> fuel <> O ->
  exists ds, digits_fuel fuel n acc = ds ++ acc /\ digits_for n ds.
Proof.
  revert n acc. induction fuel as [|k IH]; intros n acc Hn Hf.
  - contradiction.
  - cbn [digits_fuel].
    pose proof (Z.mod_pos_bound n 10 ltac:(lia)) as Hmod.
    pose proof (Z.div_mod n 10 ltac:(lia)) as Hdm.
    destruct (Z.eqb_spec (n / 10) 0) as [E|NE].
    + exists [digit_char (n mod 10)]. split; [reflexivity|].
      assert (n = n mod 10) by lia.
      repeat split.
      * constructor; [|constructor]. now apply digit_char_is_digit.
      * unfold value_of_digits. cbn [fold_left].
        rewrite digit_val_char by lia. lia.
      * discriminate.
      * simpl. lia.
      * intros P. simpl. lia.
    + assert (Hq : 0 < n / 10) by (pose proof (Z.div_pos n 10); lia).
      assert (Hk : 0 <= n / 10 < 2 ^ Z.of_nat k).
      { split; [lia|]. rewrite Nat2Z.inj_succ, Z.pow_succ_r in Hn by lia. lia. }
      assert (Hk0 : k <> O) by (intros ->; simpl in Hk; lia).
      destruct (IH (n / 10) (digit_char (n mod 10) :: acc) Hk Hk0)
        as (ds & E & F & V & NE' & U & L).
      exists (ds ++ [digit_char (n mod 10)]). split.
      * rewrite E, <- app_assoc. reflexivity.
      * specialize (L Hq).
        assert (Len : Z.of_nat (List.length (ds ++ [digit_char (n mod 10)]))
                      = Z.of_nat (List.length ds) + 1).
        { rewrite length_app. simpl. lia. }
        assert (Lpos : 0 < Z.of_nat (List.length ds)).
        { destruct ds; [contradiction|simpl; lia]. }
        repeat split.
        -- apply Forall_app. split; [exact F|].
           constructor; [|constructor]. now apply digit_char_is_digit.
        -- rewrite value_of_digits_app, V. cbn [List.length Z.of_nat].
           unfold value_of_digits. cbn [fold_left].
           rewrite digit_val_char by lia. simpl Z.pow. lia.
        -- destruct ds; discriminate.
        -- rewrite Len, Z.pow_add_r by lia. simpl (10 ^ 1). lia.
        -- intros _. rewrite Len.
           replace (Z.of_nat (List.length ds) + 1 - 1)
             with (Z.of_nat (List.length ds) - 1 + 1) by lia.
           rewrite Z.pow_add_r by lia. simpl (10 ^ 1). lia.
Qed.

Lemma digits_of_spec (n : Z) : 0 <= n -> digits_for n (digits_of n).
Proof.
  intros Hn. unfold digits_of.
  destruct (digits_fuel_spec (S (Z.to_nat (Z.log2 n))) n []) as (ds & E & H).
  - split; [exact Hn|].
    rewrite Nat2Z.inj_succ, Z2Nat.id by apply Z.log2_nonneg.
    destruct (Z.eq_dec n 0) as [->|NZ]; [reflexivity|].
    apply Z.log2_spec. lia.
  - discriminate.
  - rewrite E, app_nil_r. exact H.
Qed.

Lemma digits_for_length (n k : Z) (ds : list ascii) :
  digits_for n ds -> 10 ^ (k - 1) <= n < 10 ^ k -> 0 < n ->
  Z.of_nat (List.length ds) = k.
Proof.
  intros (_ & _ & _ & U & L) [A B] P. specialize (L P).
  set (l := Z.of_nat (List.length ds)) in *.
  assert (0 <= l) by (unfold l; lia).
  destruct (Z.lt_trichotomy l k) as [Lt|[E|Gt]]; [|exact E|].
  - assert (10 ^ l <= 10 ^ (k - 1)) by (apply Z.pow_le_mono_r; lia). lia.
  - assert (0 < k).
    { destruct (Z_lt_le_dec 0 k); [assumption|].
      assert (10 ^ k <= 1); [|lia].
      destruct (Z.eq_dec k 0) as [->|]; [simpl; lia|].
      rewrite Z.pow_neg_r by lia. lia. }
    assert (10 ^ k <= 10 ^ (l - 1)) by (apply Z.pow_le_mono_r; lia). lia.
Qed.

(** ** Scanning digits *)

Lemma span_digits_app (ds rest : list ascii) :
  Forall (fun c => is_digit c = true) ds ->
  match rest with c :: _ => is_digit c = false | [] => True end ->
  span_digits (ds ++ rest) = (ds, rest).
Proof.
  intros F R. induction F as [|c ds Hc F IH].
  - destruct rest as [|c r]; [reflexivity|]. simpl. now rewrite R.
  - simpl. now rewrite Hc, IH.
Qed.

Lemma span_digits_all (ds : list ascii) :
  Forall (fun c => is_digit c = true) ds -> span_digits ds = (ds, []).
Proof.
  intros F. rewrite <- (app_nil_r ds) at 1. now apply span_digits_app.
Qed.

Lemma digit_not_sign (c : ascii) :
  is_digit c = true ->
  Ascii.eqb c "-" = false /\ Ascii.eqb c "+" = false /\
  Ascii.eqb "I" c = false /\ is_white_space c = false.
Proof.
  intros H. repeat split.
  - destruct (Ascii.eqb_spec c "-"%char) as [->|]; [discriminate|reflexivity].
  - destruct (Ascii.eqb_spec c "+"%char) as [->|]; [discriminate|reflexivity].
  - destruct (Ascii.eqb_spec "I"%char c) as [<-|]; [discriminate|reflexivity].
  - unfold is_digit in H. unfold is_white_space.
    apply andb_true_iff in H. destruct H as [H1 H2].
    apply Z.leb_le in H1, H2.
    apply orb_false_iff; split; [apply orb_false_iff; split|].
    + apply andb_false_iff. right. apply Z.leb_gt. lia.
    + apply Z.eqb_neq. lia.
    + apply Z.eqb_neq. lia.
Qed.

(** ** toFixed followed by parseFloat *)

Lemma fixed_digits_split (n : Z) (f : nat) :
  0 <= n ->
  exists ip fp,
    fixed_digits n f
      = match f with O => ip | _ => ip ++ "."%char :: fp end /\
    Forall (fun c => is_digit c = true) ip /\
    Forall (fun c => is_digit c = true) fp /\
    ip <> [] /\ List.length fp = f /\ value_of_digits (ip ++ fp) = n.
Proof.
  intros Hn. destruct (digits_of_spec n Hn) as (F & V & NE & _).
  unfold fixed_digits. destruct f as [|f'].
  - exists (digits_of n), []. rewrite app_nil_r. repeat split; auto.
  - set (f := S f').
    set (m := repeat "0"%char (f + 1 - List.length (digits_of n)) ++ digits_of n).
    assert (Fm : Forall (fun c => is_digit c = true) m).
    { apply Forall_app. split; [apply zeros_are_digits|exact F]. }
    assert (Lm : (f + 1 <= List.length m)%nat).
    { unfold m. rewrite length_app, repeat_length. lia. }
    assert (Vm : value_of_digits m = n).
    { unfold m. rewrite value_of_digits_app, value_of_zeros. lia. }
    rewrite <- (firstn_skipn (List.length m - f) m) in Fm, Vm.
    apply Forall_app in Fm. destruct Fm as [F1 F2].
    exists (firstn (List.length m - f) m), (skipn (List.length m - f) m).
    repeat split; auto.
    + intros E. apply (f_equal (@List.length ascii)) in E.
      rewrite length_firstn in E. simpl in E. lia.
    + rewrite length_skipn. lia.
Qed.

Lemma read_sign_minus (cs : list ascii) : read_sign ("-"%char :: cs) = (true, cs).
Proof. reflexivity. Qed.

Lemma read_sign_digit (c : ascii) (cs : list ascii) :
  is_digit c = true -> read_sign (c :: cs) = (false, c :: cs).
Proof.
  intros H. destruct (digit_not_sign c H) as (A & B & _).
  unfold read_sign. now rewrite A, B.
Qed.

Lemma starts_with_Infinity_digit (c : ascii) (cs : list ascii) :
  is_digit c = true ->
  starts_with (list_ascii_of_string "Infinity") (c :: cs) = false.
Proof.
  intros H. destruct (digit_not_sign c H) as (_ & _ & A & _).
  change (list_ascii_of_string "Infinity")
    with ("I"%char :: list_ascii_of_string "nfinity").
  cbn [starts_with]. now rewrite A.
Qed.

(** What [parse_decimal] makes of a digit string with a fraction and an
    exponent part. *)
Lemma parse_decimal_digits (s : bool) (ip fp rest : list ascii) (dot : bool) :
  Forall (fun c => is_digit c = true) ip ->
  Forall (fun c => is_digit c = true) fp ->
  ip <> [] ->
  (dot = false -> fp = []) ->
  match rest with
  | c :: _ => is_digit c = false /\ Ascii.eqb c "." = false
  | [] => True
  end ->
  parse_decimal ((if s then ["-"%char] else []) ++ ip
                 ++ (if dot then "."%char :: fp else []) ++ rest)
  = number_of_decimal s (value_of_digits (ip ++ fp))
      (exponent_part rest - Z.of_nat (List.length fp)).
Proof.
  intros Fi Ff NE Hdot Hrest.
  destruct ip as [|c ip]; [contradiction|].
  inversion Fi as [|? ? Hc Fi']; subst.
  unfold parse_decimal.
  assert (RS : read_sign ((if s then ["-"%char] else []) ++ (c :: ip)
                 ++ (if dot then "."%char :: fp else []) ++ rest)
               = (s, (c :: ip) ++ (if dot then "."%char :: fp else []) ++ rest)).
  { destruct s; [apply read_sign_minus|].
    cbn [app]. now apply read_sign_digit. }
  rewrite RS. cbv beta iota. rewrite <- app_comm_cons.
  rewrite starts_with_Infinity_digit by exact Hc.
  rewrite app_comm_cons.
  rewrite span_digits_app; [|exact Fi|].
  - destruct dot.
    + cbn [app]. rewrite Ascii.eqb_refl.
      rewrite span_digits_app; [|exact Ff|].
      * cbn [app]. reflexivity.
      * destruct rest; [exact I|apply Hrest].
    + rewrite (Hdot eq_refl). cbn [app].
      destruct rest as [|r rest'].
      * rewrite app_nil_r. reflexivity.
      * destruct Hrest as [_ Hr]. rewrite Hr, app_nil_r. reflexivity.
  - destruct dot; [reflexivity|].
    cbn [app]. destruct rest; [exact I|apply Hrest].
Qed.

Lemma parse_decimal_fixed (s : bool) (n : Z) (f : nat) :
  0 <= n ->
  parse_decimal ((if s then ["-"%char] else []) ++ fixed_digits n f)
  = number_of_decimal s n (- Z.of_nat f).
Proof.
  intros Hn.
  destruct (fixed_digits_split n f Hn) as (ip & fp & E & Fi & Ff & NE & L & V).
  rewrite E. destruct f as [|f'].
  - assert (fp = []) by (destruct fp; [reflexivity|discriminate]). subst fp.
    pose proof (parse_decimal_digits s ip [] [] false Fi Ff NE (fun _ => eq_refl) I) as P.
    cbn [app] in P. rewrite !app_nil_r in P. rewrite P.
    rewrite app_nil_r in V. rewrite V. reflexivity.
  - pose proof (parse_decimal_digits s ip fp [] true Fi Ff NE
                  (fun H => ltac:(discriminate)) I) as P.
    rewrite app_nil_r in P. rewrite P, V, L. reflexivity.
Qed.

Lemma skip_white_space_signed (s : bool) (cs : list ascii) :
  match cs with c :: _ => is_digit c = true | [] => False end ->
  skip_white_space ((if s then ["-"%char] else []) ++ cs)
  = (if s then ["-"%char] else []) ++ cs.
Proof.
  intros H. destruct s; [reflexivity|].
  destruct cs as [|c cs]; [contradiction|].
  destruct (digit_not_sign c H) as (_ & _ & _ & W).
  cbn [app skip_white_space]. now rewrite W.
Qed.

Lemma fixed_digits_head (n : Z) (f : nat) :
  0 <= n ->
  match fixed_digits n f with c :: _ => is_digit c = true | [] => False end.
Proof.
  intros Hn.
  destruct (fixed_digits_split n f Hn) as (ip & fp & E & Fi & _ & NE & _).
  rewrite E. destruct ip as [|c ip]; [contradiction|].
  inversion Fi; subst. destruct f; assumption.
Qed.

Lemma parseFloat_fixed (s : bool) (n : Z) (f : nat) :
  0 <= n ->
  parseFloat (string_of_list_ascii
                ((if s then ["-"%char] else []) ++ fixed_digits n f))
  = number_of_decimal s n (- Z.of_nat f).
Proof.
  intros Hn. unfold parseFloat.
  rewrite list_ascii_of_string_of_list_ascii.
  rewrite skip_white_space_signed by (apply fixed_digits_head; exact Hn).
  apply parse_decimal_fixed. exact Hn.
Qed.

Lemma magnitude_positive (m : positive) (e : Z) :
  0 < fst (magnitude m e) /\ 0 < snd (magnitude m e).
Proof.
  unfold magnitude. destruct (0 <=? e) eqn:E; cbn [fst snd].
  - apply Z.leb_le in E. split; [|lia].
    apply Z.mul_pos_pos; [lia|apply Z.pow_pos_nonneg; lia].
  - apply Z.leb_gt in E. split; [lia|apply Z.pow_pos_nonneg; lia].
Qed.

Lemma round_half_up_nonneg (pq : Z * Z) (f : Z) :
  0 < fst pq -> 0 < snd pq -> 0 <= f -> 0 <= round_half_up pq f.
Proof.
  destruct pq as [p q]. cbn [fst snd]. intros Hp Hq Hf. unfold round_half_up.
  apply Z.div_pos; [|lia].
  assert (0 < 10 ^ f) by (apply Z.pow_pos_nonneg; lia). nia.
Qed.

(** ** Exponent notation read back *)

Lemma drop_zeros_spec (cs : list ascii) :
  exists z, cs = repeat "0"%char z ++ drop_zeros cs.
Proof.
  induction cs as [|c cs [z IH]].
  - exists O. reflexivity.
  - simpl. destruct (Ascii.eqb_spec c "0"%char) as [->|NE].
    + exists (S z). simpl. now rewrite <- IH.
    + exists O. reflexivity.
Qed.

Lemma rev_zeros (z : nat) : rev (repeat "0"%char z) = repeat "0"%char z.
Proof.
  induction z as [|z IH]; [reflexivity|].
  simpl. rewrite IH. clear IH.
  induction z as [|z IH]; [reflexivity|]. simpl. now rewrite IH.
Qed.

Lemma strip_trailing_zeros_spec (ds : list ascii) :
  exists z, ds = strip_trailing_zeros ds ++ repeat "0"%char z.
Proof.
  unfold strip_trailing_zeros.
  destruct (drop_zeros_spec (rev ds)) as [z E].
  exists z. rewrite <- (rev_involutive ds) at 1.
  rewrite E at 1. rewrite rev_app_distr, rev_zeros. reflexivity.
Qed.

Lemma exponent_part_plus (n : Z) :
  0 <= n -> exponent_part ("e"%char :: "+"%char :: digits_of n) = n.
Proof.
  intros Hn. destruct (digits_of_spec n Hn) as (F & V & NE & _).
  unfold exponent_part. rewrite Ascii.eqb_refl. cbn [orb].
  change (read_sign ("+"%char :: digits_of n)) with (false, digits_of n).
  cbv beta iota. rewrite span_digits_all by exact F.
  cbv beta iota. destruct (digits_of n); [contradiction|exact V].
Qed.

Lemma parse_exponent_form (s : bool) (ds : list ascii) (e10 : Z) :
  Forall (fun c => is_digit c = true) ds ->
  0 < value_of_digits ds -> 0 <= e10 ->
  parse_decimal ((if s then ["-"%char] else []) ++ exponent_form ds e10)
  = round_to_number s (value_of_digits ds * 10 ^ e10) 1.
Proof.
  intros F V He. unfold exponent_form.
  destruct (strip_trailing_zeros_spec ds) as [z E].
  set (st := strip_trailing_zeros ds) in *.
  assert (Fs : Forall (fun c => is_digit c = true) st).
  { rewrite E in F. apply Forall_app in F. apply F. }
  assert (Vs : value_of_digits ds = value_of_digits st * 10 ^ Z.of_nat z).
  { rewrite E at 1. rewrite value_of_digits_app, value_of_zeros, repeat_length. lia. }
  assert (Ls : Z.of_nat (List.length ds) = Z.of_nat (List.length st) + Z.of_nat z).
  { rewrite E at 1. rewrite length_app, repeat_length. lia. }
  set (n1 := e10 + Z.of_nat (List.length ds) - 1).
  assert (NEs : st <> []).
  { intros N. rewrite N in Vs. change (value_of_digits []) with 0 in Vs. lia. }
  assert (Hn1 : 0 <= n1).
  { unfold n1. destruct st; [contradiction|]. simpl List.length in Ls. lia. }
  assert (Rest : match "e"%char :: "+"%char :: digits_of n1 with
                 | c :: _ => is_digit c = false /\ Ascii.eqb c "." = false
                 | [] => True
                 end) by (split; reflexivity).
  assert (Final : forall fp : list ascii,
            List.length st = S (List.length fp) ->
            number_of_decimal s (value_of_digits st) (n1 - Z.of_nat (List.length fp))
            = round_to_number s (value_of_digits ds * 10 ^ e10) 1).
  { intros fp L. unfold number_of_decimal, n1.
    replace (e10 + Z.of_nat (List.length ds) - 1 - Z.of_nat (List.length fp))
      with (Z.of_nat z + e10) by lia.
    replace (0 <=? Z.of_nat z + e10) with true by (symmetry; apply Z.leb_le; lia).
    f_equal. rewrite Vs, Z.pow_add_r by lia. ring. }
  destruct st as [|d [|d' r]] eqn:Est; [contradiction| |].
  - pose proof (parse_decimal_digits s [d] []
                  ("e"%char :: "+"%char :: digits_of n1) false Fs (Forall_nil _)
                  ltac:(discriminate) (fun _ => eq_refl) Rest) as P.
    cbn [app] in P. cbn [app]. rewrite P.
    rewrite exponent_part_plus by exact Hn1.
    apply (Final []). reflexivity.
  - inversion Fs as [|? ? Hd Fr]; subst.
    pose proof (parse_decimal_digits s [d] (d' :: r)
                  ("e"%char :: "+"%char :: digits_of n1) true
                  (Forall_cons _ Hd (Forall_nil _)) Fr
                  ltac:(discriminate) (fun H => ltac:(discriminate)) Rest) as P.
    cbn [app] in P. cbn [app]. rewrite P.
    rewrite exponent_part_plus by exact Hn1.
    apply (Final (d' :: r)). reflexivity.
Qed.

Lemma number_same_eq (x y : number) : number_same x y = true -> x = y.
Proof.
  destruct x as [a|a| |a m e], y as [b|b| |b m' e']; simpl; try discriminate;
    try reflexivity.
  - intros H. apply Bool.eqb_prop in H. now subst.
  - intros H. apply Bool.eqb_prop in H. now subst.
  - intros H. apply andb_true_iff in H. destruct H as [H H3].
    apply andb_true_iff in H. destruct H as [H1 H2].
    apply Bool.eqb_prop in H1. apply Pos.eqb_eq in H2. apply Z.eqb_eq in H3.
    now subst.
Qed.

Lemma binary_round_aux_sign (s : bool) (a b : Z) (l : location)
  (m : positive) (e : Z) :
  binary_round_aux prec emax false a b l = S754_finite false m e ->
  binary_round_aux prec emax s a b l = S754_finite s m e.
Proof.
  unfold binary_round_aux.
  destruct (shr_fexp prec emax a b l) as [mrs1 e1].
  destruct (shr_fexp prec emax _ e1 loc_Exact) as [mrs2 e2].
  destruct (shr_m mrs2); try discriminate.
  destruct (e2 <=? emax - prec); try discriminate.
  now intros [= -> ->].
Qed.

Lemma round_to_number_sign (s : bool) (p q : Z) (m : positive) (e : Z) :
  round_to_number false p q = S754_finite false m e ->
  round_to_number s p q = S754_finite s m e.
Proof.
  unfold round_to_number. destruct p as [|p|p], q as [|q|q]; try discriminate.
  unfold SFdiv.
  destruct (SFdiv_core_binary prec emax (Zpos p) 0 (Zpos q) 0) as [[mz ez] lz].
  rewrite !xorb_false_r. apply binary_round_aux_sign.
Qed.

Lemma shortest_candidate_ok (x : number) (pq : Z * Z) (scale c : Z) :
  shortest_candidate x pq scale = Some c ->
  round_to_number false (c * scale) 1 = x.
Proof.
  unfold shortest_candidate. destruct pq as [p q].
  set (lo := p / (q * scale)).
  destruct (number_same (round_to_number false (lo * scale) 1) x) eqn:A;
    destruct (number_same (round_to_number false ((lo + 1) * scale) 1) x) eqn:B;
    try discriminate.
  - destruct (2 * p ?= (lo + (lo + 1)) * (q * scale)).
    + destruct (Z.even lo); intros [= <-]; now apply number_same_eq.
    + intros [= <-]; now apply number_same_eq.
    + intros [= <-]; now apply number_same_eq.
  - intros [= <-]; now apply number_same_eq.
  - intros [= <-]; now apply number_same_eq.
Qed.

Lemma shortest_search_ok (fuel : nat) (x : number) (pq : Z * Z) (D k c e10 : Z) :
  shortest_search fuel x pq D k = Some (c, e10) ->
  round_to_number false (c * 10 ^ e10) 1 = x.
Proof.
  revert k. induction fuel as [|fuel IH]; intros k; [discriminate|].
  cbn [shortest_search].
  destruct (shortest_candidate x pq (10 ^ (D - k))) as [c'|] eqn:C.
  - intros [= -> <-]. now apply shortest_candidate_ok in C.
  - apply IH.
Qed.

Lemma large_is_integer (m : positive) (e : Z) :
  wf (S754_finite false m e) = true ->
  ge_pow10 (magnitude m e) 21 = true ->
  0 <= e /\ magnitude m e = (Zpos m * 2 ^ e, 1).
Proof.
  intros W G. apply wf_finite in W. destruct W as [C _].
  apply canonical_facts in C. destruct C as (_ & D & _).
  pose proof (digits2_bounds m) as [_ B].
  assert (Zpos m < 2 ^ 53).
  { assert (2 ^ Zpos (digits2_pos m) <= 2 ^ 53) by (apply Z.pow_le_mono_r; lia).
    lia. }
  unfold magnitude in *. destruct (Z.leb_spec 0 e) as [He|He].
  - split; [exact He|reflexivity].
  - exfalso. unfold ge_pow10 in G. apply Z.leb_le in G.
    assert (1 <= 2 ^ (- e)) by (pose proof (Z.pow_pos_nonneg 2 (- e)); lia).
    assert (10 ^ 21 * 1 <= 10 ^ 21 * 2 ^ (- e))
      by (apply Z.mul_le_mono_nonneg_l; lia).
    assert (2 ^ 53 < 10 ^ 21 * 1) by reflexivity.
    lia.
Qed.

Lemma parse_to_string_large (s : bool) (m : positive) (e : Z) :
  wf (S754_finite s m e) = true ->
  ge_pow10 (magnitude m e) 21 = true ->
  parse_decimal ((if s then ["-"%char] else []) ++ to_string_large m e)
  = S754_finite s m e.
Proof.
  intros W G.
  assert (W' : wf (S754_finite false m e) = true) by exact W.
  destruct (large_is_integer m e W' G) as [He Mg].
  unfold to_string_large. rewrite Mg. cbn [fst snd]. rewrite Z.div_1_r.
  assert (P : 0 < Zpos m * 2 ^ e)
    by (apply Z.mul_pos_pos; [lia|apply Z.pow_pos_nonneg; lia]).
  destruct (shortest_search 17 _ _ _ 1) as [[c e10]|] eqn:S.
  - apply shortest_search_ok in S.
    assert (Hc : 0 < c * 10 ^ e10).
    { destruct (c * 10 ^ e10) as [|p|p]; [discriminate S|lia|discriminate S]. }
    assert (He10 : 0 <= e10).
    { destruct (Z_lt_le_dec e10 0) as [N|]; [|assumption].
      rewrite Z.pow_neg_r in Hc by lia. lia. }
    assert (P10 : 0 < 10 ^ e10) by (apply Z.pow_pos_nonneg; lia).
    assert (Pc : 0 <= c) by nia.
    destruct (digits_of_spec c Pc) as (F & V & _).
    rewrite parse_exponent_form; [|exact F|rewrite V; nia|exact He10].
    rewrite V. now apply round_to_number_sign.
  - destruct (digits_of_spec (Zpos m * 2 ^ e) ltac:(lia)) as (F & V & _).
    rewrite parse_exponent_form; [|exact F|rewrite V; exact P|lia].
    rewrite V, Z.pow_0_r, Z.mul_1_r.
    now apply round_to_number_exact.
Qed.

Lemma skip_white_space_exponent_form (s : bool) (ds : list ascii) (e10 : Z) :
  Forall (fun c => is_digit c = true) ds ->
  skip_white_space ((if s then ["-"%char] else []) ++ exponent_form ds e10)
  = (if s then ["-"%char] else []) ++ exponent_form ds e10.
Proof.
  intros F. destruct s; [reflexivity|]. cbn [app].
  unfold exponent_form.
  destruct (strip_trailing_zeros_spec ds) as [z E].
  assert (Fs : Forall (fun c => is_digit c = true) (strip_trailing_zeros ds)).
  { rewrite E in F. apply Forall_app in F. apply F. }
  destruct (strip_trailing_zeros ds) as [|d [|d' r]].
  - reflexivity.
  - inversion Fs as [|? ? Hd _]; subst.
    destruct (digit_not_sign d Hd) as (_ & _ & _ & W).
    cbn [app skip_white_space]. now rewrite W.
  - inversion Fs as [|? ? Hd _]; subst.
    destruct (digit_not_sign d Hd) as (_ & _ & _ & W).
    cbn [app skip_white_space]. now rewrite W.
Qed.

Lemma skip_white_space_to_string_large (s : bool) (m : positive) (e : Z) :
  skip_white_space ((if s then ["-"%char] else []) ++ to_string_large m e)
  = (if s then ["-"%char] else []) ++ to_string_large m e.
Proof.
  unfold to_string_large.
  set (pq := magnitude m e).
  assert (P : 0 <= fst pq / snd pq).
  { pose proof (magnitude_positive m e) as [P1 P2]. fold pq in P1, P2.
    apply Z.div_pos; lia. }
  destruct (shortest_search 17 _ pq _ 1) as [[c e10]|] eqn:S.
  - destruct (Z_lt_le_dec c 0) as [N|Pc].
    + destruct s; [reflexivity|]. cbn [app].
      apply shortest_search_ok in S.
      destruct (Z_lt_le_dec e10 0) as [N'|P'].
      * rewrite Z.pow_neg_r, Z.mul_0_r in S by lia. discriminate S.
      * assert (0 < 10 ^ e10) by (apply Z.pow_pos_nonneg; lia).
        destruct (c * 10 ^ e10) as [|p|p] eqn:Ec; try discriminate S. nia.
    + apply skip_white_space_exponent_form.
      apply (digits_of_spec c Pc).
  - apply skip_white_space_exponent_form.
    apply (digits_of_spec _ P).
Qed.

(** [toFixed] followed by [parseFloat] rounds a binary64 value to the given
    number of decimal places. *)
Theorem parseFloat_toFixed (f : nat) (y : number) :
  wf y = true -> parseFloat (toFixed y f) = round_decimals f y.
Proof.
  intros W. destruct y as [s|s| |s m e].
  - unfold toFixed.
    pose proof (parseFloat_fixed false 0 f ltac:(lia)) as P.
    cbn [app] in P. rewrite P.
    unfold round_decimals, number_of_decimal.
    destruct (0 <=? - Z.of_nat f); reflexivity.
  - destruct s; reflexivity.
  - reflexivity.
  - unfold toFixed, round_decimals.
    destruct (ge_pow10 (magnitude m e) 21) eqn:G.
    + unfold parseFloat. rewrite list_ascii_of_string_of_list_ascii.
      rewrite skip_white_space_to_string_large.
      now apply parse_to_string_large.
    + apply parseFloat_fixed.
      destruct (magnitude_positive m e).
      apply round_half_up_nonneg; lia.
Qed.

(** ** The scale-based converters *)

Lemma truthy_number (v : number) :
  is_finite v = true -> is_zero v = false -> degenerate (JNum v) = false.
Proof. destruct v; simpl; try discriminate; reflexivity. Qed.

(** C1: in each of the five multiplicative domains, for a finite non-zero
    value and two unit symbols of the domain's table, the converter returns
    the Number [value * factor[from] / factor[to]] rounded to 10 decimal
    places. *)
Theorem multiplicative_conversion (d : domain) (v : number) (a b : string)
  (fa fb : number) :
  multiplicative d = true ->
  wf v = true -> is_finite v = true -> is_zero v = false ->
  own_property (table d) a = Some fa ->
  own_property (table d) b = Some fb ->
  convert d (JNum v) a b = round_decimals 10 (v * fa / fb)%num.
Proof.
  intros Hd W Fin NZ Ha Hb.
  assert (Hs : scale_based d = true) by (destruct d; try discriminate; reflexivity).
  unfold convert.
  rewrite (run_scale_based d (JNum v) a b Hs (truthy_number v Fin NZ)).
  rewrite Hd, (get_property_own _ _ _ Ha), (get_property_own _ _ _ Hb).
  cbn [result fst ToNumber].
  apply parseFloat_toFixed. apply wf_div.
Qed.

Lemma multiplicative_conversion_witness :
  multiplicative Length = true /\
  wf (lit 1 0) = true /\ is_finite (lit 1 0) = true /\ is_zero (lit 1 0) = false /\
  own_property (table Length) "mile" = Some (lit 1609344 (-3)) /\
  own_property (table Length) "km" = Some (lit 1000 0) /\
  convert Length (JNum (lit 1 0)) "mile" "km"
  = round_decimals 10 (lit 1 0 * lit 1609344 (-3) / lit 1000 0)%num.
Proof.
  assert (H1 : multiplicative Length = true) by reflexivity.
  assert (H2 : wf (lit 1 0) = true) by reflexivity.
  assert (H3 : is_finite (lit 1 0) = true) by reflexivity.
  assert (H4 : is_zero (lit 1 0) = false) by reflexivity.
  assert (H5 : own_property (table Length) "mile" = Some (lit 1609344 (-3)))
    by reflexivity.
  assert (H6 : own_property (table Length) "km" = Some (lit 1000 0))
    by reflexivity.
  exact (conj H1 (conj H2 (conj H3 (conj H4 (conj H5 (conj H6
    (multiplicative_conversion Length (lit 1 0) "mile" "km" _ _
       H1 H2 H3 H4 H5 H6))))))).
Defined.

(** C2: the speed table holds ms = 1, kmh = 3.6, mph = 2.23694 and
    knots = 1.94384, and for a finite non-zero value and two of its unit
    symbols [convertSpeed] returns [value / factor[from] * factor[to]]
    rounded to 10 decimal places: the factors are used the reciprocal way. *)
Theorem speed_conversion (v : number) (a b : string) (fa fb : number) :
  wf v = true -> is_finite v = true -> is_zero v = false ->
  own_property (table Speed) a = Some fa ->
  own_property (table Speed) b = Some fb ->
  table Speed = [ ("ms", lit 1 0); ("kmh", lit 36 (-1));
                  ("mph", lit 223694 (-5)); ("knots", lit 194384 (-5)) ]%string /\
  convert Speed (JNum v) a b = round_decimals 10 (v / fa * fb)%num.
Proof.
  intros W Fin NZ Ha Hb. split; [reflexivity|].
  unfold convert.
  rewrite (run_scale_based Speed (JNum v) a b eq_refl (truthy_number v Fin NZ)).
  rewrite (get_property_own _ _ _ Ha), (get_property_own _ _ _ Hb).
  cbn [result fst ToNumber multiplicative].
  apply parseFloat_toFixed. apply wf_mul; [apply wf_div|].
  destruct (factor_shape Speed b fb Hb) as (m & e & _ & Wb). exact Wb.
Qed.

Lemma speed_conversion_witness :
  wf (lit 100 0) = true /\ is_finite (lit 100 0) = true /\
  is_zero (lit 100 0) = false /\
  own_property (table Speed) "kmh" = Some (lit 36 (-1)) /\
  own_property (table Speed) "mph" = Some (lit 223694 (-5)) /\
  table Speed = [ ("ms", lit 1 0); ("kmh", lit 36 (-1));
                  ("mph", lit 223694 (-5)); ("knots", lit 194384 (-5)) ]%string /\
  convert Speed (JNum (lit 100 0)) "kmh" "mph"
  = round_decimals 10 (lit 100 0 / lit 36 (-1) * lit 223694 (-5))%num.
Proof.
  assert (H1 : wf (lit 100 0) = true) by reflexivity.
  assert (H2 : is_finite (lit 100 0) = true) by reflexivity.
  assert (H3 : is_zero (lit 100 0) = false) by reflexivity.
  assert (H4 : own_property (table Speed) "kmh" = Some (lit 36 (-1)))
    by reflexivity.
  assert (H5 : own_property (table Speed) "mph" = Some (lit 223694 (-5)))
    by reflexivity.
  exact (conj H1 (conj H2 (conj H3 (conj H4 (conj H5
    (speed_conversion (lit 100 0) "kmh" "mph" _ _ H1 H2 H3 H4 H5)))))).
Defined.

(** ** The temperature converter *)

Lemma wf_to_celsius (v : number) (u : string) :
  wf v = true -> wf (to_celsius v u) = true.
Proof.
  intros W. unfold to_celsius.
  destruct (String.eqb u "celsius"); [exact W|].
  destruct (String.eqb u "fahrenheit").
  - apply wf_mul; [apply wf_sub; [exact W|reflexivity]|apply wf_div].
  - destruct (String.eqb u "kelvin"); [|exact W].
    apply wf_sub; [exact W|reflexivity].
Qed.

Lemma wf_from_celsius (c : number) (u : string) :
  wf c = true -> wf (from_celsius c u) = true.
Proof.
  intros W. unfold from_celsius.
  destruct (String.eqb u "celsius"); [exact W|].
  destruct (String.eqb u "fahrenheit").
  - apply wf_add; [apply wf_mul; [exact W|apply wf_div]|reflexivity].
  - destruct (String.eqb u "kelvin"); [|exact W].
    apply wf_add; [exact W|reflexivity].
Qed.

(** C8: [convertTemperature] treats a fromUnit outside celsius, fahrenheit
    and kelvin as celsius, gives for a toUnit outside that set the Celsius
    pivot value, and rounds its result to 4 decimal places. *)
Theorem temperature_defaults_and_rounding (v : number) (a b : string) :
  wf v = true -> is_nan v = false ->
  (known_temperature_unit a = false ->
   to_celsius v a = v /\
   convert Temperature (JNum v) a b = convert Temperature (JNum v) "celsius" b) /\
  (known_temperature_unit b = false ->
   convert Temperature (JNum v) a b = round_decimals 4 (to_celsius v a)) /\
  convert Temperature (JNum v) a b
  = round_decimals 4 (from_celsius (to_celsius v a) b).
Proof.
  intros W N.
  assert (C : forall x y, convert Temperature (JNum v) x y
              = round_decimals 4 (from_celsius (to_celsius v x) y)).
  { intros x y. unfold convert, run, convertTemperature, isNaN.
    cbn [ToNumber]. rewrite N. cbn [result ret fst].
    apply parseFloat_toFixed. apply wf_from_celsius, wf_to_celsius, W. }
  assert (U : forall u, known_temperature_unit u = false ->
              String.eqb u "celsius" = false /\
              String.eqb u "fahrenheit" = false /\
              String.eqb u "kelvin" = false).
  { unfold known_temperature_unit. intros u H.
    apply orb_false_iff in H. destruct H as [H H3].
    apply orb_false_iff in H. destruct H as [H1 H2]. auto. }
  split; [|split].
  - intros K. destruct (U a K) as (E1 & E2 & E3).
    assert (T : to_celsius v a = v).
    { unfold to_celsius. now rewrite E1, E2, E3. }
    split; [exact T|]. rewrite !C, T. reflexivity.
  - intros K. destruct (U b K) as (E1 & E2 & E3).
    rewrite C. unfold from_celsius. now rewrite E1, E2, E3.
  - apply C.
Qed.

Lemma temperature_defaults_and_rounding_witness :
  wf (lit 986 (-1)) = true /\ is_nan (lit 986 (-1)) = false /\
  known_temperature_unit "rankine" = false /\
  known_temperature_unit "reaumur" = false /\
  (to_celsius (lit 986 (-1)) "rankine" = lit 986 (-1) /\
   convert Temperature (JNum (lit 986 (-1))) "rankine" "reaumur"
   = convert Temperature (JNum (lit 986 (-1))) "celsius" "reaumur") /\
  convert Temperature (JNum (lit 986 (-1))) "rankine" "reaumur"
  = round_decimals 4 (to_celsius (lit 986 (-1)) "rankine") /\
  convert Temperature (JNum (lit 986 (-1))) "rankine" "reaumur"
  = round_decimals 4 (from_celsius (to_celsius (lit 986 (-1)) "rankine") "reaumur").
Proof.
  assert (H1 : wf (lit 986 (-1)) = true) by reflexivity.
  assert (H2 : is_nan (lit 986 (-1)) = false) by reflexivity.
  assert (K1 : known_temperature_unit "rankine" = false) by reflexivity.
  assert (K2 : known_temperature_unit "reaumur" = false) by reflexivity.
  destruct (temperature_defaults_and_rounding (lit 986 (-1)) "rankine" "reaumur"
              H1 H2) as (A & B & C).
  exact (conj H1 (conj H2 (conj K1 (conj K2 (conj (A K1) (conj (B K2) C)))))).
Defined.

(** ** Decimal exponents *)

Lemma pow10_pos (k : Z) : 0 <= k -> 0 < 10 ^ k.
Proof. intros H. apply Z.pow_pos_nonneg; lia. Qed.

Lemma pow10_split (a b : Z) : 0 <= a -> 0 <= b -> 10 ^ (a + b) = 10 ^ a * 10 ^ b.
Proof. intros. apply Z.pow_add_r; lia. Qed.

Lemma digits_of_bounds (n : Z) :
  0 < n ->
  let d := Z.of_nat (List.length (digits_of n)) in
  0 < d /\ 10 ^ (d - 1) <= n < 10 ^ d.
Proof.
  intros Hn. destruct (digits_of_spec n ltac:(lia)) as (_ & _ & NE & U & L).
  cbv zeta. repeat split; [|apply L; exact Hn|exact U].
  destruct (digits_of n); [contradiction|simpl; lia].
Qed.

(** [floor_log10] brackets the fraction between two powers of ten. *)
Lemma floor_log10_spec (p q : Z) :
  0 < p -> 0 < q ->
  ge_pow10_signed (p, q) (floor_log10 (p, q)) = true /\
  ge_pow10_signed (p, q) (floor_log10 (p, q) + 1) = false.
Proof.
  intros Hp Hq.
  destruct (digits_of_bounds p Hp) as (Pp & Lp & Up).
  destruct (digits_of_bounds q Hq) as (Pq & Lq & Uq).
  unfold floor_log10.
  set (dp := Z.of_nat (List.length (digits_of p))) in *.
  set (dq := Z.of_nat (List.length (digits_of q))) in *.
  set (est := dp - dq).
  (* one below the estimate is always reached, one above never *)
  assert (Below : ge_pow10_signed (p, q) (est - 1) = true).
  { unfold ge_pow10_signed. destruct (Z.leb_spec 0 (est - 1)) as [S|S].
    - apply Z.leb_le.
      assert (E : 10 ^ (dp - 1) = 10 ^ (est - 1) * 10 ^ dq)
        by (rewrite <- pow10_split by lia; f_equal; unfold est; lia).
      pose proof (pow10_pos (est - 1) S). nia.
    - apply Z.leb_le.
      assert (E : 10 ^ dq = 10 ^ (dp - 1) * 10 ^ (- (est - 1)))
        by (rewrite <- pow10_split by lia; f_equal; unfold est; lia).
      pose proof (pow10_pos (- (est - 1)) ltac:(lia)). nia. }
  assert (Above : ge_pow10_signed (p, q) (est + 1) = false).
  { unfold ge_pow10_signed. destruct (Z.leb_spec 0 (est + 1)) as [S|S].
    - apply Z.leb_gt.
      assert (E : 10 ^ dp = 10 ^ (est + 1) * 10 ^ (dq - 1))
        by (rewrite <- pow10_split by lia; f_equal; unfold est; lia).
      pose proof (pow10_pos (est + 1) S). nia.
    - apply Z.leb_gt.
      assert (E : 10 ^ (dq - 1) = 10 ^ dp * 10 ^ (- (est + 1)))
        by (rewrite <- pow10_split by lia; f_equal; unfold est; lia).
      pose proof (pow10_pos (- (est + 1)) ltac:(lia)). nia. }
  destruct (ge_pow10_signed (p, q) est) eqn:G.
  - split; [exact G|exact Above].
  - split; [exact Below|].
    replace (est - 1 + 1) with est by lia. exact G.
Qed.

Lemma scale_up (k a q p : Z) :
  0 < k -> a * q <= p < 10 * a * q -> k * a * q <= p * k < 10 * (k * a) * q.
Proof. intros Hk [L U]. split; nia. Qed.

Lemma scale_down (k a q p : Z) :
  0 < k -> 0 < q -> (a * k) * q <= p < 10 * (a * k) * q ->
  a * (q * k) <= p < 10 * a * (q * k).
Proof. intros Hk Hq [L U]. split; nia. Qed.

Lemma scale_low (k a q p : Z) :
  0 < k -> 0 < a -> q <= p * k -> a * q <= p * (a * k).
Proof. intros. nia. Qed.

Lemma scale_high (k a q p : Z) :
  0 < k -> 0 < a -> p * k < q -> p * (a * (10 * k)) < 10 * a * q.
Proof. intros. nia. Qed.

(** Scaled to [f] digits before the point, the fraction lies between
    [10 ^ f] and [10 ^ (f + 1)]. *)
Lemma scale10_range (p q f : Z) :
  0 < p -> 0 < q -> 0 <= f ->
  let '(p', q') := scale10 (p, q) (f - floor_log10 (p, q)) in
  0 < q' /\ 10 ^ f * q' <= p' < 10 ^ (f + 1) * q'.
Proof.
  intros Hp Hq Hf.
  destruct (floor_log10_spec p q Hp Hq) as [G1 G2].
  set (e0 := floor_log10 (p, q)) in *.
  pose proof (pow10_pos f Hf) as Pf.
  assert (F1 : 10 ^ (f + 1) = 10 * 10 ^ f)
    by (rewrite pow10_split by lia; simpl (10 ^ 1); lia).
  unfold scale10, ge_pow10_signed in *.
  destruct (Z.leb_spec 0 e0) as [S0|S0].
  - (* e0 >= 0 *)
    replace (0 <=? e0 + 1) with true in G2 by (symmetry; apply Z.leb_le; lia).
    apply Z.leb_le in G1. apply Z.leb_gt in G2.
    assert (E1 : 10 ^ (e0 + 1) = 10 * 10 ^ e0)
      by (rewrite pow10_split by lia; simpl (10 ^ 1); lia).
    rewrite E1 in G2.
    pose proof (pow10_pos e0 S0) as P0.
    destruct (Z.leb_spec 0 (f - e0)) as [K|K].
    + pose proof (pow10_pos (f - e0) K) as Pk.
      assert (E : 10 ^ f = 10 ^ (f - e0) * 10 ^ e0)
        by (rewrite <- pow10_split by lia; f_equal; lia).
      split; [exact Hq|]. rewrite F1, E.
      apply scale_up; [exact Pk|lia].
    + pose proof (pow10_pos (- (f - e0)) ltac:(lia)) as Pk.
      assert (E : 10 ^ e0 = 10 ^ f * 10 ^ (- (f - e0)))
        by (rewrite <- pow10_split by lia; f_equal; lia).
      rewrite E in G1, G2.
      split; [apply Z.mul_pos_pos; lia|]. rewrite F1.
      apply scale_down; [exact Pk|exact Hq|lia].
  - (* e0 < 0 *)
    apply Z.leb_le in G1.
    replace (0 <=? f - e0) with true by (symmetry; apply Z.leb_le; lia).
    pose proof (pow10_pos (- e0) ltac:(lia)) as P0.
    assert (E : 10 ^ (f - e0) = 10 ^ f * 10 ^ (- e0))
      by (rewrite <- pow10_split by lia; f_equal; lia).
    split; [exact Hq|]. rewrite E. split.
    + apply scale_low; assumption.
    + rewrite F1.
      assert (E' : 10 ^ (- e0) = 10 * 10 ^ (- (e0 + 1))).
      { replace (- e0) with (1 + - (e0 + 1)) by lia.
        rewrite pow10_split by lia. reflexivity. }
      rewrite E'.
      apply scale_high; [apply pow10_pos; lia|exact Pf|].
      destruct (Z.leb_spec 0 (e0 + 1)) as [S1|S1].
      * assert (Z1 : e0 + 1 = 0) by lia. rewrite Z1 in G2.
        apply Z.leb_gt in G2. replace (- (e0 + 1)) with 0 by lia.
        rewrite Z.pow_0_r in *. lia.
      * apply Z.leb_gt in G2. exact G2.
Qed.

Lemma round_half_up_0_range (p q lo hi : Z) :
  0 < q -> lo * q <= p < hi * q ->
  lo <= round_half_up (p, q) 0 <= hi.
Proof.
  intros Hq [L U]. unfold round_half_up. rewrite Z.pow_0_r, Z.mul_1_r.
  split.
  - apply Z.div_le_lower_bound; lia.
  - assert ((2 * p + q) / (2 * q) < hi + 1); [|lia].
    apply Z.div_lt_upper_bound; lia.
Qed.

Lemma exponential_parts_range (p q f : Z) :
  0 < p -> 0 < q -> 0 <= f ->
  let '(n, e) := exponential_parts (p, q) f in
  10 ^ f <= n < 10 ^ (f + 1).
Proof.
  intros Hp Hq Hf. unfold exponential_parts.
  pose proof (scale10_range p q f Hp Hq Hf) as S.
  destruct (scale10 (p, q) (f - floor_log10 (p, q))) as [p' q'].
  destruct S as (Q' & L & U).
  pose proof (round_half_up_0_range p' q' (10 ^ f) (10 ^ (f + 1)) Q' (conj L U)) as R.
  pose proof (pow10_pos f Hf).
  assert (F1 : 10 ^ (f + 1) = 10 * 10 ^ f)
    by (rewrite pow10_split by lia; simpl (10 ^ 1); lia).
  destruct (Z.eqb_spec (round_half_up (p', q') 0) (10 ^ (f + 1))); lia.
Qed.

(** ** Exponential notation *)

Lemma all_digits_Forall (cs : list ascii) :
  Forall (fun c => is_digit c = true) cs -> all_digits cs = true.
Proof.
  intros F. unfold all_digits. apply forallb_forall.
  now apply Forall_forall.
Qed.

Lemma strip_minus_signed (s : bool) (c : ascii) (cs : list ascii) :
  is_digit c = true ->
  strip_minus ((if s then ["-"%char] else []) ++ c :: cs) = c :: cs.
Proof.
  intros H. destruct s; [reflexivity|].
  destruct (digit_not_sign c H) as (A & _). cbn [app strip_minus]. now rewrite A.
Qed.

Lemma exponential_notation_intro (f : nat) (s : bool) (d sg : ascii)
  (r ex : list ascii) :
  is_digit d = true ->
  Forall (fun c => is_digit c = true) r -> List.length r = f ->
  Ascii.eqb sg "+" || Ascii.eqb sg "-" = true ->
  Forall (fun c => is_digit c = true) ex -> ex <> [] ->
  exponential_notation f
    (string_of_list_ascii
       ((if s then ["-"%char] else []) ++
        d :: "."%char :: r ++ "e"%char :: sg :: ex)) = true.
Proof.
  intros Hd Fr Lr Hsg Fex NE. unfold exponential_notation.
  rewrite list_ascii_of_string_of_list_ascii.
  rewrite strip_minus_signed by exact Hd.
  rewrite Hd, Ascii.eqb_refl. cbn [andb].
  rewrite <- Lr.
  rewrite firstn_app, Nat.sub_diag, firstn_all, firstn_O, app_nil_r.
  rewrite skipn_app, Nat.sub_diag, skipn_all. cbn [skipn app].
  rewrite (all_digits_Forall r Fr), (all_digits_Forall ex Fex).
  rewrite Nat.eqb_refl, Ascii.eqb_refl, Hsg. cbn [andb].
  destruct ex; [contradiction|reflexivity].
Qed.

Lemma exponential_digits_shape (s : bool) (p q : Z) (f : nat) :
  0 < p -> 0 < q -> f <> O ->
  let '(n, e10) := exponential_parts (p, q) (Z.of_nat f) in
  exponential_notation f
    (string_of_list_ascii
       ((if s then ["-"%char] else []) ++ exponential_digits n e10 f)) = true.
Proof.
  intros Hp Hq Hf.
  pose proof (exponential_parts_range p q (Z.of_nat f) Hp Hq ltac:(lia)) as R.
  destruct (exponential_parts (p, q) (Z.of_nat f)) as [n e10].
  pose proof (pow10_pos (Z.of_nat f) ltac:(lia)) as P.
  destruct (digits_of_spec n ltac:(lia)) as (F & V & NE & U & L).
  assert (Len : Z.of_nat (List.length (digits_of n)) = Z.of_nat f + 1).
  { apply (digits_for_length n (Z.of_nat f + 1) (digits_of n)).
    - exact (digits_of_spec n ltac:(lia)).
    - replace (Z.of_nat f + 1 - 1) with (Z.of_nat f) by lia. exact R.
    - lia. }
  unfold exponential_digits.
  destruct (digits_of n) as [|d r] eqn:E; [contradiction|].
  inversion F as [|? ? Hd Fr]; subst.
  destruct f as [|f']; [contradiction|].
  cbn [firstn skipn app].
  destruct (digits_of_spec (Z.abs e10) ltac:(lia)) as (Fe & _ & NEe & _).
  apply exponential_notation_intro; auto.
  - simpl List.length in Len. lia.
  - destruct (0 <=? e10); reflexivity.
Qed.

(** ** Thousands grouping *)

Lemma mod3_offset (i j : nat) : (i < 3)%nat -> ((i + 3 * j) mod 3 = i)%nat.
Proof.
  intros H. symmetry. apply (Nat.mod_unique _ 3 j); lia.
Qed.

Lemma group_thousands_cons (c : ascii) (r : list ascii) :
  group_thousands (c :: r)
  = c :: (if (0 <? List.length r)%nat && (List.length r mod 3 =? 0)%nat
          then ","%char :: group_thousands r else group_thousands r).
Proof. cbn [group_thousands]. now destruct (_ && _). Qed.

Lemma group_thousands_1 (c : ascii) (r : list ascii) (j : nat) :
  List.length r = (3 * j)%nat ->
  group_thousands (c :: r) = c :: group_tail r.
Proof.
  intros L. rewrite group_thousands_cons.
  destruct r as [|d r]; [reflexivity|].
  assert (M : (List.length (d :: r) mod 3 = 0)%nat).
  { rewrite L. apply (mod3_offset 0 j). lia. }
  rewrite M. reflexivity.
Qed.

Lemma group_thousands_2 (c d : ascii) (r : list ascii) (j : nat) :
  List.length r = (3 * j)%nat ->
  group_thousands (c :: d :: r) = c :: d :: group_tail r.
Proof.
  intros L. rewrite group_thousands_cons.
  cbn [List.length]. rewrite L.
  replace (S (3 * j)) with (1 + 3 * j)%nat by lia.
  rewrite mod3_offset by lia. rewrite andb_false_r.
  now rewrite (group_thousands_1 d r j L).
Qed.

Lemma group_thousands_3 (c d e : ascii) (r : list ascii) (j : nat) :
  List.length r = (3 * j)%nat ->
  group_thousands (c :: d :: e :: r) = c :: d :: e :: group_tail r.
Proof.
  intros L. rewrite group_thousands_cons.
  cbn [List.length]. rewrite L.
  replace (S (S (3 * j))) with (2 + 3 * j)%nat by lia.
  rewrite mod3_offset by lia. rewrite andb_false_r.
  now rewrite (group_thousands_2 d e r j L).
Qed.

Lemma thousands_groups_tail (j : nat) (r : list ascii) :
  List.length r = (3 * j)%nat ->
  Forall (fun c => is_digit c = true) r ->
  thousands_groups (group_tail r) = true.
Proof.
  revert r. induction j as [|j IH]; intros r L F.
  - destruct r; [reflexivity|discriminate].
  - destruct r as [|d1 [|d2 [|d3 r]]]; try (simpl in L; lia).
    inversion F as [|? ? H1 F1]; subst.
    inversion F1 as [|? ? H2 F2]; subst.
    inversion F2 as [|? ? H3 F3]; subst.
    assert (L' : List.length r = (3 * j)%nat) by (simpl in L; lia).
    unfold group_tail at 1.
    rewrite (group_thousands_3 d1 d2 d3 r j L').
    cbn [thousands_groups]. rewrite H1, H2, H3, (IH r L' F3). reflexivity.
Qed.

Lemma grouped_integer_group_thousands (ds : list ascii) :
  ds <> [] -> Forall (fun c => is_digit c = true) ds ->
  grouped_integer (group_thousands ds) = true.
Proof.
  intros NE F.
  assert (Hlen : exists i j, (List.length ds = i + 3 * j)%nat /\ (1 <= i <= 3)%nat).
  { exists (S ((List.length ds - 1) mod 3)), ((List.length ds - 1) / 3)%nat.
    assert (0 < List.length ds)%nat by (destruct ds; [contradiction|simpl; lia]).
    pose proof (Nat.div_mod_eq (List.length ds - 1) 3).
    pose proof (Nat.mod_upper_bound (List.length ds - 1) 3 ltac:(lia)).
    lia. }
  destruct Hlen as (i & j & L & Hi).
  destruct ds as [|d1 r1]; [contradiction|].
  inversion F as [|? ? H1 F1]; subst.
  assert (I : (i = 1 \/ i = 2 \/ i = 3)%nat) by lia.
  destruct I as [-> | [-> | ->]].
  - assert (L1 : List.length r1 = (3 * j)%nat) by (simpl in L; lia).
    rewrite (group_thousands_1 d1 r1 j L1). cbn [grouped_integer].
    now rewrite H1, (thousands_groups_tail j r1 L1 F1).
  - destruct r1 as [|d2 r2]; [simpl in L; lia|].
    inversion F1 as [|? ? H2 F2]; subst.
    assert (L2 : List.length r2 = (3 * j)%nat) by (simpl in L; lia).
    rewrite (group_thousands_2 d1 d2 r2 j L2). cbn [grouped_integer].
    rewrite H1, H2, (thousands_groups_tail j r2 L2 F2).
    cbn [andb orb]. apply orb_true_r.
  - destruct r1 as [|d2 [|d3 r3]]; try (simpl in L; lia).
    inversion F1 as [|? ? H2 F2]; subst.
    inversion F2 as [|? ? H3 F3]; subst.
    assert (L3 : List.length r3 = (3 * j)%nat) by (simpl in L; lia).
    rewrite (group_thousands_3 d1 d2 d3 r3 j L3). cbn [grouped_integer].
    rewrite H1, H2, H3, (thousands_groups_tail j r3 L3 F3).
    cbn [andb]. rewrite !orb_true_r. reflexivity.
Qed.

Lemma group_thousands_no_dot (ds : list ascii) :
  Forall (fun c => is_digit c = true) ds ->
  Forall (fun c => Ascii.eqb c "." = false) (group_thousands ds).
Proof.
  intros F. induction F as [|c ds Hc F IH]; [constructor|].
  rewrite group_thousands_cons.
  assert (Ascii.eqb c "." = false).
  { destruct (Ascii.eqb_spec c "."%char) as [->|]; [discriminate|reflexivity]. }
  destruct (_ && _); repeat constructor; assumption.
Qed.

Lemma group_thousands_head (c : ascii) (ds : list ascii) :
  exists r, group_thousands (c :: ds) = c :: r.
Proof. rewrite group_thousands_cons. eauto. Qed.

Lemma split_at_dot_none (cs : list ascii) :
  Forall (fun c => Ascii.eqb c "." = false) cs ->
  split_at_dot cs = (cs, None).
Proof.
  intros F. induction F as [|c cs Hc F IH]; [reflexivity|].
  cbn [split_at_dot]. now rewrite Hc, IH.
Qed.

Lemma split_at_dot_some (cs fr : list ascii) :
  Forall (fun c => Ascii.eqb c "." = false) cs ->
  split_at_dot (cs ++ "."%char :: fr) = (cs, Some fr).
Proof.
  intros F. induction F as [|c cs Hc F IH]; [reflexivity|].
  cbn [app split_at_dot]. now rewrite Hc, IH.
Qed.

(** ** Trailing zeros of the fraction *)

Lemma drop_zeros_upto_all (k : nat) (cs : list ascii) :
  (List.length cs <= k)%nat -> drop_zeros_upto k cs = drop_zeros cs.
Proof.
  revert k. induction cs as [|c cs IH]; intros k L.
  - now destruct k.
  - destruct k as [|k]; [simpl in L; lia|].
    cbn [drop_zeros_upto drop_zeros]. rewrite IH by (simpl in L; lia).
    reflexivity.
Qed.

Lemma drop_zeros_facts (cs : list ascii) :
  Forall (fun c => is_digit c = true) cs ->
  Forall (fun c => is_digit c = true) (drop_zeros cs) /\
  (List.length (drop_zeros cs) <= List.length cs)%nat /\
  match drop_zeros cs with
  | c :: _ => Ascii.eqb c "0" = false
  | [] => True
  end.
Proof.
  intros F. induction F as [|c cs Hc F (IH1 & IH2 & IH3)].
  - repeat split; constructor.
  - cbn [drop_zeros]. destruct (Ascii.eqb c "0") eqn:E.
    + repeat split; auto. simpl. lia.
    + repeat split; auto.
Qed.

Lemma last_rev_cons (c d : ascii) (l : list ascii) : last (rev (c :: l)) d = c.
Proof. cbn [rev]. apply last_last. Qed.

(** ** Fixed notation *)

Lemma scale10_positive (pq : Z * Z) (k : Z) :
  0 <= fst pq -> 0 < snd pq ->
  0 <= fst (scale10 pq k) /\ 0 < snd (scale10 pq k).
Proof.
  destruct pq as [p q]. cbn [fst snd]. intros P Q. unfold scale10.
  destruct (Z.leb_spec 0 k); cbn [fst snd].
  - assert (0 < 10 ^ k) by (apply Z.pow_pos_nonneg; lia). split; nia.
  - assert (0 < 10 ^ (- k)) by (apply Z.pow_pos_nonneg; lia). split; nia.
Qed.

Lemma round_half_up_nonneg_0 (pq : Z * Z) (f : Z) :
  0 <= fst pq -> 0 < snd pq -> 0 <= f -> 0 <= round_half_up pq f.
Proof.
  destruct pq as [p q]. cbn [fst snd]. intros Hp Hq Hf. unfold round_half_up.
  apply Z.div_pos; [|lia].
  assert (0 < 10 ^ f) by (apply Z.pow_pos_nonneg; lia). nia.
Qed.

Lemma decimal_candidate_nonneg (x : number) (pq : Z * Z) (e10 c : Z) :
  0 <= fst pq -> 0 < snd pq ->
  decimal_candidate x pq e10 = Some c -> 0 <= c.
Proof.
  intros P Q. unfold decimal_candidate.
  destruct (scale10_positive pq (- e10) P Q) as [P' Q'].
  destruct (scale10 pq (- e10)) as [p q]. cbn [fst snd] in *.
  assert (L : 0 <= p / q) by (apply Z.div_pos; lia).
  destruct (number_same _ x), (number_same _ x);
    try destruct (2 * p ?= _); try destruct (Z.even (p / q));
    intros H; inversion H; lia.
Qed.

Lemma shortest_decimal_search_nonneg (fuel : nat) (x : number) (pq : Z * Z)
  (e10 c k : Z) :
  0 <= fst pq -> 0 < snd pq ->
  shortest_decimal_search fuel x pq e10 = Some (c, k) -> 0 <= c.
Proof.
  intros P Q. revert e10. induction fuel as [|n IH]; intros e10; cbn; [discriminate|].
  destruct (decimal_candidate x pq e10) as [c'|] eqn:E.
  - intros H. inversion H. subst. eapply decimal_candidate_nonneg; eauto.
  - apply IH.
Qed.

Lemma shortest_fraction_positive (m : positive) (e : Z) :
  0 <= fst (shortest_fraction m e) /\ 0 < snd (shortest_fraction m e).
Proof.
  unfold shortest_fraction, shortest_decimal.
  destruct (magnitude_positive m e) as [P Q].
  destruct (shortest_decimal_search 17 _ _ _) as [[c k]|] eqn:E.
  - apply scale10_positive; cbn [fst snd]; [|lia].
    eapply shortest_decimal_search_nonneg; [| |exact E]; lia.
  - apply scale10_positive; cbn [fst snd]; [|lia].
    apply round_half_up_nonneg_0; [| |lia];
      apply scale10_positive; lia.
Qed.

Lemma locale_integer_nonneg (m : positive) (e : Z) (f : nat) :
  0 <= round_half_up (shortest_fraction m e) (Z.of_nat f).
Proof.
  destruct (shortest_fraction_positive m e).
  apply round_half_up_nonneg_0; lia.
Qed.

Lemma locale_digits_shape (s : bool) (n : Z) (maxfd : nat) :
  0 <= n ->
  grouped_fixed_notation maxfd
    (string_of_list_ascii
       ((if s then ["-"%char] else []) ++ locale_digits n maxfd 0)) = true.
Proof.
  intros Hn. destruct (digits_of_spec n Hn) as (F & _ & NE & _).
  unfold locale_digits, grouped_fixed_notation.
  rewrite list_ascii_of_string_of_list_ascii.
  set (m := repeat "0"%char (maxfd + 1 - List.length (digits_of n)) ++ digits_of n).
  assert (Fm : Forall (fun c => is_digit c = true) m).
  { apply Forall_app. split; [apply zeros_are_digits|exact F]. }
  assert (Lm : (maxfd + 1 <= List.length m)%nat).
  { unfold m. rewrite length_app, repeat_length. lia. }
  rewrite <- (firstn_skipn (List.length m - maxfd) m) in Fm.
  apply Forall_app in Fm. destruct Fm as [Fi Ff].
  remember (firstn (List.length m - maxfd) m) as int eqn:Hint.
  remember (skipn (List.length m - maxfd) m) as fr0 eqn:Hfr0.
  assert (Li : int <> []).
  { intros E. apply (f_equal (@List.length ascii)) in E.
    rewrite Hint, length_firstn in E. simpl in E. lia. }
  assert (Lf : List.length fr0 = maxfd).
  { rewrite Hfr0, length_skipn. lia. }
  clear Hint Hfr0.
  rewrite Nat.sub_0_r.
  rewrite drop_zeros_upto_all by (rewrite length_rev; lia).
  destruct (drop_zeros_facts (rev fr0) (Forall_rev Ff)) as (Fd & Ld & Hd).
  rewrite length_rev in Ld.
  destruct int as [|d int']; [contradiction|].
  pose proof (Forall_inv Fi) as Hdig. cbv beta in Hdig.
  destruct (group_thousands_head d int') as [r Er].
  pose proof (group_thousands_no_dot (d :: int') Fi) as ND.
  pose proof (grouped_integer_group_thousands (d :: int') Li Fi) as GI.
  destruct (drop_zeros (rev fr0)) as [|c l] eqn:Ez.
  - cbn [rev]. rewrite app_nil_r, Er.
    rewrite strip_minus_signed by exact Hdig.
    rewrite <- Er, split_at_dot_none by exact ND.
    rewrite GI. reflexivity.
  - assert (NEf : rev (c :: l) <> []).
    { cbn [rev]. intros E. symmetry in E. now apply app_cons_not_nil in E. }
    destruct (rev (c :: l)) as [|c' l'] eqn:Erev; [contradiction|].
    rewrite Er. rewrite <- app_comm_cons.
    rewrite strip_minus_signed by exact Hdig.
    rewrite app_comm_cons, <- Er, split_at_dot_some by exact ND.
    rewrite GI. cbn [andb].
    rewrite <- Erev.
    rewrite (all_digits_Forall _ (Forall_rev Fd)).
    rewrite length_rev, last_rev_cons, Hd. cbn [andb negb].
    repeat (apply andb_true_iff; split); try reflexivity;
      apply Nat.leb_le; simpl List.length in *; lia.
Qed.

(** ** formatNumber *)

(** C7, as stated, fails: the absolute value of Infinity is above
    1,000,000, and [formatNumber] renders it as the text Infinity, which is
    not exponential notation. *)
Lemma formatNumber_Infinity :
  (lit 1000000 0 <? abs Infinity)%num = true /\
  formatNumber Infinity = "Infinity"%string /\
  exponential_notation 6 (formatNumber Infinity) = false.
Proof. repeat split; reflexivity. Qed.

(** C7, amended: [formatNumber] maps a zero to ["0"]; a finite non-zero
    number whose absolute value is below 0.0001 or above 1,000,000 to
    exponential notation with 6 digits after the decimal point of the
    mantissa; and every other finite number to fixed notation with
    thousands grouping, at most 6 fraction digits and no trailing zero. *)
Theorem formatNumber_notation (x : number) :
  is_finite x = true ->
  if is_zero x then formatNumber x = "0"%string
  else if (abs x <? lit 1 (-4))%num || (lit 1000000 0 <? abs x)%num
       then formatNumber x = toExponential x 6 /\
            exponential_notation 6 (formatNumber x) = true
       else formatNumber x = toLocaleString x 6 0 /\
            grouped_fixed_notation 6 (formatNumber x) = true.
Proof.
  intros Fin. destruct x as [s| | |s m e]; try discriminate Fin.
  - cbn [is_zero]. now destruct s.
  - cbn [is_zero]. unfold formatNumber.
    assert (E : (S754_finite s m e === lit 0 0)%num = false) by (now destruct s).
    rewrite E.
    destruct ((abs (S754_finite s m e) <? lit 1 (-4))%num
              || (lit 1000000 0 <? abs (S754_finite s m e))%num).
    + split; [reflexivity|].
      unfold toExponential.
      destruct (magnitude_positive m e) as [P Q].
      pose proof (exponential_digits_shape s (fst (magnitude m e))
                    (snd (magnitude m e)) 6 P Q ltac:(discriminate)) as S.
      rewrite <- surjective_pairing in S.
      change (Z.of_nat 6) with 6 in *.
      destruct (exponential_parts (magnitude m e) 6) as [n e10]. exact S.
    + split; [reflexivity|].
      unfold toLocaleString. apply locale_digits_shape.
      apply locale_integer_nonneg.
Qed.

Lemma formatNumber_notation_witness :
  is_finite (lit 12345 (-1)) = true /\
  formatNumber (lit 12345 (-1)) = toLocaleString (lit 12345 (-1)) 6 0 /\
  grouped_fixed_notation 6 (formatNumber (lit 12345 (-1))) = true.
Proof.
  assert (H : is_finite (lit 12345 (-1)) = true) by reflexivity.
  exact (conj H (formatNumber_notation (lit 12345 (-1)) H)).
Defined.

(** The formatter starts from the shortest decimal of a Number: the
    binary64 value of [1.0000015] lies below that decimal, and is shown
    rounded up; [999999.9999995] is shown as a million. *)
Lemma formatNumber_rounds_shortest_decimal :
  formatNumber (lit 10000015 (-7)) = "1.000002"%string /\
  formatNumber (lit 9999999999995 (-7)) = "1,000,000"%string /\
  formatNumber (number_of_decimal true 1552605 (-7)) = "-0.155261"%string /\
  formatNumber (lit 283495 (-7)) = "0.02835"%string.
Proof. repeat split; vm_compute; reflexivity. Qed.

(** ** Values as real numbers *)

Lemma bpow_opp (e : Z) : (bpow (- e) * bpow e = 1)%R.
Proof.
  rewrite <- bpow_add. replace (- e + e) with 0 by lia. reflexivity.
Qed.

Lemma mag_magnitude (s : bool) (m : positive) (e : Z) :
  mag (S754_finite s m e)
  = (IZR (fst (magnitude m e)) / IZR (snd (magnitude m e)))%R.
Proof.
  unfold magnitude, mag. destruct (Z.leb_spec 0 e) as [H|H]; cbn [fst snd].
  - rewrite mult_IZR, <- bpow_IZR by exact H. field.
  - rewrite <- bpow_IZR by lia.
    pose proof (bpow_pos (- e)).
    assert (E : bpow e = (/ bpow (- e))%R).
    { apply Rmult_eq_reg_l with (bpow (- e)); [|lra].
      rewrite Rinv_r by lra. apply bpow_opp. }
    unfold Rdiv. now rewrite E.
Qed.

Lemma mag_nonneg (x : number) : (0 <= mag x)%R.
Proof.
  destruct x as [| | |s m e]; cbn [mag]; try lra.
  pose proof (bpow_pos e). assert (0 < IZR (Zpos m))%R by (apply IZR_lt; lia).
  nra.
Qed.

Lemma mag_positive (s : bool) (m : positive) (e : Z) :
  (0 < mag (S754_finite s m e))%R.
Proof.
  cbn [mag]. pose proof (bpow_pos e).
  assert (0 < IZR (Zpos m))%R by (apply IZR_lt; lia). nra.
Qed.

Lemma value_mag (x : number) :
  value x = (if sign_of x then - mag x else mag x)%R.
Proof. destruct x as [[]|[]| |[] m e]; cbn [value mag sign_of]; lra. Qed.

Lemma Rabs_value (x : number) : Rabs (value x) = mag x.
Proof.
  rewrite value_mag. pose proof (mag_nonneg x).
  destruct (sign_of x).
  - rewrite Rabs_Ropp. now apply Rabs_pos_eq.
  - now apply Rabs_pos_eq.
Qed.

Lemma pow10_IZR (k : nat) : IZR (10 ^ Z.of_nat k) = (10 ^ k)%R.
Proof. now rewrite <- pow_IZR. Qed.

(** Rounding half up moves a scaled fraction by at most one half. *)
Lemma round_half_up_near (p q : Z) (f : nat) :
  0 <= p -> 0 < q ->
  (Rabs (IZR (round_half_up (p, q) (Z.of_nat f)) - IZR p / IZR q * 10 ^ f)
   <= / 2)%R.
Proof.
  intros Hp Hq. unfold round_half_up.
  set (P := 2 * p * 10 ^ Z.of_nat f + q).
  pose proof (Z.div_mod P (2 * q) ltac:(lia)) as DM.
  pose proof (Z.mod_pos_bound P (2 * q) ltac:(lia)) as MB.
  set (n := P / (2 * q)) in *.
  assert (Q : (0 < IZR q)%R) by (apply IZR_lt; lia).
  assert (L : (IZR (2 * q * n) <= IZR P)%R) by (apply IZR_le; lia).
  assert (U : (IZR P < IZR (2 * q * (n + 1)))%R) by (apply IZR_lt; lia).
  unfold P in L, U.
  rewrite ?plus_IZR, ?mult_IZR, ?plus_IZR, pow10_IZR in L, U.
  set (x := (IZR p / IZR q * 10 ^ f)%R).
  assert (X : (IZR p * 10 ^ f = x * IZR q)%R) by (unfold x; field; lra).
  replace (2 * IZR p * 10 ^ f)%R with (2 * (x * IZR q))%R in L, U
    by (rewrite <- X; ring).
  assert (H1 : (IZR n <= x + / 2)%R).
  { apply Rmult_le_reg_l with (2 * IZR q)%R; [lra|].
    replace (2 * IZR q * (x + / 2))%R with (2 * (x * IZR q) + IZR q)%R by field.
    exact L. }
  assert (H2 : (x + / 2 < IZR n + 1)%R).
  { apply Rmult_lt_reg_l with (2 * IZR q)%R; [lra|].
    replace (2 * IZR q * (x + / 2))%R with (2 * (x * IZR q) + IZR q)%R by field.
    rewrite plus_IZR in U. exact U. }
  apply Rabs_le. lra.
Qed.

(** ** Sizes of the constants *)

Lemma bpow_neg_le (k : Z) (c : Z) :
  0 <= k -> 0 < c -> c <= 2 ^ k -> (bpow (- k) <= / IZR c)%R.
Proof.
  intros Hk Hc H.
  pose proof (bpow_opp k) as O. pose proof (bpow_pos k) as P.
  pose proof (bpow_pos (- k)) as P'.
  assert (C : (0 < IZR c)%R) by (apply IZR_lt; lia).
  assert (L : (IZR c <= bpow k)%R) by (rewrite bpow_IZR by lia; apply IZR_le; lia).
  apply Rmult_le_reg_r with (IZR c); [lra|].
  rewrite Rinv_l by lra.
  apply Rle_trans with (bpow (- k) * bpow k)%R; [|lra].
  apply Rmult_le_compat_l; lra.
Qed.

Lemma eps_small : (0 < eps <= 1.2e-16)%R.
Proof.
  split; [apply bpow_pos|]. unfold eps.
  pose proof (bpow_neg_le 53 (2 ^ 53) ltac:(lia) ltac:(lia) ltac:(lia)) as H.
  change (- (53)) with (-53) in H.
  change (2 ^ 53) with 9007199254740992 in H. lra.
Qed.

Lemma eta_small : (0 < eta <= 1e-100)%R.
Proof.
  split; [apply bpow_pos|]. unfold eta.
  apply Rle_trans with (bpow (-400)); [apply bpow_le; lia|].
  pose proof (bpow_neg_le 400 (10 ^ 100) ltac:(lia) ltac:(lia)
                ltac:(vm_compute; discriminate)) as H.
  change (- (400)) with (-400) in H.
  assert (E : (/ IZR (10 ^ 100) = 1e-100)%R).
  { simpl. lra. }
  lra.
Qed.

Lemma bpow_1023_large : (1e306 <= bpow 1023)%R.
Proof.
  rewrite bpow_IZR by lia.
  apply Rle_trans with (IZR (10 ^ 306)).
  - simpl. lra.
  - apply IZR_le. vm_compute. discriminate.
Qed.

(** ** The table factors as real numbers *)

Lemma tables_in_range (d : domain) :
  forallb (fun kv => factor_in_range (snd kv)) (table d) = true.
Proof. destruct d; vm_compute; reflexivity. Qed.

Lemma factor_range (d : domain) (k : string) (f : number) :
  own_property (table d) k = Some f ->
  positive_finite f = true /\ value f = mag f /\ (1e-7 <= mag f <= 1e7)%R.
Proof.
  intros H. pose proof (factor_positive d k f H) as P.
  apply own_property_In in H.
  pose proof (tables_in_range d) as T. rewrite forallb_forall in T.
  specialize (T _ H). cbn [snd] in T.
  destruct f as [| | |[] m e]; try discriminate.
  split; [exact P|]. split; [reflexivity|].
  rewrite mag_magnitude. cbn [factor_in_range] in T.
  destruct (magnitude_positive m e) as [Pp Pq].
  destruct (magnitude m e) as [p q]. cbn [fst snd] in *.
  apply andb_true_iff in T. destruct T as [T1 T2].
  apply Z.leb_le in T1, T2. apply IZR_le in T1, T2.
  rewrite mult_IZR in T1, T2.
  assert (E : IZR (10 ^ 7) = 1e7%R) by (simpl; lra). rewrite E in T1, T2.
  assert (Q : (0 < IZR q)%R) by (apply IZR_lt; lia).
  assert (C : (IZR p / IZR q * IZR q = IZR p)%R) by (field; lra).
  split.
  - apply Rmult_le_reg_r with (IZR q); [lra|]. rewrite C. lra.
  - apply Rmult_le_reg_r with (IZR q); [lra|]. rewrite C. lra.
Qed.

(** ** One arithmetic step *)

Lemma rounds_to_bounded (s : bool) (t : R) (r : number) :
  rounds_to s t r -> (t < bpow 1023)%R ->
  is_finite r = true /\ wf r = true /\ sign_of r = s /\
  (Rabs (mag r - t) <= eps * t + eta)%R.
Proof.
  intros (W & S & H) B.
  destruct r as [| | |]; try contradiction; try lra; auto.
Qed.

Lemma rounds_to_zero (s : bool) : rounds_to s 0 (S754_zero s).
Proof.
  repeat split. cbn [mag]. replace (0 - 0)%R with 0%R by lra.
  rewrite Rabs_R0. pose proof eta_small. lra.
Qed.

Lemma mul_step (x f : number) :
  wf x = true -> is_finite x = true -> positive_finite f = true ->
  rounds_to (sign_of x) (mag x * mag f) (x * f)%num.
Proof.
  intros W F P.
  destruct f as [| | |[] m e]; try discriminate.
  destruct x as [s| | |s mx ex]; try discriminate.
  - cbn [mag sign_of]. rewrite Rmult_0_l.
    change (S754_zero s * S754_finite false m e)%num with (S754_zero (xorb s false)).
    rewrite xorb_false_r. apply rounds_to_zero.
  - pose proof (mul_rounds s false mx m ex e W P) as H.
    rewrite xorb_false_r in H. exact H.
Qed.

Lemma div_step (x f : number) :
  wf x = true -> is_finite x = true -> positive_finite f = true ->
  rounds_to (sign_of x) (mag x * / mag f) (x / f)%num.
Proof.
  intros W F P.
  destruct f as [| | |[] m e]; try discriminate.
  destruct x as [s| | |s mx ex]; try discriminate.
  - cbn [mag sign_of]. rewrite Rmult_0_l.
    change (S754_zero s / S754_finite false m e)%num with (S754_zero (xorb s false)).
    rewrite xorb_false_r. apply rounds_to_zero.
  - pose proof (div_rounds s false mx m ex e) as H.
    rewrite xorb_false_r in H. exact H.
Qed.

(** An approximation of [i] scaled by [c] and rounded again. *)
Lemma compose_scale (x i c a b e n y : R) :
  (0 <= x -> 0 <= i -> 0 <= c -> 0 <= a -> 0 <= b -> 0 <= e -> 0 <= n ->
   Rabs (x - i) <= a * i + b ->
   Rabs (y - x * c) <= e * (x * c) + n ->
   Rabs (y - i * c) <= (a + e + a * e) * (i * c) + (b * c * (1 + e) + n))%R.
Proof.
  intros Hx Hi Hc Ha Hb He Hn H1 H2.
  apply Rabs_le_inv in H1. apply Rabs_le_inv in H2.
  assert (X : (x * c <= (i + a * i + b) * c)%R)
    by (apply Rmult_le_compat_r; lra).
  assert (X' : ((i - a * i - b) * c <= x * c)%R)
    by (apply Rmult_le_compat_r; lra).
  assert (E : (e * (x * c) <= e * ((i + a * i + b) * c))%R)
    by (apply Rmult_le_compat_l; lra).
  apply Rabs_le. split.
  - apply Rle_trans with (x * c - e * (x * c) - n - i * c)%R; [|lra].
    replace ((a + e + a * e) * (i * c) + (b * c * (1 + e) + n))%R
      with (e * ((i + a * i + b) * c) + n + (a * i + b) * c)%R by ring.
    lra.
  - replace ((a + e + a * e) * (i * c) + (b * c * (1 + e) + n))%R
      with (e * ((i + a * i + b) * c) + n + (a * i + b) * c)%R by ring.
    lra.
Qed.

(** ** Rounding to 10 decimals as a step *)

Lemma below_pow10_21 (s : bool) (m : positive) (e : Z) :
  ge_pow10 (magnitude m e) 21 = false -> (mag (S754_finite s m e) < 1e21)%R.
Proof.
  intros G. rewrite mag_magnitude.
  destruct (magnitude_positive m e) as [Pp Pq].
  destruct (magnitude m e) as [p q]. cbn [fst snd] in *.
  unfold ge_pow10 in G. apply Z.leb_gt in G. apply IZR_lt in G.
  rewrite mult_IZR in G.
  assert (E : IZR (10 ^ 21) = 1e21%R) by (simpl; lra). rewrite E in G.
  assert (Q : (0 < IZR q)%R) by (apply IZR_lt; lia).
  assert (C : (IZR p / IZR q * IZR q = IZR p)%R) by (field; lra).
  apply Rmult_lt_reg_r with (IZR q); [lra|]. rewrite C. lra.
Qed.

Lemma round_decimals_step (y : number) :
  wf y = true -> is_finite y = true ->
  is_finite (round_decimals 10 y) = true /\
  wf (round_decimals 10 y) = true /\
  (is_zero (round_decimals 10 y) = true \/
   sign_of (round_decimals 10 y) = sign_of y) /\
  (Rabs (mag (round_decimals 10 y) - mag y * 1)
   <= eps * (mag y * 1) + (5e-11 + 1e-26))%R.
Proof.
  intros W F. pose proof eps_small as He. pose proof eta_small as Hn.
  pose proof (mag_nonneg y) as My. rewrite Rmult_1_r.
  destruct y as [s| | |s m e]; try discriminate.
  - change (round_decimals 10 (S754_zero s)) with (S754_zero false).
    cbn [mag]. repeat split; auto.
    replace (0 - 0)%R with 0%R by lra. rewrite Rabs_R0. lra.
  - unfold round_decimals.
    destruct (ge_pow10 (magnitude m e) 21) eqn:G.
    + repeat split; auto.
      replace (mag (S754_finite s m e) - mag (S754_finite s m e))%R with 0%R by lra.
      rewrite Rabs_R0. nra.
    + pose proof (below_pow10_21 s m e G) as Small.
      destruct (magnitude_positive m e) as [Pp Pq].
      pose proof (round_half_up_near (fst (magnitude m e)) (snd (magnitude m e))
                    10 ltac:(lia) Pq) as Near.
      rewrite <- surjective_pairing, <- (mag_magnitude s) in Near.
      change (Z.of_nat 10) with 10 in *.
      pose proof (round_half_up_nonneg (magnitude m e) 10 Pp Pq ltac:(lia)) as Nn.
      set (n := round_half_up (magnitude m e) 10) in *.
      set (Y := mag (S754_finite s m e)) in *.
      apply Rabs_le_inv in Near.
      assert (T10 : (10 ^ 10 = 1e10)%R) by (simpl; lra). rewrite T10 in Near.
      change (- (10)) with (-10).
      unfold number_of_decimal. change (0 <=? -10) with false. cbv iota.
      change (10 ^ (- -10)) with 10000000000.
      destruct (Z.eq_dec n 0) as [Z0|NZ].
      * rewrite Z0 in *. cbn [round_to_number mag is_finite is_zero].
        repeat split; auto.
        apply Rabs_le. simpl IZR in Near. nra.
      * assert (Np : 0 < n) by lia.
        pose proof (round_to_number_rounds s n 10000000000 Np ltac:(lia)) as Rd.
        set (w := round_to_number s n 10000000000) in *.
        set (t := (IZR n / 10000000000)%R) in *.
        assert (Tn : (IZR n = t * 1e10)%R) by (unfold t; lra).
        assert (Tb : (Rabs (t - Y) <= 5e-11)%R) by (apply Rabs_le; lra).
        apply Rabs_le_inv in Tb.
        pose proof bpow_1023_large as Big.
        destruct (rounds_to_bounded s t w Rd ltac:(lra)) as (Fw & Ww & Sw & Ew).
        repeat split; auto.
        apply Rabs_le_inv in Ew. apply Rabs_le. nra.
Qed.

(** ** A conversion as two arithmetic steps and a rounding *)

Lemma two_steps (v x1 y1 : number) (c1 c2 : R) :
  (0 <= c1)%R -> (0 <= c2 <= 1e7)%R ->
  rounds_to (sign_of v) (mag v * c1) x1 ->
  rounds_to (sign_of x1) (mag x1 * c2) y1 ->
  (mag v * c1 <= 1e305)%R -> (mag v * c1 * c2 <= 1e305)%R ->
  is_finite (round_decimals 10 y1) = true /\
  wf (round_decimals 10 y1) = true /\
  (is_zero (round_decimals 10 y1) = true \/
   sign_of (round_decimals 10 y1) = sign_of v) /\
  (Rabs (mag (round_decimals 10 y1) - mag v * c1 * c2)
   <= 4 * eps * (mag v * c1 * c2) + 5.1e-11)%R.
Proof.
  intros Hc1 Hc2 R1 R2 B1 B2.
  pose proof eps_small as He. pose proof eta_small as Hn.
  pose proof bpow_1023_large as Big.
  pose proof (mag_nonneg v) as Mv.
  set (I := (mag v * c1)%R) in *.
  assert (I0 : (0 <= I)%R) by (apply Rmult_le_pos; lra).
  destruct (rounds_to_bounded _ _ _ R1 ltac:(lra)) as (F1 & W1 & S1 & E1).
  pose proof (mag_nonneg x1) as Mx.
  assert (X1 : (mag x1 <= I + eps * I + eta)%R)
    by (apply Rabs_le_inv in E1; lra).
  assert (U0 : (0 <= I * c2)%R) by (apply Rmult_le_pos; lra).
  assert (T2 : (mag x1 * c2 <= (I + eps * I + eta) * c2)%R)
    by (apply Rmult_le_compat_r; lra).
  assert (T2' : ((I + eps * I + eta) * c2 < 1e306)%R) by nra.
  destruct (rounds_to_bounded _ _ _ R2 ltac:(lra)) as (F2 & W2 & S2 & E2).
  pose proof (compose_scale (mag x1) I c2 eps eta eps eta (mag y1)
                Mx I0 ltac:(lra) ltac:(lra) ltac:(lra) ltac:(lra) ltac:(lra)
                E1 E2) as C1.
  destruct (round_decimals_step y1 W2 F2) as (F3 & W3 & S3 & E3).
  pose proof (mag_nonneg y1) as My.
  assert (EE : (0 <= eps * eps <= 1.2e-16 * eps)%R).
  { split; [apply Rmult_le_pos; lra|apply Rmult_le_compat_r; lra]. }
  assert (A0 : (0 <= eps + eps + eps * eps)%R) by lra.
  assert (EC : (0 <= eta * c2 * (1 + eps) <= 1e-93 * 2)%R).
  { split; [repeat apply Rmult_le_pos; lra|].
    replace (1e-93 * 2)%R with (1e-100 * 1e7 * 2)%R by lra.
    repeat apply Rmult_le_compat; try lra.
    apply Rmult_le_pos; lra. }
  assert (B0 : (0 <= eta * c2 * (1 + eps) + eta)%R) by lra.
  pose proof (compose_scale (mag y1) (I * c2) 1
                (eps + eps + eps * eps) (eta * c2 * (1 + eps) + eta)
                eps (5e-11 + 1e-26) (mag (round_decimals 10 y1))
                My U0 ltac:(lra) A0 B0 ltac:(lra) ltac:(lra)
                C1 E3) as C2.
  rewrite Rmult_1_r in C2.
  repeat split; auto.
  - destruct S3 as [Z|S3]; [now left|right]. congruence.
  - eapply Rle_trans; [exact C2|].
    set (U := (I * c2)%R) in *.
    assert (A1 : ((eps + eps + eps * eps) * eps <= 3 * 1.2e-16 * eps)%R).
    { apply Rmult_le_compat_r; lra. }
    assert (A : (eps + eps + eps * eps + eps + (eps + eps + eps * eps) * eps
                 <= 4 * eps)%R) by lra.
    assert (A' : ((eps + eps + eps * eps + eps + (eps + eps + eps * eps) * eps) * U
                  <= 4 * eps * U)%R) by (apply Rmult_le_compat_r; lra).
    assert (Bn : ((eta * c2 * (1 + eps) + eta) * 1 * (1 + eps)
                  <= (1e-93 * 2 + 1e-100) * 1 * 2)%R).
    { repeat apply Rmult_le_compat; lra. }
    assert (B : ((eta * c2 * (1 + eps) + eta) * 1 * (1 + eps) + (5e-11 + 1e-26)
                 <= 5.1e-11)%R) by lra.
    lra.
Qed.

(** ** One conversion *)

Lemma inverse_range (x : R) :
  (1e-7 <= x <= 1e7)%R -> (1e-7 <= / x <= 1e7)%R.
Proof.
  intros [L U]. assert (P : (0 < / x)%R) by (apply Rinv_0_lt_compat; lra).
  split.
  - apply Rmult_le_reg_r with x; [lra|]. rewrite Rinv_l by lra. nra.
  - apply Rmult_le_reg_r with x; [lra|]. rewrite Rinv_l by lra. nra.
Qed.

Lemma scales_range (d : domain) (k : string) (f : number) :
  own_property (table d) k = Some f ->
  (1e-7 <= first_scale d f <= 1e7)%R /\ (1e-7 <= second_scale d f <= 1e7)%R /\
  (first_scale d f * second_scale d f = 1)%R.
Proof.
  intros H. destruct (factor_range d k f H) as (_ & _ & R).
  pose proof (inverse_range _ R) as R'.
  unfold first_scale, second_scale.
  destruct (multiplicative d); repeat split; try lra.
  - apply Rinv_r. lra.
  - apply Rinv_l. lra.
Qed.

Lemma scaling_scales (d : domain) (a b : string) (fa fb : number) :
  own_property (table d) a = Some fa ->
  own_property (table d) b = Some fb ->
  scaling d fa fb = (first_scale d fa * second_scale d fb)%R /\
  (/ scaling d fa fb = first_scale d fb * second_scale d fa)%R.
Proof.
  intros Ha Hb.
  destruct (factor_range d a fa Ha) as (_ & Va & Ra).
  destruct (factor_range d b fb Hb) as (_ & Vb & Rb).
  unfold scaling, first_scale, second_scale. rewrite Va, Vb.
  destruct (multiplicative d); split; try reflexivity; field; lra.
Qed.

Lemma conversion_error (d : domain) (v : number) (a b : string) (fa fb : number) :
  scale_based d = true -> wf v = true -> is_finite v = true ->
  own_property (table d) a = Some fa ->
  own_property (table d) b = Some fb ->
  (mag v * first_scale d fa <= 1e305)%R ->
  (mag v * first_scale d fa * second_scale d fb <= 1e305)%R ->
  is_finite (convert d (JNum v) a b) = true /\
  wf (convert d (JNum v) a b) = true /\
  (is_zero (convert d (JNum v) a b) = true \/
   sign_of (convert d (JNum v) a b) = sign_of v) /\
  (Rabs (mag (convert d (JNum v) a b)
         - mag v * first_scale d fa * second_scale d fb)
   <= 4 * eps * (mag v * first_scale d fa * second_scale d fb) + 5.1e-11)%R.
Proof.
  intros Hd W F Ha Hb B1 B2.
  destruct (scales_range d a fa Ha) as (Ra1 & _ & _).
  destruct (scales_range d b fb Hb) as (_ & Rb2 & _).
  destruct (factor_range d a fa Ha) as (Pa & _ & _).
  destruct (factor_range d b fb Hb) as (Pb & _ & _).
  destruct (is_zero v) eqn:Z.
  - assert (Dg : degenerate (JNum v) = true) by (destruct v; try discriminate; reflexivity).
    unfold convert. rewrite (run_degenerate d (JNum v) a b Hd Dg).
    cbn [result fst]. destruct v; try discriminate.
    cbn [mag pos_zero is_zero is_finite wf valid_binary].
    repeat split; auto. rewrite !Rmult_0_l, Rmult_0_r.
    replace (0 - 0)%R with 0%R by lra. rewrite Rabs_R0. lra.
  - unfold convert.
    rewrite (run_scale_based d (JNum v) a b Hd (truthy_number v F Z)).
    rewrite (get_property_own _ _ _ Ha), (get_property_own _ _ _ Hb).
    cbn [result fst ToNumber].
    unfold first_scale, second_scale in *.
    destruct (multiplicative d).
    + rewrite parseFloat_toFixed by apply wf_div.
      pose proof (mul_step v fa W F Pa) as S1.
      destruct (rounds_to_bounded _ _ _ S1
                  ltac:(pose proof bpow_1023_large; lra)) as (F1 & W1 & _).
      pose proof (div_step (v * fa)%num fb W1 F1 Pb) as S2.
      apply (two_steps v (v * fa)%num (v * fa / fb)%num); auto; lra.
    + pose proof (div_step v fa W F Pa) as S1.
      destruct (rounds_to_bounded _ _ _ S1
                  ltac:(pose proof bpow_1023_large; lra)) as (F1 & W1 & _).
      rewrite parseFloat_toFixed
        by (apply wf_mul; [exact W1|destruct fb as [| | |[] ? ?]; try discriminate; exact Pb]).
      pose proof (mul_step (v / fa)%num fb W1 F1 Pb) as S2.
      apply (two_steps v (v / fa)%num (v / fa * fb)%num); auto; lra.
Qed.

(** ** Round trips *)

Lemma Rabs_value_diff (x y : number) :
  is_zero x = true \/ sign_of x = sign_of y ->
  Rabs (value x - value y) = Rabs (mag x - mag y).
Proof.
  intros [Z|S].
  - destruct x; try discriminate. cbn [value mag].
    replace (0 - value y)%R with (- value y)%R by lra.
    replace (0 - mag y)%R with (- mag y)%R by lra.
    rewrite !Rabs_Ropp, Rabs_value.
    symmetry. apply Rabs_pos_eq, mag_nonneg.
  - rewrite !value_mag, S. destruct (sign_of y).
    + replace (- mag x - - mag y)%R with (- (mag x - mag y))%R by lra.
      apply Rabs_Ropp.
    + reflexivity.
Qed.

(** C4, as stated, fails: one millimetre converted to miles and back is
    1.0000463616 millimetres, off by more than 1e-9. *)
Lemma round_trip_mm_mile :
  own_property (table Length) "mm" = Some (lit 1 (-3)) /\
  own_property (table Length) "mile" = Some (lit 1609344 (-3)) /\
  convert Length (JNum (lit 1 0)) "mm" "mile" = lit 6214 (-10) /\
  round_trip Length (lit 1 0) "mm" "mile" = lit 10000463616 (-10) /\
  ~ within 1e-9 (round_trip Length (lit 1 0) "mm" "mile") (lit 1 0).
Proof.
  assert (E : round_trip Length (lit 1 0) "mm" "mile"
              = S754_finite false 4503808421454980 (-52))
    by (vm_compute; reflexivity).
  repeat split; try (vm_compute; reflexivity).
  intros (_ & _ & H). rewrite E in H.
  change (lit 1 0) with (S754_finite false 4503599627370496 (-52)) in H.
  cbn [value] in H. apply Rabs_le_inv in H.
  pose proof (bpow_opp 52) as O. rewrite (bpow_IZR 52) in O by lia.
  change (- (52)) with (-52) in O. change (2 ^ 52) with 4503599627370496 in O.
  pose proof (bpow_pos (-52)). nra.
Qed.

(** C4, amended: for every scale-based domain, every pair of unit symbols
    of its table and every finite value of magnitude at most 1e290,
    converting from A to B and back yields a finite value within
    [1e-10 * (1 + 1 / s) + 1e-15 * |v|] of [v], where [s] is the factor by
    which the conversion from A to B scales a value. *)
Theorem round_trip_tolerance (d : domain) (v : number) (a b : string)
  (fa fb : number) :
  scale_based d = true ->
  wf v = true -> is_finite v = true -> (Rabs (value v) <= 1e290)%R ->
  own_property (table d) a = Some fa ->
  own_property (table d) b = Some fb ->
  within (1e-10 * (1 + / scaling d fa fb) + 1e-15 * Rabs (value v))
    (round_trip d v a b) v.
Proof.
  intros Hd W F Bv Ha Hb.
  pose proof eps_small as He.
  destruct (scales_range d a fa Ha) as (Ra1 & Ra2 & Ia).
  destruct (scales_range d b fb Hb) as (Rb1 & Rb2 & Ib).
  destruct (scaling_scales d a b fa fb Ha Hb) as [Sc Sc'].
  rewrite Sc', Rabs_value in *.
  pose proof (mag_nonneg v) as V0.
  set (V := mag v) in *.
  set (a1 := first_scale d fa) in *. set (a2 := second_scale d fa) in *.
  set (b1 := first_scale d fb) in *. set (b2 := second_scale d fb) in *.
  (* A to B *)
  assert (VA0 : (0 <= V * a1)%R) by (apply Rmult_le_pos; lra).
  assert (VA : (V * a1 <= 1e290 * 1e7)%R) by (apply Rmult_le_compat; lra).
  assert (B1 : (V * a1 <= 1e305)%R) by lra.
  assert (B2 : (V * a1 * b2 <= 1e305)%R).
  { assert (V * a1 * b2 <= 1e290 * 1e7 * 1e7)%R
      by (apply Rmult_le_compat; lra).
    lra. }
  destruct (conversion_error d v a b fa fb Hd W F Ha Hb B1 B2)
    as (Fw & Ww & Sw & Ew).
  fold a1 b2 V in Ew.
  set (w := convert d (JNum v) a b) in *.
  pose proof (mag_nonneg w) as W0.
  set (U := (V * a1 * b2)%R) in *.
  assert (U0 : (0 <= U)%R) by (unfold U; repeat apply Rmult_le_pos; lra).
  apply Rabs_le_inv in Ew.
  assert (EU : (0 <= 4 * eps * U <= U)%R).
  { split; [apply Rmult_le_pos; lra|].
    assert (4 * eps * U <= 1 * U)%R by (apply Rmult_le_compat_r; lra). lra. }
  (* back to the start: U * b1 * a2 = V *)
  assert (Back : (U * b1 * a2 = V)%R).
  { unfold U. replace (V * a1 * b2 * b1 * a2)%R
      with (V * (a1 * a2) * (b1 * b2))%R by ring.
    rewrite Ia, Ib. ring. }
  assert (Ub1 : (U * b1 = V * a1)%R).
  { unfold U. replace (V * a1 * b2 * b1)%R with (V * a1 * (b1 * b2))%R by ring.
    rewrite Ib. ring. }
  assert (P1 : (0 <= b1 * a2)%R) by (apply Rmult_le_pos; lra).
  assert (P2 : (b1 * a2 <= 1e14)%R).
  { assert (b1 * a2 <= 1e7 * 1e7)%R by (apply Rmult_le_compat; lra). lra. }
  (* the intermediate value, scaled back *)
  assert (Wb : (mag w * b1 <= 2 * (V * a1) + 5.1e-11 * b1)%R).
  { assert (mag w * b1 <= (U + 4 * eps * U + 5.1e-11) * b1)%R
      by (apply Rmult_le_compat_r; lra).
    replace ((U + 4 * eps * U + 5.1e-11) * b1)%R
      with (U * b1 + 4 * eps * (U * b1) + 5.1e-11 * b1)%R in H by ring.
    rewrite Ub1 in H.
    assert (4 * eps * (V * a1) <= 1 * (V * a1))%R
      by (apply Rmult_le_compat_r; lra).
    lra. }
  assert (Wba_hi : (mag w * b1 * a2 <= V + 4 * eps * V + 5.1e-11 * (b1 * a2))%R).
  { assert (mag w * (b1 * a2) <= (U + 4 * eps * U + 5.1e-11) * (b1 * a2))%R
      by (apply Rmult_le_compat_r; lra).
    replace ((U + 4 * eps * U + 5.1e-11) * (b1 * a2))%R
      with (U * b1 * a2 + 4 * eps * (U * b1 * a2) + 5.1e-11 * (b1 * a2))%R in H
      by ring.
    rewrite Back in H. lra. }
  assert (Wba_lo : (V - 4 * eps * V - 5.1e-11 * (b1 * a2) <= mag w * b1 * a2)%R).
  { assert ((U - 4 * eps * U - 5.1e-11) * (b1 * a2) <= mag w * (b1 * a2))%R
      by (apply Rmult_le_compat_r; lra).
    replace ((U - 4 * eps * U - 5.1e-11) * (b1 * a2))%R
      with (U * b1 * a2 - 4 * eps * (U * b1 * a2) - 5.1e-11 * (b1 * a2))%R in H
      by ring.
    rewrite Back in H. lra. }
  assert (EV : (0 <= eps * V <= 1.2e-16 * V)%R)
    by (split; [apply Rmult_le_pos; lra|apply Rmult_le_compat_r; lra]).
  assert (B1' : (mag w * b1 <= 1e305)%R) by lra.
  assert (B2' : (mag w * b1 * a2 <= 1e305)%R) by lra.
  destruct (conversion_error d w b a fb fa Hd Ww Fw Hb Ha B1' B2')
    as (Fz & Wz & Sz & Ez).
  fold b1 a2 in Ez.
  change (round_trip d v a b) with (convert d (JNum w) b a).
  set (z := convert d (JNum w) b a) in *.
  assert (Wba0 : (0 <= mag w * b1 * a2)%R)
    by (repeat apply Rmult_le_pos; lra).
  apply Rabs_le_inv in Ez.
  assert (E4 : (4 * eps * (mag w * b1 * a2)
                <= 4 * eps * (V + 4 * eps * V + 5.1e-11 * (b1 * a2)))%R)
    by (apply Rmult_le_compat_l; lra).
  assert (EEV : (0 <= eps * (eps * V) <= 1.2e-16 * (1.2e-16 * V))%R).
  { split; [apply Rmult_le_pos; lra|].
    apply Rmult_le_compat; lra. }
  assert (EB : (0 <= eps * (b1 * a2) <= 1.2e-16 * (b1 * a2))%R)
    by (split; [apply Rmult_le_pos; lra|apply Rmult_le_compat_r; lra]).
  assert (Total : (Rabs (mag z - V)
                   <= 1e-10 * (1 + b1 * a2) + 1e-15 * V)%R).
  { apply Rabs_le.
    replace (4 * eps * (V + 4 * eps * V + 5.1e-11 * (b1 * a2)))%R
      with (4 * (eps * V) + 16 * (eps * (eps * V))
            + 4 * 5.1e-11 * (eps * (b1 * a2)))%R in E4 by ring.
    lra. }
  (* signs *)
  assert (Sg : is_zero z = true \/ sign_of z = sign_of v).
  { destruct Sz as [Zz|Sz]; [now left|].
    destruct Sw as [Zw|Sw]; [left|right; congruence].
    unfold z.
    destruct w; try discriminate.
    unfold convert. now rewrite (run_degenerate d _ b a Hd). }
  repeat split; auto.
  rewrite (Rabs_value_diff z v Sg). exact Total.
Qed.

Lemma round_trip_tolerance_witness :
  scale_based Length = true /\
  wf (lit 1 0) = true /\ is_finite (lit 1 0) = true /\
  (Rabs (value (lit 1 0)) <= 1e290)%R /\
  own_property (table Length) "mm" = Some (lit 1 (-3)) /\
  own_property (table Length) "mile" = Some (lit 1609344 (-3)) /\
  within (1e-10 * (1 + / scaling Length (lit 1 (-3)) (lit 1609344 (-3)))
          + 1e-15 * Rabs (value (lit 1 0)))
    (round_trip Length (lit 1 0) "mm" "mile") (lit 1 0).
Proof.
  assert (H1 : scale_based Length = true) by reflexivity.
  assert (H2 : wf (lit 1 0) = true) by reflexivity.
  assert (H3 : is_finite (lit 1 0) = true) by reflexivity.
  assert (H4 : (Rabs (value (lit 1 0)) <= 1e290)%R).
  { change (lit 1 0) with (S754_finite false 4503599627370496 (-52)).
    cbn [value].
    pose proof (bpow_opp 52) as O. rewrite (bpow_IZR 52) in O by lia.
    change (- (52)) with (-52) in O. change (2 ^ 52) with 4503599627370496 in O.
    pose proof (bpow_pos (-52)).
    rewrite Rabs_pos_eq by nra. nra. }
  assert (H5 : own_property (table Length) "mm" = Some (lit 1 (-3)))
    by reflexivity.
  assert (H6 : own_property (table Length) "mile" = Some (lit 1609344 (-3)))
    by reflexivity.
  exact (conj H1 (conj H2 (conj H3 (conj H4 (conj H5 (conj H6
    (round_trip_tolerance Length (lit 1 0) "mm" "mile" _ _
       H1 H2 H3 H4 H5 H6))))))).
Defined.

(** * Further properties *)

(** ** Documents *)

Lemma nth_error_modify_same (n : node) (f : Element.t -> Element.t) (doc : document) :
  nth_error (modify n f doc) n = option_map f (nth_error doc n).
Proof.
  revert n; induction doc as [|e r IH]; intros [|n]; cbn; auto.
Qed.

Lemma nth_error_modify_other (n m : node) (f : Element.t -> Element.t) (doc : document) :
  n <> m -> nth_error (modify n f doc) m = nth_error doc m.
Proof.
  revert n m; induction doc as [|e r IH]; intros [|n] [|m] H; cbn; auto;
    try congruence.
Qed.

Lemma length_modify (n : node) (f : Element.t -> Element.t) (doc : document) :
  List.length (modify n f doc) = List.length doc.
Proof.
  revert n; induction doc as [|e r IH]; intros [|n]; cbn; auto.
Qed.

Lemma modify_modify (n : node) (f g : Element.t -> Element.t) (doc : document) :
  modify n f (modify n g doc) = modify n (fun e => f (g e)) doc.
Proof.
  revert n; induction doc as [|e r IH]; intros [|n]; cbn; auto.
  now rewrite IH.
Qed.

Lemma modify_comm (n m : node) (f g : Element.t -> Element.t) (doc : document) :
  n <> m -> modify n f (modify m g doc) = modify m g (modify n f doc).
Proof.
  revert n m; induction doc as [|e r IH]; intros [|n] [|m] H; cbn; auto;
    try congruence.
  rewrite IH; auto.
Qed.

Lemma modify_ext (n : node) (f g : Element.t -> Element.t) (doc : document) :
  (forall e, nth_error doc n = Some e -> f e = g e) ->
  modify n f doc = modify n g doc.
Proof.
  revert n; induction doc as [|e r IH]; intros [|n] H; cbn; auto.
  - now rewrite (H e eq_refl).
  - now rewrite (IH n H).
Qed.

Lemma find_first_spec (p : Element.t -> bool) (doc : document) (n : node) :
  find_first p doc = Some n ->
  exists e, nth_error doc n = Some e /\ p e = true.
Proof.
  revert n; induction doc as [|e r IH]; intros n; cbn; [discriminate|].
  destruct (p e) eqn:P.
  - intros [= <-]. exists e; cbn; auto.
  - destruct (find_first p r) as [k|] eqn:F; cbn; [|discriminate].
    intros [= <-]. cbn. now apply IH.
Qed.

Lemma getElementById_spec (doc : document) (i : string) (n : node) :
  getElementById doc i = Some n ->
  exists e, nth_error doc n = Some e /\ Element.id e = i.
Proof.
  unfold getElementById. destruct (String.eqb i ""); [discriminate|].
  intros H. apply find_first_spec in H as (e & E & P).
  exists e; split; auto. now apply String.eqb_eq.
Qed.

Lemma getElementById_distinct (doc : document) (i j : string) (n m : node) :
  getElementById doc i = Some n -> getElementById doc j = Some m ->
  String.eqb i j = false -> n <> m.
Proof.
  intros Hn Hm D ->.
  apply getElementById_spec in Hn as (e & E & I).
  apply getElementById_spec in Hm as (e' & E' & J).
  rewrite E in E'. injection E' as <-. rewrite I in J. subst j.
  now rewrite String.eqb_refl in D.
Qed.

(** ** The update functions *)

Lemma value_of_Some (w : world) (r : option node) (s : string) :
  value_of w r = Some s ->
  exists n e, r = Some n /\ nth_error (dom w) n = Some e /\ Element.value e = s.
Proof.
  destruct r as [n|]; cbn; [|discriminate].
  destruct (nth_error (dom w) n) as [e|] eqn:E; cbn; [|discriminate].
  intros [= <-]. now exists n, e.
Qed.

Lemma get_value_Some (w : world) (r : option node) (s : string) :
  value_of w r = Some s -> get_value r w = (Done s, w).
Proof.
  intros H. apply value_of_Some in H as (n & e & -> & E & <-).
  unfold get_value, and_then, element_at. now rewrite E.
Qed.

Lemma get_value_None (w : world) (r : option node) :
  value_of w r = None -> get_value r w = (TypeError, w).
Proof.
  destruct r as [n|]; cbn; unfold get_value, and_then, element_at; auto.
  destruct (nth_error (dom w) n); cbn; [discriminate|auto].
Qed.

Lemma set_value_Some (w : world) (r : option node) (old s : string) :
  value_of w r = Some old ->
  exists n, r = Some n /\
    set_value r s w
    = (Done tt, with_dom (modify n (Element.with_value s) (dom w)) w).
Proof.
  intros H. apply value_of_Some in H as (n & e & -> & E & _).
  exists n; split; auto.
  unfold set_value, set_at, and_then, element_at. now rewrite E.
Qed.

Lemma set_value_None (w : world) (r : option node) (s : string) :
  value_of w r = None -> set_value r s w = (TypeError, w).
Proof.
  destruct r as [n|]; cbn; unfold set_value, set_at, and_then, element_at; auto.
  destruct (nth_error (dom w) n); cbn; [discriminate|auto].
Qed.

Lemma update_unfold (page : document) (d : domain) (w : world) :
  update page d w
  = (s <-- get_value (input_of page d) ;;
     fromUnit <-- get_value (from_of page d) ;;
     toUnit <-- get_value (to_of page d) ;;
     set_value (result_of page d) (display d s fromUnit toUnit))%js w.
Proof. destruct d; reflexivity. Qed.

Lemma update_spec (page : document) (d : domain) (w : world) (s a b old : string) :
  value_of w (input_of page d) = Some s ->
  value_of w (from_of page d) = Some a ->
  value_of w (to_of page d) = Some b ->
  value_of w (result_of page d) = Some old ->
  exists n, result_of page d = Some n /\
    update page d w
    = (Done tt,
       with_dom (modify n (Element.with_value (display d s a b)) (dom w)) w).
Proof.
  intros Hs Ha Hb Hr. rewrite update_unfold. unfold and_then.
  rewrite (get_value_Some _ _ _ Hs), (get_value_Some _ _ _ Ha),
    (get_value_Some _ _ _ Hb).
  destruct (set_value_Some w _ old (display d s a b) Hr) as (n & -> & E).
  exists n; split; auto.
Qed.

Lemma update_missing (page : document) (d : domain) (w : world) :
  value_of w (input_of page d) = None \/
  value_of w (from_of page d) = None \/
  value_of w (to_of page d) = None \/
  value_of w (result_of page d) = None ->
  update page d w = (TypeError, w).
Proof.
  intros H. rewrite update_unfold. unfold and_then.
  destruct (value_of w (input_of page d)) as [s|] eqn:Hs;
    [rewrite (get_value_Some _ _ _ Hs)|now rewrite (get_value_None _ _ Hs)].
  destruct (value_of w (from_of page d)) as [a|] eqn:Ha;
    [rewrite (get_value_Some _ _ _ Ha)|now rewrite (get_value_None _ _ Ha)].
  destruct (value_of w (to_of page d)) as [b|] eqn:Hb;
    [rewrite (get_value_Some _ _ _ Hb)|now rewrite (get_value_None _ _ Hb)].
  destruct (value_of w (result_of page d)) as [r|] eqn:Hr;
    [|now rewrite (set_value_None _ _ _ Hr)].
  destruct H as [H|[H|[H|H]]]; discriminate.
Qed.

(** ** NaN in the arithmetic *)

Lemma rounds_to_not_NaN (s : bool) (t : R) (r : number) :
  rounds_to s t r -> is_nan r = false.
Proof. intros (_ & _ & H). destruct r; auto. contradiction. Qed.

Lemma mul_not_NaN (x f : number) :
  wf x = true -> is_nan x = false -> positive_finite f = true ->
  is_nan (x * f)%num = false.
Proof.
  intros W N P. destruct f as [| | |[] mf ef]; try discriminate.
  destruct x as [sx|sx| |sx mx ex]; try discriminate; auto.
  eapply rounds_to_not_NaN, mul_rounds; auto.
Qed.

Lemma div_not_NaN (x f : number) :
  is_nan x = false -> positive_finite f = true ->
  is_nan (x / f)%num = false.
Proof.
  intros N P. destruct f as [| | |[] mf ef]; try discriminate.
  destruct x as [sx|sx| |sx mx ex]; try discriminate; auto.
  eapply rounds_to_not_NaN, div_rounds.
Qed.

Lemma binary_normalize_not_NaN (m e : Z) :
  is_nan (binary_normalize prec emax m e false) = false.
Proof.
  destruct m; cbn [binary_normalize]; auto;
    eapply rounds_to_not_NaN, binary_round_rounds.
Qed.

Lemma add_not_NaN (x c : number) :
  is_nan x = false -> is_finite c = true -> is_nan (x + c)%num = false.
Proof.
  intros N F.
  destruct c as [sc| | |sc mc ec]; try discriminate;
    destruct x as [sx|sx| |sx mx ex]; try discriminate; auto.
  - destruct sx, sc; auto.
  - apply binary_normalize_not_NaN.
Qed.

Lemma sub_not_NaN (x c : number) :
  is_nan x = false -> is_finite c = true -> is_nan (x - c)%num = false.
Proof.
  intros N F.
  destruct c as [sc| | |sc mc ec]; try discriminate;
    destruct x as [sx|sx| |sx mx ex]; try discriminate; auto.
  - destruct sx, sc; auto.
  - apply binary_normalize_not_NaN.
Qed.

Lemma round_to_number_not_NaN (s : bool) (p q : Z) :
  is_nan (round_to_number s p q) = false.
Proof.
  destruct p as [|p|p], q as [|q|q]; cbn [round_to_number]; auto.
  eapply rounds_to_not_NaN, div_rounds.
Qed.

Lemma number_of_decimal_not_NaN (s : bool) (m e : Z) :
  is_nan (number_of_decimal s m e) = false.
Proof.
  unfold number_of_decimal. destruct (0 <=? e); apply round_to_number_not_NaN.
Qed.

Lemma round_decimals_not_NaN (f : nat) (y : number) :
  is_nan y = false -> is_nan (round_decimals f y) = false.
Proof.
  destruct y as [s|s| |s m e]; auto. intros _. cbn [round_decimals].
  destruct (ge_pow10 _ _); auto. apply number_of_decimal_not_NaN.
Qed.

Lemma known_unit_factor (d : domain) (u : string) :
  scale_based d = true -> known_unit d u = true ->
  exists f, own_property (table d) u = Some f.
Proof.
  intros S K. destruct (own_property (table d) u) as [f|] eqn:E; [now exists f|].
  destruct d; try discriminate S; unfold known_unit in K; rewrite E in K;
    discriminate.
Qed.

Lemma wf_lit (m e : Z) : wf (lit m e) = true.
Proof. apply wf_number_of_decimal. Qed.

Lemma to_celsius_not_NaN (v : number) (u : string) :
  wf v = true -> is_nan v = false -> is_nan (to_celsius v u) = false.
Proof.
  intros W N. unfold to_celsius.
  destruct (String.eqb u "celsius"); auto.
  destruct (String.eqb u "fahrenheit").
  - apply mul_not_NaN; [apply wf_sub; auto; apply wf_lit| |reflexivity].
    apply sub_not_NaN; auto.
  - destruct (String.eqb u "kelvin"); auto. apply sub_not_NaN; auto.
Qed.

Lemma from_celsius_not_NaN (c : number) (u : string) :
  wf c = true -> is_nan c = false -> is_nan (from_celsius c u) = false.
Proof.
  intros W N. unfold from_celsius.
  destruct (String.eqb u "celsius"); auto.
  destruct (String.eqb u "fahrenheit").
  - apply add_not_NaN; auto. apply mul_not_NaN; auto.
  - destruct (String.eqb u "kelvin"); auto. apply add_not_NaN; auto.
Qed.

Lemma convert_degenerate (d : domain) (value : jsval) (a b : string) :
  scale_based d = true -> degenerate value = true ->
  convert d value a b = pos_zero.
Proof.
  intros S D. unfold convert. now rewrite run_degenerate.
Qed.

Lemma convert_scale_based (d : domain) (v : number) (a b : string) (fa fb : number) :
  scale_based d = true -> wf v = true -> degenerate (JNum v) = false ->
  own_property (table d) a = Some fa -> own_property (table d) b = Some fb ->
  convert d (JNum v) a b
  = round_decimals 10
      (if multiplicative d then (v * fa / fb)%num else (v / fa * fb)%num).
Proof.
  intros S W D A B. unfold convert. rewrite run_scale_based; auto.
  cbn [result fst]. rewrite (get_property_own _ _ _ A), (get_property_own _ _ _ B).
  cbn [ToNumber]. apply parseFloat_toFixed.
  destruct (factor_shape _ _ _ A) as (ma & ea & -> & Wa).
  destruct (factor_shape _ _ _ B) as (mb & eb & -> & Wb).
  destruct (multiplicative d).
  - apply wf_div.
  - apply wf_mul; auto. apply wf_div.
Qed.

Lemma degenerate_number (v : number) :
  degenerate (JNum v) = is_zero v || is_nan v.
Proof.
  unfold degenerate, isNaN. cbn [truthy ToNumber].
  destruct (is_zero v), (is_nan v); reflexivity.
Qed.

Lemma degenerate_not_number (value : jsval) :
  (forall v, value <> JNum v) -> degenerate value = true.
Proof. destruct value; auto. intros H. now destruct (H x). Qed.

Lemma convert_temperature (v : number) (a b : string) :
  wf v = true -> is_nan v = false ->
  convert Temperature (JNum v) a b
  = round_decimals 4 (from_celsius (to_celsius v a) b).
Proof.
  intros W N. unfold convert. cbn [run]. unfold convertTemperature, isNaN.
  cbn [ToNumber]. rewrite N. cbn [ret result fst].
  apply parseFloat_toFixed. apply wf_from_celsius, wf_to_celsius, W.
Qed.

Lemma convert_temperature_degenerate (value : jsval) (a b : string) :
  isNaN value = true -> convert Temperature value a b = pos_zero.
Proof.
  intros N. unfold convert. cbn [run]. unfold convertTemperature.
  now rewrite N.
Qed.

Lemma convert_not_NaN (d : domain) (value : jsval) (a b : string) :
  binary64 value = true ->
  known_unit d a = true -> known_unit d b = true ->
  is_nan (convert d value a b) = false.
Proof.
  intros W Ka Kb.
  destruct (scale_based d) eqn:S.
  - destruct (degenerate value) eqn:D.
    + now rewrite convert_degenerate.
    + destruct value as [|v|]; try discriminate.
      destruct (known_unit_factor _ _ S Ka) as (fa & A).
      destruct (known_unit_factor _ _ S Kb) as (fb & B).
      rewrite (convert_scale_based _ _ _ _ _ _ S W D A B).
      rewrite degenerate_number in D. apply orb_false_elim in D as (_ & N).
      pose proof (factor_positive _ _ _ A) as Pa.
      pose proof (factor_positive _ _ _ B) as Pb.
      apply round_decimals_not_NaN. destruct (multiplicative d).
      * apply div_not_NaN; auto. apply mul_not_NaN; auto.
      * apply mul_not_NaN; auto. apply wf_div. apply div_not_NaN; auto.
  - destruct d; try discriminate.
    destruct (isNaN value) eqn:N.
    + now rewrite convert_temperature_degenerate.
    + destruct value as [|v|]; try discriminate. cbn in N.
      rewrite convert_temperature; auto.
      apply round_decimals_not_NaN, from_celsius_not_NaN.
      * now apply wf_to_celsius.
      * now apply to_celsius_not_NaN.
Qed.

(** X1: with known units no converter ever returns NaN, whatever the input
    value. *)
Theorem known_units_never_NaN (d : domain) (value : jsval) (a b : string) :
  binary64 value = true ->
  known_unit d a = true -> known_unit d b = true ->
  is_nan (convert d value a b) = false.
Proof.
  apply convert_not_NaN.
Qed.

(** ** Negated values *)

Lemma binary_round_aux_neg (s : bool) (m e : Z) (l : location) :
  binary_round_aux prec emax (negb s) m e l
  = neg (binary_round_aux prec emax s m e l).
Proof.
  unfold binary_round_aux.
  destruct (shr_fexp prec emax m e l) as [r1 e1].
  destruct (shr_fexp prec emax _ e1 loc_Exact) as [r2 e2].
  destruct (shr_m r2); auto. destruct (e2 <=? emax - prec); auto.
Qed.

Lemma xorb_negb_l (a b : bool) : xorb (negb a) b = negb (xorb a b).
Proof. destruct a, b; reflexivity. Qed.

Lemma mul_neg_l (x f : number) : (neg x * f)%num = neg (x * f)%num.
Proof.
  destruct x as [sx|sx| |sx mx ex], f as [sf|sf| |sf mf ef]; cbn [neg SFopp];
    unfold mul; cbn [SFmul SFopp]; rewrite ?xorb_negb_l; auto.
  apply binary_round_aux_neg.
Qed.

Lemma div_neg_l (x f : number) : (neg x / f)%num = neg (x / f)%num.
Proof.
  destruct x as [sx|sx| |sx mx ex], f as [sf|sf| |sf mf ef]; cbn [neg SFopp];
    unfold div; cbn [SFdiv SFopp]; rewrite ?xorb_negb_l; auto.
  destruct (SFdiv_core_binary _ _ _ _ _ _) as [[mz ez] lz].
  apply binary_round_aux_neg.
Qed.

Lemma round_to_number_neg (s : bool) (p q : Z) :
  round_to_number (negb s) p q = neg (round_to_number s p q).
Proof.
  destruct p as [|p|p], q as [|q|q]; cbn [round_to_number neg SFopp]; auto.
  change (S754_finite (negb s) p 0) with (neg (S754_finite s p 0)).
  apply (div_neg_l (S754_finite s p 0) (S754_finite false q 0)).
Qed.

Lemma number_of_decimal_neg (s : bool) (m e : Z) :
  number_of_decimal (negb s) m e = neg (number_of_decimal s m e).
Proof.
  unfold number_of_decimal. destruct (0 <=? e); apply round_to_number_neg.
Qed.

Lemma round_decimals_neg (f : nat) (y : number) :
  is_zero y = false -> round_decimals f (neg y) = neg (round_decimals f y).
Proof.
  destruct y as [s|s| |s m e]; try discriminate; auto. intros _.
  cbn [neg SFopp round_decimals].
  destruct (ge_pow10 _ _); auto. apply number_of_decimal_neg.
Qed.

Lemma round_decimals_zero (f : nat) (y : number) :
  is_zero y = true -> round_decimals f y = pos_zero.
Proof. destruct y; try discriminate; auto. Qed.

Lemma wf_neg (x : number) : wf (neg x) = wf x.
Proof. destruct x; reflexivity. Qed.

Lemma is_zero_neg (x : number) : is_zero (neg x) = is_zero x.
Proof. destruct x; reflexivity. Qed.

Lemma is_nan_neg (x : number) : is_nan (neg x) = is_nan x.
Proof. destruct x; reflexivity. Qed.

Lemma strict_eqb_refl (x : number) :
  is_nan x = false -> (x === x)%num = true.
Proof.
  destruct x as [s|s| |s m e]; try discriminate; intros _;
    unfold strict_eqb, SFeqb; cbn [SFcompare]; auto.
  - destruct s; auto.
  - rewrite Z.compare_refl, Pos.compare_cont_refl. destruct s; auto.
Qed.

Lemma strict_eqb_zeros (x y : number) :
  is_zero x = true -> is_zero y = true -> (x === y)%num = true.
Proof. destruct x, y; try discriminate; auto. Qed.

(** X2: the scale-based converters are odd functions of the value: with
    known units, converting the negated value gives a result equal ([===])
    to the negated result. *)
Theorem scale_conversion_odd (d : domain) (v : number) (a b : string) :
  scale_based d = true -> wf v = true ->
  known_unit d a = true -> known_unit d b = true ->
  (convert d (JNum (neg v)) a b === neg (convert d (JNum v) a b))%num = true.
Proof.
  intros S W Ka Kb.
  destruct (degenerate (JNum v)) eqn:D.
  - assert (D' : degenerate (JNum (neg v)) = true).
    { rewrite degenerate_number in *. now rewrite is_zero_neg, is_nan_neg. }
    rewrite !convert_degenerate; auto.
  - assert (D' : degenerate (JNum (neg v)) = false).
    { rewrite degenerate_number in *. now rewrite is_zero_neg, is_nan_neg. }
    destruct (known_unit_factor _ _ S Ka) as (fa & A).
    destruct (known_unit_factor _ _ S Kb) as (fb & B).
    assert (W' : wf (neg v) = true) by now rewrite wf_neg.
    rewrite (convert_scale_based _ _ _ _ _ _ S W D A B).
    rewrite (convert_scale_based _ _ _ _ _ _ S W' D' A B).
    set (y := if multiplicative d then (v * fa / fb)%num else (v / fa * fb)%num).
    assert (Y : (if multiplicative d then (neg v * fa / fb)%num
                 else (neg v / fa * fb)%num) = neg y).
    { unfold y. destruct (multiplicative d).
      - now rewrite mul_neg_l, div_neg_l.
      - now rewrite div_neg_l, mul_neg_l. }
    rewrite Y.
    assert (Ny : is_nan y = false).
    { rewrite degenerate_number in D. apply orb_false_elim in D as (_ & N).
      pose proof (factor_positive _ _ _ A) as Pa.
      pose proof (factor_positive _ _ _ B) as Pb.
      unfold y. destruct (multiplicative d).
      - apply div_not_NaN; auto. apply mul_not_NaN; auto.
      - apply mul_not_NaN; auto. apply wf_div. apply div_not_NaN; auto. }
    destruct (is_zero y) eqn:Zy.
    + apply strict_eqb_zeros.
      * rewrite round_decimals_zero; auto. now rewrite is_zero_neg.
      * rewrite is_zero_neg, round_decimals_zero; auto.
    + rewrite round_decimals_neg; auto. apply strict_eqb_refl.
      rewrite is_nan_neg. now apply round_decimals_not_NaN.
Qed.

(** ** The sign in the formatted text *)

Lemma string_of_minus (l : list ascii) :
  string_of_list_ascii (["-"%char] ++ l)
  = String "-" (string_of_list_ascii l).
Proof. reflexivity. Qed.

(** X7: a negative number is formatted as a minus sign followed by the text
    of its absolute value. *)
Theorem formatNumber_negative (x : number) :
  sign_of x = false -> is_zero x = false -> is_nan x = false ->
  formatNumber (neg x) = String "-" (formatNumber x).
Proof.
  intros S Z N. destruct x as [s|s| |s m e]; try discriminate;
    cbn [sign_of] in S; subst s; cbn [neg SFopp negb].
  - reflexivity.
  - unfold formatNumber.
    change ((S754_finite true m e === lit 0 0)%num) with false.
    change ((S754_finite false m e === lit 0 0)%num) with false.
    change (abs (S754_finite true m e)) with (abs (S754_finite false m e)).
    cbv iota.
    destruct ((abs (S754_finite false m e) <? lit 1 (-4))%num
              || (lit 1000000 0 <? abs (S754_finite false m e))%num).
    + unfold toExponential.
      destruct (exponential_parts _ _) as [n e10]. apply string_of_minus.
    + unfold toLocaleString. apply string_of_minus.
Qed.

(** ** The value before the rounding to decimals *)

Lemma two_steps_mag (v x1 y1 : number) (c1 c2 : R) :
  (0 <= c1)%R -> (0 <= c2 <= 1e7)%R ->
  rounds_to (sign_of v) (mag v * c1) x1 ->
  rounds_to (sign_of x1) (mag x1 * c2) y1 ->
  (mag v * c1 <= 1e305)%R -> (mag v * c1 * c2 <= 1e305)%R ->
  is_finite y1 = true /\ wf y1 = true /\
  (Rabs (mag y1 - mag v * c1 * c2) <= 3 * eps * (mag v * c1 * c2) + 1e-92)%R.
Proof.
  intros Hc1 Hc2 R1 R2 B1 B2.
  pose proof eps_small as He. pose proof eta_small as Hn.
  pose proof bpow_1023_large as Big.
  pose proof (mag_nonneg v) as Mv.
  set (I := (mag v * c1)%R) in *.
  assert (I0 : (0 <= I)%R) by (apply Rmult_le_pos; lra).
  destruct (rounds_to_bounded _ _ _ R1 ltac:(lra)) as (F1 & W1 & S1 & E1).
  pose proof (mag_nonneg x1) as Mx.
  assert (X1 : (mag x1 <= I + eps * I + eta)%R)
    by (apply Rabs_le_inv in E1; lra).
  assert (U0 : (0 <= I * c2)%R) by (apply Rmult_le_pos; lra).
  assert (T2 : (mag x1 * c2 <= (I + eps * I + eta) * c2)%R)
    by (apply Rmult_le_compat_r; lra).
  assert (T2' : ((I + eps * I + eta) * c2 < 1e306)%R) by nra.
  destruct (rounds_to_bounded _ _ _ R2 ltac:(lra)) as (F2 & W2 & S2 & E2).
  pose proof (compose_scale (mag x1) I c2 eps eta eps eta (mag y1)
                Mx I0 ltac:(lra) ltac:(lra) ltac:(lra) ltac:(lra) ltac:(lra)
                E1 E2) as C1.
  assert (EE : (0 <= eps * eps <= 1.2e-16 * eps)%R).
  { split; [apply Rmult_le_pos; lra|apply Rmult_le_compat_r; lra]. }
  assert (EC : (0 <= eta * c2 * (1 + eps) <= 1e-93 * 2)%R).
  { split; [repeat apply Rmult_le_pos; lra|].
    replace (1e-93 * 2)%R with (1e-100 * 1e7 * 2)%R by lra.
    repeat apply Rmult_le_compat; try lra.
    apply Rmult_le_pos; lra. }
  repeat split; auto.
  eapply Rle_trans; [exact C1|].
  set (U := (I * c2)%R) in *.
  assert (A' : ((eps + eps + eps * eps) * U <= 3 * eps * U)%R)
    by (apply Rmult_le_compat_r; lra).
  lra.
Qed.

(** The value a scale-based converter hands to [toFixed]. *)
Lemma conversion_raw (d : domain) (v : number) (a b : string) (fa fb : number) :
  scale_based d = true -> wf v = true -> is_finite v = true ->
  is_zero v = false ->
  own_property (table d) a = Some fa ->
  own_property (table d) b = Some fb ->
  (mag v * first_scale d fa <= 1e305)%R ->
  (mag v * first_scale d fa * second_scale d fb <= 1e305)%R ->
  exists y,
    convert d (JNum v) a b = round_decimals 10 y /\
    is_finite y = true /\ wf y = true /\
    (Rabs (mag y - mag v * first_scale d fa * second_scale d fb)
     <= 3 * eps * (mag v * first_scale d fa * second_scale d fb) + 1e-92)%R.
Proof.
  intros Hd W F Z Ha Hb B1 B2.
  destruct (scales_range d a fa Ha) as (Ra1 & _ & _).
  destruct (scales_range d b fb Hb) as (_ & Rb2 & _).
  destruct (factor_range d a fa Ha) as (Pa & _ & _).
  destruct (factor_range d b fb Hb) as (Pb & _ & _).
  rewrite (convert_scale_based d v a b fa fb Hd W (truthy_number v F Z) Ha Hb).
  unfold first_scale, second_scale in *.
  destruct (multiplicative d).
  - pose proof (mul_step v fa W F Pa) as S1.
    destruct (rounds_to_bounded _ _ _ S1
                ltac:(pose proof bpow_1023_large; lra)) as (F1 & W1 & _).
    pose proof (div_step (v * fa)%num fb W1 F1 Pb) as S2.
    exists (v * fa / fb)%num. split; auto.
    apply (two_steps_mag v (v * fa)%num (v * fa / fb)%num); auto; lra.
  - pose proof (div_step v fa W F Pa) as S1.
    destruct (rounds_to_bounded _ _ _ S1
                ltac:(pose proof bpow_1023_large; lra)) as (F1 & W1 & _).
    pose proof (mul_step (v / fa)%num fb W1 F1 Pb) as S2.
    exists (v / fa * fb)%num. split; auto.
    apply (two_steps_mag v (v / fa)%num (v / fa * fb)%num); auto; lra.
Qed.

(** ** Where rounding to 10 decimals gives zero *)

Lemma round_decimals_small (y : number) :
  is_finite y = true -> (mag y < 5e-11)%R ->
  is_zero (round_decimals 10 y) = true.
Proof.
  intros F Small. destruct y as [s| | |s m e]; try discriminate; auto.
  rewrite mag_magnitude in Small.
  destruct (magnitude_positive m e) as [Pp Pq].
  unfold round_decimals. destruct (magnitude m e) as [p q] eqn:M.
  cbn [fst snd] in *.
  assert (Q : (0 < IZR q)%R) by (apply IZR_lt; lia).
  assert (P : (0 < IZR p)%R) by (apply IZR_lt; lia).
  assert (C : (IZR p / IZR q * IZR q = IZR p)%R) by (field; lra).
  assert (L : (IZR p * 2e10 < IZR q)%R).
  { assert (IZR p / IZR q * IZR q < 5e-11 * IZR q)%R
      by (apply Rmult_lt_compat_r; lra).
    lra. }
  assert (Lz : p * 20000000000 < q).
  { apply lt_IZR. rewrite mult_IZR. lra. }
  assert (G : ge_pow10 (p, q) 21 = false).
  { unfold ge_pow10. apply Z.leb_gt.
    change (10 ^ 21) with 1000000000000000000000. lia. }
  rewrite G. unfold round_half_up.
  change (Z.of_nat 10) with 10. change (10 ^ 10) with 10000000000.
  rewrite Z.div_small by lia.
  reflexivity.
Qed.

Lemma rounds_to_positive (s : bool) (t : R) (r : number) :
  rounds_to s t r -> (1e-90 <= t)%R -> is_zero r = false.
Proof.
  intros (_ & _ & H) T. destruct r as [z| | |]; auto.
  cbn [mag] in H. pose proof eps_small. pose proof eta_small.
  replace (0 - t)%R with (- t)%R in H by lra. rewrite Rabs_Ropp in H.
  rewrite Rabs_pos_eq in H by lra.
  assert (eps * t <= 1.2e-16 * t)%R by (apply Rmult_le_compat_r; lra).
  lra.
Qed.

Lemma round_decimals_large (y : number) :
  is_finite y = true -> (5e-11 <= mag y)%R ->
  is_zero (round_decimals 10 y) = false.
Proof.
  intros F Large. destruct y as [s| | |s m e]; try discriminate.
  - cbn [mag] in Large. lra.
  - rewrite mag_magnitude in Large.
    destruct (magnitude_positive m e) as [Pp Pq].
    unfold round_decimals. destruct (magnitude m e) as [p q] eqn:M.
    cbn [fst snd] in *.
    destruct (ge_pow10 (p, q) 21); auto.
    assert (Q : (0 < IZR q)%R) by (apply IZR_lt; lia).
    assert (C : (IZR p / IZR q * IZR q = IZR p)%R) by (field; lra).
    assert (L : (IZR q <= IZR p * 2e10)%R).
    { assert (5e-11 * IZR q <= IZR p / IZR q * IZR q)%R
        by (apply Rmult_le_compat_r; lra).
      lra. }
    assert (Lz : q <= p * 20000000000).
    { apply le_IZR. rewrite mult_IZR. lra. }
    unfold round_half_up.
    change (Z.of_nat 10) with 10. change (10 ^ 10) with 10000000000.
    assert (N : 1 <= (2 * p * 10000000000 + q) / (2 * q)).
    { apply Z.div_le_lower_bound; lia. }
    set (n := (2 * p * 10000000000 + q) / (2 * q)) in *.
    change (- (10)) with (-10).
    unfold number_of_decimal. change (0 <=? -10) with false. cbv iota.
    change (10 ^ (- -10)) with 10000000000.
    eapply rounds_to_positive.
    + apply round_to_number_rounds; lia.
    + apply IZR_le in N.
      apply Rmult_le_reg_r with 10000000000%R; [lra|].
      replace (IZR n / 10000000000 * 10000000000)%R with (IZR n) by (field; lra).
      lra.
Qed.

Lemma formatNumber_zero (x : number) :
  is_zero x = true -> formatNumber x = "0"%string.
Proof. destruct x as [[]| | |]; try discriminate; reflexivity. Qed.

(** X3: a scale-based conversion whose exact result is below the tenth
    decimal place returns zero, which is shown as "0"; from 5.1e-11 on the
    result is not zero. *)
Theorem zero_threshold (d : domain) (v : number) (a b : string) (fa fb : number) :
  scale_based d = true -> wf v = true -> is_finite v = true ->
  (Rabs (value v) <= 1e290)%R ->
  own_property (table d) a = Some fa ->
  own_property (table d) b = Some fb ->
  ((Rabs (value v) * scaling d fa fb <= 4.9e-11)%R ->
   is_zero (convert d (JNum v) a b) = true /\
   formatNumber (convert d (JNum v) a b) = "0"%string) /\
  ((5.1e-11 <= Rabs (value v) * scaling d fa fb)%R ->
   is_zero (convert d (JNum v) a b) = false).
Proof.
  intros Hd W F Bv Ha Hb.
  destruct (scaling_scales d a b fa fb Ha Hb) as (Sc & _).
  destruct (scales_range d a fa Ha) as (Ra1 & _ & _).
  destruct (scales_range d b fb Hb) as (_ & Rb2 & _).
  rewrite Sc, Rabs_value in *. rewrite <- Rmult_assoc.
  pose proof (mag_nonneg v) as Mv.
  pose proof eps_small as He.
  set (c1 := first_scale d fa) in *. set (c2 := second_scale d fb) in *.
  assert (B1 : (mag v * c1 <= 1e305)%R).
  { apply Rle_trans with (1e290 * 1e7)%R; [|lra].
    apply Rmult_le_compat; lra. }
  assert (P1 : (0 <= mag v * c1)%R) by (apply Rmult_le_pos; lra).
  assert (B2 : (mag v * c1 * c2 <= 1e305)%R).
  { apply Rle_trans with (1e290 * 1e7 * 1e7)%R; [|lra].
    apply Rmult_le_compat; try lra. apply Rmult_le_compat; lra. }
  assert (P2 : (0 <= mag v * c1 * c2)%R) by (apply Rmult_le_pos; lra).
  destruct (is_zero v) eqn:Z.
  - assert (Dg : degenerate (JNum v) = true)
      by (rewrite degenerate_number, Z; reflexivity).
    rewrite (convert_degenerate d (JNum v) a b Hd Dg).
    destruct v; try discriminate. cbn [mag]. split; [auto|].
    intros H. rewrite !Rmult_0_l in H. lra.
  - destruct (conversion_raw d v a b fa fb Hd W F Z Ha Hb B1 B2)
      as (y & -> & Fy & Wy & Ey).
    fold c1 c2 in Ey. apply Rabs_le_inv in Ey.
    set (U := (mag v * c1 * c2)%R) in *.
    assert (EU : (3 * eps * U <= 3 * 1.2e-16 * U)%R)
      by (apply Rmult_le_compat_r; lra).
    split; intros H.
    + assert (Zr : is_zero (round_decimals 10 y) = true)
        by (apply round_decimals_small; auto; lra).
      split; auto. now apply formatNumber_zero.
    + apply round_decimals_large; auto. lra.
Qed.

(** ** Accuracy against the decimal factors *)

Lemma powerRZ_10_pos (e : Z) : (0 < powerRZ 10 e)%R.
Proof. apply powerRZ_lt. lra. Qed.

Lemma decimal_fraction (m e : Z) :
  decimal m e
  = (if 0 <=? e then IZR (m * 10 ^ e) / 1 else IZR m / IZR (10 ^ (- e)))%R.
Proof.
  unfold decimal. destruct (0 <=? e) eqn:E.
  - apply Z.leb_le in E. rewrite mult_IZR.
    rewrite <- (Z2Nat.id e) by lia. rewrite pow10_IZR, <- pow_powerRZ. field.
  - apply Z.leb_gt in E.
    replace e with (- (- e)) at 1 by lia.
    rewrite <- (Z2Nat.id (- e)) by lia. rewrite pow10_IZR.
    rewrite powerRZ_neg' , <- pow_powerRZ. reflexivity.
Qed.

Lemma lit_rounds (m e : Z) :
  0 < m -> rounds_to false (decimal m e) (lit m e).
Proof.
  intros M. rewrite decimal_fraction. unfold lit, number_of_decimal.
  destruct (0 <=? e) eqn:E.
  - apply Z.leb_le in E. apply round_to_number_rounds; [|lia].
    apply Z.mul_pos_pos; [lia|apply Z.pow_pos_nonneg; lia].
  - apply Z.leb_gt in E. apply round_to_number_rounds; [lia|].
    apply Z.pow_pos_nonneg; lia.
Qed.

Lemma lit_positive (m e : Z) :
  positive_finite (lit m e) = true -> 0 < m.
Proof.
  intros P. destruct m as [|m|m]; [| lia |].
  - unfold lit, number_of_decimal in P.
    destruct (0 <=? e); cbn in P; discriminate.
  - unfold lit, number_of_decimal in P.
    destruct (0 <=? e); [|discriminate].
    assert (H : Z.neg m * 10 ^ e <= 0).
    { destruct (10 ^ e) eqn:T; try lia. }
    destruct (Z.neg m * 10 ^ e); try lia; discriminate.
Qed.

(** A table factor and the decimal literal it was written as. *)
Lemma factor_decimal (d : domain) (k : string) (m e : Z) :
  own_property (table d) k = Some (lit m e) ->
  (0 < decimal m e)%R /\
  (Rabs (mag (lit m e) - decimal m e) <= 1.21e-16 * decimal m e)%R.
Proof.
  intros H. destruct (factor_range d k _ H) as (P & _ & Rg).
  pose proof (lit_positive m e P) as M.
  pose proof (lit_rounds m e M) as Rd.
  pose proof eps_small as He. pose proof eta_small as Hn.
  assert (D0 : (0 < decimal m e)%R).
  { unfold decimal. apply Rmult_lt_0_compat; [apply IZR_lt; lia|apply powerRZ_10_pos]. }
  destruct Rd as (_ & _ & E).
  destruct (lit m e) as [| | |s mm ee]; try discriminate.
  set (D := decimal m e) in *. set (f := mag (S754_finite s mm ee)) in *.
  assert (ED : (eps * D <= 1.2e-16 * D)%R) by (apply Rmult_le_compat_r; lra).
  split; auto. pose proof E as E'. apply Rabs_le_inv in E'.
  eapply Rle_trans; [exact E|].
  assert (1e-8 <= D)%R by lra. lra.
Qed.

Lemma ratio_error (f g A B : R) :
  (0 < A -> 0 < B ->
   Rabs (f - A) <= 1.21e-16 * A -> Rabs (g - B) <= 1.21e-16 * B ->
   Rabs (f / g - A / B) <= 2.5e-16 * (A / B))%R.
Proof.
  intros HA HB Ef Eg. apply Rabs_le_inv in Ef. apply Rabs_le_inv in Eg.
  assert (G : (0 < g)%R) by lra.
  assert (IB : (0 < / B)%R) by (apply Rinv_0_lt_compat; lra).
  assert (IG : (0 < / g)%R) by (apply Rinv_0_lt_compat; lra).
  assert (Q : (0 < A / B)%R) by (apply Rmult_lt_0_compat; lra).
  assert (X : (A / B * g <= A / B * (B + 1.21e-16 * B))%R)
    by (apply Rmult_le_compat_l; lra).
  assert (X' : (A / B * (B - 1.21e-16 * B) <= A / B * g)%R)
    by (apply Rmult_le_compat_l; lra).
  replace (A / B * (B + 1.21e-16 * B))%R with (A * (1 + 1.21e-16))%R in X
    by (field; lra).
  replace (A / B * (B - 1.21e-16 * B))%R with (A * (1 - 1.21e-16))%R in X'
    by (field; lra).
  apply Rabs_le. split.
  - apply Rmult_le_reg_r with g; [lra|].
    replace ((f / g - A / B) * g)%R with (f - A / B * g)%R by (field; lra).
    lra.
  - apply Rmult_le_reg_r with g; [lra|].
    replace ((f / g - A / B) * g)%R with (f - A / B * g)%R by (field; lra).
    lra.
Qed.

Lemma value_scaled (r v : number) (c : R) :
  (0 <= c)%R ->
  is_zero r = true \/ sign_of r = sign_of v ->
  Rabs (value r - value v * c) = Rabs (mag r - mag v * c).
Proof.
  intros C [Z|S].
  - destruct r; try discriminate. cbn [value mag].
    replace (0 - value v * c)%R with (- (value v * c))%R by lra.
    replace (0 - mag v * c)%R with (- (mag v * c))%R by lra.
    rewrite !Rabs_Ropp, Rabs_mult, Rabs_value.
    rewrite (Rabs_pos_eq c C). symmetry. apply Rabs_pos_eq.
    apply Rmult_le_pos; auto. apply mag_nonneg.
  - rewrite !value_mag, S. destruct (sign_of v).
    + replace (- mag r - - mag v * c)%R with (- (mag r - mag v * c))%R by lra.
      apply Rabs_Ropp.
    + reflexivity.
Qed.

(** X4: a scale-based conversion between known units is accurate: the
    result differs from the exact product of the value and the ratio of the
    decimal factors by at most 5.1e-11 plus a relative 1e-15. *)
Theorem conversion_accuracy (d : domain) (v : number) (a b : string)
  (ma ea mb eb : Z) :
  scale_based d = true -> wf v = true -> is_finite v = true ->
  (Rabs (value v) <= 1e290)%R ->
  own_property (table d) a = Some (lit ma ea) ->
  own_property (table d) b = Some (lit mb eb) ->
  let ratio :=
    (if multiplicative d then decimal ma ea / decimal mb eb
     else decimal mb eb / decimal ma ea)%R in
  is_finite (convert d (JNum v) a b) = true /\
  (Rabs (value (convert d (JNum v) a b) - value v * ratio)
   <= 5.1e-11 + 1e-15 * Rabs (value v * ratio))%R.
Proof.
  intros Hd W F Bv Ha Hb ratio.
  destruct (factor_decimal d a ma ea Ha) as (A0 & EA).
  destruct (factor_decimal d b mb eb Hb) as (B0 & EB).
  destruct (scales_range d a _ Ha) as (Ra1 & _ & _).
  destruct (scales_range d b _ Hb) as (_ & Rb2 & _).
  pose proof (mag_nonneg v) as Mv. rewrite Rabs_value in Bv.
  pose proof eps_small as He.
  assert (B1 : (mag v * first_scale d (lit ma ea) <= 1e305)%R).
  { apply Rle_trans with (1e290 * 1e7)%R; [|lra].
    apply Rmult_le_compat; lra. }
  assert (B2 : (mag v * first_scale d (lit ma ea) * second_scale d (lit mb eb)
                <= 1e305)%R).
  { apply Rle_trans with (1e290 * 1e7 * 1e7)%R; [|lra].
    apply Rmult_le_compat; try lra; [apply Rmult_le_pos; lra|].
    apply Rmult_le_compat; lra. }
  destruct (conversion_error d v a b _ _ Hd W F Ha Hb B1 B2)
    as (Fr & Wr & Sr & Er).
  split; auto.
  set (r := convert d (JNum v) a b) in *.
  set (c := (first_scale d (lit ma ea) * second_scale d (lit mb eb))%R) in *.
  assert (Rc : (0 < ratio /\ Rabs (c - ratio) <= 2.5e-16 * ratio)%R).
  { unfold c, ratio, first_scale, second_scale. destruct (multiplicative d).
    - split; [apply Rmult_lt_0_compat; [lra|apply Rinv_0_lt_compat; lra]|].
      apply ratio_error; auto.
    - split; [apply Rmult_lt_0_compat; [lra|apply Rinv_0_lt_compat; lra]|].
      rewrite Rmult_comm. apply ratio_error; auto. }
  destruct Rc as (R0 & Rc).
  rewrite value_scaled by (auto; lra).
  rewrite Rabs_mult, Rabs_value, (Rabs_pos_eq ratio) by lra.
  rewrite Rmult_assoc in Er. fold c in Er.
  apply Rabs_le_inv in Er. apply Rabs_le_inv in Rc.
  assert (C0 : (0 <= c)%R) by (unfold c; apply Rmult_le_pos; lra).
  assert (U1 : (mag v * c <= mag v * (ratio + 2.5e-16 * ratio))%R)
    by (apply Rmult_le_compat_l; lra).
  assert (U2 : (mag v * (ratio - 2.5e-16 * ratio) <= mag v * c)%R)
    by (apply Rmult_le_compat_l; lra).
  assert (U0 : (0 <= mag v * c)%R) by (apply Rmult_le_pos; lra).
  assert (E4 : (4 * eps * (mag v * c) <= 4 * 1.2e-16 * (mag v * c))%R)
    by (apply Rmult_le_compat_r; lra).
  assert (V0 : (0 <= mag v * ratio)%R) by (apply Rmult_le_pos; lra).
  apply Rabs_le. split; lra.
Qed.

(** ** Signed rounding errors *)

Lemma rounds_to_near (s : bool) (t : R) (r : number) :
  rounds_to s t r -> (0 <= t <= 1e305)%R ->
  near (if s then - t else t)%R (eps * t + eta) r.
Proof.
  intros H T. pose proof bpow_1023_large as Big.
  destruct (rounds_to_bounded s t r H ltac:(lra)) as (F & W & S & E).
  repeat split; auto. rewrite value_mag, S. destruct s; auto.
  replace (- mag r - - t)%R with (- (mag r - t))%R by lra.
  now rewrite Rabs_Ropp.
Qed.

Lemma value_finite (s : bool) (m : positive) (e : Z) :
  value (S754_finite s m e) = (IZR (cond_Zopp s (Zpos m)) * bpow e)%R.
Proof.
  destruct s; cbn [value cond_Zopp]; auto.
  change (- Zpos m) with (Zneg m). change (Zneg m) with (- Zpos m).
  rewrite opp_IZR. lra.
Qed.

Lemma shl_align_fst (mx : positive) (ex ez : Z) :
  ez <= ex ->
  (IZR (Zpos (fst (shl_align mx ex ez))) * bpow ez = IZR (Zpos mx) * bpow ex)%R.
Proof.
  intros L. unfold shl_align. destruct (ez - ex) as [|d|d] eqn:D; cbn [fst].
  - replace ez with ex by lia. reflexivity.
  - lia.
  - rewrite iter_xO_shift, mult_IZR, <- bpow_IZR by lia.
    replace ex with (Zpos d + ez) by lia. rewrite bpow_add. ring.
Qed.

Lemma binary_normalize_near (m e : Z) :
  (Rabs (IZR m * bpow e) <= 1e305)%R ->
  near (IZR m * bpow e) (eps * Rabs (IZR m * bpow e) + eta)
    (binary_normalize prec emax m e false).
Proof.
  intros B. pose proof (bpow_pos e) as Pe.
  destruct m as [|p|p]; cbn [binary_normalize].
  - rewrite Rmult_0_l, Rabs_R0. repeat split.
    cbn [value]. replace (0 - 0)%R with 0%R by lra. rewrite Rabs_R0.
    pose proof eps_small. pose proof eta_small. lra.
  - assert (P : (0 < IZR (Zpos p))%R) by (apply IZR_lt; lia).
    assert (T : (0 <= IZR (Zpos p) * bpow e)%R) by (apply Rmult_le_pos; lra).
    rewrite Rabs_pos_eq in * by exact T.
    apply (rounds_to_near false); [apply binary_round_rounds|lra].
  - assert (P : (0 < IZR (Zpos p))%R) by (apply IZR_lt; lia).
    assert (T : (0 <= IZR (Zpos p) * bpow e)%R) by (apply Rmult_le_pos; lra).
    assert (N : (IZR (Zneg p) * bpow e = - (IZR (Zpos p) * bpow e))%R).
    { change (Zneg p) with (- Zpos p). rewrite opp_IZR. ring. }
    rewrite N in *. rewrite Rabs_Ropp in *. rewrite Rabs_pos_eq in * by exact T.
    apply (rounds_to_near true); [apply binary_round_rounds|lra].
Qed.

Lemma near_self (x : number) (delta : R) :
  wf x = true -> is_finite x = true -> (0 <= delta)%R ->
  near (value x) delta x.
Proof.
  intros W F D. repeat split; auto.
  replace (value x - value x)%R with 0%R by lra. now rewrite Rabs_R0.
Qed.

Lemma error_nonneg (t : R) : (0 <= eps * Rabs t + eta)%R.
Proof.
  pose proof eps_small. pose proof eta_small. pose proof (Rabs_pos t).
  assert (0 <= eps * Rabs t)%R by (apply Rmult_le_pos; lra). lra.
Qed.

Lemma add_near (x y : number) :
  wf x = true -> wf y = true -> is_finite x = true -> is_finite y = true ->
  (Rabs (value x + value y) <= 1e305)%R ->
  near (value x + value y) (eps * Rabs (value x + value y) + eta) (x + y)%num.
Proof.
  intros Wx Wy Fx Fy B.
  destruct x as [sx| | |sx mx ex]; try discriminate;
    destruct y as [sy| | |sy my ey]; try discriminate.
  - cbn [value]. replace (0 + 0)%R with 0%R by lra.
    assert (E : value (S754_zero sx + S754_zero sy)%num = 0%R)
      by (destruct sx, sy; reflexivity).
    repeat split; [destruct sx, sy; reflexivity..|].
    rewrite E. replace (0 - 0)%R with 0%R by lra.
    rewrite !Rabs_R0. pose proof eps_small. pose proof eta_small. lra.
  - change (S754_zero sx + S754_finite sy my ey)%num with (S754_finite sy my ey).
    change (value (S754_zero sx)) with 0%R. rewrite Rplus_0_l.
    apply near_self; auto. apply error_nonneg.
  - change (S754_finite sx mx ex + S754_zero sy)%num with (S754_finite sx mx ex).
    change (value (S754_zero sy)) with 0%R. rewrite Rplus_0_r.
    apply near_self; auto. apply error_nonneg.
  - unfold add. cbn [SFadd]. cbv zeta.
    change (IntDef.Z.min ex ey) with (Z.min ex ey).
    set (ez := Z.min ex ey).
    assert (V : (value (S754_finite sx mx ex) + value (S754_finite sy my ey)
                 = IZR (cond_Zopp sx (Zpos (fst (shl_align mx ex ez)))
                        + cond_Zopp sy (Zpos (fst (shl_align my ey ez))))
                   * bpow ez)%R).
    { rewrite plus_IZR, Rmult_plus_distr_r.
      pose proof (shl_align_fst mx ex ez ltac:(unfold ez; lia)) as Ax.
      pose proof (shl_align_fst my ey ez ltac:(unfold ez; lia)) as Ay.
      rewrite !value_finite.
      destruct sx, sy; cbn [cond_Zopp]; rewrite ?opp_IZR; lra. }
    rewrite V in *. now apply binary_normalize_near.
Qed.

Lemma sub_near (x y : number) :
  wf x = true -> wf y = true -> is_finite x = true -> is_finite y = true ->
  (Rabs (value x - value y) <= 1e305)%R ->
  near (value x - value y) (eps * Rabs (value x - value y) + eta) (x - y)%num.
Proof.
  intros Wx Wy Fx Fy B.
  destruct x as [sx| | |sx mx ex]; try discriminate;
    destruct y as [sy| | |sy my ey]; try discriminate.
  - cbn [value]. replace (0 - 0)%R with 0%R by lra.
    assert (E : value (S754_zero sx - S754_zero sy)%num = 0%R)
      by (destruct sx, sy; reflexivity).
    repeat split; [destruct sx, sy; reflexivity..|].
    rewrite E. replace (0 - 0)%R with 0%R by lra.
    rewrite !Rabs_R0. pose proof eps_small. pose proof eta_small. lra.
  - change (S754_zero sx - S754_finite sy my ey)%num
      with (S754_finite (negb sy) my ey).
    assert (E : (value (S754_zero sx) - value (S754_finite sy my ey)
                 = value (S754_finite (negb sy) my ey))%R)
      by (destruct sy; cbn [value negb]; lra).
    rewrite E. apply near_self; auto. apply error_nonneg.
  - change (S754_finite sx mx ex - S754_zero sy)%num with (S754_finite sx mx ex).
    change (value (S754_zero sy)) with 0%R. rewrite Rminus_0_r.
    apply near_self; auto. apply error_nonneg.
  - unfold sub. cbn [SFsub]. cbv zeta.
    change (IntDef.Z.min ex ey) with (Z.min ex ey).
    set (ez := Z.min ex ey).
    assert (V : (value (S754_finite sx mx ex) - value (S754_finite sy my ey)
                 = IZR (cond_Zopp sx (Zpos (fst (shl_align mx ex ez)))
                        - cond_Zopp sy (Zpos (fst (shl_align my ey ez))))
                   * bpow ez)%R).
    { rewrite minus_IZR, Rmult_minus_distr_r.
      pose proof (shl_align_fst mx ex ez ltac:(unfold ez; lia)) as Ax.
      pose proof (shl_align_fst my ey ez ltac:(unfold ez; lia)) as Ay.
      rewrite !value_finite.
      destruct sx, sy; cbn [cond_Zopp]; rewrite ?opp_IZR; lra. }
    rewrite V in *. now apply binary_normalize_near.
Qed.

Lemma mul_near (x y : number) :
  wf x = true -> wf y = true -> is_finite x = true -> is_finite y = true ->
  (Rabs (value x * value y) <= 1e305)%R ->
  near (value x * value y) (eps * Rabs (value x * value y) + eta) (x * y)%num.
Proof.
  intros Wx Wy Fx Fy B.
  destruct x as [sx| | |sx mx ex]; try discriminate;
    destruct y as [sy| | |sy my ey]; try discriminate;
    try (cbn [value]; rewrite ?Rmult_0_l, ?Rmult_0_r;
         repeat split;
         unfold mul; cbn [SFmul value];
         replace (0 - 0)%R with 0%R by lra; rewrite !Rabs_R0;
         pose proof eps_small; pose proof eta_small; lra).
  pose proof (mul_rounds sx sy mx my ex ey Wx Wy) as H.
  set (t := (IZR (Zpos mx) * bpow ex * (IZR (Zpos my) * bpow ey))%R) in *.
  assert (T0 : (0 <= t)%R).
  { pose proof (mag_nonneg (S754_finite sx mx ex)).
    pose proof (mag_nonneg (S754_finite sy my ey)).
    cbn [mag] in *. unfold t. now apply Rmult_le_pos. }
  assert (V : (value (S754_finite sx mx ex) * value (S754_finite sy my ey)
               = if xorb sx sy then - t else t)%R).
  { unfold t. destruct sx, sy; cbn [value xorb]; ring. }
  rewrite V in *.
  assert (A : Rabs (if xorb sx sy then (- t)%R else t) = t).
  { destruct (xorb sx sy); [rewrite Rabs_Ropp|]; now apply Rabs_pos_eq. }
  rewrite A in *. apply rounds_to_near; auto.
Qed.

(** ** Errors along a computation

    The value [x] approximates the real [t], both of a size bounded by a
    multiple of the scale [S]; one more operation with a constant keeps
    this form. *)

Lemma near_sub (x k : number) (t S a g gk : R) :
  (1 <= S <= 1e300)%R -> (0 <= a <= 1)%R -> (0 <= g <= 1000)%R ->
  (0 <= gk <= 1000)%R ->
  near t (a * S) x -> (Rabs t <= g * S)%R ->
  wf k = true -> is_finite k = true -> (Rabs (value k) <= gk)%R ->
  near (t - value k) ((a + 1.2e-16 * (g + gk + a) + 1e-100) * S) (x - k)%num /\
  (Rabs (t - value k) <= (g + gk) * S)%R.
Proof.
  intros HS Ha Hg Hgk (Fx & Wx & Ex) Ht Wk Fk Hk.
  pose proof eps_small as He. pose proof eta_small as Hn.
  apply Rabs_le_inv in Ex. apply Rabs_le_inv in Ht. apply Rabs_le_inv in Hk.
  assert (P1 : (gk <= gk * S)%R).
  { rewrite <- (Rmult_1_r gk) at 1. apply Rmult_le_compat_l; lra. }
  assert (PaS : (0 <= a * S)%R) by (apply Rmult_le_pos; lra).
  assert (PgS : (0 <= g * S)%R) by (apply Rmult_le_pos; lra).
  assert (Bd : (Rabs (value x - value k) <= g * S + gk * S + a * S)%R)
    by (apply Rabs_le; lra).
  assert (Big : (g * S + gk * S + a * S <= 1e305)%R).
  { replace (g * S + gk * S + a * S)%R with ((g + gk + a) * S)%R by ring.
    apply Rle_trans with (2001 * 1e300)%R; [|lra].
    apply Rmult_le_compat; lra. }
  destruct (sub_near x k Wx Wk Fx Fk ltac:(lra)) as (F & W & E).
  assert (Ee : (eps * Rabs (value x - value k)
                <= 1.2e-16 * Rabs (value x - value k))%R)
    by (apply Rmult_le_compat_r; [apply Rabs_pos|lra]).
  assert (N1 : (1e-100 <= 1e-100 * S)%R) by lra.
  apply Rabs_le_inv in E.
  split; [repeat split; auto|]; apply Rabs_le; lra.
Qed.

Lemma near_add (x k : number) (t S a g gk : R) :
  (1 <= S <= 1e300)%R -> (0 <= a <= 1)%R -> (0 <= g <= 1000)%R ->
  (0 <= gk <= 1000)%R ->
  near t (a * S) x -> (Rabs t <= g * S)%R ->
  wf k = true -> is_finite k = true -> (Rabs (value k) <= gk)%R ->
  near (t + value k) ((a + 1.2e-16 * (g + gk + a) + 1e-100) * S) (x + k)%num /\
  (Rabs (t + value k) <= (g + gk) * S)%R.
Proof.
  intros HS Ha Hg Hgk (Fx & Wx & Ex) Ht Wk Fk Hk.
  pose proof eps_small as He. pose proof eta_small as Hn.
  apply Rabs_le_inv in Ex. apply Rabs_le_inv in Ht. apply Rabs_le_inv in Hk.
  assert (P1 : (gk <= gk * S)%R).
  { rewrite <- (Rmult_1_r gk) at 1. apply Rmult_le_compat_l; lra. }
  assert (PaS : (0 <= a * S)%R) by (apply Rmult_le_pos; lra).
  assert (PgS : (0 <= g * S)%R) by (apply Rmult_le_pos; lra).
  assert (Bd : (Rabs (value x + value k) <= g * S + gk * S + a * S)%R)
    by (apply Rabs_le; lra).
  assert (Big : (g * S + gk * S + a * S <= 1e305)%R).
  { replace (g * S + gk * S + a * S)%R with ((g + gk + a) * S)%R by ring.
    apply Rle_trans with (2001 * 1e300)%R; [|lra].
    apply Rmult_le_compat; lra. }
  destruct (add_near x k Wx Wk Fx Fk ltac:(lra)) as (F & W & E).
  assert (Ee : (eps * Rabs (value x + value k)
                <= 1.2e-16 * Rabs (value x + value k))%R)
    by (apply Rmult_le_compat_r; [apply Rabs_pos|lra]).
  assert (N1 : (1e-100 <= 1e-100 * S)%R) by lra.
  apply Rabs_le_inv in E.
  split; [repeat split; auto|]; apply Rabs_le; lra.
Qed.

Lemma near_mul (x c : number) (t S a g gc : R) :
  (1 <= S <= 1e300)%R -> (0 <= a <= 1)%R -> (0 <= g <= 1000)%R ->
  (0 <= gc <= 10)%R ->
  near t (a * S) x -> (Rabs t <= g * S)%R ->
  wf c = true -> is_finite c = true -> (Rabs (value c) <= gc)%R ->
  near (t * value c)
    ((gc * a + 1.2e-16 * gc * (g + a) + 1e-100) * S) (x * c)%num /\
  (Rabs (t * value c) <= g * gc * S)%R.
Proof.
  intros HS Ha Hg Hgc (Fx & Wx & Ex) Ht Wc Fc Hc.
  pose proof eps_small as He. pose proof eta_small as Hn.
  assert (PaS : (0 <= a * S)%R) by (apply Rmult_le_pos; lra).
  assert (PgS : (0 <= g * S)%R) by (apply Rmult_le_pos; lra).
  assert (Vx : (Rabs (value x) <= (g + a) * S)%R).
  { replace (value x) with (t + (value x - t))%R by lra.
    eapply Rle_trans; [apply Rabs_triang|]. lra. }
  assert (Pr : (Rabs (value x * value c) <= (g + a) * S * gc)%R).
  { rewrite Rabs_mult. apply Rmult_le_compat; auto using Rabs_pos. }
  assert (Big : ((g + a) * S * gc <= 1e305)%R).
  { apply Rle_trans with (1001 * 1e300 * 10)%R; [|lra].
    apply Rmult_le_compat; try lra.
    apply Rmult_le_compat; lra. }
  destruct (mul_near x c Wx Wc Fx Fc ltac:(lra)) as (F & W & E).
  assert (Ee : (eps * Rabs (value x * value c)
                <= 1.2e-16 * Rabs (value x * value c))%R)
    by (apply Rmult_le_compat_r; [apply Rabs_pos|lra]).
  assert (D : (Rabs (value x * value c - t * value c) <= a * S * gc)%R).
  { replace (value x * value c - t * value c)%R
      with ((value x - t) * value c)%R by ring.
    rewrite Rabs_mult. apply Rmult_le_compat; auto using Rabs_pos. }
  assert (T : (Rabs (t * value c) <= g * S * gc)%R).
  { rewrite Rabs_mult. apply Rmult_le_compat; auto using Rabs_pos. }
  assert (N1 : (1e-100 <= 1e-100 * S)%R) by lra.
  split.
  - repeat split; auto.
    replace (value (x * c)%num - t * value c)%R
      with ((value (x * c)%num - value x * value c)
            + (value x * value c - t * value c))%R by ring.
    eapply Rle_trans; [apply Rabs_triang|].
    replace ((gc * a + 1.2e-16 * gc * (g + a) + 1e-100) * S)%R
      with (1.2e-16 * ((g + a) * S * gc) + 1e-100 * S + a * S * gc)%R by ring.
    lra.
  - replace (g * gc * S)%R with (g * S * gc)%R by ring. exact T.
Qed.

Lemma near_weaken (t d d' : R) (r : number) :
  near t d r -> (d <= d')%R -> near t d' r.
Proof. intros (F & W & E) H. repeat split; auto. lra. Qed.

Lemma near_shift (t t' d : R) (r : number) :
  near t d r -> near t' (d + Rabs (t - t')) r.
Proof.
  intros (F & W & E). repeat split; auto.
  replace (value r - t')%R with ((value r - t) + (t - t'))%R by lra.
  eapply Rle_trans; [apply Rabs_triang|]. lra.
Qed.

(** ** The constants of the temperature formulas *)

Lemma bpow_neg_IZR (k : Z) : 0 <= k -> bpow (- k) = (/ IZR (2 ^ k))%R.
Proof.
  intros K. pose proof (bpow_opp k) as O. pose proof (bpow_pos k) as P.
  rewrite <- bpow_IZR by exact K.
  apply Rmult_eq_reg_r with (bpow k); [|lra].
  rewrite O. field. lra.
Qed.

Lemma lit_32 :
  wf (lit 32 0) = true /\ is_finite (lit 32 0) = true /\
  value (lit 32 0) = 32%R.
Proof.
  replace (lit 32 0) with (S754_finite false 4503599627370496 (-47))
    by (vm_compute; reflexivity).
  repeat split. cbn [value]. change (-47) with (- (47)).
  rewrite bpow_neg_IZR by lia. change (2 ^ 47) with 140737488355328. lra.
Qed.

Lemma lit_273 :
  wf (lit 27315 (-2)) = true /\ is_finite (lit 27315 (-2)) = true /\
  (Rabs (value (lit 27315 (-2)) - 273.15) <= 3e-14)%R /\
  (Rabs (value (lit 27315 (-2))) <= 273.2)%R.
Proof.
  replace (lit 27315 (-2)) with (S754_finite false 4805305618032230 (-44))
    by (vm_compute; reflexivity).
  split; [reflexivity|]. split; [reflexivity|].
  cbn [value]. change (-44) with (- (44)).
  rewrite bpow_neg_IZR by lia. change (2 ^ 44) with 17592186044416.
  split; apply Rabs_le; lra.
Qed.

Lemma five_ninths :
  wf (lit 5 0 / lit 9 0)%num = true /\
  is_finite (lit 5 0 / lit 9 0)%num = true /\
  (Rabs (value (lit 5 0 / lit 9 0)%num - 5 / 9) <= 1e-16)%R /\
  (Rabs (value (lit 5 0 / lit 9 0)%num) <= 0.56)%R.
Proof.
  replace (lit 5 0 / lit 9 0)%num
    with (S754_finite false 5003999585967218 (-53))
    by (vm_compute; reflexivity).
  split; [reflexivity|]. split; [reflexivity|].
  cbn [value]. change (-53) with (- (53)).
  rewrite bpow_neg_IZR by lia. change (2 ^ 53) with 9007199254740992.
  split; apply Rabs_le; lra.
Qed.

Lemma nine_fifths :
  wf (lit 9 0 / lit 5 0)%num = true /\
  is_finite (lit 9 0 / lit 5 0)%num = true /\
  (Rabs (value (lit 9 0 / lit 5 0)%num - 9 / 5) <= 1e-16)%R /\
  (Rabs (value (lit 9 0 / lit 5 0)%num) <= 1.81)%R.
Proof.
  replace (lit 9 0 / lit 5 0)%num
    with (S754_finite false 8106479329266893 (-52))
    by (vm_compute; reflexivity).
  split; [reflexivity|]. split; [reflexivity|].
  cbn [value]. change (-52) with (- (52)).
  rewrite bpow_neg_IZR by lia. change (2 ^ 52) with 4503599627370496.
  split; apply Rabs_le; lra.
Qed.

(** ** Rounding to four decimals *)

Lemma round_decimals_4_near (y : number) :
  wf y = true -> is_finite y = true ->
  near (value y) (1.2e-16 * Rabs (value y) + 5.0000001e-5)
    (round_decimals 4 y).
Proof.
  intros W F. pose proof eps_small as He. pose proof eta_small as Hn.
  pose proof (Rabs_pos (value y)) as Ay.
  destruct y as [s| | |s m e]; try discriminate.
  - change (round_decimals 4 (S754_zero s)) with (S754_zero false).
    repeat split. cbn [value]. replace (0 - 0)%R with 0%R by lra.
    rewrite Rabs_R0. lra.
  - unfold round_decimals.
    destruct (ge_pow10 (magnitude m e) 21) eqn:G.
    + apply near_self; auto. lra.
    + destruct (magnitude_positive m e) as [Pp Pq].
      pose proof (round_half_up_near (fst (magnitude m e)) (snd (magnitude m e))
                    4 ltac:(lia) Pq) as Near.
      rewrite <- surjective_pairing, <- (mag_magnitude s) in Near.
      change (Z.of_nat 4) with 4 in *.
      pose proof (round_half_up_nonneg (magnitude m e) 4 Pp Pq ltac:(lia)) as Nn.
      set (n := round_half_up (magnitude m e) 4) in *.
      rewrite Rabs_value in *.
      set (Y := mag (S754_finite s m e)) in *.
      apply Rabs_le_inv in Near.
      assert (T4 : (10 ^ 4 = 1e4)%R) by (simpl; lra). rewrite T4 in Near.
      change (- (4)) with (-4).
      unfold number_of_decimal. change (0 <=? -4) with false. cbv iota.
      change (10 ^ (- -4)) with 10000.
      assert (VY : value (S754_finite s m e) = (if s then - Y else Y)%R)
        by (rewrite value_mag; reflexivity).
      destruct (Z.eq_dec n 0) as [Z0|NZ].
      * rewrite Z0 in *. cbn [round_to_number].
        repeat split. rewrite VY. cbn [value]. simpl IZR in Near.
        destruct s; apply Rabs_le; lra.
      * assert (Np : 0 < n) by lia.
        pose proof (round_to_number_rounds s n 10000 Np ltac:(lia)) as Rd.
        set (w := round_to_number s n 10000) in *.
        set (t := (IZR n / 10000)%R) in *.
        assert (Tb : (- 5e-5 <= t - Y <= 5e-5)%R) by (unfold t; lra).
        assert (T0 : (0 < t)%R).
        { apply IZR_lt in Np. unfold t. lra. }
        assert (Y0 : (0 <= Y)%R) by apply mag_nonneg.
        assert (YB : (Y < 1e21)%R) by (apply (below_pow10_21 s m e G)).
        destruct (rounds_to_near s t w Rd ltac:(lra)) as (Fw & Ww & Ew).
        repeat split; auto. rewrite VY.
        assert (Et : (eps * t <= 1.2e-16 * t)%R)
          by (apply Rmult_le_compat_r; lra).
        apply Rabs_le_inv in Ew.
        destruct s; apply Rabs_le; lra.
Qed.

(** ** The temperature formulas *)

Lemma scaled_deviation (t c c0 S g d : R) :
  (Rabs t <= g * S -> Rabs (c - c0) <= d -> 0 <= g * S -> 0 <= d ->
   Rabs (t * c - t * c0) <= g * d * S)%R.
Proof.
  intros Ht Hc G D.
  replace (t * c - t * c0)%R with (t * (c - c0))%R by ring.
  rewrite Rabs_mult. replace (g * d * S)%R with (g * S * d)%R by ring.
  apply Rmult_le_compat; auto using Rabs_pos.
Qed.

Lemma to_celsius_near (v : number) (u : string) (S : R) :
  wf v = true -> is_finite v = true ->
  (1 <= S <= 1e300)%R -> (Rabs (value v) <= S)%R ->
  near (to_celsius_exact (value v) u) (1e-13 * S) (to_celsius v u) /\
  (Rabs (to_celsius_exact (value v) u) <= 275 * S)%R.
Proof.
  intros W F HS HV.
  assert (Id : near (value v) (1e-13 * S) v /\ (Rabs (value v) <= 275 * S)%R).
  { split; [apply near_self; auto|]; lra. }
  assert (N0 : near (value v) (0 * S) v) by (apply near_self; auto; lra).
  unfold to_celsius, to_celsius_exact.
  destruct (String.eqb u "celsius"); auto.
  destruct (String.eqb u "fahrenheit").
  - destruct lit_32 as (W32 & F32 & V32).
    destruct five_ninths as (Wc & Fc & Dc & Bc).
    destruct (near_sub v (lit 32 0) (value v) S 0 1 32
                HS ltac:(lra) ltac:(lra) ltac:(lra) N0 ltac:(lra) W32 F32
                ltac:(rewrite V32, Rabs_pos_eq; lra)) as (N1 & B1).
    rewrite V32 in *.
    destruct (near_mul (v - lit 32 0)%num (lit 5 0 / lit 9 0)%num
                (value v - 32) S (0 + 1.2e-16 * (1 + 32 + 0) + 1e-100) 33 0.56
                HS ltac:(lra) ltac:(lra) ltac:(lra) N1 ltac:(lra) Wc Fc Bc)
      as (N2 & B2).
    pose proof (scaled_deviation (value v - 32)
                  (value (lit 5 0 / lit 9 0)%num) (5 / 9) S 33 1e-16
                  ltac:(lra) Dc ltac:(lra) ltac:(lra)) as Dv.
    split.
    + eapply near_weaken; [apply (near_shift _ ((value v - 32) * (5 / 9)) _ _ N2)|].
      lra.
    + replace ((value v - 32) * (5 / 9))%R
        with ((value v - 32) * value (lit 5 0 / lit 9 0)%num
              - ((value v - 32) * value (lit 5 0 / lit 9 0)%num
                 - (value v - 32) * (5 / 9)))%R by ring.
      eapply Rle_trans; [apply Rabs_triang|]. rewrite Rabs_Ropp. lra.
  - destruct (String.eqb u "kelvin"); auto.
    destruct lit_273 as (Wk & Fk & Dk & Bk).
    destruct (near_sub v (lit 27315 (-2)) (value v) S 0 1 273.2
                HS ltac:(lra) ltac:(lra) ltac:(lra) N0 ltac:(lra) Wk Fk Bk)
      as (N1 & B1).
    assert (Sh : (Rabs (value v - value (lit 27315 (-2)) - (value v - 273.15))
                  <= 3e-14)%R).
    { replace (value v - value (lit 27315 (-2)) - (value v - 273.15))%R
        with (- (value (lit 27315 (-2)) - 273.15))%R by ring.
      now rewrite Rabs_Ropp. }
    split.
    + eapply near_weaken; [apply (near_shift _ (value v - 273.15) _ _ N1)|].
      lra.
    + apply Rabs_le_inv in B1. apply Rabs_le_inv in Dk.
      apply Rabs_le. lra.
Qed.

Lemma from_celsius_near (c : number) (t : R) (u : string) (S : R) :
  (1 <= S <= 1e300)%R ->
  near t (1e-13 * S) c -> (Rabs t <= 275 * S)%R ->
  near (from_celsius_exact t u) (4e-13 * S) (from_celsius c u) /\
  (Rabs (from_celsius_exact t u) <= 550 * S)%R.
Proof.
  intros HS N Ht.
  assert (Id : near t (4e-13 * S) c /\ (Rabs t <= 550 * S)%R).
  { split; [eapply near_weaken; [exact N|]|]; lra. }
  unfold from_celsius, from_celsius_exact.
  destruct (String.eqb u "celsius"); auto.
  destruct (String.eqb u "fahrenheit").
  - destruct lit_32 as (W32 & F32 & V32).
    destruct nine_fifths as (Wc & Fc & Dc & Bc).
    destruct (near_mul c (lit 9 0 / lit 5 0)%num t S 1e-13 275 1.81
                HS ltac:(lra) ltac:(lra) ltac:(lra) N Ht Wc Fc Bc)
      as (N1 & B1).
    destruct (near_add (c * (lit 9 0 / lit 5 0))%num (lit 32 0)
                (t * value (lit 9 0 / lit 5 0)%num) S
                (1.81 * 1e-13 + 1.2e-16 * 1.81 * (275 + 1e-13) + 1e-100)
                (275 * 1.81) 32
                HS ltac:(lra) ltac:(lra) ltac:(lra) N1 B1 W32 F32
                ltac:(rewrite V32, Rabs_pos_eq; lra)) as (N2 & B2).
    rewrite V32 in *.
    pose proof (scaled_deviation t (value (lit 9 0 / lit 5 0)%num) (9 / 5) S
                  275 1e-16 Ht Dc ltac:(lra) ltac:(lra)) as Dv.
    assert (Sh : (Rabs (t * value (lit 9 0 / lit 5 0)%num + 32
                        - (t * (9 / 5) + 32)) <= 275 * 1e-16 * S)%R).
    { replace (t * value (lit 9 0 / lit 5 0)%num + 32 - (t * (9 / 5) + 32))%R
        with (t * value (lit 9 0 / lit 5 0)%num - t * (9 / 5))%R by ring.
      exact Dv. }
    split.
    + eapply near_weaken; [apply (near_shift _ (t * (9 / 5) + 32) _ _ N2)|].
      lra.
    + apply Rabs_le_inv in B2. apply Rabs_le_inv in Sh. apply Rabs_le. lra.
  - destruct (String.eqb u "kelvin"); auto.
    destruct lit_273 as (Wk & Fk & Dk & Bk).
    destruct (near_add c (lit 27315 (-2)) t S 1e-13 275 273.2
                HS ltac:(lra) ltac:(lra) ltac:(lra) N Ht Wk Fk Bk)
      as (N1 & B1).
    assert (Sh : (Rabs (t + value (lit 27315 (-2)) - (t + 273.15)) <= 3e-14)%R).
    { replace (t + value (lit 27315 (-2)) - (t + 273.15))%R
        with (value (lit 27315 (-2)) - 273.15)%R by ring.
      exact Dk. }
    split.
    + eapply near_weaken; [apply (near_shift _ (t + 273.15) _ _ N1)|].
      lra.
    + apply Rabs_le_inv in B1. apply Rabs_le_inv in Sh. apply Rabs_le. lra.
Qed.

(** ** Temperature round trips *)

Lemma exact_round_trip (x : R) (a b : string) :
  from_celsius_exact
    (to_celsius_exact (from_celsius_exact (to_celsius_exact x a) b) b) a = x.
Proof.
  unfold from_celsius_exact, to_celsius_exact.
  destruct (String.eqb b "celsius"), (String.eqb b "fahrenheit"),
    (String.eqb b "kelvin"), (String.eqb a "celsius"),
    (String.eqb a "fahrenheit"), (String.eqb a "kelvin"); field.
Qed.

Lemma exact_size (x : R) (a b : string) :
  (Rabs (from_celsius_exact (to_celsius_exact x a) b)
   <= 1.8 * Rabs x + 550)%R.
Proof.
  unfold from_celsius_exact, to_celsius_exact.
  pose proof (Rabs_pos x) as P.
  assert (X : (- Rabs x <= x <= Rabs x)%R).
  { split; [|apply Rle_abs]. pose proof (Rle_abs (- x)) as H.
    rewrite Rabs_Ropp in H. lra. }
  destruct (String.eqb b "celsius"), (String.eqb b "fahrenheit"),
    (String.eqb b "kelvin"), (String.eqb a "celsius"),
    (String.eqb a "fahrenheit"), (String.eqb a "kelvin");
    apply Rabs_le; lra.
Qed.

Lemma exact_lipschitz (x y : R) (a b : string) :
  (Rabs (from_celsius_exact (to_celsius_exact x a) b
         - from_celsius_exact (to_celsius_exact y a) b)
   <= 1.8 * Rabs (x - y))%R.
Proof.
  unfold from_celsius_exact, to_celsius_exact.
  pose proof (Rabs_pos (x - y)) as P.
  assert (X : (- Rabs (x - y) <= x - y <= Rabs (x - y))%R).
  { split; [|apply Rle_abs]. pose proof (Rle_abs (- (x - y))) as H.
    rewrite Rabs_Ropp in H. lra. }
  destruct (String.eqb b "celsius"), (String.eqb b "fahrenheit"),
    (String.eqb b "kelvin"), (String.eqb a "celsius"),
    (String.eqb a "fahrenheit"), (String.eqb a "kelvin");
    apply Rabs_le; lra.
Qed.

Lemma temperature_error (v : number) (a b : string) :
  wf v = true -> is_finite v = true -> (Rabs (value v) <= 1e290)%R ->
  is_finite (convert Temperature (JNum v) a b) = true /\
  wf (convert Temperature (JNum v) a b) = true /\
  (Rabs (value (convert Temperature (JNum v) a b)
         - from_celsius_exact (to_celsius_exact (value v) a) b)
   <= 5.001e-5 + 1e-12 * Rabs (value v))%R.
Proof.
  intros W F B.
  assert (N : is_nan v = false) by (destruct v; try discriminate; reflexivity).
  rewrite (convert_temperature v a b W N).
  pose proof (Rabs_pos (value v)) as Av.
  set (S := (Rabs (value v) + 1)%R).
  assert (HS : (1 <= S <= 1e300)%R) by (unfold S; lra).
  destruct (to_celsius_near v a S W F HS ltac:(unfold S; lra)) as (N1 & B1).
  destruct (from_celsius_near _ _ b S HS N1 B1) as (N2 & B2).
  set (y := from_celsius (to_celsius v a) b) in *.
  set (t := from_celsius_exact (to_celsius_exact (value v) a) b) in *.
  destruct N2 as (Fy & Wy & Ey).
  destruct (round_decimals_4_near y Wy Fy) as (Fr & Wr & Er).
  split; auto. split; auto.
  assert (Vy : (Rabs (value y) <= 551 * S)%R).
  { replace (value y) with (t + (value y - t))%R by lra.
    eapply Rle_trans; [apply Rabs_triang|]. lra. }
  replace (value (round_decimals 4 y) - t)%R
    with ((value (round_decimals 4 y) - value y) + (value y - t))%R by lra.
  eapply Rle_trans; [apply Rabs_triang|]. unfold S in *. lra.
Qed.

(** X5: the temperature conversion of a finite value is accurate: the
    result is finite and differs from the exact formula by at most
    0.00005001 plus a relative 1e-12. *)
Theorem temperature_accuracy (v : number) (a b : string) :
  wf v = true -> is_finite v = true -> (Rabs (value v) <= 1e290)%R ->
  is_finite (convert Temperature (JNum v) a b) = true /\
  (Rabs (value (convert Temperature (JNum v) a b)
         - from_celsius_exact (to_celsius_exact (value v) a) b)
   <= 5.001e-5 + 1e-12 * Rabs (value v))%R.
Proof.
  intros W F B. destruct (temperature_error v a b W F B) as (H1 & _ & H2).
  now split.
Qed.

(** X6: a temperature converted from one unit to another and back differs
    from the original by at most 0.00015 plus a relative 1e-11, whatever
    the two units. *)
Theorem temperature_round_trip (v : number) (a b : string) :
  wf v = true -> is_finite v = true -> (Rabs (value v) <= 1e280)%R ->
  within (1.5e-4 + 1e-11 * Rabs (value v))
    (round_trip Temperature v a b) v.
Proof.
  intros W F B. unfold round_trip.
  pose proof (Rabs_pos (value v)) as Av.
  destruct (temperature_error v a b W F ltac:(lra)) as (F1 & W1 & E1).
  set (r := convert Temperature (JNum v) a b) in *.
  pose proof (exact_size (value v) a b) as Sz.
  assert (Vr : (Rabs (value r) <= 1.81 * Rabs (value v) + 551)%R).
  { replace (value r)
      with (from_celsius_exact (to_celsius_exact (value v) a) b
            + (value r - from_celsius_exact (to_celsius_exact (value v) a) b))%R
      by lra.
    eapply Rle_trans; [apply Rabs_triang|]. lra. }
  destruct (temperature_error r b a W1 F1 ltac:(lra)) as (F2 & W2 & E2).
  repeat split; auto.
  pose proof (exact_lipschitz (value r)
                (from_celsius_exact (to_celsius_exact (value v) a) b) b a) as L.
  rewrite exact_round_trip in L.
  replace (value (convert Temperature (JNum r) b a) - value v)%R
    with ((value (convert Temperature (JNum r) b a)
           - from_celsius_exact (to_celsius_exact (value r) b) a)
          + (from_celsius_exact (to_celsius_exact (value r) b) a - value v))%R
    by lra.
  eapply Rle_trans; [apply Rabs_triang|]. lra.
Qed.

(** ** What the result control shows *)

Lemma value_of_modify_same (w : world) (n : node) (s old : string) :
  value_of w (Some n) = Some old ->
  value_of (with_dom (modify n (Element.with_value s) (dom w)) w) (Some n)
  = Some s.
Proof.
  cbn. rewrite nth_error_modify_same.
  destruct (nth_error (dom w) n); cbn; [reflexivity|discriminate].
Qed.

Lemma value_of_modify_other (w : world) (n : node) (f : Element.t -> Element.t)
  (r : option node) :
  r <> Some n ->
  value_of (with_dom (modify n f (dom w)) w) r = value_of w r.
Proof.
  destruct r as [m|]; cbn; auto. intros H.
  rewrite nth_error_modify_other by congruence. reflexivity.
Qed.

Lemma update_shows (page : document) (d : domain) (w : world) (s a b old : string) :
  value_of w (input_of page d) = Some s ->
  value_of w (from_of page d) = Some a ->
  value_of w (to_of page d) = Some b ->
  value_of w (result_of page d) = Some old ->
  fst (update page d w) = Done tt /\
  value_of (snd (update page d w)) (result_of page d) = Some (display d s a b).
Proof.
  intros Hs Ha Hb Hr.
  destruct (update_spec page d w s a b old Hs Ha Hb Hr) as (n & N & ->).
  split; auto. cbn [snd]. rewrite N in *. eapply value_of_modify_same; eauto.
Qed.

Lemma wf_parseFloat (s : string) : wf (parseFloat s) = true.
Proof.
  unfold parseFloat, parse_decimal.
  destruct (read_sign _) as [neg cs1].
  destruct (starts_with _ _); [reflexivity|].
  destruct (span_digits cs1) as [ip r1].
  destruct (match r1 with [] => _ | _ => _ end) as [fp r2].
  destruct (ip ++ fp); [reflexivity|]. apply wf_number_of_decimal.
Qed.

Lemma wf_or_else (a b : number) :
  wf a = true -> wf b = true -> wf (or_else a b) = true.
Proof. unfold or_else. now destruct (truthy _). Qed.

Lemma or_else_falsy (a b : number) :
  truthy (JNum a) = false -> or_else a b = b.
Proof. unfold or_else. now intros ->. Qed.

(** X8: when the text of an input does not start with a number other than
    zero, the update function of a scale-based domain shows "0", whatever
    the selected units. *)
Theorem blank_input_shows_zero (page : document) (d : domain) (w : world)
  (s a b old : string) :
  scale_based d = true ->
  value_of w (input_of page d) = Some s ->
  value_of w (from_of page d) = Some a ->
  value_of w (to_of page d) = Some b ->
  value_of w (result_of page d) = Some old ->
  truthy (JNum (parseFloat s)) = false ->
  fst (update page d w) = Done tt /\
  value_of (snd (update page d w)) (result_of page d) = Some "0"%string.
Proof.
  intros S Hs Ha Hb Hr T.
  destruct (update_shows page d w s a b old Hs Ha Hb Hr) as (D & V).
  split; auto. rewrite V. f_equal. unfold display.
  rewrite (or_else_falsy _ _ T).
  now rewrite convert_degenerate.
Qed.

(** X9: the temperature converter has no such guard: a text that does not
    start with a number, or starts with zero, is converted as 0 degrees. *)
Theorem blank_temperature_is_zero_degrees (page : document) (w : world)
  (s a b old : string) :
  value_of w (tempInput page) = Some s ->
  value_of w (tempFromUnit page) = Some a ->
  value_of w (tempToUnit page) = Some b ->
  value_of w (tempResult page) = Some old ->
  truthy (JNum (parseFloat s)) = false ->
  fst (updateTemperatureConversion page w) = Done tt /\
  value_of (snd (updateTemperatureConversion page w)) (tempResult page)
  = Some (formatNumber
            (round_decimals 4 (from_celsius (to_celsius pos_zero a) b))).
Proof.
  intros Hs Ha Hb Hr T.
  destruct (update_shows page Temperature w s a b old Hs Ha Hb Hr) as (D & V).
  split; auto. cbn [update result_of] in V. rewrite V. f_equal. unfold display.
  rewrite (or_else_falsy _ _ T).
  change (lit 0 0) with pos_zero. now rewrite convert_temperature.
Qed.

(** ** No NaN on display *)

Lemma formatNumber_finite (s : bool) (m : positive) (e : Z) :
  exponential_notation 6 (formatNumber (S754_finite s m e)) = true \/
  grouped_fixed_notation 6 (formatNumber (S754_finite s m e)) = true.
Proof.
  unfold formatNumber.
  assert (E : (S754_finite s m e === lit 0 0)%num = false) by (now destruct s).
  rewrite E.
  destruct ((abs (S754_finite s m e) <? lit 1 (-4))%num
            || (lit 1000000 0 <? abs (S754_finite s m e))%num).
  - left. unfold toExponential.
    destruct (magnitude_positive m e) as [P Q].
    pose proof (exponential_digits_shape s (fst (magnitude m e))
                  (snd (magnitude m e)) 6 P Q ltac:(discriminate)) as S.
    rewrite <- surjective_pairing in S.
    change (Z.of_nat 6) with 6 in *.
    destruct (exponential_parts (magnitude m e) 6) as [n e10]. exact S.
  - right. unfold toLocaleString. apply locale_digits_shape.
    apply locale_integer_nonneg.
Qed.

Lemma formatNumber_not_NaN (x : number) :
  is_nan x = false -> String.eqb (formatNumber x) "NaN" = false.
Proof.
  intros N. destruct x as [[]|[]| |s m e]; try discriminate; try reflexivity.
  destruct (String.eqb (formatNumber (S754_finite s m e)) "NaN") eqn:E; auto.
  apply String.eqb_eq in E.
  destruct (formatNumber_finite s m e) as [H|H]; rewrite E in H; discriminate.
Qed.

(** X10: with known units the result control never shows NaN, whatever the
    text of the input. *)
Theorem no_NaN_on_display (page : document) (d : domain) (w : world)
  (s a b old : string) :
  value_of w (input_of page d) = Some s ->
  value_of w (from_of page d) = Some a ->
  value_of w (to_of page d) = Some b ->
  value_of w (result_of page d) = Some old ->
  known_unit d a = true -> known_unit d b = true ->
  exists text,
    value_of (snd (update page d w)) (result_of page d) = Some text /\
    String.eqb text "NaN" = false.
Proof.
  intros Hs Ha Hb Hr Ka Kb.
  destruct (update_shows page d w s a b old Hs Ha Hb Hr) as (D & V).
  exists (display d s a b). split; auto.
  apply formatNumber_not_NaN, convert_not_NaN; auto.
  cbn. apply wf_or_else; [apply wf_parseFloat|reflexivity].
Qed.

(** ** Missing controls *)

Lemma update_Done_present (page : document) (d : domain) (w : world) :
  fst (update page d w) = Done tt ->
  exists s a b old,
    value_of w (input_of page d) = Some s /\
    value_of w (from_of page d) = Some a /\
    value_of w (to_of page d) = Some b /\
    value_of w (result_of page d) = Some old.
Proof.
  intros H.
  destruct (value_of w (input_of page d)) as [s|] eqn:Hs;
    [|rewrite update_missing in H by auto; discriminate].
  destruct (value_of w (from_of page d)) as [a|] eqn:Ha;
    [|rewrite update_missing in H by auto; discriminate].
  destruct (value_of w (to_of page d)) as [b|] eqn:Hb;
    [|rewrite update_missing in H by auto; discriminate].
  destruct (value_of w (result_of page d)) as [old|] eqn:Hr;
    [|rewrite update_missing in H by auto; discriminate].
  now exists s, a, b, old.
Qed.

(** X11: an update function throws a TypeError exactly when one of the four
    controls of its domain is missing, and then it changes nothing;
    otherwise it returns normally. *)
Theorem update_without_control (page : document) (d : domain) (w : world) :
  (fst (update page d w) = TypeError <->
   value_of w (input_of page d) = None \/
   value_of w (from_of page d) = None \/
   value_of w (to_of page d) = None \/
   value_of w (result_of page d) = None) /\
  (fst (update page d w) = TypeError -> snd (update page d w) = w) /\
  (fst (update page d w) = TypeError \/ fst (update page d w) = Done tt).
Proof.
  destruct (value_of w (input_of page d)) as [s|] eqn:Hs;
    [|rewrite update_missing by auto; cbn; intuition auto].
  destruct (value_of w (from_of page d)) as [a|] eqn:Ha;
    [|rewrite update_missing by auto; cbn; intuition auto].
  destruct (value_of w (to_of page d)) as [b|] eqn:Hb;
    [|rewrite update_missing by auto; cbn; intuition auto].
  destruct (value_of w (result_of page d)) as [old|] eqn:Hr;
    [|rewrite update_missing by auto; cbn; intuition auto].
  destruct (update_shows page d w s a b old Hs Ha Hb Hr) as (D & _).
  rewrite D. repeat split; try discriminate; auto.
  intros [H|[H|[H|H]]]; discriminate.
Qed.

(** ** The controls are distinct elements *)

Lemma control_of_id (page : document) (d : domain) (c : control) :
  control_of page d c = getElementById page (control_id d c).
Proof. destruct d, c; reflexivity. Qed.

Lemma control_id_inj (d d' : domain) (c c' : control) :
  String.eqb (control_id d c) (control_id d' c') = true -> d = d' /\ c = c'.
Proof. destruct d, c, d', c'; cbn; intros H; try discriminate H; auto. Qed.

Lemma controls_distinct (page : document) (d d' : domain) (c c' : control)
  (n : node) :
  control_of page d c = Some n -> control_of page d' c' = Some n ->
  d = d' /\ c = c'.
Proof.
  rewrite !control_of_id. intros H H'.
  destruct (String.eqb (control_id d c) (control_id d' c')) eqn:E.
  - now apply control_id_inj.
  - now destruct (getElementById_distinct page _ _ n n H H' E).
Qed.

Lemma result_not_input (page : document) (d d' : domain) (c : control) :
  c <> Result \/ d <> d' ->
  control_of page d c = None \/ control_of page d c <> result_of page d'.
Proof.
  intros H. destruct (control_of page d c) as [n|] eqn:E; [right|now left].
  intros E'. symmetry in E'.
  destruct (controls_distinct page d d' c Result n E E') as (-> & ->).
  destruct H; congruence.
Qed.

(** ** What an update leaves alone *)

Lemma update_frame (page : document) (d : domain) (w : world) :
  listeners (snd (update page d w)) = listeners w /\
  console (snd (update page d w)) = console w /\
  canceled (snd (update page d w)) = canceled w /\
  map Element.classList (dom (snd (update page d w)))
  = map Element.classList (dom w) /\
  forall r, r <> result_of page d ->
    value_of (snd (update page d w)) r = value_of w r.
Proof.
  destruct (value_of w (input_of page d)) as [s|] eqn:Hs;
    [|rewrite update_missing by auto; cbn; auto 10].
  destruct (value_of w (from_of page d)) as [a|] eqn:Ha;
    [|rewrite update_missing by auto; cbn; auto 10].
  destruct (value_of w (to_of page d)) as [b|] eqn:Hb;
    [|rewrite update_missing by auto; cbn; auto 10].
  destruct (value_of w (result_of page d)) as [old|] eqn:Hr;
    [|rewrite update_missing by auto; cbn; auto 10].
  destruct (update_spec page d w s a b old Hs Ha Hb Hr) as (n & N & ->).
  cbn [snd with_dom listeners console canceled dom]. repeat split; auto.
  - clear. revert n. induction (dom w) as [|e r IH]; intros [|n]; cbn; auto.
    now rewrite IH.
  - intros r R. rewrite N in R. now apply value_of_modify_other.
Qed.

Lemma update_keeps_control (page : document) (d d' : domain) (c : control)
  (w : world) :
  c <> Result \/ d <> d' ->
  value_of (snd (update page d' w)) (control_of page d c)
  = value_of w (control_of page d c).
Proof.
  intros H. destruct (result_not_input page d d' c H) as [E|E].
  - rewrite E. reflexivity.
  - now apply update_frame.
Qed.

Lemma update_keeps_presence (page : document) (d d' : domain) (w : world) :
  controls_present page d w ->
  controls_present page d (snd (update page d' w)).
Proof.
  intros (s & a & b & old & Hs & Ha & Hb & Hr).
  destruct (value_of w (input_of page d')) as [s'|] eqn:Hs';
    [|rewrite update_missing by auto; now exists s, a, b, old].
  destruct (value_of w (from_of page d')) as [a'|] eqn:Ha';
    [|rewrite update_missing by auto; now exists s, a, b, old].
  destruct (value_of w (to_of page d')) as [b'|] eqn:Hb';
    [|rewrite update_missing by auto; now exists s, a, b, old].
  destruct (value_of w (result_of page d')) as [old'|] eqn:Hr';
    [|rewrite update_missing by auto; now exists s, a, b, old].
  exists s, a, b.
  pose proof (update_keeps_control page d d' Input w ltac:(left; discriminate)) as K1.
  pose proof (update_keeps_control page d d' FromUnit w ltac:(left; discriminate)) as K2.
  pose proof (update_keeps_control page d d' ToUnit w ltac:(left; discriminate)) as K3.
  cbn [control_of] in *. rewrite K1, K2, K3.
  destruct (update_spec page d' w s' a' b' old' Hs' Ha' Hb' Hr') as (n & N & E).
  rewrite E. cbn [snd].
  destruct (result_of page d) as [m|] eqn:M; [|discriminate].
  destruct (Nat.eq_dec m n) as [->|D].
  - exists (display d' s' a' b'). repeat split; auto.
    eapply value_of_modify_same; eauto.
  - exists old. repeat split; auto.
    rewrite value_of_modify_other; auto. congruence.
Qed.

Lemma update_establishes (page : document) (d : domain) (w : world) :
  controls_present page d w ->
  fst (update page d w) = Done tt /\ in_sync page d (snd (update page d w)).
Proof.
  intros (s & a & b & old & Hs & Ha & Hb & Hr).
  destruct (update_shows page d w s a b old Hs Ha Hb Hr) as (D & V).
  split; auto. exists s, a, b.
  pose proof (update_keeps_control page d d Input w ltac:(left; discriminate)) as K1.
  pose proof (update_keeps_control page d d FromUnit w ltac:(left; discriminate)) as K2.
  pose proof (update_keeps_control page d d ToUnit w ltac:(left; discriminate)) as K3.
  cbn [control_of] in *. rewrite K1, K2, K3. auto.
Qed.

Lemma in_sync_present (page : document) (d : domain) (w : world) :
  in_sync page d w -> controls_present page d w.
Proof. intros (s & a & b & H). exists s, a, b, (display d s a b). exact H. Qed.

Lemma domain_eq_dec (d d' : domain) : {d = d'} + {d <> d'}.
Proof. decide equality. Qed.

Lemma update_keeps_sync (page : document) (d d' : domain) (w : world) :
  in_sync page d w -> in_sync page d (snd (update page d' w)).
Proof.
  intros H. destruct (domain_eq_dec d d') as [<-|D].
  - now apply update_establishes, in_sync_present.
  - destruct H as (s & a & b & Hs & Ha & Hb & Hr). exists s, a, b.
    pose proof (update_keeps_control page d d' Input w ltac:(left; discriminate)) as K1.
    pose proof (update_keeps_control page d d' FromUnit w ltac:(left; discriminate)) as K2.
    pose proof (update_keeps_control page d d' ToUnit w ltac:(left; discriminate)) as K3.
    pose proof (update_keeps_control page d d' Result w ltac:(now right)) as K4.
    cbn [control_of] in *. rewrite K1, K2, K3, K4. auto.
Qed.

(** X12: an update function is idempotent: run a second time, it returns the
    same and leaves the state as it was after the first run. *)
Theorem update_idempotent (page : document) (d : domain) (w : world) :
  controls_present page d w ->
  update page d (snd (update page d w)) = update page d w.
Proof.
  intros (s & a & b & old & Hs & Ha & Hb & Hr).
  pose proof (update_keeps_control page d d Input w ltac:(left; discriminate)) as K1.
  pose proof (update_keeps_control page d d FromUnit w ltac:(left; discriminate)) as K2.
  pose proof (update_keeps_control page d d ToUnit w ltac:(left; discriminate)) as K3.
  destruct (update_shows page d w s a b old Hs Ha Hb Hr) as (_ & V).
  cbn [control_of] in *. rewrite Hs in K1. rewrite Ha in K2. rewrite Hb in K3.
  destruct (update_spec page d _ s a b _ K1 K2 K3 V) as (n & N & E2).
  destruct (update_spec page d w s a b old Hs Ha Hb Hr) as (n' & N' & E1).
  rewrite N in N'. injection N' as <-.
  rewrite E2, E1. cbn [snd with_dom dom listeners console canceled].
  f_equal. unfold with_dom. cbn [dom listeners console canceled]. f_equal.
  rewrite modify_modify. reflexivity.
Qed.

(** X13: the update functions of two domains commute: in either order they
    lead to the same state. *)
Theorem updates_commute (page : document) (d d' : domain) (w : world) :
  controls_present page d w -> controls_present page d' w ->
  snd (update page d' (snd (update page d w)))
  = snd (update page d (snd (update page d' w))).
Proof.
  intros P P'. destruct (domain_eq_dec d d') as [<-|D]; [reflexivity|].
  pose proof (update_keeps_presence page d' d w P') as Q'.
  pose proof (update_keeps_presence page d d' w P) as Q.
  destruct P as (s & a & b & old & Hs & Ha & Hb & Hr).
  destruct P' as (s' & a' & b' & old' & Hs' & Ha' & Hb' & Hr').
  destruct Q' as (? & ? & ? & old1' & Hs1' & Ha1' & Hb1' & Hr1').
  destruct Q as (? & ? & ? & old1 & Hs1 & Ha1 & Hb1 & Hr1).
  pose proof (update_keeps_control page d' d Input w ltac:(left; discriminate)) as K1.
  pose proof (update_keeps_control page d' d FromUnit w ltac:(left; discriminate)) as K2.
  pose proof (update_keeps_control page d' d ToUnit w ltac:(left; discriminate)) as K3.
  pose proof (update_keeps_control page d d' Input w ltac:(left; discriminate)) as L1.
  pose proof (update_keeps_control page d d' FromUnit w ltac:(left; discriminate)) as L2.
  pose proof (update_keeps_control page d d' ToUnit w ltac:(left; discriminate)) as L3.
  cbn [control_of] in *.
  rewrite Hs1', Hs' in K1. rewrite Ha1', Ha' in K2. rewrite Hb1', Hb' in K3.
  rewrite Hs1, Hs in L1. rewrite Ha1, Ha in L2. rewrite Hb1, Hb in L3.
  injection K1 as ->. injection K2 as ->. injection K3 as ->.
  injection L1 as ->. injection L2 as ->. injection L3 as ->.
  destruct (update_spec page d' _ s' a' b' _ Hs1' Ha1' Hb1' Hr1') as (n' & N' & E').
  destruct (update_spec page d _ s a b _ Hs1 Ha1 Hb1 Hr1) as (n & N & E).
  rewrite E', E. cbn [snd].
  destruct (update_spec page d w s a b old Hs Ha Hb Hr) as (m & M & F).
  destruct (update_spec page d' w s' a' b' old' Hs' Ha' Hb' Hr') as (m' & M' & F').
  rewrite N in M. injection M as <-. rewrite N' in M'. injection M' as <-.
  rewrite F, F'. cbn [snd with_dom dom listeners console canceled].
  unfold with_dom. cbn [dom listeners console canceled]. f_equal.
  apply modify_comm. intros ->.
  destruct (controls_distinct page d d' Result Result n N N') as (E0 & _).
  contradiction.
Qed.

(** ** Initialization *)

Lemma and_then_Done {A B : Type} (c : js A) (k : A -> js B) (w : world) (a : A) :
  fst (c w) = Done a -> and_then c k w = k a (snd (c w)).
Proof. unfold and_then. destruct (c w) as [[x|] w']; cbn; congruence. Qed.

Lemma and_then_TypeError {A B : Type} (c : js A) (k : A -> js B) (w : world) :
  fst (c w) = TypeError -> and_then c k w = (TypeError, snd (c w)).
Proof. unfold and_then. destruct (c w) as [[x|] w']; cbn; congruence. Qed.

Lemma update_outcome (page : document) (d : domain) (w : world) :
  (fst (update page d w) = Done tt /\ controls_present page d w) \/
  (update page d w = (TypeError, w) /\ ~ controls_present page d w).
Proof.
  destruct (value_of w (input_of page d)) as [s|] eqn:Hs;
    [|right; split; [apply update_missing; auto|
                     intros (? & ? & ? & ? & H & _); congruence]].
  destruct (value_of w (from_of page d)) as [a|] eqn:Ha;
    [|right; split; [apply update_missing; auto|
                     intros (? & ? & ? & ? & _ & H & _); congruence]].
  destruct (value_of w (to_of page d)) as [b|] eqn:Hb;
    [|right; split; [apply update_missing; auto|
                     intros (? & ? & ? & ? & _ & _ & H & _); congruence]].
  destruct (value_of w (result_of page d)) as [old|] eqn:Hr;
    [|right; split; [apply update_missing; auto|
                     intros (? & ? & ? & ? & _ & _ & _ & H); congruence]].
  left. split; [|now exists s, a, b, old].
  now destruct (update_shows page d w s a b old Hs Ha Hb Hr).
Qed.

Lemma update_length (page : document) (d : domain) (w : world) :
  List.length (dom (snd (update page d w))) = List.length (dom w).
Proof.
  destruct (update_frame page d w) as (_ & _ & _ & C & _).
  apply (f_equal (@List.length _)) in C. now rewrite !length_map in C.
Qed.

Lemma value_of_present (w w' : world) (r : option node) :
  List.length (dom w') = List.length (dom w) ->
  value_of w r = None -> value_of w' r = None.
Proof.
  intros L. destruct r as [n|]; cbn; auto.
  destruct (nth_error (dom w) n) eqn:E; cbn; [discriminate|]. intros _.
  apply nth_error_None in E. rewrite <- L in E. apply nth_error_None in E.
  now rewrite E.
Qed.

Lemma presence_reflected (page : document) (d d' : domain) (w : world) :
  controls_present page d (snd (update page d' w)) -> controls_present page d w.
Proof.
  intros (s & a & b & old & Hs & Ha & Hb & Hr).
  pose proof (update_length page d' w) as L.
  destruct (value_of w (input_of page d)) as [s0|] eqn:Hs0;
    [|rewrite (value_of_present w _ _ L Hs0) in Hs; discriminate].
  destruct (value_of w (from_of page d)) as [a0|] eqn:Ha0;
    [|rewrite (value_of_present w _ _ L Ha0) in Ha; discriminate].
  destruct (value_of w (to_of page d)) as [b0|] eqn:Hb0;
    [|rewrite (value_of_present w _ _ L Hb0) in Hb; discriminate].
  destruct (value_of w (result_of page d)) as [r0|] eqn:Hr0;
    [|rewrite (value_of_present w _ _ L Hr0) in Hr; discriminate].
  now exists s0, a0, b0, r0.
Qed.

Lemma console_log_spec (s : string) (w : world) :
  fst (console_log s w) = Done tt /\
  dom (snd (console_log s w)) = dom w /\
  listeners (snd (console_log s w)) = listeners w /\
  console (snd (console_log s w)) = console w ++ [s].
Proof. repeat split. Qed.

Lemma in_sync_same_dom (page : document) (d : domain) (w w' : world) :
  dom w' = dom w -> in_sync page d w -> in_sync page d w'.
Proof.
  intros E (s & a & b & H). exists s, a, b.
  unfold value_of in *. now rewrite E.
Qed.

Lemma present_same_dom (page : document) (d : domain) (w w' : world) :
  dom w' = dom w -> controls_present page d w -> controls_present page d w'.
Proof.
  intros E (s & a & b & old & H). exists s, a, b, old.
  unfold value_of in *. now rewrite E.
Qed.

Lemma update_console (page : document) (d : domain) (w : world) :
  console (snd (update page d w)) = console w.
Proof. apply update_frame. Qed.

Ltac step_update page d w :=
  let F := fresh "F" in let S := fresh "S" in
  destruct (update_establishes page d w ltac:(auto)) as (F & S);
  rewrite (and_then_Done _ _ _ _ F).

Lemma content_loaded_all (page : document) (w : world) :
  (forall d, controls_present page d w) ->
  fst (content_loaded page w) = Done tt /\
  (forall d, in_sync page d (snd (content_loaded page w))) /\
  console (snd (content_loaded page w)) = console w ++ [loaded_message].
Proof.
  intros P. unfold content_loaded.
  change (updateLengthConversion page) with (update page Length).
  change (updateWeightConversion page) with (update page Weight).
  change (updateVolumeConversion page) with (update page Volume).
  change (updateSpeedConversion page) with (update page Speed).
  change (updateAreaConversion page) with (update page Area).
  change (updatePressureConversion page) with (update page Pressure).
  change (updateTemperatureConversion page) with (update page Temperature).
  step_update page Length w.
  set (w1 := snd (update page Length w)) in *.
  assert (P1 : forall d, controls_present page d w1)
    by (intros d; apply update_keeps_presence, P).
  step_update page Weight w1.
  set (w2 := snd (update page Weight w1)) in *.
  assert (P2 : forall d, controls_present page d w2)
    by (intros d; apply update_keeps_presence, P1).
  step_update page Volume w2.
  set (w3 := snd (update page Volume w2)) in *.
  assert (P3 : forall d, controls_present page d w3)
    by (intros d; apply update_keeps_presence, P2).
  step_update page Speed w3.
  set (w4 := snd (update page Speed w3)) in *.
  assert (P4 : forall d, controls_present page d w4)
    by (intros d; apply update_keeps_presence, P3).
  step_update page Area w4.
  set (w5 := snd (update page Area w4)) in *.
  assert (P5 : forall d, controls_present page d w5)
    by (intros d; apply update_keeps_presence, P4).
  step_update page Pressure w5.
  set (w6 := snd (update page Pressure w5)) in *.
  assert (P6 : forall d, controls_present page d w6)
    by (intros d; apply update_keeps_presence, P5).
  step_update page Temperature w6.
  set (w7 := snd (update page Temperature w6)) in *.
  split; [reflexivity|]. split.
  2:{ unfold console_log. cbn [snd console]. f_equal.
      unfold w7, w6, w5, w4, w3, w2, w1. now rewrite !update_console. }
  intros d. apply (in_sync_same_dom page d w7); [reflexivity|].
  destruct d; unfold w7, w6, w5, w4, w3, w2; repeat (assumption || apply update_keeps_sync).
Qed.

(** X14: when the controls of all seven domains exist, the handler of
    DOMContentLoaded returns normally, every result control shows the
    conversion of its input, and the message is logged once. *)
Theorem initialization_shows_all (page : document) (w : world) :
  (forall d, controls_present page d w) ->
  fst (content_loaded page w) = Done tt /\
  (forall d, in_sync page d (snd (content_loaded page w))) /\
  console (snd (content_loaded page w)) = console w ++ [loaded_message].
Proof.
  apply content_loaded_all.
Qed.

Ltac try_update page d w P :=
  let F := fresh "F" in let E := fresh "E" in
  destruct (update_outcome page d w) as [(F & P)|(E & P)];
  [rewrite (and_then_Done _ _ _ _ F)
  |rewrite and_then_TypeError by (now rewrite E);
   split; [reflexivity|cbn [snd]; rewrite E; cbn [snd];
           repeat (rewrite update_console); reflexivity]].

(** X15: when a control of some domain is missing, the handler of
    DOMContentLoaded throws a TypeError and logs nothing. *)
Theorem initialization_stops (page : document) (w : world) :
  (exists d, ~ controls_present page d w) ->
  fst (content_loaded page w) = TypeError /\
  console (snd (content_loaded page w)) = console w.
Proof.
  intros (d0 & Missing). unfold content_loaded.
  change (updateLengthConversion page) with (update page Length).
  change (updateWeightConversion page) with (update page Weight).
  change (updateVolumeConversion page) with (update page Volume).
  change (updateSpeedConversion page) with (update page Speed).
  change (updateAreaConversion page) with (update page Area).
  change (updatePressureConversion page) with (update page Pressure).
  change (updateTemperatureConversion page) with (update page Temperature).
  try_update page Length w P1.
  try_update page Weight (snd (update page Length w)) P2.
  try_update page Volume (snd (update page Weight (snd (update page Length w)))) P3.
  try_update page Speed
    (snd (update page Volume (snd (update page Weight (snd (update page Length w)))))) P4.
  try_update page Area
    (snd (update page Speed (snd (update page Volume
       (snd (update page Weight (snd (update page Length w)))))))) P5.
  try_update page Pressure
    (snd (update page Area (snd (update page Speed (snd (update page Volume
       (snd (update page Weight (snd (update page Length w)))))))))) P6.
  try_update page Temperature
    (snd (update page Pressure (snd (update page Area (snd (update page Speed
       (snd (update page Volume (snd (update page Weight
          (snd (update page Length w)))))))))))) P7.
  exfalso. apply Missing.
  destruct d0; repeat (assumption || apply presence_reflected in P2
                       || apply presence_reflected in P3
                       || apply presence_reflected in P4
                       || apply presence_reflected in P5
                       || apply presence_reflected in P6
                       || apply presence_reflected in P7).
Qed.

(** ** Class lists *)

Lemma contains_remove_same (a : string) (l : list string) :
  DOMTokenList.contains a (DOMTokenList.remove a l) = false.
Proof.
  unfold DOMTokenList.contains, DOMTokenList.remove.
  induction l as [|c r IH]; cbn; auto.
  destruct (String.eqb c a) eqn:E; cbn; auto.
  rewrite String.eqb_sym, E. exact IH.
Qed.

Lemma contains_remove_other (a b : string) (l : list string) :
  String.eqb b a = false ->
  DOMTokenList.contains b (DOMTokenList.remove a l) = DOMTokenList.contains b l.
Proof.
  intros D. unfold DOMTokenList.contains, DOMTokenList.remove.
  induction l as [|c r IH]; cbn; auto.
  destruct (String.eqb c a) eqn:E; cbn.
  - apply String.eqb_eq in E. subst c. now rewrite D.
  - now rewrite IH.
Qed.

Lemma contains_app (a : string) (l r : list string) :
  DOMTokenList.contains a (l ++ r)
  = DOMTokenList.contains a l || DOMTokenList.contains a r.
Proof. apply existsb_app. Qed.

Lemma contains_add_same (a : string) (l : list string) :
  DOMTokenList.contains a (DOMTokenList.add a l) = true.
Proof.
  unfold DOMTokenList.add. destruct (DOMTokenList.contains a l) eqn:E; auto.
  rewrite contains_app. cbn. rewrite String.eqb_refl. apply orb_true_r.
Qed.

Lemma contains_add_other (a b : string) (l : list string) :
  String.eqb b a = false ->
  DOMTokenList.contains b (DOMTokenList.add a l) = DOMTokenList.contains b l.
Proof.
  intros D. unfold DOMTokenList.add. destruct (DOMTokenList.contains a l); auto.
  rewrite contains_app. cbn. rewrite D. now rewrite !orb_false_r.
Qed.

Lemma remove_remove (a : string) (l : list string) :
  DOMTokenList.remove a (DOMTokenList.remove a l) = DOMTokenList.remove a l.
Proof.
  unfold DOMTokenList.remove. induction l as [|c r IH]; cbn; auto.
  destruct (String.eqb c a) eqn:E; cbn; auto. rewrite E. cbn. now rewrite IH.
Qed.

Lemma remove_absent (a : string) (l : list string) :
  DOMTokenList.contains a l = false -> DOMTokenList.remove a l = l.
Proof.
  unfold DOMTokenList.contains, DOMTokenList.remove.
  induction l as [|c r IH]; cbn; auto.
  intros H. apply orb_false_elim in H as (H1 & H2).
  rewrite String.eqb_sym, H1. cbn. now rewrite IH.
Qed.

Lemma remove_app (a : string) (l r : list string) :
  DOMTokenList.remove a (l ++ r)
  = DOMTokenList.remove a l ++ DOMTokenList.remove a r.
Proof. apply filter_app. Qed.

Lemma remove_add (a : string) (l : list string) :
  DOMTokenList.remove a (DOMTokenList.add a l) = DOMTokenList.remove a l.
Proof.
  unfold DOMTokenList.add. destruct (DOMTokenList.contains a l); auto.
  rewrite remove_app. cbn. rewrite String.eqb_refl. cbn. apply app_nil_r.
Qed.

Lemma add_add (a : string) (l : list string) :
  DOMTokenList.add a (DOMTokenList.add a l) = DOMTokenList.add a l.
Proof.
  unfold DOMTokenList.add at 1. now rewrite contains_add_same.
Qed.

Lemma add_remove (a : string) (l : list string) :
  DOMTokenList.add a (DOMTokenList.remove a l) = DOMTokenList.remove a l ++ [a].
Proof.
  unfold DOMTokenList.add. now rewrite contains_remove_same.
Qed.

(** ** Documents under class changes *)

Lemma with_dom_with_dom (d1 d2 : document) (w : world) :
  with_dom d2 (with_dom d1 w) = with_dom d2 w.
Proof. reflexivity. Qed.

Lemma with_dom_same (w : world) : with_dom (dom w) w = w.
Proof. now destruct w. Qed.

Lemma set_at_valid (n : node) (f : Element.t -> Element.t) (w : world) :
  (n < List.length (dom w))%nat ->
  set_at (Some n) f w = (Done tt, with_dom (modify n f (dom w)) w).
Proof.
  intros L. unfold set_at, and_then, element_at.
  destruct (nth_error (dom w) n) eqn:E; auto.
  apply nth_error_None in E. lia.
Qed.

Lemma length_modify_each (l : list node) (f : Element.t -> Element.t)
  (doc : document) :
  List.length (modify_each l f doc) = List.length doc.
Proof.
  revert doc; induction l as [|n r IH]; intros doc; cbn; auto.
  unfold modify_each in *. cbn. now rewrite IH, length_modify.
Qed.

Lemma forEach_set_at (l : list node) (f : Element.t -> Element.t) (w : world) :
  Forall (fun n => (n < List.length (dom w))%nat) l ->
  forEach l (fun n => set_at (Some n) f) w
  = (Done tt, with_dom (modify_each l f (dom w)) w).
Proof.
  revert w; induction l as [|n r IH]; intros w H.
  - cbn. unfold done. now rewrite with_dom_same.
  - inversion H as [|? ? Hn Hr]; subst. cbn [forEach].
    unfold and_then. rewrite set_at_valid by auto.
    rewrite IH.
    + reflexivity.
    + cbn [with_dom dom]. rewrite length_modify. exact Hr.
Qed.

Lemma nth_error_modify (n x : node) (f : Element.t -> Element.t) (doc : document) :
  nth_error (modify n f doc) x
  = option_map (fun e => if Nat.eqb x n then f e else e) (nth_error doc x).
Proof.
  destruct (Nat.eqb x n) eqn:E.
  - apply Nat.eqb_eq in E. subst x. rewrite nth_error_modify_same.
    now destruct (nth_error doc n).
  - apply Nat.eqb_neq in E. rewrite nth_error_modify_other by auto.
    now destruct (nth_error doc x).
Qed.

Lemma nth_error_modify_each (l : list node) (f : Element.t -> Element.t)
  (doc : document) (x : node) :
  (forall e, f (f e) = f e) ->
  nth_error (modify_each l f doc) x
  = option_map (fun e => if member x l then f e else e) (nth_error doc x).
Proof.
  intros Idem. revert doc; induction l as [|n r IH]; intros doc.
  - cbn. now destruct (nth_error doc x).
  - unfold modify_each in *. cbn [fold_left]. rewrite IH, nth_error_modify.
    destruct (nth_error doc x) as [e|]; cbn; auto. f_equal.
    unfold member.
    destruct (Nat.eqb x n), (existsb (Nat.eqb x) r); cbn; rewrite ?Idem; auto.
Qed.

Lemma find_first_bound (p : Element.t -> bool) (doc : document) (n : node) :
  find_first p doc = Some n -> (n < List.length doc)%nat.
Proof.
  intros H. apply find_first_spec in H as (e & E & _).
  apply nth_error_Some. congruence.
Qed.

Lemma find_all_bound (p : Element.t -> bool) (doc : document) :
  Forall (fun n => (n < List.length doc)%nat) (find_all p doc).
Proof.
  induction doc as [|e r IH]; cbn; auto.
  apply Forall_app. split.
  - destruct (p e); auto. constructor; auto. lia.
  - apply Forall_map. eapply Forall_impl; [|exact IH]. cbn. intros; lia.
Qed.

Lemma querySelectorAll_bound (doc : document) (sel : string) :
  Forall (fun n => (n < List.length doc)%nat) (querySelectorAll doc sel).
Proof.
  unfold querySelectorAll. destruct sel as [|c name]; auto.
  destruct (Ascii.eqb c ".") eqn:E.
  - apply Ascii.eqb_eq in E. subst c. apply find_all_bound.
  - destruct c as [[] [] [] [] [] [] [] []]; auto; discriminate.
Qed.

Lemma find_first_ext (p q : Element.t -> bool) (doc doc' : document) :
  map p doc = map q doc' -> find_first p doc = find_first q doc'.
Proof.
  revert doc'; induction doc as [|e r IH]; intros [|e' r']; cbn; try discriminate; auto.
  intros [= H1 H2]. rewrite H1. now rewrite (IH r' H2).
Qed.

Lemma getElementById_same_ids (doc doc' : document) (i : string) :
  map Element.id doc' = map Element.id doc ->
  getElementById doc' i = getElementById doc i.
Proof.
  intros H. unfold getElementById. destruct (String.eqb i ""); auto.
  apply find_first_ext.
  rewrite <- (map_map Element.id (fun s => String.eqb s i)).
  rewrite <- (map_map Element.id (fun s => String.eqb s i) doc).
  now rewrite H.
Qed.

Lemma map_modify (A : Type) (g : Element.t -> A) (n : node)
  (f : Element.t -> Element.t) (doc : document) :
  (forall e, g (f e) = g e) -> map g (modify n f doc) = map g doc.
Proof.
  intros H. revert n; induction doc as [|e r IH]; intros [|n]; cbn; auto.
  - now rewrite H.
  - now rewrite IH.
Qed.

Lemma map_modify_each (A : Type) (g : Element.t -> A) (l : list node)
  (f : Element.t -> Element.t) (doc : document) :
  (forall e, g (f e) = g e) -> map g (modify_each l f doc) = map g doc.
Proof.
  intros H. revert doc; induction l as [|n r IH]; intros doc; cbn; auto.
  unfold modify_each in *. cbn. now rewrite IH, map_modify.
Qed.

(** ** A click on a link *)

Lemma with_classList_compose (f g : list string -> list string) (e : Element.t) :
  Element.with_classList f (Element.with_classList g e)
  = Element.with_classList (fun c => f (g c)) e.
Proof. reflexivity. Qed.

Lemma with_classList_id (e : Element.t) :
  Element.with_classList (fun c => c) e = e.
Proof. now destruct e. Qed.

Lemma with_classList_ext (f g : list string -> list string) (e : Element.t) :
  f (Element.classList e) = g (Element.classList e) ->
  Element.with_classList f e = Element.with_classList g e.
Proof. unfold Element.with_classList. now intros ->. Qed.

Lemma nav_click_spec (page : document) (link : node) (w : world) (e : Element.t) :
  List.length (dom w) = List.length page ->
  nth_error (dom w) link = Some e ->
  exists doc,
    nav_click page link w
    = (Done tt,
       {| dom := doc; listeners := listeners w; console := console w;
          canceled := true |}) /\
    forall x,
      nth_error doc x
      = option_map
          (Element.with_classList
             (clicked_classes (navLinks page) (converterSections page) link
                (category_target w link) x))
          (nth_error (dom w) x).
Proof.
  intros L E.
  set (R := Element.with_classList (DOMTokenList.remove "active")).
  set (A := Element.with_classList (DOMTokenList.add "active")).
  assert (RR : forall e, R (R e) = R e).
  { intros e0. unfold R. rewrite with_classList_compose.
    apply with_classList_ext, remove_remove. }
  set (w0 := {| dom := dom w; listeners := listeners w; console := console w;
                canceled := true |}).
  set (doc1 := modify_each (navLinks page) R (dom w)).
  set (doc2 := modify link A doc1).
  set (doc3 := modify_each (converterSections page) R doc2).
  set (t := getElementById doc3 (string_or_undefined (Element.category e))).
  set (doc4 := match t with Some n => modify n A doc3 | None => doc3 end).
  assert (L1 : List.length doc1 = List.length (dom w))
    by apply length_modify_each.
  assert (L2 : List.length doc2 = List.length (dom w))
    by (unfold doc2; now rewrite length_modify).
  assert (L3 : List.length doc3 = List.length (dom w))
    by (unfold doc3; now rewrite length_modify_each).
  assert (Ids : map Element.id doc3 = map Element.id (dom w)).
  { unfold doc3, doc2, doc1.
    rewrite map_modify_each, map_modify, map_modify_each; auto. }
  assert (T : t = category_target w link).
  { unfold t, category_target. rewrite E. now apply getElementById_same_ids. }
  assert (Bt : forall n, t = Some n -> (n < List.length doc3)%nat).
  { intros n. unfold t, getElementById.
    destruct (String.eqb _ ""); [discriminate|]. apply find_first_bound. }
  exists doc4. split.
  - unfold nav_click, and_then.
    change (preventDefault w) with (Done tt, w0).
    unfold get_category, and_then, element_at. cbn [dom w0].
    rewrite E. cbn [done].
    change (fun l : node => classList_remove l "active")
      with (fun l : node => set_at (Some l) R).
    rewrite forEach_set_at
      by (cbn [dom w0]; rewrite L; apply querySelectorAll_bound).
    unfold classList_add. fold A.
    rewrite set_at_valid
      by (cbn [with_dom dom w0]; fold doc1; rewrite L1;
          apply nth_error_Some; congruence).
    cbn [with_dom dom listeners console canceled w0]. fold doc1 doc2.
    match goal with
    | |- context [forEach _ _ ?W] => set (w2 := W)
    end.
    rewrite (forEach_set_at (converterSections page) R w2)
      by (unfold w2; cbn [with_dom dom]; rewrite L2, L;
          apply querySelectorAll_bound).
    unfold lookup, w2, w0. cbn [with_dom dom listeners console canceled].
    fold doc3. fold t.
    unfold doc4. destruct t as [n|] eqn:Tn.
    + rewrite set_at_valid; [reflexivity|].
      cbn [dom]. now apply Bt.
    + reflexivity.
  - intros x. rewrite <- T.
    assert (N4 : nth_error doc4 x
                 = option_map (fun e => if is_node t x then A e else e)
                     (nth_error doc3 x)).
    { unfold doc4. destruct t as [n|]; cbn [is_node].
      - rewrite nth_error_modify. now rewrite (Nat.eqb_sym n x).
      - now destruct (nth_error doc3 x). }
    rewrite N4. unfold doc3. rewrite nth_error_modify_each by exact RR.
    unfold doc2. rewrite nth_error_modify.
    unfold doc1. rewrite nth_error_modify_each by exact RR.
    destruct (nth_error (dom w) x) as [e0|]; cbn [option_map]; auto.
    f_equal. unfold clicked_classes.
    destruct (member x (navLinks page)), (Nat.eqb x link),
      (member x (converterSections page)), (is_node t x);
      unfold R, A; rewrite ?with_classList_compose;
      try reflexivity; now rewrite with_classList_id.
Qed.

Lemma category_target_bound (w : world) (link n : node) :
  category_target w link = Some n -> (n < List.length (dom w))%nat.
Proof.
  unfold category_target. destruct (nth_error (dom w) link); [|discriminate].
  unfold getElementById. destruct (String.eqb _ ""); [discriminate|].
  apply find_first_bound.
Qed.

Lemma member_bound (doc : document) (sel : string) (x : node) :
  member x (querySelectorAll doc sel) = true -> (x < List.length doc)%nat.
Proof.
  intros H. apply existsb_exists in H as (n & I & E).
  apply Nat.eqb_eq in E. subst n.
  pose proof (querySelectorAll_bound doc sel) as B.
  rewrite Forall_forall in B. now apply B.
Qed.

Lemma contains_clicked (links sections : list node) (link : node)
  (t : option node) (x : node) (c : list string) :
  DOMTokenList.contains "active" (clicked_classes links sections link t x c)
  = if is_node t x then true
    else if member x sections then false
    else if Nat.eqb x link then true
    else if member x links then false
    else DOMTokenList.contains "active" c.
Proof.
  unfold clicked_classes.
  destruct (is_node t x); [apply contains_add_same|].
  destruct (member x sections); [apply contains_remove_same|].
  destruct (Nat.eqb x link); [apply contains_add_same|].
  destruct (member x links); [apply contains_remove_same|reflexivity].
Qed.

Lemma contains_clicked_other (links sections : list node) (link : node)
  (t : option node) (x : node) (c : list string) (token : string) :
  String.eqb token "active" = false ->
  DOMTokenList.contains token (clicked_classes links sections link t x c)
  = DOMTokenList.contains token c.
Proof.
  intros D. unfold clicked_classes.
  destruct (is_node t x), (member x sections), (Nat.eqb x link),
    (member x links);
    rewrite ?contains_add_other, ?contains_remove_other,
      ?contains_add_other, ?contains_remove_other by exact D;
    reflexivity.
Qed.

Lemma active_after_click (page : document) (link : node) (w : world)
  (e : Element.t) (x : node) :
  List.length (dom w) = List.length page ->
  nth_error (dom w) link = Some e ->
  fst (nav_click page link w) = Done tt /\
  is_active (snd (nav_click page link w)) x
  = if is_node (category_target w link) x then true
    else if member x (converterSections page) then false
    else if Nat.eqb x link then true
    else if member x (navLinks page) then false
    else is_active w x.
Proof.
  intros L E. destruct (nav_click_spec page link w e L E) as (doc & -> & N).
  split; auto. cbn [snd]. unfold is_active, classes_of. cbn [dom].
  rewrite N. destruct (nth_error (dom w) x) as [e0|] eqn:E0; cbn [option_map].
  - cbn [Element.with_classList Element.classList]. apply contains_clicked.
  - apply nth_error_None in E0.
    destruct (is_node (category_target w link) x) eqn:T.
    { destruct (category_target w link) as [n|] eqn:C; [|discriminate].
      cbn in T. apply Nat.eqb_eq in T. subst n.
      apply category_target_bound in C. lia. }
    destruct (member x (converterSections page)) eqn:S.
    { unfold converterSections in S. apply member_bound in S. lia. }
    destruct (Nat.eqb x link) eqn:K.
    { apply Nat.eqb_eq in K. subst x.
      assert (link < List.length (dom w))%nat by (apply nth_error_Some; congruence).
      lia. }
    destruct (member x (navLinks page)); reflexivity.
Qed.

(** X16: after a click on a navigation link, the element whose id is the
    link's category carries the class active; of the other elements, no
    converter section does, the clicked link does, no other navigation link
    does, and every further element is as it was.  The click never throws. *)
Theorem click_marks_active (page : document) (link : node) (w : world)
  (e : Element.t) (x : node) :
  List.length (dom w) = List.length page ->
  nth_error (dom w) link = Some e ->
  fst (nav_click page link w) = Done tt /\
  is_active (snd (nav_click page link w)) x
  = if is_node (category_target w link) x then true
    else if member x (converterSections page) then false
    else if Nat.eqb x link then true
    else if member x (navLinks page) then false
    else is_active w x.
Proof.
  apply active_after_click.
Qed.

Lemma nav_click_frame (page : document) (link : node) (w : world)
  (e : Element.t) :
  List.length (dom w) = List.length page ->
  nth_error (dom w) link = Some e ->
  let w' := snd (nav_click page link w) in
  map Element.value (dom w') = map Element.value (dom w) /\
  map Element.id (dom w') = map Element.id (dom w) /\
  map Element.category (dom w') = map Element.category (dom w) /\
  (forall x token, String.eqb token "active" = false ->
     DOMTokenList.contains token (classes_of w' x)
     = DOMTokenList.contains token (classes_of w x)) /\
  listeners w' = listeners w /\ console w' = console w /\ canceled w' = true.
Proof.
  intros L E w'. unfold w'.
  destruct (nav_click_spec page link w e L E) as (doc & -> & N).
  cbn [snd dom listeners console canceled].
  assert (M : forall (A : Type) (g : Element.t -> A),
             (forall f e0, g (Element.with_classList f e0) = g e0) ->
             map g doc = map g (dom w)).
  { intros A g G. apply nth_error_ext. intros x.
    rewrite !nth_error_map, N.
    destruct (nth_error (dom w) x); cbn; auto. now rewrite G. }
  repeat split; try (apply M; reflexivity).
  intros x token D. unfold classes_of. cbn [dom]. rewrite N.
  destruct (nth_error (dom w) x); cbn [option_map]; auto.
  cbn [Element.with_classList Element.classList].
  now apply contains_clicked_other.
Qed.

(** X17: a click on a navigation link changes no value, id or category of any
    element and no class other than active, registers no listener and logs
    nothing; it cancels the default action of the event. *)
Theorem click_changes_classes_only (page : document) (link : node) (w : world)
  (e : Element.t) :
  List.length (dom w) = List.length page ->
  nth_error (dom w) link = Some e ->
  let w' := snd (nav_click page link w) in
  map Element.value (dom w') = map Element.value (dom w) /\
  map Element.id (dom w') = map Element.id (dom w) /\
  map Element.category (dom w') = map Element.category (dom w) /\
  (forall x token, String.eqb token "active" = false ->
     DOMTokenList.contains token (classes_of w' x)
     = DOMTokenList.contains token (classes_of w x)) /\
  listeners w' = listeners w /\ console w' = console w /\ canceled w' = true.
Proof.
  apply nav_click_frame.
Qed.

Lemma member_In (x : node) (l : list node) : member x l = true <-> In x l.
Proof.
  unfold member. rewrite existsb_exists. split.
  - intros (n & I & E). apply Nat.eqb_eq in E. now subst.
  - intros I. exists x. split; auto. apply Nat.eqb_refl.
Qed.

Lemma not_member (x : node) (l : list node) : ~ In x l -> member x l = false.
Proof.
  intros H. destruct (member x l) eqn:E; auto. apply member_In in E. contradiction.
Qed.

(** X18: on a page where no element is both a navigation link and a converter
    section, a click on a link whose category is the id of a converter
    section leaves exactly that section and exactly that link active. *)
Theorem click_shows_one_section (page : document) (link t : node) (w : world)
  (e : Element.t) :
  List.length (dom w) = List.length page ->
  nth_error (dom w) link = Some e ->
  In link (navLinks page) ->
  category_target w link = Some t ->
  In t (converterSections page) ->
  (forall n, In n (navLinks page) -> ~ In n (converterSections page)) ->
  let w' := snd (nav_click page link w) in
  (forall l, In l (navLinks page) -> is_active w' l = Nat.eqb l link) /\
  (forall s, In s (converterSections page) -> is_active w' s = Nat.eqb s t).
Proof.
  intros L E Il T It Disjoint w'. unfold w'. split.
  - intros l Hl.
    destruct (active_after_click page link w e l L E) as (_ & ->).
    rewrite T. cbn [is_node].
    destruct (Nat.eqb t l) eqn:Tl.
    { apply Nat.eqb_eq in Tl. subst l. now destruct (Disjoint t Hl). }
    rewrite (not_member l _ (Disjoint l Hl)).
    destruct (Nat.eqb l link); auto.
    now rewrite (proj2 (member_In l _) Hl).
  - intros s Hs.
    destruct (active_after_click page link w e s L E) as (_ & ->).
    rewrite T. cbn [is_node]. rewrite (Nat.eqb_sym s t).
    destruct (Nat.eqb t s); auto.
    now rewrite (proj2 (member_In s _) Hs).
Qed.

(** X19: a click on a link whose category is the id of no element (or which
    has no category) returns normally and leaves every converter section
    without the class active. *)
Theorem click_without_target (page : document) (link : node) (w : world)
  (e : Element.t) :
  List.length (dom w) = List.length page ->
  nth_error (dom w) link = Some e ->
  category_target w link = None ->
  fst (nav_click page link w) = Done tt /\
  forall s, In s (converterSections page) ->
    is_active (snd (nav_click page link w)) s = false.
Proof.
  intros L E T. split.
  - now destruct (active_after_click page link w e 0%nat L E).
  - intros s Hs.
    destruct (active_after_click page link w e s L E) as (_ & ->).
    rewrite T. cbn [is_node]. now rewrite (proj2 (member_In s _) Hs).
Qed.

(** ** Clicks in sequence *)

Lemma clicked_twice (links sections : list node) (l1 l2 : node)
  (t1 t2 : option node) (x : node) (c : list string) :
  (member x links || member x sections = false ->
   Nat.eqb x l1 || is_node t1 x = true ->
   Nat.eqb x l2 || is_node t2 x = true) ->
  clicked_classes links sections l2 t2 x
    (clicked_classes links sections l1 t1 x c)
  = clicked_classes links sections l2 t2 x c.
Proof.
  unfold clicked_classes. intros H.
  destruct (member x links), (member x sections);
    cbn [orb] in H;
    destruct (Nat.eqb x l1), (is_node t1 x), (Nat.eqb x l2), (is_node t2 x);
    cbn [orb] in H;
    try (specialize (H eq_refl eq_refl); discriminate H);
    rewrite ?remove_add, ?remove_remove, ?remove_add, ?remove_remove,
      ?remove_add, ?remove_remove, ?add_add, ?add_add;
    reflexivity.
Qed.

Lemma category_target_after (page : document) (l1 l2 : node) (w : world)
  (e1 : Element.t) :
  List.length (dom w) = List.length page ->
  nth_error (dom w) l1 = Some e1 ->
  category_target (snd (nav_click page l1 w)) l2 = category_target w l2.
Proof.
  intros L E1.
  destruct (nav_click_spec page l1 w e1 L E1) as (doc & -> & N).
  cbn [snd]. unfold category_target. cbn [dom]. rewrite N.
  assert (Ids : map Element.id doc = map Element.id (dom w)).
  { apply nth_error_ext. intros x. rewrite !nth_error_map, N.
    now destruct (nth_error (dom w) x). }
  destruct (nth_error (dom w) l2) as [e2|]; cbn [option_map]; auto.
  cbn [Element.with_classList Element.category].
  now apply getElementById_same_ids.
Qed.

Lemma click_after_click (page : document) (l1 l2 : node) (w : world)
  (e1 e2 : Element.t) :
  List.length (dom w) = List.length page ->
  nth_error (dom w) l1 = Some e1 ->
  nth_error (dom w) l2 = Some e2 ->
  (forall x,
     member x (navLinks page) || member x (converterSections page) = false ->
     Nat.eqb x l1 || is_node (category_target w l1) x = true ->
     Nat.eqb x l2 || is_node (category_target w l2) x = true) ->
  nav_click page l2 (snd (nav_click page l1 w)) = nav_click page l2 w.
Proof.
  intros L E1 E2 H.
  pose proof (category_target_after page l1 l2 w e1 L E1) as T.
  destruct (nav_click_spec page l1 w e1 L E1) as (doc1 & F1 & N1).
  rewrite F1 in *. cbn [snd] in *.
  set (w1 := {| dom := doc1; listeners := listeners w; console := console w;
                canceled := true |}) in *.
  assert (L1 : List.length (dom w1) = List.length page).
  { cbn [dom w1]. rewrite <- L.
    rewrite <- (length_map Element.id doc1), <- (length_map Element.id (dom w)).
    f_equal. apply nth_error_ext. intros x. rewrite !nth_error_map, N1.
    now destruct (nth_error (dom w) x). }
  assert (E2' : nth_error (dom w1) l2
                = Some (Element.with_classList
                          (clicked_classes (navLinks page) (converterSections page)
                             l1 (category_target w l1) l2) e2)).
  { cbn [dom w1]. now rewrite N1, E2. }
  destruct (nav_click_spec page l2 w1 _ L1 E2') as (doc2 & -> & N2).
  destruct (nav_click_spec page l2 w e2 L E2) as (doc2' & -> & N2').
  cbn [listeners console w1]. f_equal. f_equal.
  apply nth_error_ext. intros x. rewrite N2, N2', T. cbn [dom w1].
  rewrite N1. destruct (nth_error (dom w) x) as [e0|]; cbn [option_map]; auto.
  f_equal. rewrite with_classList_compose.
  apply with_classList_ext. apply clicked_twice. apply H.
Qed.

(** X20: a click on a navigation link is idempotent: a second click on the
    same link returns the same and leaves the state as the first left it. *)
Theorem click_idempotent (page : document) (link : node) (w : world)
  (e : Element.t) :
  List.length (dom w) = List.length page ->
  nth_error (dom w) link = Some e ->
  nav_click page link (snd (nav_click page link w)) = nav_click page link w.
Proof.
  intros L E. apply (click_after_click page link link w e e L E E). auto.
Qed.

(** X21: the last click decides: when the first link is a navigation link
    whose category names a converter section, a navigation link or no
    element, a click on a second link leads to the state it would have led
    to without the first click. *)
Theorem last_click_decides (page : document) (l1 l2 : node) (w : world)
  (e1 e2 : Element.t) :
  List.length (dom w) = List.length page ->
  nth_error (dom w) l1 = Some e1 ->
  nth_error (dom w) l2 = Some e2 ->
  In l1 (navLinks page) ->
  match category_target w l1 with
  | Some t => In t (navLinks page) \/ In t (converterSections page)
  | None => True
  end ->
  nav_click page l2 (snd (nav_click page l1 w)) = nav_click page l2 w.
Proof.
  intros L E1 E2 I1 T1.
  apply (click_after_click page l1 l2 w e1 e2 L E1 E2).
  intros x M H. apply orb_false_elim in M as (Ml & Ms).
  apply orb_true_iff in H as [H|H].
  - apply Nat.eqb_eq in H. subst x.
    apply member_In in I1. congruence.
  - destruct (category_target w l1) as [t|]; [|discriminate].
    cbn in H. apply Nat.eqb_eq in H. subst x.
    destruct T1 as [I|I]; apply member_In in I; congruence.
Qed.

(** ** Loading the script *)

Lemma addEventListener_outcome (page : document) (i ty : string) (c : callback)
  (w : world) :
  dom w = page ->
  (getElementById page i = None /\
   addEventListener (getElementById page i) ty c w = (TypeError, w)) \/
  (exists n, getElementById page i = Some n /\
     addEventListener (getElementById page i) ty c w
     = (Done tt, add_listener (Build_listener (Node n) ty c) w)).
Proof.
  intros D. destruct (getElementById page i) as [n|] eqn:E; [right|left; auto].
  exists n. split; auto. unfold addEventListener, and_then, element_at.
  rewrite D. apply getElementById_spec in E as (e & -> & _). reflexivity.
Qed.

Lemma forEach_addEventListener (links : list node) (w : world) :
  Forall (fun n => (n < List.length (dom w))%nat) links ->
  forEach links (fun link => addEventListener (Some link) "click" (NavClick link)) w
  = (Done tt,
     {| dom := dom w; listeners := listeners w ++ map link_listener links;
        console := console w; canceled := canceled w |}).
Proof.
  revert w; induction links as [|n r IH]; intros w H.
  - cbn. unfold done. rewrite app_nil_r. now destruct w.
  - inversion H as [|? ? Hn Hr]; subst. cbn [forEach]. unfold and_then.
    assert (E : addEventListener (Some n) "click" (NavClick n) w
                = (Done tt, add_listener (link_listener n) w)).
    { unfold addEventListener, and_then, element_at.
      destruct (nth_error (dom w) n) eqn:E; auto.
      apply nth_error_None in E. lia. }
    rewrite E, IH by exact Hr.
    cbn [add_listener dom listeners console canceled map].
    now rewrite <- app_assoc.
Qed.

Ltac find_missing N :=
  first [ exists Length, Input; split; [discriminate|exact N] | exists Length, FromUnit; split; [discriminate|exact N] | exists Length, ToUnit; split; [discriminate|exact N] | exists Weight, Input; split; [discriminate|exact N] | exists Weight, FromUnit; split; [discriminate|exact N] | exists Weight, ToUnit; split; [discriminate|exact N] | exists Volume, Input; split; [discriminate|exact N] | exists Volume, FromUnit; split; [discriminate|exact N] | exists Volume, ToUnit; split; [discriminate|exact N] | exists Speed, Input; split; [discriminate|exact N] | exists Speed, FromUnit; split; [discriminate|exact N] | exists Speed, ToUnit; split; [discriminate|exact N] | exists Area, Input; split; [discriminate|exact N] | exists Area, FromUnit; split; [discriminate|exact N] | exists Area, ToUnit; split; [discriminate|exact N] | exists Pressure, Input; split; [discriminate|exact N] | exists Pressure, FromUnit; split; [discriminate|exact N] | exists Pressure, ToUnit; split; [discriminate|exact N] | exists Temperature, Input; split; [discriminate|exact N] | exists Temperature, FromUnit; split; [discriminate|exact N] | exists Temperature, ToUnit; split; [discriminate|exact N] ].

Ltac register page :=
  match goal with
  | |- context [and_then (addEventListener (getElementById page ?i) ?ty ?c) ?k ?w] =>
      let N := fresh "N" in
      let E := fresh "E" in
      let n := fresh "n" in
      destruct (addEventListener_outcome page i ty c w eq_refl)
        as [(N & E)|(n & N & E)];
      [ left; rewrite (and_then_TypeError _ k w) by (now rewrite E);
        rewrite E; cbn [snd];
        eexists; split; [reflexivity|]; split; [reflexivity|find_missing N]
      | rewrite (and_then_Done _ k w tt) by (now rewrite E);
        rewrite E; cbn [snd]; clear E ]
  end.

Lemma load_cases (page : document) :
  (exists ls,
     load page
     = (TypeError,
        {| dom := page; listeners := ls; console := []; canceled := false |}) /\
     forallb (fun l => is_update (callback_of l)) ls = true /\
     exists d c, c <> Result /\ control_of page d c = None) \/
  (load page
   = (Done tt,
      {| dom := page; listeners := full_listeners page; console := [];
         canceled := false |}) /\
   forall d c, c <> Result -> control_of page d c <> None).
Proof.
  unfold load, script.
  unfold lengthInput, lengthFromUnit, lengthToUnit,
    weightInput, weightFromUnit, weightToUnit,
    volumeInput, volumeFromUnit, volumeToUnit,
    speedInput, speedFromUnit, speedToUnit,
    areaInput, areaFromUnit, areaToUnit,
    pressureInput, pressureFromUnit, pressureToUnit,
    tempInput, tempFromUnit, tempToUnit.
  do 21 (register page).
  right. split.
  - match goal with
    | |- and_then (forEach _ _) ?k ?w = _ =>
        rewrite (and_then_Done _ k w tt)
          by (rewrite forEach_addEventListener;
              [reflexivity|apply querySelectorAll_bound]);
        rewrite forEach_addEventListener by apply querySelectorAll_bound
    end.
    cbn [snd]. unfold document_addEventListener.
    cbn [add_listener initial dom listeners console canceled app].
    f_equal. f_equal. unfold full_listeners, domains, domain_listeners.
    cbn [map List.concat input_of from_of to_of].
    unfold lengthInput, lengthFromUnit, lengthToUnit,
      weightInput, weightFromUnit, weightToUnit,
      volumeInput, volumeFromUnit, volumeToUnit,
      speedInput, speedFromUnit, speedToUnit,
      areaInput, areaFromUnit, areaToUnit,
      pressureInput, pressureFromUnit, pressureToUnit,
      tempInput, tempFromUnit, tempToUnit.
    rewrite N, N0, N1, N2, N3, N4, N5, N6, N7, N8, N9, N10, N11, N12, N13,
      N14, N15, N16, N17, N18, N19.
    cbn [app]. reflexivity.
  - intros d c C.
    destruct d, c; try congruence; cbn [control_of input_of from_of to_of];
      unfold lengthInput, lengthFromUnit, lengthToUnit,
        weightInput, weightFromUnit, weightToUnit,
        volumeInput, volumeFromUnit, volumeToUnit,
        speedInput, speedFromUnit, speedToUnit,
        areaInput, areaFromUnit, areaToUnit,
        pressureInput, pressureFromUnit, pressureToUnit,
        tempInput, tempFromUnit, tempToUnit; congruence.
Qed.

(** X22: when the input and the two selections of every domain exist, the
    script runs to its end and registers, in this order, three listeners
    per domain, a click listener per navigation link and the listener of
    DOMContentLoaded; the result controls are not needed for that. *)
Theorem script_wires_page (page : document) :
  (forall d c, c <> Result -> control_of page d c <> None) ->
  load page
  = (Done tt,
     {| dom := page; listeners := full_listeners page; console := [];
        canceled := false |}).
Proof.
  intros H. destruct (load_cases page) as [(ls & _ & _ & d & c & C & N)|(E & _)].
  - now destruct (H d c C).
  - exact E.
Qed.

(** X23: when an input or a selection is missing, the script stops with a
    TypeError; the document is untouched, and neither a click listener nor
    the listener of DOMContentLoaded has been registered. *)
Theorem script_stops_at_missing_control (page : document) (d : domain)
  (c : control) :
  c <> Result -> control_of page d c = None ->
  fst (load page) = TypeError /\
  dom (snd (load page)) = page /\
  forallb (fun l => is_update (callback_of l)) (listeners (snd (load page)))
  = true.
Proof.
  intros C N. destruct (load_cases page) as [(ls & -> & U & _)|(_ & H)].
  - repeat split; auto.
  - now destruct (H d c C).
Qed.

(** ** Handlers keep the results in sync *)

Lemma and_then_cases {A B : Type} (c : js A) (k : A -> js B) (w : world) :
  (exists a, and_then c k w = k a (snd (c w))) \/
  and_then c k w = (TypeError, snd (c w)).
Proof.
  unfold and_then. destruct (c w) as [[a|] w']; cbn; [left; now exists a|now right].
Qed.

Lemma content_loaded_keeps (page : document) (P : world -> Prop) (w : world) :
  (forall d w, P w -> P (snd (update page d w))) ->
  (forall w s, P w -> P (snd (console_log s w))) ->
  P w -> P (snd (content_loaded page w)).
Proof.
  intros U C H. unfold content_loaded.
  change (updateLengthConversion page) with (update page Length).
  change (updateWeightConversion page) with (update page Weight).
  change (updateVolumeConversion page) with (update page Volume).
  change (updateSpeedConversion page) with (update page Speed).
  change (updateAreaConversion page) with (update page Area).
  change (updatePressureConversion page) with (update page Pressure).
  change (updateTemperatureConversion page) with (update page Temperature).
  repeat match goal with
  | |- P (snd (and_then (update page ?d) ?k ?w)) =>
      destruct (and_then_cases (update page d) k w) as [(? & ->)| ->];
      [cbv beta|cbn [snd]; auto 10]
  end.
  auto 10.
Qed.

Lemma value_of_same_values (w w' : world) (r : option node) :
  map Element.value (dom w') = map Element.value (dom w) ->
  value_of w' r = value_of w r.
Proof.
  intros H. destruct r as [n|]; cbn; auto.
  now rewrite <- !nth_error_map, H.
Qed.

Lemma in_sync_same_values (page : document) (d : domain) (w w' : world) :
  map Element.value (dom w') = map Element.value (dom w) ->
  in_sync page d w -> in_sync page d w'.
Proof.
  intros E (s & a & b & H). exists s, a, b.
  now rewrite !(value_of_same_values w w' _ E).
Qed.

Lemma present_same_values (page : document) (d : domain) (w w' : world) :
  map Element.value (dom w') = map Element.value (dom w) ->
  controls_present page d w -> controls_present page d w'.
Proof.
  intros E (s & a & b & old & H). exists s, a, b, old.
  now rewrite !(value_of_same_values w w' _ E).
Qed.

Lemma nav_click_values (page : document) (link : node) (w : world) :
  List.length (dom w) = List.length page ->
  map Element.value (dom (snd (nav_click page link w)))
  = map Element.value (dom w) /\
  listeners (snd (nav_click page link w)) = listeners w.
Proof.
  intros L. destruct (nth_error (dom w) link) as [e|] eqn:E.
  - destruct (nav_click_frame page link w e L E) as (V & _ & _ & _ & Ls & _).
    auto.
  - unfold nav_click, and_then.
    change (preventDefault w)
      with (Done tt, {| dom := dom w; listeners := listeners w;
                        console := console w; canceled := true |}).
    unfold get_category, and_then, element_at. cbn [dom]. rewrite E.
    cbn. auto.
Qed.

Lemma invoke_keeps (page : document) (c : callback) (w : world) :
  stable page w ->
  stable page (snd (invoke page c w)) /\
  listeners (snd (invoke page c w)) = listeners w /\
  forall d, in_sync page d w -> in_sync page d (snd (invoke page c w)).
Proof.
  intros St. destruct c as [d'|link|]; cbn [invoke].
  - destruct St as (L & P). repeat split.
    + now rewrite update_length.
    + intros d. apply update_keeps_presence, P.
    + apply update_frame.
    + intros d. apply update_keeps_sync.
  - destruct St as (L & P).
    destruct (nav_click_values page link w L) as (V & Ls).
    repeat split; auto.
    + rewrite <- L, <- (length_map Element.value (dom w)), <- V.
      now rewrite length_map.
    + intros d. eapply present_same_values; eauto.
    + intros d. now apply in_sync_same_values.
  - pose (P := fun w' : world =>
        stable page w' /\ listeners w' = listeners w /\
        forall d, in_sync page d w -> in_sync page d w').
    apply (content_loaded_keeps page P); unfold P.
    + intros d w' ((L & Pr) & Ls & Sy). split; [split|split].
      * now rewrite update_length.
      * intros d0. apply update_keeps_presence, Pr.
      * rewrite <- Ls. apply update_frame.
      * intros d0 H. apply update_keeps_sync. auto.
    + intros w' s ((L & Pr) & Ls & Sy). split; [split|split]; auto.
    + split; [exact St|split; auto].
Qed.

Lemma run_callbacks_keeps (page : document) (cs : list callback) (w : world) :
  stable page w ->
  stable page (run_callbacks page cs w) /\
  listeners (run_callbacks page cs w) = listeners w /\
  forall d, in_sync page d w -> in_sync page d (run_callbacks page cs w).
Proof.
  revert w; induction cs as [|c r IH]; intros w St; cbn [run_callbacks]; auto.
  destruct (invoke_keeps page c w St) as (St1 & L1 & S1).
  destruct (IH _ St1) as (St2 & L2 & S2).
  repeat split; auto; try apply St2. congruence.
Qed.

Lemma run_callbacks_update (page : document) (cs : list callback) (d : domain)
  (w : world) :
  In (Update d) cs -> stable page w ->
  in_sync page d (run_callbacks page cs w).
Proof.
  revert w; induction cs as [|c r IH]; intros w I St; [contradiction|].
  cbn [run_callbacks].
  destruct (invoke_keeps page c w St) as (St1 & L1 & S1).
  destruct I as [->|I]; [|now apply IH].
  apply run_callbacks_keeps; auto.
  cbn [invoke]. apply update_establishes, St.
Qed.

Lemma run_callbacks_loaded (page : document) (cs : list callback) (w : world) :
  In ContentLoaded cs -> stable page w ->
  forall d, in_sync page d (run_callbacks page cs w).
Proof.
  revert w; induction cs as [|c r IH]; intros w I St d; [contradiction|].
  cbn [run_callbacks].
  destruct (invoke_keeps page c w St) as (St1 & L1 & S1).
  destruct I as [->|I]; [|now apply IH].
  apply run_callbacks_keeps; auto.
  cbn [invoke]. apply content_loaded_all, St.
Qed.

Lemma listener_runs (t : event_target) (ty : string) (c : callback)
  (w : world) :
  In (Build_listener t ty c) (listeners w) ->
  In c (map callback_of (filter (listens t ty) (listeners w))).
Proof.
  intros I. apply in_map_iff. exists (Build_listener t ty c). split; auto.
  apply filter_In. split; auto. unfold listens. cbn.
  rewrite String.eqb_refl, andb_true_r.
  destruct t; cbn; auto. apply Nat.eqb_refl.
Qed.

Lemma stable_reset (page : document) (w : world) :
  stable page w -> stable page (fresh_event w).
Proof.
  intros (L & P). split; auto.
Qed.

Lemma run_listeners_keeps (page : document) (ty : string) (t : event_target)
  (w : world) :
  stable page w ->
  stable page (run_listeners page ty w t) /\
  listeners (run_listeners page ty w t) = listeners w /\
  forall d, in_sync page d w -> in_sync page d (run_listeners page ty w t).
Proof. intros St. now apply run_callbacks_keeps. Qed.

Lemma propagation_keeps (page : document) (ty : string)
  (ts : list event_target) (w : world) :
  stable page w ->
  stable page (fold_left (run_listeners page ty) ts w) /\
  listeners (fold_left (run_listeners page ty) ts w) = listeners w /\
  forall d, in_sync page d w ->
    in_sync page d (fold_left (run_listeners page ty) ts w).
Proof.
  revert w; induction ts as [|t r IH]; intros w St; cbn [fold_left]; auto.
  destruct (run_listeners_keeps page ty t w St) as (St1 & L1 & S1).
  destruct (IH _ St1) as (St2 & L2 & S2).
  repeat split; auto; try apply St2. congruence.
Qed.

Lemma dispatchEvent_keeps (page : document) (t : event_target) (ty : string)
  (w : world) :
  stable page w ->
  stable page (dispatchEvent page t ty w) /\
  listeners (dispatchEvent page t ty w) = listeners w /\
  forall d, in_sync page d w -> in_sync page d (dispatchEvent page t ty w).
Proof.
  intros St. unfold dispatchEvent.
  destruct (propagation_keeps page ty (event_path (dom w) t) _
              (stable_reset page w St)) as (St' & L' & S').
  repeat split; auto; apply St'.
Qed.

Lemma event_path_node (doc : document) (n : node) :
  exists rest, event_path doc (Node n) = Node n :: rest.
Proof. unfold event_path, inclusive_ancestors. cbn. eauto. Qed.

(** ** A session *)

Lemma value_of_edit (w : world) (n : node) (s : string) (r : option node) :
  value_of (with_dom (modify n (Element.with_value s) (dom w)) w) r
  = match value_of w r with
    | Some old => if is_node r n then Some s else Some old
    | None => None
    end.
Proof.
  destruct r as [m|]; cbn [value_of is_node with_dom dom]; auto.
  rewrite nth_error_modify.
  destruct (nth_error (dom w) m) as [e|]; cbn [option_map]; auto.
  now destruct (Nat.eqb m n).
Qed.

Lemma present_edit (page : document) (d : domain) (w : world) (n : node)
  (s : string) :
  controls_present page d w ->
  controls_present page d (with_dom (modify n (Element.with_value s) (dom w)) w).
Proof.
  intros (s0 & a & b & old & Hs & Ha & Hb & Hr).
  unfold controls_present. rewrite !value_of_edit, Hs, Ha, Hb, Hr.
  destruct (is_node (input_of page d) n), (is_node (from_of page d) n),
    (is_node (to_of page d) n), (is_node (result_of page d) n); eauto 10.
Qed.

Lemma is_node_control (page : document) (d d' : domain) (c c' : control)
  (n : node) :
  control_of page d c = Some n -> d' <> d ->
  is_node (control_of page d' c') n = false.
Proof.
  intros H D. destruct (control_of page d' c') as [m|] eqn:E; auto. cbn.
  apply Nat.eqb_neq. intros ->.
  destruct (controls_distinct page d' d c' c n E H) as (E0 & _). contradiction.
Qed.

Lemma sync_edit (page : document) (d d' : domain) (c : control) (w : world)
  (n : node) (s : string) :
  control_of page d c = Some n -> d' <> d ->
  in_sync page d' w ->
  in_sync page d' (with_dom (modify n (Element.with_value s) (dom w)) w).
Proof.
  intros H D (s0 & a & b & Hs & Ha & Hb & Hr). exists s0, a, b.
  rewrite !value_of_edit, Hs, Ha, Hb, Hr.
  pose proof (is_node_control page d d' c Input n H D) as K1.
  pose proof (is_node_control page d d' c FromUnit n H D) as K2.
  pose proof (is_node_control page d d' c ToUnit n H D) as K3.
  pose proof (is_node_control page d d' c Result n H D) as K4.
  cbn [control_of] in K1, K2, K3, K4. rewrite K1, K2, K3, K4.
  auto.
Qed.

Lemma domain_listeners_In (page : document) (d : domain) (l : listener) :
  In l (domain_listeners page d) -> In l (full_listeners page).
Proof.
  intros H. unfold full_listeners. apply in_or_app. left.
  apply in_concat. exists (domain_listeners page d). split; auto.
  apply in_map. destruct d; cbn; auto 10.
Qed.

Lemma control_listener (page : document) (d : domain) (c : control) (n : node) :
  c <> Result ->
  (forall c', c' <> Result -> control_of page d c' <> None) ->
  control_of page d c = Some n ->
  In (Build_listener (Node n) (match c with Input => "input" | _ => "change" end)
        (Update d))
     (full_listeners page).
Proof.
  intros C All H. apply (domain_listeners_In page d).
  unfold domain_listeners.
  destruct (input_of page d) as [i|] eqn:I;
    [|now destruct (All Input ltac:(discriminate))].
  destruct (from_of page d) as [f|] eqn:F;
    [|now destruct (All FromUnit ltac:(discriminate))].
  destruct (to_of page d) as [t|] eqn:T;
    [|now destruct (All ToUnit ltac:(discriminate))].
  destruct c; cbn [control_of] in H; try congruence.
  - rewrite I in H. injection H as <-. cbn; auto.
  - rewrite F in H. injection H as <-. cbn; auto.
  - rewrite T in H. injection H as <-. cbn; auto.
Qed.

Lemma change_keeps (page : document) (d : domain) (c : control) (s : string)
  (w : world) :
  c <> Result ->
  ready page w ->
  ready page (change page (control_of page d c)
                (match c with Input => "input" | _ => "change" end) s w).
Proof.
  intros C (St & Ls & Sy). unfold change.
  destruct (control_of page d c) as [n|] eqn:H; [|repeat split; auto; apply St].
  set (w1 := with_dom (modify n (Element.with_value s) (dom w)) w).
  assert (St1 : stable page w1).
  { split.
    - unfold w1. cbn [with_dom dom]. rewrite length_modify. apply St.
    - intros d0. apply present_edit, St. }
  assert (All : forall c', c' <> Result -> control_of page d c' <> None).
  { intros c' _. destruct St as (_ & P).
    destruct (P d) as (s0 & a & b & old & Hs & Ha & Hb & Hr).
    destruct c'; cbn [control_of]; intros E;
      rewrite E in *; discriminate. }
  pose proof (control_listener page d c n C All H) as I.
  destruct (dispatchEvent_keeps page (Node n)
              (match c with Input => "input" | _ => "change" end) w1 St1)
    as (St2 & Ls2 & Sy2).
  repeat split; auto; try apply St2.
  - rewrite Ls2. exact Ls.
  - intros d'. destruct (domain_eq_dec d' d) as [->|D].
    + unfold dispatchEvent.
      destruct (event_path_node (dom w1) n) as (rest & ->). cbn [fold_left].
      assert (Sy0 : in_sync page d
                      (run_listeners page
                         (match c with Input => "input" | _ => "change" end)
                         (fresh_event w1) (Node n))).
      { apply run_callbacks_update.
        - apply listener_runs. unfold w1. cbn [fresh_event with_dom listeners].
          rewrite Ls. exact I.
        - now apply stable_reset. }
      apply propagation_keeps; [|exact Sy0].
      apply run_listeners_keeps. now apply stable_reset.
    + apply Sy2. now apply (sync_edit page d d' c).
Qed.

Lemma interact_keeps (page : document) (a : interaction) (w : world) :
  ready page w -> ready page (interact page a w).
Proof.
  intros R. destruct a as [d text|d unit|d unit|n]; cbn [interact].
  - apply (change_keeps page d Input text w); [discriminate|exact R].
  - apply (change_keeps page d FromUnit unit w); [discriminate|exact R].
  - apply (change_keeps page d ToUnit unit w); [discriminate|exact R].
  - destruct R as (St & Ls & Sy).
    destruct (dispatchEvent_keeps page (Node n) "click" w St) as (St' & Ls' & Sy').
    repeat split; auto; try apply St'. congruence.
Qed.

Lemma loaded_ready (page : document) :
  (forall d, controls_present page d (initial page)) ->
  ready page (dispatchEvent page Document "DOMContentLoaded" (snd (load page))).
Proof.
  intros P.
  assert (All : forall d c, c <> Result -> control_of page d c <> None).
  { intros d c _. destruct (P d) as (s0 & a & b & old & Hs & Ha & Hb & Hr).
    destruct c; cbn [control_of]; intros E; rewrite E in *; discriminate. }
  destruct (load_cases page) as [(ls & _ & _ & d & c & C & N)|(E & _)];
    [now destruct (All d c C)|].
  rewrite E. cbn [snd].
  set (w0 := {| dom := page; listeners := full_listeners page; console := [];
                canceled := false |}).
  assert (St : stable page w0).
  { split; [reflexivity|]. intros d.
    eapply present_same_dom; [|apply P]. reflexivity. }
  destruct (dispatchEvent_keeps page Document "DOMContentLoaded" w0 St)
    as (St' & Ls' & _).
  split; [exact St'|]. split; [exact Ls'|].
  unfold dispatchEvent. cbn [event_path fold_left]. apply run_callbacks_loaded.
  - apply listener_runs. cbn [fresh_event listeners w0]. unfold full_listeners.
    apply in_or_app. right. apply in_or_app. right. now left.
  - now apply stable_reset.
Qed.

(** X24: on a page with the controls of all seven domains, once the page has
    loaded, whatever the user types into the inputs, chooses in the unit
    selections or clicks, every result control shows the conversion of
    what its input and its selections hold. *)
Theorem results_follow_inputs (page : document) (actions : list interaction)
  (d : domain) :
  (forall d, controls_present page d (initial page)) ->
  in_sync page d (session page actions).
Proof.
  intros P. unfold session.
  assert (R : ready page
                (fold_left (fun w a => interact page a w) actions
                   (dispatchEvent page Document "DOMContentLoaded"
                      (snd (load page))))).
  { generalize (loaded_ready page P).
    generalize (dispatchEvent page Document "DOMContentLoaded" (snd (load page))).
    induction actions as [|a r IH]; intros w R; cbn [fold_left]; auto.
    apply IH. now apply interact_keeps. }
  apply R.
Qed.

(** ** Which handlers an event runs *)

Lemma filter_nil {A : Type} (p : A -> bool) (l : list A) :
  (forall x, In x l -> p x = false) -> filter p l = [].
Proof.
  induction l as [|x r IH]; intros H; cbn; auto.
  rewrite (H x (or_introl eq_refl)). apply IH. intros y Hy. apply H. now right.
Qed.

Lemma NoDup_map_S (l : list nat) : NoDup l -> NoDup (map S l).
Proof.
  induction 1 as [|x r Hx Hr IH]; cbn; constructor; auto.
  intros H. apply in_map_iff in H as (y & E & Hy). injection E as ->.
  contradiction.
Qed.

Lemma find_all_sorted (p : Element.t -> bool) (doc : document) :
  NoDup (find_all p doc).
Proof.
  induction doc as [|e r IH]; cbn; [constructor|].
  assert (M : NoDup (map S (find_all p r))).
  { now apply NoDup_map_S. }
  destruct (p e); cbn; auto. constructor; auto.
  intros H. apply in_map_iff in H as (x & E & _). discriminate.
Qed.

Lemma navLinks_NoDup (page : document) : NoDup (navLinks page).
Proof. apply find_all_sorted. Qed.

Lemma filter_link_listeners (links : list node) (n : node) :
  NoDup links ->
  filter (listens (Node n) "click") (map link_listener links)
  = if member n links then [link_listener n] else [].
Proof.
  induction 1 as [|x r Hx Hr IH]; cbn; auto.
  unfold listens at 1. cbn [target type link_listener same_target].
  rewrite String.eqb_refl, andb_true_r, (Nat.eqb_sym n x).
  destruct (Nat.eqb x n) eqn:E; cbn [orb].
  - apply Nat.eqb_eq in E. subst x. rewrite IH.
    rewrite (not_member n r Hx). reflexivity.
  - exact IH.
Qed.

Lemma link_handlers (page : document) (ty : string) (p : node) :
  map callback_of
    (filter (listens (Node p) ty) (map link_listener (navLinks page)))
  = if member p (navLinks page) && String.eqb ty "click"
    then [NavClick p] else [].
Proof.
  destruct (String.eqb ty "click") eqn:E.
  - apply String.eqb_eq in E. subst ty.
    rewrite (filter_link_listeners _ _ (navLinks_NoDup page)), andb_true_r.
    now destruct (member p (navLinks page)).
  - rewrite andb_false_r, filter_nil; [reflexivity|].
    intros l Hl. apply in_map_iff in Hl as (x & <- & _).
    unfold listens. cbn [target type link_listener].
    now rewrite String.eqb_sym, E, andb_false_r.
Qed.

Lemma domain_handlers (page : document) (ty : string) (p : node) (d : domain) :
  (forall c, c <> Result -> control_of page d c <> None) ->
  map callback_of (filter (listens (Node p) ty) (domain_listeners page d))
  = domain_updates page ty p d.
Proof.
  intros All. unfold domain_listeners, domain_updates.
  destruct (input_of page d) as [i|] eqn:I;
    [|now destruct (All Input ltac:(discriminate))].
  destruct (from_of page d) as [f|] eqn:F;
    [|now destruct (All FromUnit ltac:(discriminate))].
  destruct (to_of page d) as [t|] eqn:T;
    [|now destruct (All ToUnit ltac:(discriminate))].
  cbn [filter is_node]. unfold listens. cbn [target type same_target].
  rewrite (String.eqb_sym "input" ty), (String.eqb_sym "change" ty).
  destruct (Nat.eqb i p), (Nat.eqb f p), (Nat.eqb t p),
    (String.eqb ty "input"), (String.eqb ty "change"); reflexivity.
Qed.

Lemma node_handlers (page : document) (ty : string) (p : node) :
  (forall d c, c <> Result -> control_of page d c <> None) ->
  map callback_of (filter (listens (Node p) ty) (full_listeners page))
  = handlers_at page ty p.
Proof.
  intros All. unfold full_listeners, handlers_at.
  rewrite !filter_app, !map_app, link_handlers.
  change (filter (listens (Node p) ty)
            [Build_listener Document "DOMContentLoaded" ContentLoaded])
    with (@nil listener).
  cbn [map]. rewrite app_nil_r. f_equal.
  unfold domains. cbn [map List.concat flat_map].
  rewrite !filter_app, !map_app, !domain_handlers by (intros c; apply All).
  reflexivity.
Qed.

Lemma document_handlers (page : document) (ty : string) :
  map callback_of (filter (listens Document ty) (full_listeners page))
  = if String.eqb ty "DOMContentLoaded" then [ContentLoaded] else [].
Proof.
  unfold full_listeners. rewrite !filter_app, !map_app.
  rewrite (filter_nil _ (List.concat _)), (filter_nil _ (map link_listener _)).
  - cbn [filter map app]. unfold listens. cbn [target type same_target andb].
    rewrite String.eqb_sym. now destruct (String.eqb ty "DOMContentLoaded").
  - intros l Hl. apply in_map_iff in Hl as (x & <- & _). reflexivity.
  - intros l Hl. apply in_concat in Hl as (ls & Hls & Hl).
    apply in_map_iff in Hls as (d & <- & _).
    unfold domain_listeners in Hl.
    destruct (input_of page d), (from_of page d), (to_of page d);
      try contradiction.
    destruct Hl as [<-|[<-|[<-|[]]]]; reflexivity.
Qed.

(** *** No handler registers or removes a listener *)

Lemma keeps_done {A : Type} (a : A) : keeps_listeners (done a).
Proof. intros w. reflexivity. Qed.

Lemma keeps_and_then {A B : Type} (c : js A) (k : A -> js B) :
  keeps_listeners c -> (forall a, keeps_listeners (k a)) ->
  keeps_listeners (and_then c k).
Proof.
  intros Hc Hk w. unfold and_then. specialize (Hc w).
  destruct (c w) as [[a|] w']; cbn [snd] in *; [|exact Hc].
  now rewrite Hk.
Qed.

Lemma keeps_forEach {A : Type} (l : list A) (f : A -> js unit) :
  (forall a, keeps_listeners (f a)) -> keeps_listeners (forEach l f).
Proof.
  intros H. induction l as [|x r IH]; cbn [forEach].
  - apply keeps_done.
  - apply keeps_and_then; auto.
Qed.

Lemma keeps_element_at (r : option node) : keeps_listeners (element_at r).
Proof.
  intros w. unfold element_at. destruct r as [n|]; auto.
  now destruct (nth_error (dom w) n).
Qed.

Lemma keeps_get_value (r : option node) : keeps_listeners (get_value r).
Proof.
  apply keeps_and_then; [apply keeps_element_at|intros e; apply keeps_done].
Qed.

Lemma keeps_set_at (r : option node) (f : Element.t -> Element.t) :
  keeps_listeners (set_at r f).
Proof.
  apply keeps_and_then; [apply keeps_element_at|].
  intros _ w. now destruct r.
Qed.

Lemma keeps_update (page : document) (d : domain) :
  keeps_listeners (update page d).
Proof. intros w. apply update_frame. Qed.

Lemma keeps_nav_click (page : document) (link : node) :
  keeps_listeners (nav_click page link).
Proof.
  unfold nav_click.
  apply keeps_and_then; [intros w; reflexivity|intros _].
  apply keeps_and_then.
  { apply keeps_and_then; [apply keeps_element_at|intros e; apply keeps_done]. }
  intros category.
  apply keeps_and_then; [apply keeps_forEach; intros l; apply keeps_set_at|].
  intros _. apply keeps_and_then; [apply keeps_set_at|intros _].
  apply keeps_and_then; [apply keeps_forEach; intros l; apply keeps_set_at|].
  intros _. apply keeps_and_then; [intros w; reflexivity|].
  intros [t|]; [apply keeps_set_at|apply keeps_done].
Qed.

Lemma keeps_content_loaded (page : document) :
  keeps_listeners (content_loaded page).
Proof.
  unfold content_loaded.
  repeat (apply keeps_and_then;
          [first [apply (keeps_update page Length)
                 |apply (keeps_update page Weight)
                 |apply (keeps_update page Volume)
                 |apply (keeps_update page Speed)
                 |apply (keeps_update page Area)
                 |apply (keeps_update page Pressure)
                 |apply (keeps_update page Temperature)]
          |intros _]).
  intros w. reflexivity.
Qed.

Lemma keeps_invoke (page : document) (c : callback) :
  keeps_listeners (invoke page c).
Proof.
  destruct c; cbn [invoke];
    [apply keeps_update|apply keeps_nav_click|apply keeps_content_loaded].
Qed.

Lemma run_callbacks_listeners (page : document) (cs : list callback) (w : world) :
  listeners (run_callbacks page cs w) = listeners w.
Proof.
  revert w. induction cs as [|c r IH]; intros w; cbn [run_callbacks]; auto.
  rewrite IH. apply keeps_invoke.
Qed.

Lemma run_callbacks_app (page : document) (a b : list callback) (w : world) :
  run_callbacks page (a ++ b) w
  = run_callbacks page b (run_callbacks page a w).
Proof.
  revert w. induction a as [|c r IH]; intros w; cbn [app run_callbacks]; auto.
Qed.

(** Along the path the listeners found are those registered before the
    dispatch. *)
Lemma propagation_unfold (page : document) (ty : string)
  (ts : list event_target) (w : world) :
  fold_left (run_listeners page ty) ts w
  = run_callbacks page
      (flat_map (fun t => map callback_of (filter (listens t ty) (listeners w)))
         ts) w.
Proof.
  revert w. induction ts as [|t r IH]; intros w; cbn [fold_left flat_map]; auto.
  rewrite IH, run_callbacks_app.
  unfold run_listeners at 1. rewrite run_callbacks_listeners. reflexivity.
Qed.

Lemma flat_map_map {A B C : Type} (f : A -> B) (g : B -> list C) (l : list A) :
  flat_map g (map f l) = flat_map (fun a => g (f a)) l.
Proof. induction l as [|a r IH]; cbn; auto. now rewrite IH. Qed.

(** X25: in a state that holds the listeners of a script that ran to its
    end, an event dispatched at an element runs the handlers registered on
    that element for its type, then those of its parent, and so on up the
    tree, on an event that starts out not canceled: the update function of
    a domain where the element is its input ([input]) or one of its unit
    selections ([change]), the navigation handler where it is a navigation
    link ([click]); a click on a descendant of a link so runs the handler of
    the link.  [DOMContentLoaded] at the document runs the initialization. *)
Theorem events_run_their_handlers (page : document) (w : world) :
  fst (load page) = Done tt ->
  listeners w = listeners (snd (load page)) ->
  (forall n ty, String.eqb ty "DOMContentLoaded" = false ->
     dispatchEvent page (Node n) ty w
     = run_callbacks page
         (flat_map (handlers_at page ty) (inclusive_ancestors (dom w) n))
         (fresh_event w)) /\
  dispatchEvent page Document "DOMContentLoaded" w
  = snd (content_loaded page (fresh_event w)).
Proof.
  intros Ld Ls.
  assert (All : forall d c, c <> Result -> control_of page d c <> None).
  { destruct (load_cases page) as [(ls & E & _)|(_ & H)]; auto.
    rewrite E in Ld. discriminate. }
  assert (Ls' : listeners (fresh_event w) = full_listeners page).
  { destruct (load_cases page) as [(ls & E & _)|(E & _)].
    - rewrite E in Ld. discriminate.
    - cbn [fresh_event listeners]. now rewrite Ls, E. }
  clear Ld Ls. split.
  - intros n ty Ty. unfold dispatchEvent. rewrite propagation_unfold, Ls'.
    cbn [event_path dom fresh_event]. rewrite flat_map_app, flat_map_map.
    cbn [flat_map]. rewrite document_handlers, Ty, !app_nil_r.
    f_equal. apply flat_map_ext. intros p. now apply node_handlers.
  - unfold dispatchEvent. rewrite propagation_unfold, Ls'.
    cbn [event_path flat_map]. rewrite document_handlers. reflexivity.
Qed.

(** ** Ranks and comparison *)

Lemma canonical_range (s : bool) (m : positive) (e : Z) :
  wf (S754_finite s m e) = true ->
  (e = -1074 /\ 0 < Zpos m < 2 ^ 53) \/
  (-1074 < e <= 971 /\ 2 ^ 52 <= Zpos m < 2 ^ 53).
Proof.
  intros W. apply wf_finite in W. destruct W as [C E].
  apply canonical_facts in C. destruct C as (L & D & C).
  pose proof (Zdigits2_bounds (Zpos m) ltac:(lia)) as [B1 B2].
  simpl Zdigits2 in B1, B2.
  assert (2 ^ Zpos (digits2_pos m) <= 2 ^ 53) by (apply Z.pow_le_mono_r; lia).
  destruct C as [C|C].
  - rewrite C in B1. change (2 ^ (53 - 1)) with (2 ^ 52) in B1.
    destruct (Z.eq_dec e (-1074)); [left|right]; lia.
  - left. lia.
Qed.

Ltac decide_leb :=
  symmetry; first [apply Z.leb_le; nia | apply Z.leb_gt; nia].

Lemma leb_rank (x y : number) :
  wf x = true -> wf y = true -> is_nan x = false -> is_nan y = false ->
  leb x y = (rank x <=? rank y).
Proof.
  intros Wx Wy Nx Ny.
  destruct x as [sx|sx| |sx mx ex]; try discriminate;
    destruct y as [sy|sy| |sy my ey]; try discriminate;
    unfold leb, SFleb; cbn [SFcompare rank];
    try (apply canonical_range in Wx); try (apply canonical_range in Wy);
    try (destruct sx); try (destruct sy); cbn [signed];
    try reflexivity; try decide_leb.
  - destruct (Z.compare_spec ex ey) as [E|E|E]; [subst ey| |]; try decide_leb.
    change (PosDef.Pos.compare_cont Eq mx my) with (Pos.compare mx my).
    destruct (Pos.compare_spec mx my); cbn [CompOpp]; decide_leb.
  - destruct (Z.compare_spec ex ey) as [E|E|E]; [subst ey| |]; try decide_leb.
    change (PosDef.Pos.compare_cont Eq mx my) with (Pos.compare mx my).
    destruct (Pos.compare_spec mx my); decide_leb.
Qed.

(** ** Rounding to nearest keeps the order *)

Lemma round_nearest_even_mono (m1 m2 : Z) (l1 l2 : location) (u1 u2 : R) :
  located m1 l1 u1 -> located m2 l2 u2 -> (u1 <= u2)%R ->
  round_nearest_even m1 l1 <= round_nearest_even m2 l2.
Proof.
  intros L1 L2 U.
  pose proof (round_nearest_even_near _ _ _ L1) as (C1 & _).
  pose proof (round_nearest_even_near _ _ _ L2) as (C2 & _).
  assert (M : m1 <= m2).
  { assert (IZR m1 < IZR (m2 + 1))%R.
    { rewrite plus_IZR. pose proof (located_lower _ _ _ L1).
      destruct l2 as [|[]]; cbn [located] in L2; lra. }
    apply lt_IZR in H. lia. }
  destruct (Z.eq_dec m1 m2) as [->|N]; [|lia].
  destruct l1 as [|[]], l2 as [|[]]; cbn [located round_nearest_even] in *;
    try lia; try (exfalso; lra); destruct (Z.even m2); lia.
Qed.

Lemma rounded_mono (t1 t2 : R) (k1 k2 : Z) :
  rounded t1 k1 -> rounded t2 k2 -> (t1 <= t2)%R -> k1 <= k2.
Proof.
  intros (e1 & m1 & l1 & L1 & F1 & ->) (e2 & m2 & l2 & L2 & F2 & ->) T.
  pose proof (round_nearest_even_near _ _ _ L1) as (C1 & _).
  pose proof (round_nearest_even_near _ _ _ L2) as (C2 & _).
  pose proof (bpow_pos e1) as P1. pose proof (bpow_pos e2) as P2.
  apply Z.min_le_compat_r.
  destruct (Z.compare_spec e1 e2) as [E|E|E].
  - subst e2.
    assert (U : (t1 / bpow e1 <= t2 / bpow e1)%R).
    { apply Rmult_le_compat_r; [|exact T].
      apply Rlt_le, Rinv_0_lt_compat, P1. }
    pose proof (round_nearest_even_mono _ _ _ _ _ _ L1 L2 U). lia.
  - nia.
  - exfalso.
    assert (B1 : 2 ^ 52 <= m1) by lia.
    assert (B2 : m2 + 1 <= 2 ^ 53) by lia.
    apply IZR_le in B1, B2. rewrite plus_IZR in B2.
    rewrite <- bpow_IZR in B1, B2 by lia.
    pose proof (located_lower _ _ _ L1) as Lo.
    assert (Hi : (t2 / bpow e2 < IZR m2 + 1)%R)
      by (destruct l2 as [|[]]; cbn [located] in L2; lra).
    assert (S : (bpow (e2 + 1) <= bpow e1)%R) by (apply bpow_le; lia).
    rewrite bpow_succ in S.
    assert (T1 : (bpow 52 * bpow e1 <= t1)%R).
    { replace t1 with (t1 / bpow e1 * bpow e1)%R by (field; lra).
      apply Rmult_le_compat_r; lra. }
    assert (T2 : (t2 < bpow 53 * bpow e2)%R).
    { replace t2 with (t2 / bpow e2 * bpow e2)%R by (field; lra).
      apply Rmult_lt_compat_r; lra. }
    replace 53 with (52 + 1) in T2 by lia. rewrite bpow_succ in T2.
    pose proof (bpow_pos 52).
    assert (bpow 52 * (2 * bpow e2) <= bpow 52 * bpow e1)%R
      by (apply Rmult_le_compat_l; lra).
    lra.
Qed.

Lemma rounded_range (t : R) (k : Z) : rounded t k -> 0 <= k <= 2047 * 2 ^ 52.
Proof.
  intros (e & m & l & L & F & ->).
  pose proof (round_nearest_even_near _ _ _ L) as (C & _). lia.
Qed.

Lemma rounded_exact (s : bool) (m : positive) (e : Z) :
  wf (S754_finite s m e) = true ->
  rounded (IZR (Zpos m) * bpow e) ((e + 1074) * 2 ^ 52 + Zpos m).
Proof.
  intros W. apply canonical_range in W.
  exists e, (Zpos m), loc_Exact. pose proof (bpow_pos e).
  split; [cbn [located]; field; lra|].
  split; [lia|]. cbn [round_nearest_even]. lia.
Qed.

Lemma rounded_zero : rounded 0 0.
Proof.
  exists (-1074), 0, loc_Exact. pose proof (bpow_pos (-1074)).
  split; [cbn [located]; field; lra|].
  split; [lia|reflexivity].
Qed.

(** The first shift of the rounding brings the mantissa to the precision
    of the format. *)
Lemma first_shift (mx ex : Z) (lx : location) (t : R) :
  0 <= mx -> ex <= fexp prec emax (Zdigits2 mx + ex) ->
  located mx lx (t / bpow ex) ->
  let '(mrs1, e1) := shr_fexp prec emax mx ex lx in
  located (shr_m mrs1) (loc_of_shr_record mrs1) (t / bpow e1) /\
  ((e1 = -1074 /\ 0 <= shr_m mrs1 < 2 ^ 53) \/
   (-1074 < e1 /\ 2 ^ 52 <= shr_m mrs1 < 2 ^ 53)).
Proof.
  intros Hmx Hpre Hloc.
  pose proof (shr_fexp_located mx ex lx _ Hmx Hpre Hloc) as S1.
  destruct (shr_fexp prec emax mx ex lx) as [mrs1 e1].
  destruct S1 as (He1 & [Hm1 L1] & M1).
  set (m1 := shr_m mrs1) in *.
  assert (N1 : 0 <= e1 - ex) by lia.
  assert (U1 : (t / bpow ex / IZR (2 ^ (e1 - ex)) = t / bpow e1)%R).
  { rewrite <- bpow_IZR by lia.
    replace e1 with (ex + (e1 - ex)) at 2 by lia. rewrite bpow_add.
    pose proof (bpow_pos ex). pose proof (bpow_pos (e1 - ex)).
    field. split; lra. }
  rewrite U1 in L1. split; [exact L1|].
  rewrite fexp_eq in He1, Hpre.
  destruct (Z.eq_dec mx 0) as [Z0|NZ].
  - left. subst mx. rewrite Z.div_0_l in M1
      by (pose proof (Z.pow_pos_nonneg 2 (e1 - ex)); lia).
    simpl Zdigits2 in *. lia.
  - destruct (Z_lt_le_dec (e1 - ex) (Zdigits2 mx)) as [Lt|Ge].
    + destruct (div_pow2_digits mx (e1 - ex) ltac:(lia) N1 Lt) as [P D].
      rewrite <- M1 in P, D.
      pose proof (Zdigits2_bounds m1 P) as [B1 B2].
      assert (Zdigits2 m1 <= 53) by lia.
      assert (2 ^ Zdigits2 m1 <= 2 ^ 53) by (apply Z.pow_le_mono_r; lia).
      destruct (Z.eq_dec e1 (-1074)) as [E|E]; [left; lia|right].
      assert (Zdigits2 m1 = 53) by lia.
      replace (Zdigits2 m1 - 1) with 52 in B1 by lia. lia.
    + left. rewrite (div_pow2_small mx (e1 - ex) Hmx Ge) in M1.
      pose proof (Zdigits2_pos mx ltac:(lia)). lia.
Qed.

(** The second shift renormalizes a mantissa that rounding carried to
    [2 ^ 53]; it keeps the rank. *)
Lemma second_shift (m2 e1 : Z) :
  0 < m2 <= 2 ^ 53 -> -1074 <= e1 ->
  (e1 = -1074 \/ 2 ^ 52 <= m2) ->
  let '(mrs2, e2) := shr_fexp prec emax m2 e1 loc_Exact in
  exists m3, shr_m mrs2 = Zpos m3 /\
    (e2 + 1074) * 2 ^ 52 + Zpos m3 = (e1 + 1074) * 2 ^ 52 + m2 /\
    Zpos m3 < 2 ^ 53 /\
    (-1074 < e2 -> 2 ^ 52 <= Zpos m3).
Proof.
  intros M2 E1 F2.
  assert (C2 : (fexp prec emax (Zdigits2 m2 + e1) = e1 /\ m2 < 2 ^ 53)
               \/ m2 = 2 ^ 53).
  { destruct (Z.eq_dec m2 (2 ^ 53)) as [|NE]; [now right|left].
    split; [|lia]. rewrite fexp_eq.
    pose proof (Zdigits2_bounds m2 ltac:(lia)) as [B1 B2].
    pose proof (Zdigits2_pos m2 ltac:(lia)) as P2.
    assert (D2 : Zdigits2 m2 <= 53).
    { destruct (Z_lt_le_dec 53 (Zdigits2 m2)) as [G|]; [|lia].
      assert (2 ^ 53 <= 2 ^ (Zdigits2 m2 - 1)) by (apply Z.pow_le_mono_r; lia).
      lia. }
    destruct F2 as [E|B]; [lia|].
    assert (Zdigits2 m2 = 53); [|lia].
    apply Zdigits2_unique; lia. }
  assert (Pre : e1 <= fexp prec emax (Zdigits2 m2 + e1)).
  { destruct C2 as [[C _]|C]; [lia|]. rewrite C, fexp_eq.
    change (Zdigits2 (2 ^ 53)) with 54. lia. }
  pose proof (shr_fexp_located m2 e1 loc_Exact (IZR m2) ltac:(lia) Pre eq_refl) as S2.
  destruct (shr_fexp prec emax m2 e1 loc_Exact) as [mrs2 e2].
  destruct S2 as (He2 & _ & M3).
  destruct C2 as [[C Lt]|C].
  - rewrite C in He2. subst e2. rewrite Z.sub_diag, Z.pow_0_r, Z.div_1_r in M3.
    destruct m2 as [|m3|]; try lia. exists m3.
    rewrite M3. repeat split; lia.
  - rewrite fexp_eq in He2. rewrite C in He2, M3.
    change (Zdigits2 (2 ^ 53)) with 54 in He2.
    assert (E2 : e2 = e1 + 1) by lia. clear He2. subst e2.
    replace (e1 + 1 - e1) with 1 in M3 by lia.
    change (2 ^ 53 / 2 ^ 1) with (2 ^ 52) in M3.
    exists (2 ^ 52)%positive. rewrite M3.
    split; [reflexivity|]. rewrite C.
    change (Z.pos (2 ^ 52)) with (2 ^ 52). repeat split; lia.
Qed.

(** The rounding step shared by the arithmetic operations yields the
    nearest binary64 value to the exact result. *)
Lemma binary_round_aux_rank (sx : bool) (mx ex : Z) (lx : location) (t : R) :
  0 <= mx -> ex <= fexp prec emax (Zdigits2 mx + ex) ->
  located mx lx (t / bpow ex) ->
  exists k, rounded t k /\
    rank (binary_round_aux prec emax sx mx ex lx) = signed sx k.
Proof.
  intros Hmx Hpre Hloc. unfold binary_round_aux.
  pose proof (first_shift mx ex lx t Hmx Hpre Hloc) as S1.
  destruct (shr_fexp prec emax mx ex lx) as [mrs1 e1].
  destruct S1 as (L1 & F1).
  set (m1 := shr_m mrs1) in *.
  set (l1 := loc_of_shr_record mrs1) in *.
  pose proof (round_nearest_even_near m1 l1 _ L1) as (C1 & _).
  set (m2 := round_nearest_even m1 l1) in *.
  exists (Z.min ((e1 + 1074) * 2 ^ 52 + m2) (2047 * 2 ^ 52)).
  split; [exists e1, m1, l1; auto|].
  destruct (Z.eq_dec m2 0) as [Z2|NZ].
  - rewrite Z2. unfold shr_fexp. simpl Zdigits2.
    assert (Hs : forall n, shr_m (fst (shr (shr_record_of_loc 0 loc_Exact) e1 n)) = 0).
    { intros [|p|p]; simpl; try reflexivity.
      rewrite iter_pos_nat. induction (Pos.to_nat p) as [|k IH]; simpl; [reflexivity|].
      destruct (Nat.iter k shr_1 _) as [m r s]. simpl in IH. subst m. reflexivity. }
    specialize (Hs (fexp prec emax (0 + e1) - e1)).
    destruct (shr _ e1 _) as [mrs2 e2]. simpl in Hs. rewrite Hs.
    cbn [rank]. assert (e1 = -1074) by lia. subst e1.
    now destruct sx.
  - pose proof (second_shift m2 e1 ltac:(lia) ltac:(lia) ltac:(lia)) as S2.
    destruct (shr_fexp prec emax m2 e1 loc_Exact) as [mrs2 e2].
    destruct S2 as (m3 & -> & E & B & Big).
    destruct (Z.leb_spec e2 (emax - prec)) as [Le|Gt];
      unfold emax, prec in *; cbn [rank]; f_equal; lia.
Qed.

(** ** The operations keep the order *)

Lemma mul_rank (sx sy : bool) (mx my : positive) (ex ey : Z) :
  wf (S754_finite sx mx ex) = true -> wf (S754_finite sy my ey) = true ->
  exists k,
    rounded (IZR (Zpos mx) * bpow ex * (IZR (Zpos my) * bpow ey)) k /\
    rank (S754_finite sx mx ex * S754_finite sy my ey)%num
    = signed (xorb sx sy) k.
Proof.
  intros Wx Wy.
  apply wf_finite in Wx, Wy. destruct Wx as [Cx _], Wy as [Cy _].
  apply canonical_facts in Cx, Cy.
  pose proof (Zdigits2_mul_lower mx my) as D.
  pose proof (Zdigits2_pos (Zpos mx) ltac:(lia)) as Px.
  pose proof (Zdigits2_pos (Zpos my) ltac:(lia)) as Py.
  simpl Zdigits2 in Px, Py.
  unfold mul, SFmul. apply binary_round_aux_rank.
  - lia.
  - rewrite fexp_eq. lia.
  - cbn [located]. rewrite Pos2Z.inj_mul, mult_IZR, bpow_add.
    pose proof (bpow_pos ex). pose proof (bpow_pos ey).
    field. split; lra.
Qed.

Lemma div_rank (sx sy : bool) (mx my : positive) (ex ey : Z) :
  exists k,
    rounded (IZR (Zpos mx) * bpow ex / (IZR (Zpos my) * bpow ey)) k /\
    rank (S754_finite sx mx ex / S754_finite sy my ey)%num
    = signed (xorb sx sy) k.
Proof.
  unfold div, SFdiv, SFdiv_core_binary.
  set (d1 := Zdigits2 (Zpos mx)). set (d2 := Zdigits2 (Zpos my)).
  set (e' := Z.min (fexp prec emax (d1 + ex - (d2 + ey))) (ex - ey)).
  set (s := ex - ey - e').
  assert (Hs : 0 <= s) by (unfold s, e'; lia).
  rewrite (shift_left_cases (Zpos mx) s Hs).
  pose proof (Z_div_mod (Zpos mx * 2 ^ s) (Zpos my) ltac:(lia)) as DM.
  assert (Q : fst (Z.div_eucl (Zpos mx * 2 ^ s) (Zpos my))
              = Zpos mx * 2 ^ s / Zpos my) by reflexivity.
  destruct (Z.div_eucl (Zpos mx * 2 ^ s) (Zpos my)) as [q r].
  cbn [fst] in Q. destruct DM as [DM Hr].
  assert (P2 : 0 < 2 ^ s) by (apply Z.pow_pos_nonneg; lia).
  assert (Hq : 0 <= q)
    by (rewrite Q; apply Z.div_pos; [apply Z.mul_nonneg_nonneg|]; lia).
  apply binary_round_aux_rank.
  - exact Hq.
  - pose proof (Zdigits2_div_lower (Zpos mx) (Zpos my) s ltac:(lia) ltac:(lia) Hs) as D.
    rewrite <- Q in D. fold d1 d2 in D.
    subst s e'. rewrite !fexp_eq in *. lia.
  - assert (E : (IZR (Zpos mx) * bpow ex / (IZR (Zpos my) * bpow ey) / bpow e'
                 = IZR q + IZR r / IZR (Zpos my))%R).
    { assert (Py : (0 < IZR (Zpos my))%R) by (apply IZR_lt; lia).
      pose proof (bpow_pos ex). pose proof (bpow_pos ey). pose proof (bpow_pos e').
      pose proof (bpow_pos s).
      assert (Es : bpow ex = (bpow s * bpow ey * bpow e')%R).
      { rewrite <- !bpow_add. f_equal. unfold s. lia. }
      apply (f_equal IZR) in DM.
      rewrite plus_IZR, !mult_IZR, <- bpow_IZR in DM by lia.
      rewrite Es. field_simplify; try lra.
      replace (IZR (Zpos mx) * bpow s)%R with (IZR (Zpos my) * IZR q + IZR r)%R
        by lra.
      field. lra. }
    rewrite E. apply located_shift. apply new_location_located; lia.
Qed.

Lemma nonneg_cases (x : number) :
  nonneg x ->
  (exists s, x = S754_zero s) \/ x = Infinity \/
  (exists m e, x = S754_finite false m e /\ wf x = true).
Proof.
  intros (W & N & R). destruct x as [s|s| |s m e]; try discriminate.
  - left. eauto.
  - right. left. destruct s; [|reflexivity]. cbn [rank signed] in R. lia.
  - right. right. pose proof (canonical_range _ _ _ W).
    destruct s; [cbn [rank signed] in R; lia|]. eauto.
Qed.

Lemma rank_le_mag (x y : number) :
  nonneg x -> nonneg y -> is_finite x = true -> is_finite y = true ->
  rank x <= rank y -> (mag x <= mag y)%R.
Proof.
  intros Nx Ny Fx Fy R.
  destruct (nonneg_cases x Nx) as [[s ->]|[->|(mx & ex & -> & Wx)]];
    try discriminate.
  { apply mag_nonneg. }
  destruct (nonneg_cases y Ny) as [[s ->]|[->|(my & ey & -> & Wy)]];
    try discriminate.
  { apply canonical_range in Wx. cbn [rank signed] in R. lia. }
  pose proof (canonical_range _ _ _ Wx) as Cx.
  pose proof (canonical_range _ _ _ Wy) as Cy.
  cbn [rank signed] in R. cbn [mag].
  pose proof (bpow_pos ex). pose proof (bpow_pos ey).
  destruct (Z.compare_spec ex ey) as [E|E|E].
  - subst ey. apply Rmult_le_compat_r; [lra|]. apply IZR_le. lia.
  - assert (B1 : Zpos mx <= 2 ^ 53) by lia.
    assert (B2 : 2 ^ 52 <= Zpos my) by lia.
    apply IZR_le in B1, B2. rewrite <- bpow_IZR in B1, B2 by lia.
    assert (S : (bpow (ex + 1) <= bpow ey)%R) by (apply bpow_le; lia).
    rewrite bpow_succ in S.
    replace 53 with (52 + 1) in B1 by lia. rewrite bpow_succ in B1.
    pose proof (bpow_pos 52).
    apply Rle_trans with (2 * bpow 52 * bpow ex)%R.
    + apply Rmult_le_compat_r; lra.
    + apply Rle_trans with (bpow 52 * bpow ey)%R.
      * replace (2 * bpow 52 * bpow ex)%R with (bpow 52 * (2 * bpow ex))%R by ring.
        apply Rmult_le_compat_l; lra.
      * apply Rmult_le_compat_r; lra.
  - exfalso. nia.
Qed.

(** A function that rounds a non-decreasing function of the value keeps
    the order of the values that are not below zero. *)
Lemma monotone_step (g : number -> number) (T : number -> R) :
  (forall x, nonneg x -> is_finite x = true -> rounded (T x) (rank (g x))) ->
  (forall x y, nonneg x -> nonneg y -> is_finite x = true ->
     is_finite y = true -> (mag x <= mag y)%R -> (T x <= T y)%R) ->
  g Infinity = Infinity ->
  forall x y, nonneg x -> nonneg y -> rank x <= rank y ->
    0 <= rank (g x) <= rank (g y).
Proof.
  intros Rd Mono Inf x y Nx Ny R.
  destruct (is_finite y) eqn:Fy.
  - assert (Fx : is_finite x = true).
    { destruct (nonneg_cases x Nx) as [[s ->]|[->|(mx & ex & -> & Wx)]]; auto.
      exfalso.
      destruct (nonneg_cases y Ny) as [[s ->]|[->|(my & ey & -> & Wy)]];
        try discriminate; cbn [rank signed Infinity] in R; [lia|].
      apply canonical_range in Wy. lia. }
    pose proof (Rd x Nx Fx) as Rx. pose proof (Rd y Ny Fy) as Ry.
    pose proof (rounded_range _ _ Rx).
    pose proof (rounded_mono _ _ _ _ Rx Ry
                  (Mono x y Nx Ny Fx Fy (rank_le_mag x y Nx Ny Fx Fy R))).
    lia.
  - assert (y = Infinity).
    { destruct (nonneg_cases y Ny) as [[s ->]|[->|(my & ey & -> & Wy)]];
        try discriminate; reflexivity. }
    subst y. rewrite Inf.
    destruct (is_finite x) eqn:Fx.
    + pose proof (rounded_range _ _ (Rd x Nx Fx)). cbn [rank signed Infinity]. lia.
    + assert (x = Infinity).
      { destruct (nonneg_cases x Nx) as [[s ->]|[->|(mx & ex & -> & Wx)]];
          try discriminate; reflexivity. }
      subst x. rewrite Inf. cbn [rank signed Infinity]. lia.
Qed.

Lemma mul_mono (f x y : number) :
  positive_finite f = true -> nonneg x -> nonneg y -> rank x <= rank y ->
  nonneg (x * f)%num /\ rank (x * f)%num <= rank (y * f)%num.
Proof.
  intros P Nx Ny R.
  destruct f as [| | |[] mf ef] eqn:Ef; try discriminate. rewrite <- Ef in *.
  assert (Wf : wf f = true) by (rewrite Ef in *; exact P).
  pose proof (monotone_step (fun x => (x * f)%num) (fun x => (mag x * mag f)%R))
    as M. cbv beta in M.
  destruct (M) with (x := x) (y := y) as [M1 M2]; auto.
  - clear x y Nx Ny R. intros x Nx Fx.
    destruct (nonneg_cases x Nx) as [[s ->]|[->|(mx & ex & -> & Wx)]];
      try discriminate.
    + rewrite Ef. cbn [mag]. rewrite Rmult_0_l. apply rounded_zero.
    + rewrite Ef in *. destruct (mul_rank false false mx mf ex ef Wx Wf)
        as (k & Rk & E).
      cbn [xorb signed] in E. rewrite E. exact Rk.
  - intros a b _ _ _ _ L. apply Rmult_le_compat_r; [apply mag_nonneg|exact L].
  - rewrite Ef. reflexivity.
  - split; [|exact M2]. destruct Nx as (Wx & Nx & _).
    repeat split; [apply wf_mul; auto|apply mul_not_NaN; auto; now rewrite Ef|lia].
Qed.

Lemma div_mono (f x y : number) :
  positive_finite f = true -> nonneg x -> nonneg y -> rank x <= rank y ->
  nonneg (x / f)%num /\ rank (x / f)%num <= rank (y / f)%num.
Proof.
  intros P Nx Ny R.
  destruct f as [| | |[] mf ef] eqn:Ef; try discriminate. rewrite <- Ef in *.
  pose proof (monotone_step (fun x => (x / f)%num) (fun x => (mag x / mag f)%R))
    as M. cbv beta in M.
  destruct (M) with (x := x) (y := y) as [M1 M2]; auto.
  - clear x y Nx Ny R. intros x Nx Fx.
    destruct (nonneg_cases x Nx) as [[s ->]|[->|(mx & ex & -> & Wx)]];
      try discriminate.
    + rewrite Ef. cbn [mag]. unfold Rdiv. rewrite Rmult_0_l. apply rounded_zero.
    + rewrite Ef in *. destruct (div_rank false false mx mf ex ef)
        as (k & Rk & E).
      cbn [xorb signed] in E. rewrite E. exact Rk.
  - intros a b _ _ _ _ L. apply Rmult_le_compat_r; [|exact L].
    rewrite Ef. cbn [mag]. pose proof (bpow_pos ef).
    assert (0 < IZR (Zpos mf))%R by (apply IZR_lt; lia).
    apply Rlt_le, Rinv_0_lt_compat. nra.
  - rewrite Ef. reflexivity.
  - split; [|exact M2]. destruct Nx as (Wx & Nx & _).
    repeat split; [apply wf_div|apply div_not_NaN; auto; now rewrite Ef|lia].
Qed.

(** ** Rounding to decimal places keeps the order *)

Lemma round_half_up_mono (p1 q1 p2 q2 f : Z) :
  0 < q1 -> 0 < q2 -> 0 <= p1 -> 0 <= f -> p1 * q2 <= p2 * q1 ->
  round_half_up (p1, q1) f <= round_half_up (p2, q2) f.
Proof.
  intros Q1 Q2 P1 F L. unfold round_half_up.
  assert (T : 0 < 10 ^ f) by (apply Z.pow_pos_nonneg; lia).
  set (n1 := (2 * p1 * 10 ^ f + q1) / (2 * q1)).
  apply Z.div_le_lower_bound; [lia|].
  assert (A : 2 * q1 * n1 <= 2 * p1 * 10 ^ f + q1)
    by (apply Z.mul_div_le; lia).
  assert (B : p1 * q2 * 10 ^ f <= p2 * q1 * 10 ^ f)
    by (apply Z.mul_le_mono_nonneg_r; lia).
  assert (C : q1 * (2 * q2 * n1) <= q1 * (2 * p2 * 10 ^ f + q2)) by nia.
  apply Z.mul_le_mono_pos_l in C; lia.
Qed.

Lemma round_half_up_below (p q f k : Z) :
  0 < q -> 0 <= f -> 0 <= k -> p < 10 ^ k * q ->
  round_half_up (p, q) f <= 10 ^ (k + f).
Proof.
  intros Q F K L. unfold round_half_up.
  assert (T : 0 < 10 ^ f) by (apply Z.pow_pos_nonneg; lia).
  rewrite Z.pow_add_r by lia.
  assert (H : (2 * p * 10 ^ f + q) / (2 * q) < 10 ^ k * 10 ^ f + 1);
    [|lia].
  apply Z.div_lt_upper_bound; [lia|]. nia.
Qed.

Lemma magnitude_order (m1 m2 : positive) (e1 e2 : Z) :
  (IZR (Zpos m1) * bpow e1 <= IZR (Zpos m2) * bpow e2)%R ->
  fst (magnitude m1 e1) * snd (magnitude m2 e2)
  <= fst (magnitude m2 e2) * snd (magnitude m1 e1).
Proof.
  intros L.
  pose proof (mag_magnitude false m1 e1) as M1.
  pose proof (mag_magnitude false m2 e2) as M2.
  cbn [mag] in M1, M2. rewrite M1, M2 in L.
  destruct (magnitude_positive m1 e1) as [P1 Q1].
  destruct (magnitude_positive m2 e2) as [P2 Q2].
  apply IZR_lt in Q1, Q2.
  apply le_IZR. rewrite !mult_IZR.
  apply (Rmult_le_compat_r (IZR (snd (magnitude m1 e1)))) in L; [|lra].
  apply (Rmult_le_compat_r (IZR (snd (magnitude m2 e2)))) in L; [|lra].
  field_simplify in L; lra.
Qed.

Lemma wf_round_decimals (f : nat) (y : number) :
  wf y = true -> wf (round_decimals f y) = true.
Proof.
  intros W. destruct y as [s|s| |s m e]; auto. cbn [round_decimals].
  destruct (ge_pow10 _ _); auto. apply wf_number_of_decimal.
Qed.

Lemma round_decimals_rank (f : nat) (x : number) :
  nonneg x -> is_finite x = true ->
  rounded (decimal_target f x) (rank (round_decimals f x)).
Proof.
  intros Nx Fx.
  destruct (nonneg_cases x Nx) as [[s ->]|[->|(m & e & -> & W)]];
    try discriminate.
  - apply rounded_zero.
  - cbn [round_decimals decimal_target].
    destruct (ge_pow10 (magnitude m e) 21).
    + apply (rounded_exact false m e W).
    + destruct (magnitude_positive m e) as [P Q].
      pose proof (round_half_up_nonneg (magnitude m e) (Z.of_nat f) P Q
                    ltac:(lia)) as N.
      set (n := round_half_up (magnitude m e) (Z.of_nat f)) in *.
      assert (T : 0 < 10 ^ Z.of_nat f) by (apply Z.pow_pos_nonneg; lia).
      unfold number_of_decimal.
      destruct (Z.leb_spec 0 (- Z.of_nat f)) as [Le|Gt].
      * assert (E : Z.of_nat f = 0) by lia. rewrite E in *.
        change (- 0) with 0. rewrite Z.pow_0_r, Z.mul_1_r.
        unfold round_to_number. destruct n as [|n|n]; try lia.
        { unfold Rdiv. rewrite Rmult_0_l. apply rounded_zero. }
        destruct (div_rank false false n 1 0 0) as (k & Rk & Ek).
        cbn [xorb signed] in Ek. unfold div in Ek. rewrite Ek.
        replace (IZR (Zpos n) / IZR 1)%R
          with (IZR (Zpos n) * bpow 0 / (IZR 1 * bpow 0))%R; [exact Rk|].
        unfold bpow. simpl. field.
      * rewrite Z.opp_involutive.
        unfold round_to_number. destruct n as [|n|n]; try lia.
        { unfold Rdiv. rewrite Rmult_0_l.
          destruct (10 ^ Z.of_nat f); apply rounded_zero. }
        destruct (10 ^ Z.of_nat f) as [|q|q] eqn:Eq; try lia.
        destruct (div_rank false false n q 0 0) as (k & Rk & Ek).
        cbn [xorb signed] in Ek. unfold div in Ek. rewrite Ek.
        replace (IZR (Zpos n) / IZR (Zpos q))%R
          with (IZR (Zpos n) * bpow 0 / (IZR (Zpos q) * bpow 0))%R; [exact Rk|].
        unfold bpow. simpl. assert (0 < IZR (Zpos q))%R by (apply IZR_lt; lia).
        field. lra.
Qed.

Lemma decimal_target_nonneg (f : nat) (x : number) :
  (0 <= decimal_target f x)%R.
Proof.
  destruct x as [s|s| |s m e]; cbn [decimal_target]; try lra.
  destruct (ge_pow10 (magnitude m e) 21); [apply mag_nonneg|].
  destruct (magnitude_positive m e) as [P Q].
  pose proof (round_half_up_nonneg (magnitude m e) (Z.of_nat f) P Q
                ltac:(lia)) as N.
  assert (T : 0 < 10 ^ Z.of_nat f) by (apply Z.pow_pos_nonneg; lia).
  apply IZR_le in N. apply IZR_lt in T.
  apply Rmult_le_pos; [lra|]. apply Rlt_le, Rinv_0_lt_compat. lra.
Qed.

Lemma decimal_target_mono (f : nat) (x y : number) :
  nonneg x -> nonneg y -> is_finite x = true -> is_finite y = true ->
  (mag x <= mag y)%R -> (decimal_target f x <= decimal_target f y)%R.
Proof.
  intros Nx Ny Fx Fy L.
  destruct (nonneg_cases x Nx) as [[s ->]|[->|(m1 & e1 & -> & W1)]];
    try discriminate.
  { apply decimal_target_nonneg. }
  destruct (nonneg_cases y Ny) as [[s ->]|[->|(m2 & e2 & -> & W2)]];
    try discriminate.
  { pose proof (mag_positive false m1 e1). cbn [mag] in *. lra. }
  pose proof (magnitude_order m1 m2 e1 e2 L) as O.
  cbn [decimal_target]. rewrite !mag_magnitude in *.
  destruct (magnitude_positive m1 e1) as [P1 Q1].
  destruct (magnitude_positive m2 e2) as [P2 Q2].
  destruct (magnitude m1 e1) as [p1 q1], (magnitude m2 e2) as [p2 q2].
  cbn [fst snd] in *.
  assert (T : 0 < 10 ^ Z.of_nat f) by (apply Z.pow_pos_nonneg; lia).
  assert (T' : (0 < IZR (10 ^ Z.of_nat f))%R) by (apply IZR_lt; exact T).
  assert (I : (0 < / IZR (10 ^ Z.of_nat f))%R) by (apply Rinv_0_lt_compat; exact T').
  unfold ge_pow10.
  destruct (Z.leb_spec (10 ^ 21 * q1) p1) as [G1|G1],
           (Z.leb_spec (10 ^ 21 * q2) p2) as [G2|G2].
  - exact L.
  - exfalso. nia.
  - pose proof (round_half_up_below p1 q1 (Z.of_nat f) 21 Q1 ltac:(lia)
                  ltac:(lia) G1) as B.
    rewrite Z.pow_add_r in B by lia.
    apply IZR_le in B, G2. rewrite mult_IZR in B, G2.
    apply IZR_lt in Q2.
    apply Rle_trans with (IZR (10 ^ 21)).
    + apply Rmult_le_reg_r with (IZR (10 ^ Z.of_nat f)); [exact T'|].
      unfold Rdiv. rewrite Rmult_assoc, Rinv_l by lra. lra.
    + apply Rmult_le_reg_r with (IZR q2); [exact Q2|].
      unfold Rdiv. rewrite Rmult_assoc, Rinv_l by lra. lra.
  - pose proof (round_half_up_mono p1 q1 p2 q2 (Z.of_nat f) Q1 Q2
                  ltac:(lia) ltac:(lia) O) as B.
    apply IZR_le in B. apply Rmult_le_compat_r; lra.
Qed.

Lemma round_decimals_mono (f : nat) (x y : number) :
  nonneg x -> nonneg y -> rank x <= rank y ->
  0 <= rank (round_decimals f x) <= rank (round_decimals f y).
Proof.
  apply (monotone_step (round_decimals f) (decimal_target f)).
  - apply round_decimals_rank.
  - apply decimal_target_mono.
  - reflexivity.
Qed.

(** ** The converters keep the order *)

Lemma rank_neg (x : number) : rank (neg x) = - rank x.
Proof.
  destruct x as [s|s| |s m e]; cbn [neg SFopp rank]; auto;
    destruct s; cbn [negb signed]; lia.
Qed.

Lemma neg_neg (x : number) : neg (neg x) = x.
Proof.
  destruct x as [s|s| |s m e]; cbn [neg SFopp]; now rewrite ?negb_involutive.
Qed.

Lemma nonneg_neg (x : number) :
  wf x = true -> is_nan x = false -> rank x <= 0 -> nonneg (neg x).
Proof.
  intros W N R. repeat split.
  - now rewrite wf_neg.
  - now rewrite is_nan_neg.
  - rewrite rank_neg. lia.
Qed.

Lemma leb_not_NaN (x y : number) :
  leb x y = true -> is_nan x = false /\ is_nan y = false.
Proof. destruct x, y; try discriminate; auto. Qed.

(** The value a scale-based converter rounds to 10 decimals. *)
Lemma convert_rank (d : domain) (v : number) (a b : string) (fa fb : number) :
  scale_based d = true -> wf v = true -> is_nan v = false ->
  own_property (table d) a = Some fa -> own_property (table d) b = Some fb ->
  rank (convert d (JNum v) a b)
  = rank (round_decimals 10
            (if multiplicative d then (v * fa / fb)%num else (v / fa * fb)%num)) /\
  wf (convert d (JNum v) a b) = true.
Proof.
  intros S W N A B.
  destruct (degenerate (JNum v)) eqn:D.
  - rewrite convert_degenerate by auto.
    rewrite degenerate_number, N, orb_false_r in D.
    destruct v as [s| | |]; try discriminate.
    destruct (factor_shape _ _ _ A) as (ma & ea & -> & Wa).
    destruct (factor_shape _ _ _ B) as (mb & eb & -> & Wb).
    split; [|reflexivity]. destruct (multiplicative d); reflexivity.
  - rewrite (convert_scale_based _ _ _ _ _ _ S W D A B).
    split; [reflexivity|]. apply wf_round_decimals.
    destruct (factor_shape _ _ _ A) as (ma & ea & -> & Wa).
    destruct (factor_shape _ _ _ B) as (mb & eb & -> & Wb).
    destruct (multiplicative d); [apply wf_div|apply wf_mul; auto; apply wf_div].
Qed.

Lemma convert_rank_neg (d : domain) (v : number) (a b : string) (fa fb : number) :
  scale_based d = true -> wf v = true -> is_nan v = false ->
  own_property (table d) a = Some fa -> own_property (table d) b = Some fb ->
  rank (convert d (JNum (neg v)) a b) = - rank (convert d (JNum v) a b).
Proof.
  intros S W N A B.
  destruct (convert_rank d v a b fa fb S W N A B) as [-> _].
  destruct (convert_rank d (neg v) a b fa fb S) as [-> _]; auto;
    [now rewrite wf_neg|now rewrite is_nan_neg|].
  set (y := if multiplicative d then (v * fa / fb)%num else (v / fa * fb)%num).
  assert (Y : (if multiplicative d then (neg v * fa / fb)%num
               else (neg v / fa * fb)%num) = neg y).
  { unfold y. destruct (multiplicative d).
    - now rewrite mul_neg_l, div_neg_l.
    - now rewrite div_neg_l, mul_neg_l. }
  rewrite Y. destruct (is_zero y) eqn:Zy.
  - destruct y; try discriminate. reflexivity.
  - rewrite round_decimals_neg by exact Zy. apply rank_neg.
Qed.

Lemma convert_mono_nonneg (d : domain) (v w : number) (a b : string)
  (fa fb : number) :
  scale_based d = true ->
  own_property (table d) a = Some fa -> own_property (table d) b = Some fb ->
  nonneg v -> nonneg w -> rank v <= rank w ->
  0 <= rank (convert d (JNum v) a b) <= rank (convert d (JNum w) a b).
Proof.
  intros S A B Nv Nw R.
  destruct (convert_rank d v a b fa fb S) as [-> _]; auto; try apply Nv.
  destruct (convert_rank d w a b fa fb S) as [-> _]; auto; try apply Nw.
  pose proof (factor_positive _ _ _ A) as Pa.
  pose proof (factor_positive _ _ _ B) as Pb.
  destruct (multiplicative d).
  - destruct (mul_mono fa v w Pa Nv Nw R) as [N1 R1].
    destruct (mul_mono fa w w Pa Nw Nw ltac:(lia)) as [N1' _].
    destruct (div_mono fb _ _ Pb N1 N1' R1) as [N2 R2].
    destruct (div_mono fb _ _ Pb N1' N1' ltac:(lia)) as [N2' _].
    apply round_decimals_mono; auto.
  - destruct (div_mono fa v w Pa Nv Nw R) as [N1 R1].
    destruct (div_mono fa w w Pa Nw Nw ltac:(lia)) as [N1' _].
    destruct (mul_mono fb _ _ Pb N1 N1' R1) as [N2 R2].
    destruct (mul_mono fb _ _ Pb N1' N1' ltac:(lia)) as [N2' _].
    apply round_decimals_mono; auto.
Qed.

Lemma convert_mono_rank (d : domain) (v w : number) (a b : string)
  (fa fb : number) :
  scale_based d = true ->
  own_property (table d) a = Some fa -> own_property (table d) b = Some fb ->
  wf v = true -> wf w = true -> is_nan v = false -> is_nan w = false ->
  rank v <= rank w ->
  rank (convert d (JNum v) a b) <= rank (convert d (JNum w) a b).
Proof.
  intros S A B Wv Ww Nv Nw R.
  pose proof (convert_rank_neg d (neg v) a b fa fb S) as Ev.
  rewrite neg_neg, wf_neg, is_nan_neg in Ev. specialize (Ev Wv Nv A B).
  pose proof (convert_rank_neg d (neg w) a b fa fb S) as Ew.
  rewrite neg_neg, wf_neg, is_nan_neg in Ew. specialize (Ew Ww Nw A B).
  destruct (Z_le_gt_dec 0 (rank v)) as [Pv|Mv].
  - apply (convert_mono_nonneg d v w a b fa fb); auto; repeat split; auto; lia.
  - pose proof (nonneg_neg v Wv Nv ltac:(lia)) as N1.
    destruct (Z_le_gt_dec 0 (rank w)) as [Pw|Mw].
    + assert (N2 : nonneg w) by (repeat split; auto).
      pose proof (convert_mono_nonneg d _ _ a b fa fb S A B N1 N1 ltac:(lia)).
      pose proof (convert_mono_nonneg d _ _ a b fa fb S A B N2 N2 ltac:(lia)).
      lia.
    + pose proof (nonneg_neg w Ww Nw ltac:(lia)) as N2.
      pose proof (convert_mono_nonneg d (neg w) (neg v) a b fa fb S A B N2 N1) as H.
      rewrite !rank_neg in H. specialize (H ltac:(lia)). lia.
Qed.

(** ** Addition keeps the order *)

Lemma rounded_zero_only (k : Z) : rounded 0 k -> k = 0.
Proof.
  intros H.
  pose proof (rounded_mono _ _ _ _ H rounded_zero ltac:(lra)).
  pose proof (rounded_mono _ _ _ _ rounded_zero H ltac:(lra)). lia.
Qed.

Lemma nearest_range (t : R) (k : Z) :
  nearest t k -> - (2047 * 2 ^ 52) <= k <= 2047 * 2 ^ 52.
Proof.
  intros [(_ & H)|(_ & k' & H & ->)]; apply rounded_range in H; lia.
Qed.

Lemma nearest_mono (t1 t2 : R) (k1 k2 : Z) :
  nearest t1 k1 -> nearest t2 k2 -> (t1 <= t2)%R -> k1 <= k2.
Proof.
  intros [(P1 & H1)|(P1 & k1' & H1 & ->)] [(P2 & H2)|(P2 & k2' & H2 & ->)] L.
  - exact (rounded_mono _ _ _ _ H1 H2 L).
  - assert (t1 = 0%R) by lra. assert (t2 = 0%R) by lra. subst t1 t2.
    replace (- 0)%R with 0%R in H2 by lra.
    apply rounded_zero_only in H1, H2. lia.
  - apply rounded_range in H1, H2. lia.
  - pose proof (rounded_mono _ _ _ _ H2 H1 ltac:(lra)). lia.
Qed.

Lemma nearest_exact (x : number) :
  wf x = true -> is_finite x = true -> nearest (value x) (rank x).
Proof.
  intros W F. destruct x as [s| | |s m e]; try discriminate.
  - left. cbn [value rank]. split; [lra|apply rounded_zero].
  - pose proof (mag_positive s m e) as P. cbn [mag] in P.
    pose proof (rounded_exact s m e W) as H.
    destruct s; cbn [value rank signed].
    + right. split; [lra|]. eexists. split; [|reflexivity].
      now rewrite Ropp_involutive.
    + left. split; [lra|exact H].
Qed.

Lemma binary_round_rank (s : bool) (m : positive) (e : Z) :
  exists k, rounded (IZR (Zpos m) * bpow e) k /\
    rank (binary_round prec emax s m e) = signed s k.
Proof.
  unfold binary_round, shl_align.
  set (fe := fexp prec emax (Zpos (digits2_pos m) + e)).
  destruct (fe - e) as [|d|d] eqn:D.
  - apply binary_round_aux_rank; [lia| |].
    + simpl Zdigits2. fold fe. lia.
    + cbn [located]. pose proof (bpow_pos e). field. lra.
  - apply binary_round_aux_rank; [lia| |].
    + simpl Zdigits2. fold fe. lia.
    + cbn [located]. pose proof (bpow_pos e). field. lra.
  - assert (E : e = fe + Zpos d) by lia.
    pose proof (digits2_bounds m) as [B1 B2].
    assert (P : 0 < 2 ^ Zpos d) by (apply Z.pow_pos_nonneg; lia).
    assert (Dg : Zdigits2 (Zpos (Pos.iter xO m d)) = Zpos (digits2_pos m) + Zpos d).
    { apply Zdigits2_unique; [|lia]. rewrite iter_xO_shift.
      replace (Zpos (digits2_pos m) + Zpos d - 1)
        with (Zpos (digits2_pos m) - 1 + Zpos d) by lia.
      rewrite !Z.pow_add_r by lia. split.
      - apply Z.mul_le_mono_nonneg_r; lia.
      - apply Z.mul_lt_mono_pos_r; lia. }
    apply binary_round_aux_rank; [lia| |].
    + rewrite Dg.
      replace (Zpos (digits2_pos m) + Zpos d + fe)
        with (Zpos (digits2_pos m) + e) by lia.
      fold fe. lia.
    + cbn [located]. rewrite iter_xO_shift, mult_IZR, <- bpow_IZR by lia.
      rewrite E at 1. rewrite bpow_add.
      pose proof (bpow_pos fe). field. lra.
Qed.

Lemma binary_normalize_rank (m e : Z) :
  nearest (IZR m * bpow e) (rank (binary_normalize prec emax m e false)).
Proof.
  pose proof (bpow_pos e) as Pe.
  destruct m as [|p|p]; cbn [binary_normalize].
  - left. rewrite Rmult_0_l. split; [lra|apply rounded_zero].
  - assert (P : (0 < IZR (Zpos p))%R) by (apply IZR_lt; lia).
    destruct (binary_round_rank false p e) as (k & Rk & E).
    left. split; [apply Rmult_le_pos; lra|]. cbn [signed] in E. now rewrite E.
  - assert (P : (0 < IZR (Zpos p))%R) by (apply IZR_lt; lia).
    assert (N : (IZR (Zneg p) * bpow e = - (IZR (Zpos p) * bpow e))%R).
    { change (Zneg p) with (- Zpos p). rewrite opp_IZR. ring. }
    destruct (binary_round_rank true p e) as (k & Rk & E).
    right. rewrite N. split.
    + assert (0 <= IZR (Zpos p) * bpow e)%R by (apply Rmult_le_pos; lra). lra.
    + exists k. rewrite Ropp_involutive. split; [exact Rk|exact E].
Qed.

Lemma add_rank (x y : number) :
  wf x = true -> wf y = true -> is_finite x = true -> is_finite y = true ->
  nearest (value x + value y) (rank (x + y)%num).
Proof.
  intros Wx Wy Fx Fy.
  destruct x as [sx| | |sx mx ex]; try discriminate;
    destruct y as [sy| | |sy my ey]; try discriminate.
  - cbn [value]. replace (0 + 0)%R with 0%R by lra.
    left. split; [lra|].
    replace (rank (S754_zero sx + S754_zero sy)%num) with 0
      by (destruct sx, sy; reflexivity).
    apply rounded_zero.
  - change (S754_zero sx + S754_finite sy my ey)%num with (S754_finite sy my ey).
    change (value (S754_zero sx)) with 0%R. rewrite Rplus_0_l.
    now apply nearest_exact.
  - change (S754_finite sx mx ex + S754_zero sy)%num with (S754_finite sx mx ex).
    change (value (S754_zero sy)) with 0%R. rewrite Rplus_0_r.
    now apply nearest_exact.
  - unfold add. cbn [SFadd]. cbv zeta.
    change (IntDef.Z.min ex ey) with (Z.min ex ey).
    set (ez := Z.min ex ey).
    assert (V : (value (S754_finite sx mx ex) + value (S754_finite sy my ey)
                 = IZR (cond_Zopp sx (Zpos (fst (shl_align mx ex ez)))
                        + cond_Zopp sy (Zpos (fst (shl_align my ey ez))))
                   * bpow ez)%R).
    { rewrite plus_IZR, Rmult_plus_distr_r.
      pose proof (shl_align_fst mx ex ez ltac:(unfold ez; lia)) as Ax.
      pose proof (shl_align_fst my ey ez ltac:(unfold ez; lia)) as Ay.
      rewrite !value_finite.
      destruct sx, sy; cbn [cond_Zopp]; rewrite ?opp_IZR; lra. }
    rewrite V. apply binary_normalize_rank.
Qed.

Lemma sub_rank (x y : number) :
  wf x = true -> wf y = true -> is_finite x = true -> is_finite y = true ->
  nearest (value x - value y) (rank (x - y)%num).
Proof.
  intros Wx Wy Fx Fy.
  destruct x as [sx| | |sx mx ex]; try discriminate;
    destruct y as [sy| | |sy my ey]; try discriminate.
  - cbn [value]. replace (0 - 0)%R with 0%R by lra.
    left. split; [lra|].
    replace (rank (S754_zero sx - S754_zero sy)%num) with 0
      by (destruct sx, sy; reflexivity).
    apply rounded_zero.
  - change (S754_zero sx - S754_finite sy my ey)%num
      with (S754_finite (negb sy) my ey).
    assert (E : (value (S754_zero sx) - value (S754_finite sy my ey)
                 = value (S754_finite (negb sy) my ey))%R)
      by (destruct sy; cbn [value negb]; lra).
    rewrite E. now apply nearest_exact.
  - change (S754_finite sx mx ex - S754_zero sy)%num with (S754_finite sx mx ex).
    change (value (S754_zero sy)) with 0%R. rewrite Rminus_0_r.
    now apply nearest_exact.
  - unfold sub. cbn [SFsub]. cbv zeta.
    change (IntDef.Z.min ex ey) with (Z.min ex ey).
    set (ez := Z.min ex ey).
    assert (V : (value (S754_finite sx mx ex) - value (S754_finite sy my ey)
                 = IZR (cond_Zopp sx (Zpos (fst (shl_align mx ex ez)))
                        - cond_Zopp sy (Zpos (fst (shl_align my ey ez))))
                   * bpow ez)%R).
    { rewrite minus_IZR, Rmult_minus_distr_r.
      pose proof (shl_align_fst mx ex ez ltac:(unfold ez; lia)) as Ax.
      pose proof (shl_align_fst my ey ez ltac:(unfold ez; lia)) as Ay.
      rewrite !value_finite.
      destruct sx, sy; cbn [cond_Zopp]; rewrite ?opp_IZR; lra. }
    rewrite V. apply binary_normalize_rank.
Qed.

Lemma rank_finite (x : number) :
  wf x = true -> is_finite x = true ->
  - (2047 * 2 ^ 52) < rank x < 2047 * 2 ^ 52 /\
  (rank x < 0 -> sign_of x = true) /\ (0 < rank x -> sign_of x = false).
Proof.
  intros W F. destruct x as [s| | |s m e]; try discriminate; cbn [rank sign_of].
  - lia.
  - apply canonical_range in W. destruct s; cbn [signed]; repeat split; lia.
Qed.

Lemma rank_le_value (x y : number) :
  wf x = true -> wf y = true -> is_finite x = true -> is_finite y = true ->
  rank x <= rank y -> (value x <= value y)%R.
Proof.
  intros Wx Wy Fx Fy R.
  assert (Nx : is_nan x = false) by (destruct x; auto; discriminate).
  assert (Ny : is_nan y = false) by (destruct y; auto; discriminate).
  destruct (rank_finite x Wx Fx) as (_ & Sx & Sx').
  destruct (rank_finite y Wy Fy) as (_ & Sy & Sy').
  pose proof (mag_nonneg x). pose proof (mag_nonneg y).
  assert (Zx : rank x = 0 -> value x = 0%R).
  { destruct x as [s| | |s m e]; try discriminate; auto.
    apply canonical_range in Wx. destruct s; cbn [rank signed]; lia. }
  assert (Zy : rank y = 0 -> value y = 0%R).
  { destruct y as [s| | |s m e]; try discriminate; auto.
    apply canonical_range in Wy. destruct s; cbn [rank signed]; lia. }
  rewrite (value_mag x), (value_mag y) in *.
  destruct (Z.compare_spec 0 (rank x)) as [E|E|E].
  - rewrite Zx by auto. destruct (Z.eq_dec (rank y) 0) as [E'|E'].
    + rewrite Zy by auto. lra.
    + rewrite Sy' by lia. lra.
  - rewrite Sx', Sy' by lia.
    apply rank_le_mag; auto; repeat split; auto; lia.
  - rewrite Sx by lia.
    destruct (Z.compare_spec 0 (rank y)) as [E'|E'|E'].
    + rewrite Zy by auto. lra.
    + rewrite Sy' by lia. lra.
    + rewrite Sy by lia.
      assert (mag (neg y) <= mag (neg x))%R.
      { apply rank_le_mag; try (apply nonneg_neg; auto; lia);
          try (destruct x, y; auto; discriminate).
        rewrite !rank_neg. lia. }
      replace (mag (neg x)) with (mag x) in * by (destruct x; reflexivity).
      replace (mag (neg y)) with (mag y) in * by (destruct y; reflexivity).
      lra.
Qed.

(** A function that rounds a non-decreasing function of the value keeps
    the order of all binary64 values. *)
Lemma monotone_step_signed (g : number -> number) (T : number -> R) :
  (forall x, wf x = true -> is_finite x = true -> nearest (T x) (rank (g x))) ->
  (forall x y, wf x = true -> wf y = true -> is_finite x = true ->
     is_finite y = true -> (value x <= value y)%R -> (T x <= T y)%R) ->
  (forall s, g (S754_infinity s) = S754_infinity s) ->
  forall x y, wf x = true -> wf y = true ->
    is_nan x = false -> is_nan y = false ->
    rank x <= rank y -> rank (g x) <= rank (g y).
Proof.
  intros Rd Mono Inf x y Wx Wy Nx Ny R.
  destruct (is_finite x) eqn:Fx, (is_finite y) eqn:Fy.
  - apply (nearest_mono (T x) (T y)); auto.
    apply Mono; auto. now apply rank_le_value.
  - destruct y as [|sy| |]; try discriminate.
    pose proof (nearest_range _ _ (Rd x Wx Fx)).
    destruct (rank_finite x Wx Fx) as (B & _).
    rewrite Inf. destruct sy; cbn [rank signed] in *; lia.
  - destruct x as [|sx| |]; try discriminate.
    pose proof (nearest_range _ _ (Rd y Wy Fy)).
    destruct (rank_finite y Wy Fy) as (B & _).
    rewrite Inf. destruct sx; cbn [rank signed] in *; lia.
  - destruct x as [|sx| |], y as [|sy| |]; try discriminate.
    rewrite !Inf. exact R.
Qed.

Lemma add_mono (c x y : number) :
  wf c = true -> is_finite c = true ->
  wf x = true -> wf y = true -> is_nan x = false -> is_nan y = false ->
  rank x <= rank y -> rank (x + c)%num <= rank (y + c)%num.
Proof.
  intros Wc Fc.
  apply (monotone_step_signed (fun x => (x + c)%num)
           (fun x => (value x + value c)%R)).
  - intros a Wa Fa. now apply add_rank.
  - intros a b _ _ _ _ L. lra.
  - intros s. destruct c; try discriminate; reflexivity.
Qed.

Lemma sub_mono (c x y : number) :
  wf c = true -> is_finite c = true ->
  wf x = true -> wf y = true -> is_nan x = false -> is_nan y = false ->
  rank x <= rank y -> rank (x - c)%num <= rank (y - c)%num.
Proof.
  intros Wc Fc.
  apply (monotone_step_signed (fun x => (x - c)%num)
           (fun x => (value x - value c)%R)).
  - intros a Wa Fa. now apply sub_rank.
  - intros a b _ _ _ _ L. lra.
  - intros s. destruct c; try discriminate; reflexivity.
Qed.

Lemma mul_mono_signed (c x y : number) :
  positive_finite c = true ->
  wf x = true -> wf y = true -> is_nan x = false -> is_nan y = false ->
  rank x <= rank y -> rank (x * c)%num <= rank (y * c)%num.
Proof.
  intros P.
  destruct c as [| | |[] mc ec] eqn:Ec; try discriminate. rewrite <- Ec in *.
  assert (Wc : wf c = true) by (rewrite Ec in *; exact P).
  apply (monotone_step_signed (fun x => (x * c)%num)
           (fun x => (value x * mag c)%R)).
  - intros a Wa Fa. destruct a as [s| | |s m e]; try discriminate.
    + rewrite Ec. cbn [value]. rewrite Rmult_0_l.
      left. split; [lra|apply rounded_zero].
    + rewrite Ec in *. destruct (mul_rank s false m mc e ec Wa Wc)
        as (k & Rk & E).
      rewrite xorb_false_r in E. rewrite E.
      pose proof (mag_positive s m e) as Pm. pose proof (mag_positive false mc ec) as Pc.
      cbn [mag] in *.
      assert (0 <= IZR (Zpos m) * bpow e * (IZR (Zpos mc) * bpow ec))%R
        by (apply Rmult_le_pos; lra).
      destruct s; cbn [value signed].
      * right. split; [lra|]. exists k. split; [|reflexivity].
        replace (- (- (IZR (Zpos m) * bpow e) * (IZR (Zpos mc) * bpow ec)))%R
          with (IZR (Zpos m) * bpow e * (IZR (Zpos mc) * bpow ec))%R by ring.
        exact Rk.
      * left. split; [lra|exact Rk].
  - intros a b _ _ _ _ L. apply Rmult_le_compat_r; [apply mag_nonneg|exact L].
  - intros s. rewrite Ec. destruct s; reflexivity.
Qed.

Lemma decimal_target_neg (f : nat) (x : number) :
  decimal_target f (neg x) = decimal_target f x.
Proof. destruct x; reflexivity. Qed.

Lemma round_decimals_mono_signed (f : nat) (x y : number) :
  wf x = true -> wf y = true -> is_nan x = false -> is_nan y = false ->
  rank x <= rank y -> rank (round_decimals f x) <= rank (round_decimals f y).
Proof.
  apply (monotone_step_signed (round_decimals f) (signed_decimal_target f)).
  - intros a Wa Fa. unfold signed_decimal_target.
    pose proof (decimal_target_nonneg f a) as P.
    assert (Na : is_nan a = false) by (destruct a; auto; discriminate).
    destruct (rank_finite a Wa Fa) as (_ & S1 & S2).
    destruct (sign_of a) eqn:Sa.
    + assert (R : rank a <= 0) by (destruct (Z_le_gt_dec (rank a) 0); [lia|];
                                   specialize (S2 ltac:(lia)); discriminate).
      pose proof (round_decimals_rank f (neg a) (nonneg_neg a Wa Na R)
                    ltac:(destruct a; auto; discriminate)) as H.
      rewrite decimal_target_neg in H.
      right. split; [lra|]. eexists. rewrite Ropp_involutive.
      split; [exact H|].
      destruct (is_zero a) eqn:Za.
      * destruct a; try discriminate. reflexivity.
      * rewrite round_decimals_neg by exact Za. rewrite rank_neg. lia.
    + assert (R : 0 <= rank a) by (destruct (Z_le_gt_dec 0 (rank a)); [lia|];
                                   specialize (S1 ltac:(lia)); discriminate).
      left. split; [exact P|].
      apply round_decimals_rank; auto. repeat split; auto.
  - intros a b Wa Wb Fa Fb L. unfold signed_decimal_target.
    pose proof (decimal_target_nonneg f a). pose proof (decimal_target_nonneg f b).
    assert (Na : is_nan a = false) by (destruct a; auto; discriminate).
    assert (Nb : is_nan b = false) by (destruct b; auto; discriminate).
    pose proof (mag_nonneg a). pose proof (mag_nonneg b).
    rewrite (value_mag a), (value_mag b) in L.
    destruct (sign_of a) eqn:Sa, (sign_of b) eqn:Sb; try lra.
    + assert (decimal_target f (neg b) <= decimal_target f (neg a))%R.
      { apply decimal_target_mono.
        - apply nonneg_neg; auto.
          destruct (rank_finite b Wb Fb) as (_ & _ & S2).
          destruct (Z_le_gt_dec (rank b) 0); [lia|].
          specialize (S2 ltac:(lia)). congruence.
        - apply nonneg_neg; auto.
          destruct (rank_finite a Wa Fa) as (_ & _ & S2).
          destruct (Z_le_gt_dec (rank a) 0); [lia|].
          specialize (S2 ltac:(lia)). congruence.
        - destruct b; auto; discriminate.
        - destruct a; auto; discriminate.
        - replace (mag (neg a)) with (mag a) by (destruct a; reflexivity).
          replace (mag (neg b)) with (mag b) by (destruct b; reflexivity).
          lra. }
      rewrite !decimal_target_neg in *. lra.
    + assert (mag a = 0)%R by lra. assert (mag b = 0)%R by lra.
      assert (Za : is_zero a = true).
      { destruct a as [| | |s m e]; try discriminate; auto.
        pose proof (mag_positive s m e). lra. }
      assert (Zb : is_zero b = true).
      { destruct b as [| | |s m e]; try discriminate; auto.
        pose proof (mag_positive s m e). lra. }
      destruct a, b; try discriminate. cbn [decimal_target]. lra.
    + apply decimal_target_mono; auto.
      * repeat split; auto.
        destruct (rank_finite a Wa Fa) as (_ & S1 & _).
        destruct (Z_le_gt_dec 0 (rank a)); [lia|].
        specialize (S1 ltac:(lia)). congruence.
      * repeat split; auto.
        destruct (rank_finite b Wb Fb) as (_ & S1 & _).
        destruct (Z_le_gt_dec 0 (rank b)); [lia|].
        specialize (S1 ltac:(lia)). congruence.
  - reflexivity.
Qed.

(** ** The converters keep the order *)

Lemma to_celsius_mono (u : string) (x y : number) :
  wf x = true -> wf y = true -> is_nan x = false -> is_nan y = false ->
  rank x <= rank y -> rank (to_celsius x u) <= rank (to_celsius y u).
Proof.
  intros Wx Wy Nx Ny R. unfold to_celsius.
  destruct (String.eqb u "celsius"); [exact R|].
  destruct (String.eqb u "fahrenheit").
  - apply mul_mono_signed; [reflexivity| | | | |].
    + apply wf_sub; [exact Wx|reflexivity].
    + apply wf_sub; [exact Wy|reflexivity].
    + apply sub_not_NaN; [exact Nx|reflexivity].
    + apply sub_not_NaN; [exact Ny|reflexivity].
    + apply sub_mono; [reflexivity|reflexivity|exact Wx|exact Wy|exact Nx|exact Ny|exact R].
  - destruct (String.eqb u "kelvin"); [|exact R].
    apply sub_mono; [reflexivity|reflexivity|exact Wx|exact Wy|exact Nx|exact Ny|exact R].
Qed.

Lemma from_celsius_mono (u : string) (x y : number) :
  wf x = true -> wf y = true -> is_nan x = false -> is_nan y = false ->
  rank x <= rank y -> rank (from_celsius x u) <= rank (from_celsius y u).
Proof.
  intros Wx Wy Nx Ny R. unfold from_celsius.
  destruct (String.eqb u "celsius"); [exact R|].
  destruct (String.eqb u "fahrenheit").
  - apply add_mono; [reflexivity|reflexivity| | | | |].
    + apply wf_mul; [exact Wx|apply wf_div].
    + apply wf_mul; [exact Wy|apply wf_div].
    + apply mul_not_NaN; [exact Wx|exact Nx|reflexivity].
    + apply mul_not_NaN; [exact Wy|exact Ny|reflexivity].
    + apply mul_mono_signed; [reflexivity|exact Wx|exact Wy|exact Nx|exact Ny|exact R].
  - destruct (String.eqb u "kelvin"); [|exact R].
    apply add_mono; [reflexivity|reflexivity|exact Wx|exact Wy|exact Nx|exact Ny|exact R].
Qed.

Lemma convert_temperature_mono (v w : number) (a b : string) :
  wf v = true -> wf w = true -> is_nan v = false -> is_nan w = false ->
  rank v <= rank w ->
  rank (convert Temperature (JNum v) a b)
  <= rank (convert Temperature (JNum w) a b) /\
  wf (convert Temperature (JNum v) a b) = true /\
  wf (convert Temperature (JNum w) a b) = true.
Proof.
  intros Wv Ww Nv Nw R.
  rewrite !convert_temperature by auto.
  pose proof (wf_to_celsius v a Wv). pose proof (wf_to_celsius w a Ww).
  pose proof (to_celsius_not_NaN v a Wv Nv).
  pose proof (to_celsius_not_NaN w a Ww Nw).
  repeat split.
  - apply round_decimals_mono_signed.
    + now apply wf_from_celsius.
    + now apply wf_from_celsius.
    + now apply from_celsius_not_NaN.
    + now apply from_celsius_not_NaN.
    + apply from_celsius_mono; auto. now apply to_celsius_mono.
  - now apply wf_round_decimals, wf_from_celsius.
  - now apply wf_round_decimals, wf_from_celsius.
Qed.

(** X26: every converter keeps the order of the values: with unit symbols
    the domain knows (any units for temperature), [v <= w] gives
    [convert v <= convert w], for all binary64 values, negative ones,
    zeros and the infinities included. *)
Theorem conversion_monotone (d : domain) (v w : number) (a b : string) :
  wf v = true -> wf w = true ->
  known_unit d a = true -> known_unit d b = true ->
  leb v w = true ->
  leb (convert d (JNum v) a b) (convert d (JNum w) a b) = true.
Proof.
  intros Wv Ww Ka Kb L.
  destruct (leb_not_NaN v w L) as [Nv Nw].
  rewrite leb_rank in L by auto. apply Z.leb_le in L.
  destruct (scale_based d) eqn:S.
  - destruct (known_unit_factor _ _ S Ka) as (fa & A).
    destruct (known_unit_factor _ _ S Kb) as (fb & B).
    destruct (convert_rank d v a b fa fb S Wv Nv A B) as [_ W1].
    destruct (convert_rank d w a b fa fb S Ww Nw A B) as [_ W2].
    rewrite leb_rank; auto; try (apply convert_not_NaN; auto).
    apply Z.leb_le. now apply (convert_mono_rank d v w a b fa fb).
  - assert (d = Temperature) by (destruct d; try discriminate; reflexivity).
    subst d.
    destruct (convert_temperature_mono v w a b Wv Ww Nv Nw L) as (R & W1 & W2).
    rewrite leb_rank; auto; try (apply convert_not_NaN; auto).
    now apply Z.leb_le.
Qed.

(** ** Instances *)

Lemma value_of_lit (m : positive) (k : Z) (c : R) :
  0 <= k -> (c = IZR (Zpos m) / IZR (2 ^ k))%R ->
  value (S754_finite false m (- k)) = c.
Proof.
  intros K ->. cbn [value]. rewrite bpow_neg_IZR by exact K. reflexivity.
Qed.

Lemma known_units_never_NaN_witness :
  binary64 (JNum Infinity) = true /\
  known_unit Speed "kmh" = true /\ known_unit Speed "mph" = true /\
  is_nan (convert Speed (JNum Infinity) "kmh" "mph") = false.
Proof.
  assert (H1 : binary64 (JNum Infinity) = true) by reflexivity.
  assert (H2 : known_unit Speed "kmh" = true) by reflexivity.
  assert (H3 : known_unit Speed "mph" = true) by reflexivity.
  exact (conj H1 (conj H2 (conj H3
    (known_units_never_NaN Speed (JNum Infinity) "kmh" "mph" H1 H2 H3)))).
Defined.

Lemma scale_conversion_odd_witness :
  scale_based Length = true /\ wf (lit 25 (-1)) = true /\
  known_unit Length "inch" = true /\ known_unit Length "cm" = true /\
  (convert Length (JNum (neg (lit 25 (-1)))) "inch" "cm"
   === neg (convert Length (JNum (lit 25 (-1))) "inch" "cm"))%num = true.
Proof.
  assert (H1 : scale_based Length = true) by reflexivity.
  assert (H2 : wf (lit 25 (-1)) = true) by reflexivity.
  assert (H3 : known_unit Length "inch" = true) by reflexivity.
  assert (H4 : known_unit Length "cm" = true) by reflexivity.
  exact (conj H1 (conj H2 (conj H3 (conj H4
    (scale_conversion_odd Length (lit 25 (-1)) "inch" "cm" H1 H2 H3 H4))))).
Defined.

Lemma value_one : value (lit 1 0) = 1%R.
Proof.
  change (lit 1 0) with (S754_finite false 4503599627370496 (- (52))).
  apply value_of_lit; [lia|]. change (2 ^ 52) with 4503599627370496. field.
Qed.

Lemma zero_threshold_witness :
  scale_based Area = true /\ wf (lit 1 0) = true /\
  is_finite (lit 1 0) = true /\ (Rabs (value (lit 1 0)) <= 1e290)%R /\
  own_property (table Area) "mm2" = Some (lit 1 (-6)) /\
  own_property (table Area) "km2" = Some (lit 1000000 0) /\
  (Rabs (value (lit 1 0)) * scaling Area (lit 1 (-6)) (lit 1000000 0)
   <= 4.9e-11)%R /\
  is_zero (convert Area (JNum (lit 1 0)) "mm2" "km2") = true /\
  formatNumber (convert Area (JNum (lit 1 0)) "mm2" "km2") = "0"%string.
Proof.
  assert (H1 : scale_based Area = true) by reflexivity.
  assert (H2 : wf (lit 1 0) = true) by reflexivity.
  assert (H3 : is_finite (lit 1 0) = true) by reflexivity.
  assert (V1 : Rabs (value (lit 1 0)) = 1%R)
    by (rewrite value_one; apply Rabs_pos_eq; lra).
  assert (H4 : (Rabs (value (lit 1 0)) <= 1e290)%R) by (rewrite V1; lra).
  assert (H5 : own_property (table Area) "mm2" = Some (lit 1 (-6)))
    by reflexivity.
  assert (H6 : own_property (table Area) "km2" = Some (lit 1000000 0))
    by reflexivity.
  assert (H7 : (Rabs (value (lit 1 0)) * scaling Area (lit 1 (-6)) (lit 1000000 0)
                <= 4.9e-11)%R).
  { rewrite V1. unfold scaling. cbn [multiplicative].
    replace (lit 1 (-6)) with (S754_finite false 4722366482869645 (- (72)))
      by (vm_compute; reflexivity).
    replace (lit 1000000 0) with (S754_finite false 8589934592000000 (- (33)))
      by (vm_compute; reflexivity).
    rewrite (value_of_lit 4722366482869645 72 _ ltac:(lia) eq_refl).
    rewrite (value_of_lit 8589934592000000 33 _ ltac:(lia) eq_refl).
    change (2 ^ 72) with 4722366482869645213696.
    change (2 ^ 33) with 8589934592. lra. }
  exact (conj H1 (conj H2 (conj H3 (conj H4 (conj H5 (conj H6 (conj H7
    (proj1 (zero_threshold Area (lit 1 0) "mm2" "km2" _ _
              H1 H2 H3 H4 H5 H6) H7)))))))).
Defined.

Lemma conversion_accuracy_witness :
  scale_based Length = true /\ wf (lit 1 0) = true /\
  is_finite (lit 1 0) = true /\ (Rabs (value (lit 1 0)) <= 1e290)%R /\
  own_property (table Length) "mile" = Some (lit 1609344 (-3)) /\
  own_property (table Length) "km" = Some (lit 1000 0) /\
  is_finite (convert Length (JNum (lit 1 0)) "mile" "km") = true /\
  (Rabs (value (convert Length (JNum (lit 1 0)) "mile" "km")
         - value (lit 1 0) * (decimal 1609344 (-3) / decimal 1000 0))
   <= 5.1e-11
      + 1e-15 * Rabs (value (lit 1 0)
                      * (decimal 1609344 (-3) / decimal 1000 0)))%R.
Proof.
  assert (H1 : scale_based Length = true) by reflexivity.
  assert (H2 : wf (lit 1 0) = true) by reflexivity.
  assert (H3 : is_finite (lit 1 0) = true) by reflexivity.
  assert (H4 : (Rabs (value (lit 1 0)) <= 1e290)%R)
    by (rewrite value_one, Rabs_pos_eq; lra).
  assert (H5 : own_property (table Length) "mile" = Some (lit 1609344 (-3)))
    by reflexivity.
  assert (H6 : own_property (table Length) "km" = Some (lit 1000 0))
    by reflexivity.
  exact (conj H1 (conj H2 (conj H3 (conj H4 (conj H5 (conj H6
    (conversion_accuracy Length (lit 1 0) "mile" "km" 1609344 (-3) 1000 0
       H1 H2 H3 H4 H5 H6))))))).
Defined.

Lemma value_body_heat : value (lit 986 (-1)) = (6938358175917670 / 2 ^ 46)%R.
Proof.
  replace (lit 986 (-1)) with (S754_finite false 6938358175917670 (- (46)))
    by (vm_compute; reflexivity).
  apply value_of_lit; [lia|]. change (2 ^ 46)%Z with 70368744177664.
  simpl. lra.
Qed.

Lemma body_heat_bounded : (Rabs (value (lit 986 (-1))) <= 1e280)%R.
Proof.
  rewrite value_body_heat. simpl. rewrite Rabs_pos_eq; lra.
Qed.

Lemma temperature_accuracy_witness :
  wf (lit 986 (-1)) = true /\ is_finite (lit 986 (-1)) = true /\
  (Rabs (value (lit 986 (-1))) <= 1e290)%R /\
  is_finite (convert Temperature (JNum (lit 986 (-1))) "fahrenheit" "celsius")
  = true /\
  (Rabs (value (convert Temperature (JNum (lit 986 (-1))) "fahrenheit" "celsius")
         - from_celsius_exact
             (to_celsius_exact (value (lit 986 (-1))) "fahrenheit") "celsius")
   <= 5.001e-5 + 1e-12 * Rabs (value (lit 986 (-1))))%R.
Proof.
  assert (H1 : wf (lit 986 (-1)) = true) by reflexivity.
  assert (H2 : is_finite (lit 986 (-1)) = true) by reflexivity.
  assert (H3 : (Rabs (value (lit 986 (-1))) <= 1e290)%R)
    by (pose proof body_heat_bounded; lra).
  exact (conj H1 (conj H2 (conj H3
    (temperature_accuracy (lit 986 (-1)) "fahrenheit" "celsius" H1 H2 H3)))).
Defined.

Lemma temperature_round_trip_witness :
  wf (lit 986 (-1)) = true /\ is_finite (lit 986 (-1)) = true /\
  (Rabs (value (lit 986 (-1))) <= 1e280)%R /\
  within (1.5e-4 + 1e-11 * Rabs (value (lit 986 (-1))))
    (round_trip Temperature (lit 986 (-1)) "fahrenheit" "kelvin")
    (lit 986 (-1)).
Proof.
  assert (H1 : wf (lit 986 (-1)) = true) by reflexivity.
  assert (H2 : is_finite (lit 986 (-1)) = true) by reflexivity.
  assert (H3 : (Rabs (value (lit 986 (-1))) <= 1e280)%R)
    by exact body_heat_bounded.
  exact (conj H1 (conj H2 (conj H3
    (temperature_round_trip (lit 986 (-1)) "fahrenheit" "kelvin" H1 H2 H3)))).
Defined.

Lemma formatNumber_negative_witness :
  sign_of (lit 12345 (-1)) = false /\ is_zero (lit 12345 (-1)) = false /\
  is_nan (lit 12345 (-1)) = false /\
  formatNumber (neg (lit 12345 (-1)))
  = String "-" (formatNumber (lit 12345 (-1))).
Proof.
  assert (H1 : sign_of (lit 12345 (-1)) = false) by reflexivity.
  assert (H2 : is_zero (lit 12345 (-1)) = false) by reflexivity.
  assert (H3 : is_nan (lit 12345 (-1)) = false) by reflexivity.
  exact (conj H1 (conj H2 (conj H3
    (formatNumber_negative (lit 12345 (-1)) H1 H2 H3)))).
Defined.

Lemma sample_page_complete (d : domain) :
  controls_present sample_page d (initial sample_page).
Proof.
  destruct d; unfold controls_present; do 4 eexists; repeat split;
    cbv; reflexivity.
Qed.

Lemma blank_input_shows_zero_witness :
  scale_based Weight = true /\
  value_of (initial sample_page) (input_of sample_page Weight) = Some ""%string /\
  value_of (initial sample_page) (from_of sample_page Weight) = Some "kg"%string /\
  value_of (initial sample_page) (to_of sample_page Weight) = Some "lb"%string /\
  value_of (initial sample_page) (result_of sample_page Weight) = Some ""%string /\
  truthy (JNum (parseFloat "")) = false /\
  fst (update sample_page Weight (initial sample_page)) = Done tt /\
  value_of (snd (update sample_page Weight (initial sample_page)))
    (result_of sample_page Weight) = Some "0"%string.
Proof.
  assert (H1 : scale_based Weight = true) by reflexivity.
  assert (H2 : value_of (initial sample_page) (input_of sample_page Weight)
               = Some ""%string) by reflexivity.
  assert (H3 : value_of (initial sample_page) (from_of sample_page Weight)
               = Some "kg"%string) by reflexivity.
  assert (H4 : value_of (initial sample_page) (to_of sample_page Weight)
               = Some "lb"%string) by reflexivity.
  assert (H5 : value_of (initial sample_page) (result_of sample_page Weight)
               = Some ""%string) by reflexivity.
  assert (H6 : truthy (JNum (parseFloat "")) = false) by reflexivity.
  exact (conj H1 (conj H2 (conj H3 (conj H4 (conj H5 (conj H6
    (blank_input_shows_zero sample_page Weight (initial sample_page)
       "" "kg" "lb" "" H1 H2 H3 H4 H5 H6))))))).
Defined.

Lemma blank_temperature_is_zero_degrees_witness :
  value_of (initial sample_page) (tempInput sample_page) = Some ""%string /\
  value_of (initial sample_page) (tempFromUnit sample_page)
  = Some "celsius"%string /\
  value_of (initial sample_page) (tempToUnit sample_page)
  = Some "fahrenheit"%string /\
  value_of (initial sample_page) (tempResult sample_page) = Some ""%string /\
  truthy (JNum (parseFloat "")) = false /\
  fst (updateTemperatureConversion sample_page (initial sample_page)) = Done tt /\
  value_of (snd (updateTemperatureConversion sample_page (initial sample_page)))
    (tempResult sample_page)
  = Some (formatNumber
            (round_decimals 4
               (from_celsius (to_celsius pos_zero "celsius") "fahrenheit"))).
Proof.
  assert (H1 : value_of (initial sample_page) (tempInput sample_page)
               = Some ""%string) by reflexivity.
  assert (H2 : value_of (initial sample_page) (tempFromUnit sample_page)
               = Some "celsius"%string) by reflexivity.
  assert (H3 : value_of (initial sample_page) (tempToUnit sample_page)
               = Some "fahrenheit"%string) by reflexivity.
  assert (H4 : value_of (initial sample_page) (tempResult sample_page)
               = Some ""%string) by reflexivity.
  assert (H5 : truthy (JNum (parseFloat "")) = false) by reflexivity.
  exact (conj H1 (conj H2 (conj H3 (conj H4 (conj H5
    (blank_temperature_is_zero_degrees sample_page (initial sample_page)
       "" "celsius" "fahrenheit" "" H1 H2 H3 H4 H5)))))).
Defined.

Lemma no_NaN_on_display_witness :
  value_of (initial sample_page) (input_of sample_page Pressure)
  = Some "-3e7"%string /\
  value_of (initial sample_page) (from_of sample_page Pressure)
  = Some "psi"%string /\
  value_of (initial sample_page) (to_of sample_page Pressure)
  = Some "pa"%string /\
  value_of (initial sample_page) (result_of sample_page Pressure)
  = Some ""%string /\
  known_unit Pressure "psi" = true /\ known_unit Pressure "pa" = true /\
  exists text,
    value_of (snd (update sample_page Pressure (initial sample_page)))
      (result_of sample_page Pressure) = Some text /\
    String.eqb text "NaN" = false.
Proof.
  assert (H1 : value_of (initial sample_page) (input_of sample_page Pressure)
               = Some "-3e7"%string) by reflexivity.
  assert (H2 : value_of (initial sample_page) (from_of sample_page Pressure)
               = Some "psi"%string) by reflexivity.
  assert (H3 : value_of (initial sample_page) (to_of sample_page Pressure)
               = Some "pa"%string) by reflexivity.
  assert (H4 : value_of (initial sample_page) (result_of sample_page Pressure)
               = Some ""%string) by reflexivity.
  assert (H5 : known_unit Pressure "psi" = true) by reflexivity.
  assert (H6 : known_unit Pressure "pa" = true) by reflexivity.
  exact (conj H1 (conj H2 (conj H3 (conj H4 (conj H5 (conj H6
    (no_NaN_on_display sample_page Pressure (initial sample_page)
       "-3e7" "psi" "pa" "" H1 H2 H3 H4 H5 H6))))))).
Defined.

Lemma update_idempotent_witness :
  controls_present sample_page Volume (initial sample_page) /\
  update sample_page Volume (snd (update sample_page Volume (initial sample_page)))
  = update sample_page Volume (initial sample_page).
Proof.
  exact (conj (sample_page_complete Volume)
    (update_idempotent sample_page Volume (initial sample_page)
       (sample_page_complete Volume))).
Defined.

Lemma updates_commute_witness :
  controls_present sample_page Length (initial sample_page) /\
  controls_present sample_page Speed (initial sample_page) /\
  snd (update sample_page Speed (snd (update sample_page Length (initial sample_page))))
  = snd (update sample_page Length (snd (update sample_page Speed (initial sample_page)))).
Proof.
  exact (conj (sample_page_complete Length) (conj (sample_page_complete Speed)
    (updates_commute sample_page Length Speed (initial sample_page)
       (sample_page_complete Length) (sample_page_complete Speed)))).
Defined.

Lemma initialization_shows_all_witness :
  (forall d, controls_present sample_page d (initial sample_page)) /\
  fst (content_loaded sample_page (initial sample_page)) = Done tt /\
  (forall d, in_sync sample_page d
               (snd (content_loaded sample_page (initial sample_page)))) /\
  console (snd (content_loaded sample_page (initial sample_page)))
  = console (initial sample_page) ++ [loaded_message].
Proof.
  exact (conj sample_page_complete
    (initialization_shows_all sample_page (initial sample_page)
       sample_page_complete)).
Defined.

Lemma area_result_missing :
  exists d, ~ controls_present (without "area-result" sample_page) d
                (initial (without "area-result" sample_page)).
Proof.
  exists Area. intros (s & a & b & old & _ & _ & _ & H). discriminate H.
Qed.

Lemma initialization_stops_witness :
  (exists d, ~ controls_present (without "area-result" sample_page) d
               (initial (without "area-result" sample_page))) /\
  fst (content_loaded (without "area-result" sample_page)
         (initial (without "area-result" sample_page))) = TypeError /\
  console (snd (content_loaded (without "area-result" sample_page)
                  (initial (without "area-result" sample_page))))
  = console (initial (without "area-result" sample_page)).
Proof.
  exact (conj area_result_missing
    (initialization_stops (without "area-result" sample_page)
       (initial (without "area-result" sample_page)) area_result_missing)).
Defined.

Lemma click_marks_active_witness :
  List.length (dom (initial sample_page)) = List.length sample_page /\
  nth_error (dom (initial sample_page)) 1%nat = Some weight_link /\
  fst (nav_click sample_page 1%nat (initial sample_page)) = Done tt /\
  is_active (snd (nav_click sample_page 1%nat (initial sample_page))) 9%nat
  = if is_node (category_target (initial sample_page) 1%nat) 9%nat then true
    else if member 9%nat (converterSections sample_page) then false
    else if Nat.eqb 9 1 then true
    else if member 9%nat (navLinks sample_page) then false
    else is_active (initial sample_page) 9%nat.
Proof.
  assert (H1 : List.length (dom (initial sample_page)) = List.length sample_page)
    by reflexivity.
  assert (H2 : nth_error (dom (initial sample_page)) 1%nat = Some weight_link)
    by reflexivity.
  exact (conj H1 (conj H2
    (click_marks_active sample_page 1%nat (initial sample_page) weight_link 9%nat
       H1 H2))).
Defined.

Lemma click_changes_classes_only_witness :
  List.length (dom (initial sample_page)) = List.length sample_page /\
  nth_error (dom (initial sample_page)) 1%nat = Some weight_link /\
  map Element.value (dom (snd (nav_click sample_page 1%nat (initial sample_page))))
  = map Element.value (dom (initial sample_page)) /\
  map Element.id (dom (snd (nav_click sample_page 1%nat (initial sample_page))))
  = map Element.id (dom (initial sample_page)) /\
  map Element.category (dom (snd (nav_click sample_page 1%nat (initial sample_page))))
  = map Element.category (dom (initial sample_page)) /\
  (forall x token, String.eqb token "active" = false ->
     DOMTokenList.contains token
       (classes_of (snd (nav_click sample_page 1%nat (initial sample_page))) x)
     = DOMTokenList.contains token (classes_of (initial sample_page) x)) /\
  listeners (snd (nav_click sample_page 1%nat (initial sample_page)))
  = listeners (initial sample_page) /\
  console (snd (nav_click sample_page 1%nat (initial sample_page)))
  = console (initial sample_page) /\
  canceled (snd (nav_click sample_page 1%nat (initial sample_page))) = true.
Proof.
  assert (H1 : List.length (dom (initial sample_page)) = List.length sample_page)
    by reflexivity.
  assert (H2 : nth_error (dom (initial sample_page)) 1%nat = Some weight_link)
    by reflexivity.
  exact (conj H1 (conj H2
    (click_changes_classes_only sample_page 1%nat (initial sample_page) weight_link
       H1 H2))).
Defined.

Lemma sample_page_separate (n : node) :
  In n (navLinks sample_page) -> ~ In n (converterSections sample_page).
Proof.
  intros [H|[H|[H|[H|[]]]]] [K|[K|[K|[]]]]; subst n; discriminate K.
Qed.

Lemma click_shows_one_section_witness :
  List.length (dom (initial sample_page)) = List.length sample_page /\
  nth_error (dom (initial sample_page)) 1%nat = Some weight_link /\
  In 1%nat (navLinks sample_page) /\
  category_target (initial sample_page) 1%nat = Some 9%nat /\
  In 9%nat (converterSections sample_page) /\
  (forall n, In n (navLinks sample_page) ->
             ~ In n (converterSections sample_page)) /\
  (forall l, In l (navLinks sample_page) ->
     is_active (snd (nav_click sample_page 1%nat (initial sample_page))) l
     = Nat.eqb l 1%nat) /\
  (forall s, In s (converterSections sample_page) ->
     is_active (snd (nav_click sample_page 1%nat (initial sample_page))) s
     = Nat.eqb s 9%nat).
Proof.
  assert (H1 : List.length (dom (initial sample_page)) = List.length sample_page)
    by reflexivity.
  assert (H2 : nth_error (dom (initial sample_page)) 1%nat = Some weight_link)
    by reflexivity.
  assert (H3 : In 1%nat (navLinks sample_page)) by (right; left; reflexivity).
  assert (H4 : category_target (initial sample_page) 1%nat = Some 9%nat)
    by reflexivity.
  assert (H5 : In 9%nat (converterSections sample_page))
    by (right; left; reflexivity).
  exact (conj H1 (conj H2 (conj H3 (conj H4 (conj H5 (conj sample_page_separate
    (click_shows_one_section sample_page 1%nat 9%nat (initial sample_page) weight_link
       H1 H2 H3 H4 H5 sample_page_separate))))))).
Defined.

Lemma click_without_target_witness :
  List.length (dom (initial sample_page)) = List.length sample_page /\
  nth_error (dom (initial sample_page)) 3%nat = Some plain_link /\
  category_target (initial sample_page) 3%nat = None /\
  fst (nav_click sample_page 3%nat (initial sample_page)) = Done tt /\
  forall s, In s (converterSections sample_page) ->
    is_active (snd (nav_click sample_page 3%nat (initial sample_page))) s = false.
Proof.
  assert (H1 : List.length (dom (initial sample_page)) = List.length sample_page)
    by reflexivity.
  assert (H2 : nth_error (dom (initial sample_page)) 3%nat = Some plain_link)
    by reflexivity.
  assert (H3 : category_target (initial sample_page) 3%nat = None) by reflexivity.
  exact (conj H1 (conj H2 (conj H3
    (click_without_target sample_page 3%nat (initial sample_page) plain_link
       H1 H2 H3)))).
Defined.

Lemma click_idempotent_witness :
  List.length (dom (initial sample_page)) = List.length sample_page /\
  nth_error (dom (initial sample_page)) 1%nat = Some weight_link /\
  nav_click sample_page 1%nat (snd (nav_click sample_page 1%nat (initial sample_page)))
  = nav_click sample_page 1%nat (initial sample_page).
Proof.
  assert (H1 : List.length (dom (initial sample_page)) = List.length sample_page)
    by reflexivity.
  assert (H2 : nth_error (dom (initial sample_page)) 1%nat = Some weight_link)
    by reflexivity.
  exact (conj H1 (conj H2
    (click_idempotent sample_page 1%nat (initial sample_page) weight_link H1 H2))).
Defined.

Lemma last_click_decides_witness :
  List.length (dom (initial sample_page)) = List.length sample_page /\
  nth_error (dom (initial sample_page)) 1%nat = Some weight_link /\
  nth_error (dom (initial sample_page)) 2%nat = Some temperature_link /\
  In 1%nat (navLinks sample_page) /\
  match category_target (initial sample_page) 1%nat with
  | Some t => In t (navLinks sample_page) \/ In t (converterSections sample_page)
  | None => True
  end /\
  nav_click sample_page 2%nat (snd (nav_click sample_page 1%nat (initial sample_page)))
  = nav_click sample_page 2%nat (initial sample_page).
Proof.
  assert (H1 : List.length (dom (initial sample_page)) = List.length sample_page)
    by reflexivity.
  assert (H2 : nth_error (dom (initial sample_page)) 1%nat = Some weight_link)
    by reflexivity.
  assert (H3 : nth_error (dom (initial sample_page)) 2%nat = Some temperature_link)
    by reflexivity.
  assert (H4 : In 1%nat (navLinks sample_page)) by (right; left; reflexivity).
  assert (H5 : match category_target (initial sample_page) 1%nat with
               | Some t => In t (navLinks sample_page)
                           \/ In t (converterSections sample_page)
               | None => True
               end) by (right; right; left; reflexivity).
  exact (conj H1 (conj H2 (conj H3 (conj H4 (conj H5
    (last_click_decides sample_page 1%nat 2%nat (initial sample_page)
       weight_link temperature_link H1 H2 H3 H4 H5)))))).
Defined.

Lemma sample_page_wired (d : domain) (c : control) :
  c <> Result -> control_of sample_page d c <> None.
Proof. intros _. destruct d, c; discriminate. Qed.

Lemma script_wires_page_witness :
  (forall d c, c <> Result -> control_of sample_page d c <> None) /\
  load sample_page
  = (Done tt,
     {| dom := sample_page; listeners := full_listeners sample_page;
        console := []; canceled := false |}).
Proof.
  exact (conj sample_page_wired (script_wires_page sample_page sample_page_wired)).
Defined.

Lemma to_unit_not_result : ToUnit <> Result.
Proof. discriminate. Qed.

Lemma script_stops_at_missing_control_witness :
  ToUnit <> Result /\
  control_of (without "speed-to-unit" sample_page) Speed ToUnit = None /\
  fst (load (without "speed-to-unit" sample_page)) = TypeError /\
  dom (snd (load (without "speed-to-unit" sample_page)))
  = without "speed-to-unit" sample_page /\
  forallb (fun l => is_update (callback_of l))
    (listeners (snd (load (without "speed-to-unit" sample_page)))) = true.
Proof.
  assert (H : control_of (without "speed-to-unit" sample_page) Speed ToUnit = None)
    by reflexivity.
  exact (conj to_unit_not_result (conj H
    (script_stops_at_missing_control (without "speed-to-unit" sample_page)
       Speed ToUnit to_unit_not_result H))).
Defined.

Lemma results_follow_inputs_witness :
  (forall d, controls_present sample_page d (initial sample_page)) /\
  in_sync sample_page Length
    (session sample_page
       [Type_in Length "2"; Choose_to Length "cm"; Click 1%nat]).
Proof.
  exact (conj sample_page_complete
    (results_follow_inputs sample_page
       [Type_in Length "2"; Choose_to Length "cm"; Click 1%nat] Length
       sample_page_complete)).
Defined.

Lemma linked_page_loads : fst (load linked_page) = Done tt.
Proof. vm_compute. reflexivity. Qed.

Lemma events_run_their_handlers_witness :
  fst (load linked_page) = Done tt /\
  (forall n ty, String.eqb ty "DOMContentLoaded" = false ->
     dispatchEvent linked_page (Node n) ty (snd (load linked_page))
     = run_callbacks linked_page
         (flat_map (handlers_at linked_page ty)
            (inclusive_ancestors (dom (snd (load linked_page))) n))
         (fresh_event (snd (load linked_page)))) /\
  dispatchEvent linked_page Document "DOMContentLoaded" (snd (load linked_page))
  = snd (content_loaded linked_page (fresh_event (snd (load linked_page)))).
Proof.
  split; [exact linked_page_loads|].
  exact (events_run_their_handlers linked_page (snd (load linked_page))
           linked_page_loads eq_refl).
Defined.

Lemma conversion_monotone_witness :
  wf (lit 25 (-1)) = true /\ wf (lit 3 0) = true /\
  known_unit Length "inch" = true /\ known_unit Length "cm" = true /\
  leb (lit 25 (-1)) (lit 3 0) = true /\
  leb (convert Length (JNum (lit 25 (-1))) "inch" "cm")
      (convert Length (JNum (lit 3 0)) "inch" "cm") = true.
Proof.
  assert (H1 : wf (lit 25 (-1)) = true) by reflexivity.
  assert (H2 : wf (lit 3 0) = true) by reflexivity.
  assert (H3 : known_unit Length "inch" = true) by reflexivity.
  assert (H4 : known_unit Length "cm" = true) by reflexivity.
  assert (H5 : leb (lit 25 (-1)) (lit 3 0) = true) by reflexivity.
  exact (conj H1 (conj H2 (conj H3 (conj H4 (conj H5
    (conversion_monotone Length (lit 25 (-1)) (lit 3 0) "inch" "cm"
       H1 H2 H3 H4 H5)))))).
Defined.
